(** * mergetyp: generated merge functions

    A shallow embedding of the Go package [mergetyp] (files [mergetyp.go]
    and the generator file holding [gen], [genMap], [genArray], [genSlice]
    and [genStruct]).

    The package walks a [reflect] type once and returns a closure
    [func(l, r unsafe.Pointer)] that folds the right value into the left one.
    Here a closure is a [plan] (one constructor per closure literal of the
    source) and [exec] runs a plan on a store of typed memory cells addressed
    by integers, so that [fieldByOffset], slice headers and pointer slots read
    as they do in the source. *)

From Stdlib Require Import ZArith Ascii String List Bool Lia.
From Stdlib Require Import Floats.SpecFloat.
From stdpp Require Import base gmap strings list.

Open Scope Z_scope.

Set Warnings "-register-all,-clear-no-such-hyp".

(** ** The part of package [reflect] the generator is written against *)

Module reflect.

(** [reflect.Kind], in the order of the Go declaration. *)
Inductive Kind : Set :=
| Invalid | Bool
| Int | Int8 | Int16 | Int32 | Int64
| Uint | Uint8 | Uint16 | Uint32 | Uint64 | Uintptr
| Float32 | Float64 | Complex64 | Complex128
| Array | Chan | Func | Interface | Map | Ptr | Slice | String | Struct
| UnsafePointer.

#[global] Instance Kind_eq_dec : EqDecision Kind.
Proof. solve_decision. Defined.

(** A type as the generator sees it through [reflect.Type].  Composite
    type literals are built with [PtrTo], [ArrayOf], [SliceOf] and [MapOf];
    [Defined id] is an entry of the type table: every struct type, and
    every declared type of another kind ([type L []L]).  Two [Defined]
    types are the same type exactly when their identifiers are equal. *)
Inductive rtype : Set :=
| Basic (k : Kind)
| PtrTo (elem : rtype)
| ArrayOf (len : Z) (elem : rtype)
| SliceOf (elem : rtype)
| MapOf (key elem : rtype)
| Defined (id : nat).

#[global] Instance rtype_eq_dec : EqDecision rtype.
Proof. solve_decision. Defined.

(** [reflect.StructField]: the three members the generator reads. *)
Record StructField : Set :=
  { Name : string; Offset : Z; Type_ : rtype }.

(** What an entry of the type table stands for: a struct with its
    fields, or a type literal of another kind. *)
Inductive underlying : Set :=
| StructOf (fields : list StructField)
| Literal (t : rtype).

(** An entry of the type table.  [PkgPath] and [TypeName] are what
    [Type.PkgPath()] and [Type.Name()] return: both are empty for a type
    that has no name (a struct literal), and a type declared inside a
    function reports the bare identifier of its declaration. *)
Record decl : Set :=
  { PkgPath : string; TypeName : string; Size_ : Z; Under : underlying }.

Section Table.
Variable types : list decl.

(** The type one step below its name, as [Kind], [Elem], [Len] and
    [Field] see it.  The underlying type of a declared type is a
    literal, never another name, so one look-up is enough; anything
    else is reported as [Invalid]. *)
Inductive shape : Set :=
| SBasic (k : Kind)
| SPtr (elem : rtype)
| SArray (len : Z) (elem : rtype)
| SSlice (elem : rtype)
| SMap (key elem : rtype)
| SStruct (d : decl) (fields : list StructField).

Definition shape_of_literal (t : rtype) : shape :=
  match t with
  | Basic k => SBasic k
  | PtrTo e => SPtr e
  | ArrayOf n e => SArray n e
  | SliceOf e => SSlice e
  | MapOf k e => SMap k e
  | Defined _ => SBasic Invalid
  end.

Definition resolve (t : rtype) : shape :=
  match t with
  | Defined id =>
      match types !! id with
      | Some d =>
          match Under d with
          | StructOf fs => SStruct d fs
          | Literal t' => shape_of_literal t'
          end
      | None => SBasic Invalid
      end
  | _ => shape_of_literal t
  end.

(** [Type.Kind()] *)
Definition KindOf (t : rtype) : Kind :=
  match resolve t with
  | SBasic k => k
  | SPtr _ => Ptr
  | SArray _ _ => Array
  | SSlice _ => Slice
  | SMap _ _ => Map
  | SStruct _ _ => Struct
  end.

(** [Type.Size()] on a 64-bit target. *)
Definition kind_size (k : Kind) : Z :=
  match k with
  | Invalid => 0
  | Bool | Int8 | Uint8 => 1
  | Int16 | Uint16 => 2
  | Int32 | Uint32 | Float32 => 4
  | Int | Int64 | Uint | Uint64 | Uintptr | Float64 | Complex64 => 8
  | Complex128 | String | Interface => 16
  | Slice => 24
  | Chan | Func | Map | Ptr | UnsafePointer => 8
  | Array | Struct => 0
  end.

Fixpoint SizeOf (t : rtype) : Z :=
  match t with
  | Basic k => kind_size k
  | PtrTo _ => 8
  | ArrayOf n e => n * SizeOf e
  | SliceOf _ => 24
  | MapOf _ _ => 8
  | Defined id =>
      match types !! id with
      | Some d => Size_ d
      | None => 0
      end
  end.

(** A type made of one pointer word: a pointer, map, chan, func or unsafe
    pointer, an array of one such element, or a struct of one such field.
    [fuel] bounds the descent through the type by value. *)
(** The types whose values are a single pointer word: pointers, maps,
    channels, functions and unsafe pointers, an array of one element of such
    a type, and a struct of one field of such a type. *)
Fixpoint pointer_shaped (fuel : nat) (t : rtype) : bool :=
  match fuel with
  | O => false
  | S fuel' =>
      match resolve t with
      | SBasic k => bool_decide (k ∈ [Chan; Func; UnsafePointer])
      | SPtr _ | SMap _ _ => true
      | SArray n e => (n =? 1) && pointer_shaped fuel' e
      | SSlice _ => false
      | SStruct _ fields =>
          match fields with
          | [sf] => pointer_shaped fuel' (Type_ sf)
          | _ => false
          end
      end
  end.

(** The levels of a type expression and of a declaration. *)
Fixpoint depth (t : rtype) : nat :=
  match t with
  | PtrTo e | ArrayOf _ e | SliceOf e => S (depth e)
  | MapOf k e => S (Nat.max (depth k) (depth e))
  | Basic _ | Defined _ => 1
  end.

Definition decl_depth (d : decl) : nat :=
  match Under d with
  | StructOf fields => S (list_max (map (fun sf => depth (Type_ sf)) fields))
  | Literal t => depth t
  end.

(** Whether an interface holds a value of the type by address
    ([IfaceIndir] of the type descriptor).  A value of a pointer-shaped
    type is kept in the data word of the interface itself; a value of any
    other type is copied and the data word is the address of the copy.  A
    type holds itself by value at no depth, so the descent needs no more
    steps than the type and the table have levels. *)
Definition IfaceIndir (t : rtype) : bool :=
  negb (pointer_shaped (depth t + list_sum (map decl_depth types)) t).
End Table.

End reflect.

(** The kinds [genArray], [genSlice] and [genStruct] merge in place,
    in the order of the closure returned by [genStruct]. *)
Definition grouped_kinds : list reflect.Kind :=
  [ reflect.Bool;
    reflect.Int; reflect.Int8; reflect.Int16; reflect.Int32; reflect.Int64;
    reflect.Uint; reflect.Uint8; reflect.Uint16; reflect.Uint32; reflect.Uint64;
    reflect.Float32; reflect.Float64; reflect.Complex64; reflect.Complex128 ].

Definition is_grouped (k : reflect.Kind) : bool :=
  bool_decide (k ∈ grouped_kinds).

(** ** Merge closures

    [mergeF = func(unsafe.Pointer, unsafe.Pointer)].  Each constructor is
    one closure literal of the generator, holding the variables the literal
    captures. *)
Inductive plan : Set :=
| MergePrim (k : reflect.Kind)
    (* gen: the left cell gets left + right; for bool, left or right *)
| MergePtr (f : plan)
    (* gen, case reflect.Ptr *)
| MergeArrayPrim (k : reflect.Kind) (end_ size : Z)
    (* genArray, primitive element *)
| MergeArray (end_ size : Z) (f : plan)
    (* genArray, default case *)
| MergeSlicePrim (k : reflect.Kind) (size : Z)
    (* genSlice, primitive element *)
| MergeSlice (size : Z) (f : plan)
    (* genSlice, default case *)
| MergeStruct (grouped : list (reflect.Kind * list Z)) (offsetFs : list (Z * plan))
    (* genStruct: the fifteen offset vectors, then the recursive fields *)
| MergeThunk (name : string)
    (* gen, case reflect.Struct: the call through the saved pointer pf *)
| MergeMap (valNeedsIndir ifaceIndir : bool) (vsize : Z) (f : option plan).
    (* genMap; [f] may be the nil function; [ifaceIndir] and [vsize] are
       what the closure needs of the captured type of the values *)

(** The errors the generator returns, one constructor per message. *)
Inductive error : Set :=
| ErrSkipKind (k : reflect.Kind)   (* unable to skip fields on kind %v *)
| ErrInterface                     (* it is impossible to merge two types that are interfaces *)
| ErrChan                          (* unable to merge channels *)
| ErrFunc                          (* unable to merge functions *)
| ErrString                        (* unable to merge strings *)
| ErrUnsafePointer                 (* unable to merge unsafe pointers *)
| ErrInvalid                       (* unable to merge an invalid type *)
| ErrMaps                          (* unable to merge maps: use WithSlowerMapsUnsafely *)
| ErrEmptyFieldName                (* invalid skip: empty field name *)
| ErrSkipNotSeen                   (* did not see all fields that we were required to skip *)
| ErrNextLevelNotSeen              (* did not see all fields names for next level skips *)
| ErrNotPointer                    (* merge functions can only be generated for pointer types *)
| ErrDoublePointer                 (* ... for single-pointer-indirection types *)
| ErrOption (msg : string).        (* an error returned by an option function *)

(** ** Skip paths *)

(** [strings.IndexByte]: the index of the first [c] in [s], or [-1]. *)
Fixpoint IndexByte_from (s : string) (c : ascii) (i : Z) : Z :=
  match s with
  | EmptyString => -1
  | String a s' => if Ascii.eqb a c then i else IndexByte_from s' c (i + 1)
  end.

Definition IndexByte (s : string) (c : ascii) : Z := IndexByte_from s c 0.

(** [s[:n]] and [s[n:]] *)
Fixpoint slice_to (s : string) (n : nat) : string :=
  match n, s with
  | S n', String a s' => String a (slice_to s' n')
  | _, _ => EmptyString
  end.

Fixpoint slice_from (s : string) (n : nat) : string :=
  match n, s with
  | S n', String _ s' => slice_from s' n'
  | _, _ => s
  end.

Definition len (s : string) : Z := Z.of_nat (String.length s).

(** The first loop of [genStruct]: [skipMyLevel] and [skipNextLevel]. *)
Fixpoint parse_skips (skips : list string)
    (skipMyLevel : gset string) (skipNextLevel : gmap string (list string))
  : error + (gset string * gmap string (list string)) :=
  match skips with
  | [] => inr (skipMyLevel, skipNextLevel)
  | skip :: rest =>
      let idx := IndexByte skip ">" in
      if idx =? -1 then
        parse_skips rest ({[ skip ]} ∪ skipMyLevel) skipNextLevel
      else if (idx =? 0) || (len skip <? idx + 1) then
        inl ErrEmptyFieldName
      else
        let field := slice_to skip (Z.to_nat idx) in
        let subFields := slice_from skip (Z.to_nat (idx + 1)) in
        parse_skips rest skipMyLevel
          (<[ field := default [] (skipNextLevel !! field) ++ [subFields] ]> skipNextLevel)
  end.

(** ** The generator *)

(** [generator.structFs]: for every struct name met so far, the cell the
    saved pointer [pf] points to ([None] while it still holds the nil
    function).  The Go map is shared by all the generators of one call of
    [Gen], so it is threaded through the recursion. *)
Abbreviation structFs := (gmap string (option plan)).

(** What [gen] returns: [(nil, err)], or [(f, nil)] where [f] may be nil. *)
Inductive generated : Set :=
| Failed (err : error)
| Built (f : option plan).

(** [typ.PkgPath() + "." + typ.Name()] *)
Definition struct_name (d : reflect.decl) : string :=
  (reflect.PkgPath d ++ "." ++ reflect.TypeName d)%string.

(** The state of the field loop of [genStruct]. *)
Record fields_state : Set :=
  { skipMyLevel : gset string;
    skipNextLevel : gmap string (list string);
    grouped : list (reflect.Kind * list Z);
    offsetFs : list (Z * plan);
    added : Z }.

(** [xs = append(xs, sf.Offset)] for the vector of kind [k]. *)
Definition append_offset (k : reflect.Kind) (o : Z)
    (g : list (reflect.Kind * list Z)) : list (reflect.Kind * list Z) :=
  map (fun row => if decide (fst row = k) then (fst row, snd row ++ [o]) else row) g.

(** The fifteen offset vectors before the field loop. *)
Definition empty_vectors : list (reflect.Kind * list Z) :=
  map (fun k => (k, [])) grouped_kinds.

Section Generator.
Variable types : list reflect.decl.
Variable useMap : bool.

(** The recursive call [g.gen], one level of fuel below.  A result of
    [None] means the recursion did not return within the fuel. *)
Variable gen_rec : list string -> reflect.rtype -> structFs -> option (generated * structFs).

(** The second loop of [genStruct], over [t.Field(i)]. *)
Fixpoint genStruct_fields (fields : list reflect.StructField)
    (st : fields_state) (fs : structFs) : option ((error + fields_state) * structFs) :=
  match fields with
  | [] => Some (inr st, fs)
  | sf :: rest =>
      let name := reflect.Name sf in
      if decide (name ∈ skipMyLevel st) then
        genStruct_fields rest
          {| skipMyLevel := skipMyLevel st ∖ {[ name ]};
             skipNextLevel := skipNextLevel st;
             grouped := grouped st; offsetFs := offsetFs st; added := added st |} fs
      else
        let k := reflect.KindOf types (reflect.Type_ sf) in
        if is_grouped k then
          genStruct_fields rest
            {| skipMyLevel := skipMyLevel st;
               skipNextLevel := skipNextLevel st;
               grouped := append_offset k (reflect.Offset sf) (grouped st);
               offsetFs := offsetFs st; added := added st + 1 |} fs
        else
          match gen_rec (default [] (skipNextLevel st !! name)) (reflect.Type_ sf) fs with
          | None => None
          | Some (r, fs') =>
              let next := delete name (skipNextLevel st) in
              match r with
              | Failed err => Some (inl err, fs')
              | Built None =>
                  genStruct_fields rest
                    {| skipMyLevel := skipMyLevel st; skipNextLevel := next;
                       grouped := grouped st; offsetFs := offsetFs st;
                       added := added st |} fs'
              | Built (Some f) =>
                  genStruct_fields rest
                    {| skipMyLevel := skipMyLevel st; skipNextLevel := next;
                       grouped := grouped st;
                       offsetFs := offsetFs st ++ [(reflect.Offset sf, f)];
                       added := added st + 1 |} fs'
              end
          end
  end.

(** [genStruct] *)
Definition genStruct (skips : list string) (fields : list reflect.StructField)
    (fs : structFs) : option (generated * structFs) :=
  match parse_skips skips ∅ ∅ with
  | inl err => Some (Failed err, fs)
  | inr (my, next) =>
      match genStruct_fields fields
              {| skipMyLevel := my; skipNextLevel := next;
                 grouped := empty_vectors;
                 offsetFs := []; added := 0 |} fs with
      | None => None
      | Some (inl err, fs') => Some (Failed err, fs')
      | Some (inr st, fs') =>
          if 0 <? Z.of_nat (size (skipMyLevel st)) then Some (Failed ErrSkipNotSeen, fs')
          else if 0 <? Z.of_nat (size (skipNextLevel st)) then Some (Failed ErrNextLevelNotSeen, fs')
          else if added st =? 0 then Some (Built None, fs')
          else Some (Built (Some (MergeStruct (grouped st) (offsetFs st))), fs')
      end
  end.

(** [genArray] *)
Definition genArray (skips : list string) (len_ : Z) (et : reflect.rtype)
    (fs : structFs) : option (generated * structFs) :=
  let size := reflect.SizeOf types et in
  let end_ := len_ * size in
  let k := reflect.KindOf types et in
  if is_grouped k then Some (Built (Some (MergeArrayPrim k end_ size)), fs)
  else
    match gen_rec skips et fs with
    | None => None
    | Some (Failed err, fs') => Some (Failed err, fs')
    | Some (Built None, fs') => Some (Built None, fs')
    | Some (Built (Some f), fs') => Some (Built (Some (MergeArray end_ size f)), fs')
    end.

(** [genSlice] *)
Definition genSlice (skips : list string) (et : reflect.rtype)
    (fs : structFs) : option (generated * structFs) :=
  let size := reflect.SizeOf types et in
  let k := reflect.KindOf types et in
  if is_grouped k then Some (Built (Some (MergeSlicePrim k size)), fs)
  else
    match gen_rec skips et fs with
    | None => None
    | Some (Failed err, fs') => Some (Failed err, fs')
    | Some (Built None, fs') => Some (Built None, fs')
    | Some (Built (Some f), fs') => Some (Built (Some (MergeSlice size f)), fs')
    end.

(** [genMap].  The closure is returned whatever [f] is. *)
Definition genMap (skips : list string) (et : reflect.rtype)
    (fs : structFs) : option (generated * structFs) :=
  match gen_rec skips et fs with
  | None => None
  | Some (Failed err, fs') => Some (Failed err, fs')
  | Some (Built f, fs') =>
      let etk := reflect.KindOf types et in
      let valNeedsIndir :=
        bool_decide (etk = reflect.Map) || bool_decide (etk = reflect.Ptr) in
      Some (Built (Some (MergeMap valNeedsIndir (reflect.IfaceIndir types et)
                           (reflect.SizeOf types et) f)), fs')
  end.

(** The kinds on which [gen] accepts a non-empty list of skips. *)
Definition may_hold_skips (k : reflect.Kind) : bool :=
  match k with
  | reflect.Slice | reflect.Struct | reflect.Array | reflect.Ptr => true
  | _ => false
  end.

(** The body of [gen]. *)
Definition gen_body (skips : list string) (t : reflect.rtype)
    (fs : structFs) : option (generated * structFs) :=
  let k := reflect.KindOf types t in
  if (0 <? Z.of_nat (length skips)) && negb (may_hold_skips k) then
    Some (Failed (ErrSkipKind k), fs)
  else
    match reflect.resolve types t with
    | reflect.SBasic reflect.Interface => Some (Failed ErrInterface, fs)
    | reflect.SBasic reflect.Chan => Some (Failed ErrChan, fs)
    | reflect.SBasic reflect.Func => Some (Failed ErrFunc, fs)
    | reflect.SBasic reflect.String => Some (Failed ErrString, fs)
    | reflect.SBasic reflect.UnsafePointer => Some (Failed ErrUnsafePointer, fs)
    | reflect.SBasic reflect.Invalid => Some (Failed ErrInvalid, fs)
    | reflect.SBasic
        (reflect.Array | reflect.Map | reflect.Ptr | reflect.Slice | reflect.Struct) =>
        (* a composite kind has a composite shape *)
        Some (Failed ErrInvalid, fs)
    | reflect.SBasic k => Some (Built (Some (MergePrim k)), fs)
    | reflect.SPtr et =>
        match gen_rec skips et fs with
        | None => None
        | Some (Failed err, fs') => Some (Failed err, fs')
        | Some (Built None, fs') => Some (Built None, fs')
        | Some (Built (Some f), fs') => Some (Built (Some (MergePtr f)), fs')
        end
    | reflect.SArray n et => genArray skips n et fs
    | reflect.SSlice et => genSlice skips et fs
    | reflect.SStruct d fields =>
        if 0 <? Z.of_nat (length skips) then genStruct skips fields fs
        else
          let name := struct_name d in
          match fs !! name with
          | Some _ => Some (Built (Some (MergeThunk name)), fs)
          | None =>
              match genStruct skips fields (<[ name := None ]> fs) with
              | None => None
              | Some (Failed err, fs') => Some (Failed err, fs')
              | Some (Built f, fs') => Some (Built f, <[ name := f ]> fs')
              end
          end
    | reflect.SMap _ et =>
        if negb useMap then Some (Failed ErrMaps, fs)
        else genMap skips et fs
    end.
End Generator.

(** [generator.gen]: the entry point of all recursion.  The source recurses
    without bound; [fuel] bounds the depth of the calls, and [None] is the
    answer of a recursion that is still running when the fuel is spent. *)
Fixpoint gen (fuel : nat) (types : list reflect.decl) (useMap : bool)
    (skips : list string) (t : reflect.rtype) (fs : structFs)
  : option (generated * structFs) :=
  match fuel with
  | O => None
  | S fuel' => gen_body types useMap (gen fuel' types useMap) skips t fs
  end.

(** ** Memory *)

#[global] Instance spec_float_eq_dec : EqDecision spec_float.
Proof. solve_decision. Defined.

(** A memory cell: the value of primitive kind stored at an address.  An
    [unsafe.Pointer], a map handle and the [Data] word of a slice header are
    [CPtr]; the nil pointer is [CPtr 0].  Floating-point numbers are IEEE 754
    values ([spec_float]; all NaNs are one value). *)
Inductive cell : Set :=
| CBool (b : bool)
| CInt (k : reflect.Kind) (n : Z)
| CFloat (k : reflect.Kind) (x : spec_float)
| CComplex (k : reflect.Kind) (re im : spec_float)
| CPtr (p : Z).

#[global] Instance cell_eq_dec : EqDecision cell.
Proof. solve_decision. Defined.

(** A value copied out of memory: the cells of [n] consecutive addresses. *)
Definition blob : Set := list (option cell).

(** The store: the memory cells, the map objects ([reflect] reaches them
    through their handle only), and the first address not yet handed out
    by the allocator. *)
Record heap : Type :=
  { cells : gmap Z cell;
    maps : gmap Z (list (blob * blob));
    brk : Z }.

Definition with_cells (s : heap) (m : gmap Z cell) : heap :=
  {| cells := m; maps := maps s; brk := brk s |}.

Definition with_maps (s : heap) (m : gmap Z (list (blob * blob))) : heap :=
  {| cells := cells s; maps := m; brk := brk s |}.

(** How a call of a merge closure ends: it returns, it panics (nil map
    assignment, call of a nil function), it touches memory that holds no
    cell of the kind it reads (behaviour Go does not define), or the fuel
    of the model is spent. *)
Inductive outcome : Type :=
| Done (s : heap)
| Panic
| Fault
| Timeout.

(** Signedness and width of the integer kinds. *)
Definition int_width (k : reflect.Kind) : option (bool * Z) :=
  match k with
  | reflect.Int | reflect.Int64 => Some (true, 64)
  | reflect.Int8 => Some (true, 8)
  | reflect.Int16 => Some (true, 16)
  | reflect.Int32 => Some (true, 32)
  | reflect.Uint | reflect.Uint64 | reflect.Uintptr => Some (false, 64)
  | reflect.Uint8 => Some (false, 8)
  | reflect.Uint16 => Some (false, 16)
  | reflect.Uint32 => Some (false, 32)
  | _ => None
  end.

(** The value of an integer of [bits] bits after overflow. *)
Definition wrap (signed : bool) (bits : Z) (n : Z) : Z :=
  if signed then (n + 2 ^ (bits - 1)) mod 2 ^ bits - 2 ^ (bits - 1)
  else n mod 2 ^ bits.

(** [a + b] in the arithmetic of kind [k]. *)
Definition add_cell (k : reflect.Kind) (a b : cell) : option cell :=
  match a, b with
  | CInt ka x, CInt kb y =>
      match int_width k with
      | Some (sg, bits) =>
          if decide (ka = k /\ kb = k) then Some (CInt k (wrap sg bits (x + y))) else None
      | None => None
      end
  | CFloat ka x, CFloat kb y =>
      if decide (ka = k /\ kb = k) then
        match k with
        | reflect.Float32 => Some (CFloat k (SFadd 24 128 x y))
        | reflect.Float64 => Some (CFloat k (SFadd 53 1024 x y))
        | _ => None
        end
      else None
  | CComplex ka x1 x2, CComplex kb y1 y2 =>
      if decide (ka = k /\ kb = k) then
        match k with
        | reflect.Complex64 => Some (CComplex k (SFadd 24 128 x1 y1) (SFadd 24 128 x2 y2))
        | reflect.Complex128 => Some (CComplex k (SFadd 53 1024 x1 y1) (SFadd 53 1024 x2 y2))
        | _ => None
        end
      else None
  | _, _ => None
  end.

(** A write through a pointer: the address must hold a cell. *)
Definition store (s : heap) (a : Z) (c : cell) : outcome :=
  match cells s !! a with
  | Some _ => Done (with_cells s (<[ a := c ]> (cells s)))
  | None => Fault
  end.

(** The primitive merges: for bool, the left cell is set when the right
    one is true; for a number, left += right. *)
Definition merge_prim (k : reflect.Kind) (s : heap) (l r : Z) : outcome :=
  match k with
  | reflect.Bool =>
      match cells s !! r with
      | Some (CBool true) => store s l (CBool true)
      | Some (CBool false) => Done s
      | _ => Fault
      end
  | _ =>
      match cells s !! l, cells s !! r with
      | Some a, Some b =>
          match add_cell k a b with
          | Some c => store s l c
          | None => Fault
          end
      | _, _ => Fault
      end
  end.

(** [fieldByOffset] *)
Definition fieldByOffset (u o : Z) : Z := u + o.

(** The offsets visited by
    [for offset := uintptr(0); offset < end; offset += size].
    The generator only builds [end = n * size], so the loop is not
    entered when [size] is 0. *)
Definition loop_offsets (end_ size : Z) : list Z :=
  if size <=? 0 then []
  else map (fun i => Z.of_nat i * size) (seq 0 (Z.to_nat ((end_ + size - 1) / size))).

(** A loop over offsets with a body that may stop the call. *)
Fixpoint for_each {A : Type} (body : heap -> A -> outcome) (xs : list A) (s : heap) : outcome :=
  match xs with
  | [] => Done s
  | x :: rest =>
      match body s x with
      | Done s' => for_each body rest s'
      | o => o
      end
  end.

(** *** Slice headers *)

(** [reflect.SliceHeader]: [Data] at offset 0, [Len] at 8, [Cap] at 16. *)
Record SliceHeader : Set := { Data : Z; Len : Z; Cap : Z }.

Definition load_header (s : heap) (a : Z) : option SliceHeader :=
  match cells s !! a, cells s !! (a + 8), cells s !! (a + 16) with
  | Some (CPtr d), Some (CInt reflect.Int n), Some (CInt reflect.Int c) =>
      Some {| Data := d; Len := n; Cap := c |}
  | _, _, _ => None
  end.

Definition store_header (s : heap) (a : Z) (h : SliceHeader) : heap :=
  with_cells s
    (<[ a + 16 := CInt reflect.Int (Cap h) ]>
       (<[ a + 8 := CInt reflect.Int (Len h) ]>
          (<[ a := CPtr (Data h) ]> (cells s)))).

(** [normalize] of [genSlice]: the store after the possible swap of the
    two headers, and [end]. *)
Definition normalize (size : Z) (s : heap) (l r : Z) : option (heap * Z) :=
  match load_header s l, load_header s r with
  | Some hl, Some hr =>
      let limit := if Len hr <? Len hl then Len hr else Len hl in
      let s' := if Len hl <? Len hr
                then store_header (store_header s l hr) r hl
                else s in
      Some (s', limit * size)
  | _, _ => None
  end.

(** [hl.Data + offset] and [hr.Data + offset], read through the header
    pointers when the loop body runs. *)
Definition slice_elems (s : heap) (l r offset : Z) : option (Z * Z) :=
  match cells s !! l, cells s !! r with
  | Some (CPtr dl), Some (CPtr dr) => Some (dl + offset, dr + offset)
  | _, _ => None
  end.

Definition slice_loop (body : heap -> Z -> Z -> outcome)
    (size : Z) (s : heap) (l r : Z) : outcome :=
  match normalize size s l r with
  | None => Fault
  | Some (s', end_) =>
      for_each
        (fun s0 offset =>
           match slice_elems s0 l r offset with
           | Some (el, er) => body s0 el er
           | None => Fault
           end)
        (loop_offsets end_ size) s'
  end.

(** *** Maps, through [reflect] *)

(** [==] on the cells of a key.  On floating-point cells it is the IEEE
    comparison: a NaN differs from itself. *)
Definition cell_eqb (a b : option cell) : bool :=
  match a, b with
  | Some (CFloat ka x), Some (CFloat kb y) =>
      bool_decide (ka = kb) && SFeqb x y
  | Some (CComplex ka x1 x2), Some (CComplex kb y1 y2) =>
      bool_decide (ka = kb) && SFeqb x1 y1 && SFeqb x2 y2
  | _, _ => bool_decide (a = b)
  end.

Fixpoint key_eqb (a b : blob) : bool :=
  match a, b with
  | [], [] => true
  | x :: a', y :: b' => cell_eqb x y && key_eqb a' b'
  | _, _ => false
  end.

(** The map object behind a handle; the nil map has no entries. *)
Definition map_entries (s : heap) (h : Z) : option (list (blob * blob)) :=
  if h =? 0 then Some [] else maps s !! h.

(** [Value.MapKeys] *)
Definition MapKeys (s : heap) (h : Z) : option (list blob) :=
  option_map (map fst) (map_entries s h).

(** [Value.MapIndex]: [None] is the zero [Value]. *)
Definition lookup_entry (k : blob) (es : list (blob * blob)) : option blob :=
  option_map snd (find (fun e => key_eqb (fst e) k) es).

Definition MapIndex (s : heap) (h : Z) (k : blob) : option blob :=
  match map_entries s h with
  | Some es => lookup_entry k es
  | None => None
  end.

Fixpoint assign_entry (k v : blob) (es : list (blob * blob)) : list (blob * blob) :=
  match es with
  | [] => [(k, v)]
  | e :: rest => if key_eqb (fst e) k then (fst e, v) :: rest else e :: assign_entry k v rest
  end.

(** [Value.SetMapIndex]: the zero [Value] deletes the key; an assignment
    to an entry of the nil map panics. *)
Definition SetMapIndex (s : heap) (h : Z) (k : blob) (v : option blob) : outcome :=
  match v with
  | None =>
      if h =? 0 then Done s
      else match maps s !! h with
           | Some es =>
               Done (with_maps s (<[ h := filter (fun e => negb (key_eqb (fst e) k)) es ]> (maps s)))
           | None => Fault
           end
  | Some v =>
      if h =? 0 then Panic
      else match maps s !! h with
           | Some es => Done (with_maps s (<[ h := assign_entry k v es ]> (maps s)))
           | None => Fault
           end
  end.

Definition read_blob (s : heap) (a n : Z) : blob :=
  map (fun i => cells s !! (a + Z.of_nat i)) (seq 0 (Z.to_nat n)).

Fixpoint write_cells (m : gmap Z cell) (a : Z) (b : blob) : gmap Z cell :=
  match b with
  | [] => m
  | c :: rest =>
      write_cells (match c with Some c => <[ a := c ]> m | None => delete a m end) (a + 1) rest
  end.

(** A fresh slot of [n] bytes holding [v].  It stands for the copy
    [MapIndex] makes of a value whose type an interface holds by address
    (the data word of the interface is the address of the copy), and for
    the interface variable itself when the closure takes the address of its
    data word. *)
Definition alloc_value (s : heap) (n : Z) (v : blob) : heap * Z :=
  ({| cells := write_cells (cells s) (brk s) v; maps := maps s; brk := brk s + n |}, brk s).

(** The data word of the interface made of a value of a pointer-shaped
    type: the pointer the value consists of. *)
Definition data_word (v : blob) : option Z :=
  match v with
  | Some (CPtr p) :: _ => Some p
  | _ => None
  end.

(** One turn of the loop over [rks] in the closure of [genMap].  With
    [valNeedsIndir] the value closure gets the addresses of the data words
    of the two interfaces.  Without it the closure gets the data words: for
    a type held by address these are the addresses of the two copies, and
    the left copy is written back; for a pointer-shaped struct or array they
    are the pointers the two values consist of, and the value written back
    is the left value as it was. *)
Definition map_step (call : option (heap -> Z -> Z -> outcome))
    (valNeedsIndir ifaceIndir : bool) (vsize : Z) (lh rh : Z) (s : heap) (rk : blob)
  : outcome :=
  match MapIndex s lh rk with
  | None => SetMapIndex s lh rk (MapIndex s rh rk)
  | Some lkv =>
      match MapIndex s rh rk with
      | None => Fault
      | Some rkv =>
          if valNeedsIndir || ifaceIndir then
            let n := if valNeedsIndir then 8 else vsize in
            let '(s1, tl) := alloc_value s n lkv in
            let '(s2, tr) := alloc_value s1 n rkv in
            match call with
            | None => Panic
            | Some f =>
                match f s2 tl tr with
                | Done s3 => SetMapIndex s3 lh rk (Some (read_blob s3 tl n))
                | o => o
                end
            end
          else
            match call with
            | None => Panic
            | Some f =>
                match data_word lkv, data_word rkv with
                | Some pl, Some pr =>
                    match f s pl pr with
                    | Done s3 => SetMapIndex s3 lh rk (Some lkv)
                    | o => o
                    end
                | _, _ => Fault
                end
            end
      end
  end.

(** ** Running a merge closure *)

(** [exec slots p s l r] is the call [p(l, r)] in store [s]; [slots] are
    the cells the thunks of recursive structs call through.  Every call of
    a closure by a closure uses one unit of fuel. *)
Fixpoint exec (fuel : nat) (slots : structFs) (p : plan) (s : heap) (l r : Z) : outcome :=
  match fuel with
  | O => Timeout
  | S fuel' =>
      match p with
      | MergePrim k => merge_prim k s l r
      | MergePtr f =>
          match cells s !! l, cells s !! r with
          | Some (CPtr il), Some (CPtr ir) =>
              if il =? 0 then
                match store s l (CPtr ir) with
                | Done s' => store s' r (CPtr 0)
                | o => o
                end
              else if ir =? 0 then Done s
              else exec fuel' slots f s il ir
          | _, _ => Fault
          end
      | MergeArrayPrim k end_ size =>
          for_each
            (fun s0 offset => merge_prim k s0 (fieldByOffset l offset) (fieldByOffset r offset))
            (loop_offsets end_ size) s
      | MergeArray end_ size f =>
          for_each
            (fun s0 offset => exec fuel' slots f s0 (fieldByOffset l offset) (fieldByOffset r offset))
            (loop_offsets end_ size) s
      | MergeSlicePrim k size => slice_loop (merge_prim k) size s l r
      | MergeSlice size f => slice_loop (exec fuel' slots f) size s l r
      | MergeStruct grouped offsetFs =>
          match
            for_each
              (fun s0 row =>
                 for_each
                   (fun s1 offset =>
                      merge_prim (fst row) s1 (fieldByOffset l offset) (fieldByOffset r offset))
                   (snd row) s0)
              grouped s
          with
          | Done s' =>
              for_each
                (fun s0 entry =>
                   exec fuel' slots (snd entry) s0
                     (fieldByOffset l (fst entry)) (fieldByOffset r (fst entry)))
                offsetFs s'
          | o => o
          end
      | MergeThunk name =>
          match slots !! name with
          | Some (Some f) => exec fuel' slots f s l r
          | _ => Panic
          end
      | MergeMap valNeedsIndir ifaceIndir vsize f =>
          match cells s !! l, cells s !! r with
          | Some (CPtr lh), Some (CPtr rh) =>
              match MapKeys s rh with
              | Some rks =>
                  for_each
                    (map_step (option_map (exec fuel' slots) f) valNeedsIndir ifaceIndir
                       vsize lh rh)
                    rks s
              | None => Fault
              end
          | _, _ => Fault
          end
      end
  end.

(** ** The public entry point *)

(** [Config] *)
Record Config : Set := { skips : list string; unsafeMap : bool }.

(** An option function: it updates the [Config] or returns an error. *)
Definition option_func : Set := Config -> error + Config.

Definition SkipFields (fields : list string) : option_func :=
  fun c => inr {| skips := skips c ++ fields; unsafeMap := unsafeMap c |}.

Definition WithSlowerMapsUnsafely : option_func :=
  fun c => inr {| skips := skips c; unsafeMap := true |}.

Definition SkipField (field : string) : option_func :=
  fun c => inr {| skips := skips c ++ [field]; unsafeMap := unsafeMap c |}.

(** [ifaceWords]: the two words of an [interface{}] value, its dynamic
    type and its data.  For a value of pointer type the data word is the
    pointer itself. *)
Record ifaceWords : Set := { typ : reflect.rtype; data : Z }.

(** The function [Gen] returns: the type saved in [iw], the closure [f]
    returned by [gen] (possibly nil), and the cells its thunks point to. *)
Record executor : Set :=
  { root : reflect.rtype; merge : option plan; slots : structFs }.

Fixpoint apply_options (options : list option_func) (c : Config) : error + Config :=
  match options with
  | [] => inr c
  | option_ :: rest =>
      match option_ c with
      | inl err => inl err
      | inr c' => apply_options rest c'
      end
  end.

(** [Gen].  [None]: the generator did not return within the fuel. *)
Definition Gen (fuel : nat) (types : list reflect.decl)
    (i : ifaceWords) (options : list option_func) : option (error + executor) :=
  match apply_options options {| skips := []; unsafeMap := false |} with
  | inl err => Some (inl err)
  | inr c =>
      match reflect.resolve types (typ i) with
      | reflect.SPtr et =>
          (* reflect.Indirect of a nil pointer is the zero Value *)
          let v := if data i =? 0 then reflect.Basic reflect.Invalid else et in
          if decide (reflect.KindOf types v = reflect.Ptr) then Some (inl ErrDoublePointer)
          else
            match gen fuel types (unsafeMap c) (skips c) v ∅ with
            | None => None
            | Some (Failed err, _) => Some (inl err)
            | Some (Built f, fs) =>
                Some (inr {| root := typ i; merge := f; slots := fs |})
            end
      | _ => Some (inl ErrNotPointer)
      end
  end.

(** [check] inside [Gen]: [None] is the panic
    "merge function used on type it was not generated for". *)
Definition check (iw : reflect.rtype) (l r : ifaceWords) : option (Z * Z) :=
  if bool_decide (typ l <> iw) || bool_decide (typ r <> iw) then None
  else Some (data l, data r).

(** A call [f(l, r)] of the function returned by [Gen]. *)
Definition call (fuel : nat) (e : executor) (s : heap) (l r : ifaceWords) : outcome :=
  match check (root e) l r with
  | None => Panic
  | Some (lp, rp) =>
      match merge e with
      | None => Done s
      | Some f => exec fuel (slots e) f s lp rp
      end
  end.

(** ** Types and stores used in the examples *)

Module Ex.
Import reflect.

Definition field (name : string) (offset : Z) (t : rtype) : StructField :=
  {| Name := name; Offset := offset; Type_ := t |}.

Definition struct (pkg name : string) (size : Z) (fields : list StructField) : decl :=
  {| PkgPath := pkg; TypeName := name; Size_ := size; Under := StructOf fields |}.

(** [type S struct { A []int }] *)
Definition slice_field : list decl :=
  [ struct "main" "S" 24 [ field "A" 0 (SliceOf (Basic Int)) ] ].

(** [type S struct { A struct{ X int }; B struct{ P, Q int } }] *)
Definition two_literals : list decl :=
  [ struct "" "" 8 [ field "X" 0 (Basic Int) ];
    struct "" "" 16 [ field "P" 0 (Basic Int); field "Q" 8 (Basic Int) ];
    struct "main" "S" 24 [ field "A" 0 (Defined 0); field "B" 8 (Defined 1) ] ].

(** Inside one function of package main:
    [type T struct{ X int }; type U struct{ t T }] and, in a nested block,
    [type T struct{ P, Q int }; type S struct { A U; B T }]. *)
Definition two_locals : list decl :=
  [ struct "main" "T" 8 [ field "X" 0 (Basic Int) ];
    struct "main" "U" 8 [ field "t" 0 (Defined 0) ];
    struct "main" "T" 16 [ field "P" 0 (Basic Int); field "Q" 8 (Basic Int) ];
    struct "main" "S" 24 [ field "A" 0 (Defined 1); field "B" 8 (Defined 2) ] ].

(** [type L []L; type S struct { Kids L }] *)
Definition recursive_slice : list decl :=
  [ {| PkgPath := "main"; TypeName := "L"; Size_ := 24;
       Under := Literal (SliceOf (Defined 0)) |};
    struct "main" "S" 24 [ field "Kids" 0 (Defined 0) ] ].

(** [type S struct { m map[int]int }] *)
Definition map_field : list decl :=
  [ struct "main" "S" 8 [ field "m" 0 (MapOf (Basic Int) (Basic Int)) ] ].

(** [type S struct { p *int32 }] *)
Definition pointer_field : list decl :=
  [ struct "main" "S" 8 [ field "p" 0 (PtrTo (Basic Int32)) ] ].

(** Two [[]int] headers: at 4096 the slice [[1]], at 8192 the longer
    slice [[10, 20]]. *)
Definition short_long_slices : heap :=
  {| cells := list_to_map
                [ (4096, CPtr 12288); (4104, CInt Int 1); (4112, CInt Int 1);
                  (8192, CPtr 16384); (8200, CInt Int 2); (8208, CInt Int 2);
                  (12288, CInt Int 1);
                  (16384, CInt Int 10); (16392, CInt Int 20) ];
     maps := ∅; brk := 65536 |}.

(** Two [[]int] headers: at 4096 the slice [[1, 2]], at 8192 the shorter
    slice [[10]]. *)
Definition long_short_slices : heap :=
  {| cells := list_to_map
                [ (4096, CPtr 12288); (4104, CInt Int 2); (4112, CInt Int 2);
                  (8192, CPtr 16384); (8200, CInt Int 1); (8208, CInt Int 1);
                  (12288, CInt Int 1); (12296, CInt Int 2);
                  (16384, CInt Int 10) ];
     maps := ∅; brk := 65536 |}.

(** Scenario A: [type S struct { x uint64; y float32; z bool }], the
    value (1, 2.0, false) at 4096 and the value (7, 8.0, true) at 8192. *)
Definition scenario_A : list decl :=
  [ struct "main" "S" 16
      [ field "x" 0 (Basic Uint64); field "y" 8 (Basic Float32); field "z" 12 (Basic Bool) ] ].

Definition scenario_A_store : heap :=
  {| cells := list_to_map
                [ (4096, CInt Uint64 1); (4104, CFloat Float32 (S754_finite false 8388608 (-22)));
                  (4108, CBool false);
                  (8192, CInt Uint64 7); (8200, CFloat Float32 (S754_finite false 8388608 (-20)));
                  (8204, CBool true) ];
     maps := ∅; brk := 65536 |}.

(** Two [map[int]int] slots: at 4096 the map [{1: 1, 2: 5}], at 8192 the
    map [{2: 7, 3: 9}]. *)
Definition int_maps : heap :=
  {| cells := list_to_map [ (4096, CPtr 20480); (8192, CPtr 24576) ];
     maps := list_to_map
               [ (20480, [ (Some (CInt Int 1) :: repeat None 7, Some (CInt Int 1) :: repeat None 7);
                           (Some (CInt Int 2) :: repeat None 7, Some (CInt Int 5) :: repeat None 7) ]);
                 (24576, [ (Some (CInt Int 2) :: repeat None 7, Some (CInt Int 7) :: repeat None 7);
                           (Some (CInt Int 3) :: repeat None 7, Some (CInt Int 9) :: repeat None 7) ]) ];
     brk := 65536 |}.

(** Scenario E: [type S struct { m map[int]map[int]int32 }] with
    left [{1: {11: 1}, 2: {22: 2}}] and right [{2: {22: 9}, 3: {33: 3}}]. *)
Definition scenario_E : list decl :=
  [ struct "main" "S" 8
      [ field "m" 0 (MapOf (Basic Int) (MapOf (Basic Int) (Basic Int32))) ] ].

Definition scenario_E_store : heap :=
  let key n : blob := Some (CInt Int n) :: repeat None 7 in
  let val n : blob := Some (CInt Int32 n) :: repeat None 3 in
  let ref p : blob := Some (CPtr p) :: repeat None 7 in
  {| cells := list_to_map [ (4096, CPtr 20480); (8192, CPtr 24576) ];
     maps := list_to_map
               [ (20480, [ (key 1, ref 20496); (key 2, ref 20512) ]);
                 (20496, [ (key 11, val 1) ]);
                 (20512, [ (key 22, val 2) ]);
                 (24576, [ (key 2, ref 24592); (key 3, ref 24608) ]);
                 (24592, [ (key 22, val 9) ]);
                 (24608, [ (key 33, val 3) ]) ];
     brk := 65536 |}.

(** [type T struct { Next *T; V int }] *)
Definition linked : list decl :=
  [ struct "main" "T" 16 [ field "Next" 0 (PtrTo (Defined 0)); field "V" 8 (Basic Int) ] ].

(** A pointer to the struct at address [a], as an [interface{}]. *)
Definition ptr_to (id : nat) (a : Z) : ifaceWords :=
  {| typ := PtrTo (Defined id); data := a |}.

Definition mem (l : list (Z * cell)) : gmap Z cell := list_to_map l.

(** The 8 bytes of an [int] or of a pointer, as a map key or value. *)
Definition int_blob (n : Z) : blob := Some (CInt Int n) :: repeat None 7.
Definition ptr_blob (p : Z) : blob := Some (CPtr p) :: repeat None 7.

(** Two values of [two_literals]'s [S]: A.X = 1, B = (1, 2) at 4096 and
    A.X = 10, B = (10, 20) at 8192. *)
Definition two_literals_store : heap :=
  {| cells := mem [ (4096, CInt Int 1); (4104, CInt Int 1); (4112, CInt Int 2);
                    (8192, CInt Int 10); (8200, CInt Int 10); (8208, CInt Int 20) ];
     maps := ∅; brk := 65536 |}.

(** Left [m] is the nil map; right [m] is [{1: 1}]. *)
Definition nil_left_map : heap :=
  {| cells := mem [ (4096, CPtr 0); (8192, CPtr 20480) ];
     maps := {[ 20480 := [ (int_blob 1, int_blob 1) ] ]};
     brk := 65536 |}.

(** [type S struct { m map[int]struct{ p *int } }] with left
    [m = {1: {p: &6}}] and right [m = {1: {p: &5}}]. *)
Definition map_of_boxes : list decl :=
  [ struct "" "" 8 [ field "p" 0 (PtrTo (Basic Int)) ];
    struct "main" "S" 8 [ field "m" 0 (MapOf (Basic Int) (Defined 0)) ] ].

Definition boxes_store : heap :=
  {| cells := mem [ (4096, CPtr 20480); (8192, CPtr 24576);
                    (12288, CInt Int 6); (12296, CInt Int 5) ];
     maps := list_to_map [ (20480, [ (int_blob 1, ptr_blob 12288) ]);
                           (24576, [ (int_blob 1, ptr_blob 12296) ]) ];
     brk := 65536 |}.

(** [type S struct { m map[int]struct{ p *int; n int } }] with left
    [m = {1: {p: &6, n: 1}}] and right [m = {1: {p: &5, n: 2}}]. *)
Definition map_of_pairs : list decl :=
  [ struct "" "" 16 [ field "p" 0 (PtrTo (Basic Int)); field "n" 8 (Basic Int) ];
    struct "main" "S" 8 [ field "m" 0 (MapOf (Basic Int) (Defined 0)) ] ].

Definition pairs_store : heap :=
  {| cells := mem [ (4096, CPtr 20480); (8192, CPtr 24576);
                    (12288, CInt Int 6); (12296, CInt Int 5) ];
     maps := list_to_map [ (20480, [ (int_blob 1, ptr_blob 12288 ++ int_blob 1) ]);
                           (24576, [ (int_blob 1, ptr_blob 12296 ++ int_blob 2) ]) ];
     brk := 65536 |}.

(** Scenario D, first merge: left [p] is nil, right [p] points to 6. *)
Definition pointer_store : heap :=
  {| cells := mem [ (4096, CPtr 0); (8192, CPtr 12288); (12288, CInt Int32 6);
                    (8200, CPtr 12296); (12296, CInt Int32 5) ];
     maps := ∅; brk := 65536 |}.
End Ex.

(** The call made on one pair of elements by the closure of [genSlice]. *)
Definition slice_elem_call (fuel : nat) (slots : structFs) (p : plan)
  : heap -> Z -> Z -> outcome :=
  match p with
  | MergeSlicePrim k _ => merge_prim k
  | MergeSlice _ f => exec fuel slots f
  | _ => fun _ _ _ => Fault
  end.

(** [x] lies in the [n] bytes from [a]. *)
Definition within (a n x : Z) : Prop := a <= x < a + n.

(** A call that writes no memory cell outside the two elements of [size]
    bytes it is applied to. *)
Definition writes_elements_only (size : Z) (body : heap -> Z -> Z -> outcome) : Prop :=
  forall s a b s', body s a b = Done s' ->
    forall x, ~ within a size x -> ~ within b size x -> cells s' !! x = cells s !! x.

(** The offsets of the first [n] elements. *)
Definition elem_offsets (size : Z) (n : Z) : list Z :=
  map (fun i => Z.of_nat i * size) (seq 0 (Z.to_nat n)).

(** No byte belongs to both regions. *)
Definition separate (a n b k : Z) : Prop := forall x, within a n x -> ~ within b k x.

(** The store after the first part of [normalize]. *)
Definition normalized (s : heap) (l r : Z) (hl hr : SliceHeader) : heap :=
  if Len hl <? Len hr then store_header (store_header s l hr) r hl else s.

(** The kinds merged by addition or by [or]: the fifteen grouped kinds and
    [uintptr], which [genStruct] hands to [gen]. *)
Definition is_additive (k : reflect.Kind) : bool :=
  is_grouped k || bool_decide (k = reflect.Uintptr).

(** The cell holds a value of kind [k]. *)
Definition cell_of_kind (k : reflect.Kind) (c : cell) : bool :=
  match c with
  | CBool _ => bool_decide (k = reflect.Bool)
  | CInt k' _ => bool_decide (k' = k) && bool_decide (is_Some (int_width k))
  | CFloat k' _ => bool_decide (k' = k) && bool_decide (k ∈ [reflect.Float32; reflect.Float64])
  | CComplex k' _ _ =>
      bool_decide (k' = k) && bool_decide (k ∈ [reflect.Complex64; reflect.Complex128])
  | CPtr _ => false
  end.

(** The field-wise combination of two values of kind [k]: [a + b], and
    [a || b] for bool. *)
Definition sum_cell (k : reflect.Kind) (a b : cell) : option cell :=
  match k with
  | reflect.Bool =>
      match a, b with
      | CBool x, CBool y => Some (CBool (x || y))
      | _, _ => None
      end
  | _ => add_cell k a b
  end.

(** The primitive merges of a struct closure, as (kind, offset) pairs. *)
Definition vector_ops (g : list (reflect.Kind * list Z)) : list (reflect.Kind * Z) :=
  concat (map (fun row => map (fun o => (fst row, o)) (snd row)) g).

Definition run_ops (l r : Z) (ops : list (reflect.Kind * Z)) (s : heap) : outcome :=
  for_each
    (fun s0 op => merge_prim (fst op) s0 (fieldByOffset l (snd op)) (fieldByOffset r (snd op)))
    ops s.

(** The primitive merges of the closure [MergeStruct g offs] when every
    recursive field is a [uintptr], and those the fields of a struct ask
    for. *)
Definition struct_ops (g : list (reflect.Kind * list Z)) (offs : list (Z * plan))
  : list (reflect.Kind * Z) :=
  vector_ops g ++ map (fun e => (reflect.Uintptr, fst e)) offs.

Definition field_ops (types : list reflect.decl) (fields : list reflect.StructField)
  : list (reflect.Kind * Z) :=
  map (fun sf => (reflect.KindOf types (reflect.Type_ sf), reflect.Offset sf)) fields.

(** A key without floating-point cells: [==] on it is equality. *)
Definition plain_key (k : blob) : bool :=
  forallb (fun c => match c with
                    | Some (CFloat _ _) | Some (CComplex _ _ _) => false
                    | _ => true
                    end) k.

(** The store and the two addresses the value closure is called with in
    [map_step], for the copies [lkv] and [rkv] of [n] bytes. *)
Definition value_slots (s : heap) (n : Z) (lkv rkv : blob) : heap * Z * Z :=
  let '(s1, tl) := alloc_value s n lkv in
  let '(s2, tr) := alloc_value s1 n rkv in
  (s2, tl, tr).

(** [v] is what a call of the value closure leaves in the slot of the
    left copy. *)
Definition merged_value (call : heap -> Z -> Z -> outcome) (n : Z)
    (lkv rkv v : blob) : Prop :=
  exists s s',
    let '(s2, tl, tr) := value_slots s n lkv rkv in
    call s2 tl tr = Done s' /\ v = read_blob s' tl n.

(** The value closure, called on the copies of the values found under a
    common key, leaves the two map objects being merged as they are. *)
Definition value_call_frame (call : heap -> Z -> Z -> outcome) (n lh rh : Z)
    (el er : list (blob * blob)) : Prop :=
  forall s k lkv rkv,
    lookup_entry k el = Some lkv -> lookup_entry k er = Some rkv ->
    let '(s2, tl, tr) := value_slots s n lkv rkv in
    forall s', call s2 tl tr = Done s' ->
               maps s' !! lh = maps s !! lh /\ maps s' !! rh = maps s !! rh.

(** The value closure returns on such copies. *)
Definition value_call_returns (call : heap -> Z -> Z -> outcome) (n : Z)
    (el er : list (blob * blob)) : Prop :=
  forall s k lkv rkv,
    lookup_entry k el = Some lkv -> lookup_entry k er = Some rkv ->
    let '(s2, tl, tr) := value_slots s n lkv rkv in
    exists s', call s2 tl tr = Done s'.

(** The descent of [gen] from [t] through pointers, arrays, slices, map
    values and declared types of these kinds reaches a struct or a type
    without elements. *)
Inductive grounded (types : list reflect.decl) : reflect.rtype -> Prop :=
| grounded_basic t k :
    reflect.resolve types t = reflect.SBasic k -> grounded types t
| grounded_struct t d fields :
    reflect.resolve types t = reflect.SStruct d fields -> grounded types t
| grounded_ptr t e :
    reflect.resolve types t = reflect.SPtr e -> grounded types e -> grounded types t
| grounded_array t n e :
    reflect.resolve types t = reflect.SArray n e -> grounded types e -> grounded types t
| grounded_slice t e :
    reflect.resolve types t = reflect.SSlice e -> grounded types e -> grounded types t
| grounded_map t k e :
    reflect.resolve types t = reflect.SMap k e -> grounded types e -> grounded types t.

(** Every field of every struct of the table is grounded: each cycle of
    the type graph passes through a struct. *)
Definition grounded_table (types : list reflect.decl) : Prop :=
  forall id d fields,
    types !! id = Some d -> reflect.Under d = reflect.StructOf fields ->
    Forall (fun sf => grounded types (reflect.Type_ sf)) fields.

(** The measure of a list of skips: one more than the length of its
    longest path, 0 when it is empty. *)
Definition skip_measure (skips : list string) : nat :=
  list_max (map (fun skip => S (String.length skip)) skips).

(** The names [structFs] can ever hold, and how many it does not hold yet. *)
Definition struct_keys (types : list reflect.decl) : gset string :=
  list_to_set (map struct_name types).

Definition free_keys (types : list reflect.decl) (fs : structFs) : nat :=
  size (struct_keys types ∖ dom fs).

(** [g2] answers whenever [g1] does, with the same answer. *)
Definition answers_more
    (g1 g2 : list string -> reflect.rtype -> structFs -> option (generated * structFs)) : Prop :=
  forall skips t fs r, g1 skips t fs = Some r -> g2 skips t fs = Some r.

(** A generator that only adds names to [structFs]. *)
Definition only_adds
    (g : list string -> reflect.rtype -> structFs -> option (generated * structFs)) : Prop :=
  forall skips t fs r fs', g skips t fs = Some (r, fs') -> dom fs ⊆ dom fs'.

(** ** Definitions used to state further properties *)

(** The three option constructors of the package, as data. *)
Inductive package_option : Set :=
| OptSkipFields (fields : list string)
| OptSkipField (field : string)
| OptWithSlowerMapsUnsafely.

Definition option_of (o : package_option) : option_func :=
  match o with
  | OptSkipFields fields => SkipFields fields
  | OptSkipField field => SkipField field
  | OptWithSlowerMapsUnsafely => WithSlowerMapsUnsafely
  end.

(** The fields an option asks to skip, and whether it turns maps on. *)
Definition option_skips (o : package_option) : list string :=
  match o with
  | OptSkipFields fields => fields
  | OptSkipField field => [field]
  | OptWithSlowerMapsUnsafely => []
  end.

Definition option_maps (o : package_option) : bool :=
  match o with
  | OptWithSlowerMapsUnsafely => true
  | _ => false
  end.

(** The [Config] every call of [Gen] starts from. *)
Definition zero_config : Config := {| skips := []; unsafeMap := false |}.

(** The kinds [gen] answers with an error. *)
Definition refused_kinds : list reflect.Kind :=
  [ reflect.Interface; reflect.Chan; reflect.Func; reflect.String;
    reflect.UnsafePointer; reflect.Invalid ].

(** The error of [gen] for a refused kind. *)
Definition refusal (k : reflect.Kind) : error :=
  match k with
  | reflect.Interface => ErrInterface
  | reflect.Chan => ErrChan
  | reflect.Func => ErrFunc
  | reflect.String => ErrString
  | reflect.UnsafePointer => ErrUnsafePointer
  | _ => ErrInvalid
  end.

(** A type that holds, behind pointers, arrays, slices and map values
    only, a value of a refused kind, or a map while maps are off. *)
Inductive unmergeable (types : list reflect.decl) (useMap : bool) : reflect.rtype -> Prop :=
| unmergeable_kind t k :
    reflect.resolve types t = reflect.SBasic k -> k ∈ refused_kinds ->
    unmergeable types useMap t
| unmergeable_map_off t kt e :
    reflect.resolve types t = reflect.SMap kt e -> useMap = false ->
    unmergeable types useMap t
| unmergeable_ptr t e :
    reflect.resolve types t = reflect.SPtr e -> unmergeable types useMap e ->
    unmergeable types useMap t
| unmergeable_array t n e :
    reflect.resolve types t = reflect.SArray n e -> unmergeable types useMap e ->
    unmergeable types useMap t
| unmergeable_slice t e :
    reflect.resolve types t = reflect.SSlice e -> unmergeable types useMap e ->
    unmergeable types useMap t
| unmergeable_map t kt e :
    reflect.resolve types t = reflect.SMap kt e -> unmergeable types useMap e ->
    unmergeable types useMap t.

(** The two parts [genStruct] cuts a skip into at its first [>]. *)
Definition has_separator (skip : string) : bool := negb (IndexByte skip ">" =? -1).

Definition first_segment (skip : string) : string :=
  slice_to skip (Z.to_nat (IndexByte skip ">")).

Definition residual (skip : string) : string :=
  slice_from skip (Z.to_nat (IndexByte skip ">" + 1)).

(** The residuals handed down the field [name], in the order of [skips]. *)
Definition residuals (name : string) (skips : list string) : list string :=
  map residual
    (List.filter (fun skip => has_separator skip && String.eqb (first_segment skip) name) skips).

(** The name a skip must find among the fields of the struct it reaches. *)
Definition skip_target (skip : string) : string :=
  if has_separator skip then first_segment skip else skip.

(** The fields of a struct that the skips of its level leave to merge. *)
Definition kept_fields (my : gset string) (fields : list reflect.StructField)
  : list reflect.StructField :=
  List.filter (fun sf => negb (bool_decide (reflect.Name sf ∈ my))) fields.

(** [type T struct { Next *T; V int }]: a list of such nodes in the
    store, given by the addresses of its nodes and the values they hold from
    the head on; [Next] is at offset 0, [V] at offset 8, and the [Next] of
    the last node is nil. *)
Fixpoint linked_list (s : heap) (head : Z) (nodes : list (Z * Z)) : Prop :=
  match nodes with
  | [] => head = 0
  | node :: rest =>
      head = fst node /\ head <> 0
      /\ cells s !! (head + 8) = Some (CInt reflect.Int (snd node))
      /\ exists next, cells s !! head = Some (CPtr next) /\ linked_list s next rest
  end.

(** The cells of a list of nodes. *)
Definition node_cells (nodes : list (Z * Z)) : list Z :=
  concat (map (fun node => [fst node; fst node + 8]) nodes).

(** The list a merge leaves on the left: the nodes of the left list with
    the sums of the values while both lists last, then what is left of the
    longer list. *)
Fixpoint merged_nodes (la lb : list (Z * Z)) : list (Z * Z) :=
  match la with
  | [] => lb
  | a :: la' =>
      match lb with
      | [] => la
      | b :: lb' => (fst a, wrap true 64 (snd a + snd b)) :: merged_nodes la' lb'
      end
  end.

(** The closure [Gen] builds for [T], and the table its thunk calls
    through. *)
Definition linked_plan : plan :=
  MergeStruct (append_offset reflect.Int 8 empty_vectors)
    [(0, MergePtr (MergeThunk "main.T"))].

Definition linked_slots : structFs := {[ "main.T"%string := Some linked_plan ]}.

(** ** More types and stores for examples *)

Module Cases.
Import reflect.

(** [type S struct { name string; x uint64; ok bool }] *)
Definition named : list decl :=
  [ Ex.struct "main" "S" 32
      [ Ex.field "name" 0 (Basic String); Ex.field "x" 16 (Basic Uint64);
        Ex.field "ok" 24 (Basic Bool) ] ].

(** The values (_, 1, false) at 4096 and (_, 7, true) at 8192 of that
    struct; the strings hold no cell the merge could read. *)
Definition named_store : heap :=
  {| cells := Ex.mem [ (4112, CInt Uint64 1); (4120, CBool false);
                       (8208, CInt Uint64 7); (8216, CBool true) ];
     maps := ∅; brk := 65536 |}.

(** The arrays [[2]int32{1, 2}] at 4096 and [[2]int32{10, 20}] at 8192. *)
Definition int32_arrays : heap :=
  {| cells := Ex.mem [ (4096, CInt Int32 1); (4100, CInt Int32 2);
                       (8192, CInt Int32 10); (8196, CInt Int32 20) ];
     maps := ∅; brk := 65536 |}.

(** [type E struct{}] and [type S struct { a, b E }] *)
Definition empty_twice : list decl :=
  [ Ex.struct "main" "E" 0 [];
    Ex.struct "main" "S" 0 [ Ex.field "a" 0 (Defined 0); Ex.field "b" 0 (Defined 0) ] ].

(** Two sets [map[int]struct{}]: [{1, 2}] at 4096 and [{2, 3}] at 8192,
    then [{1}] at 4104 and [{3}] at 8200. *)
Definition int_sets : heap :=
  {| cells := Ex.mem [ (4096, CPtr 20480); (8192, CPtr 24576);
                       (4104, CPtr 20496); (8200, CPtr 24592) ];
     maps := list_to_map
               [ (20480, [ (Ex.int_blob 1, []); (Ex.int_blob 2, []) ]);
                 (24576, [ (Ex.int_blob 2, []); (Ex.int_blob 3, []) ]);
                 (20496, [ (Ex.int_blob 1, []) ]);
                 (24592, [ (Ex.int_blob 3, []) ]) ];
     brk := 65536 |}.

(** Left [m] is [{1: 1}]; right [m] is the nil map. *)
Definition nil_right_map : heap :=
  {| cells := Ex.mem [ (4096, CPtr 20480); (8192, CPtr 0) ];
     maps := {[ 20480 := [ (Ex.int_blob 1, Ex.int_blob 1) ] ]};
     brk := 65536 |}.

(** Two lists of [T] nodes: 1 -> 2 from 4096 and 10 -> 20 -> 30 from
    8192. *)
Definition two_lists : heap :=
  {| cells := Ex.mem [ (4096, CPtr 4112); (4104, CInt Int 1);
                       (4112, CPtr 0); (4120, CInt Int 2);
                       (8192, CPtr 8208); (8200, CInt Int 10);
                       (8208, CPtr 8224); (8216, CInt Int 20);
                       (8224, CPtr 0); (8232, CInt Int 30) ];
     maps := ∅; brk := 65536 |}.
End Cases.

(** ** The test of the package

    [TestGen] of [mergetyp_test.go]: the types [Bar], [foobar], [foo] and
    [S], the value [sl] at address 1000 and the value [sr] at address 2000,
    with what they point to. *)

Module TestGen.
Import reflect.

Definition pkg : string := "github.com/twmb/go-mergetyp".

Definition types : list decl :=
  [ Ex.struct pkg "Bar" 8 [ Ex.field "Baz" 0 (Basic Chan) ];
    Ex.struct pkg "foobar" 32
      [ Ex.field "bar" 0 (SliceOf (Defined 0));
        Ex.field "m" 24 (MapOf (Defined 2) (MapOf (Defined 2) (Basic Int))) ];
    Ex.struct pkg "foo" 16 [ Ex.field "o" 0 (Basic Int); Ex.field "t" 8 (Basic Int) ];
    Ex.struct pkg "S" 144
      [ Ex.field "F1" 0 (Basic Uint64);
        Ex.field "f2" 8 (Basic Float32);
        Ex.field "f3" 16 (Basic Uint64);
        Ex.field "f4" 24 (Basic Bool);
        Ex.field "f5" 32 (SliceOf (Defined 2));
        Ex.field "f6" 56 (ArrayOf 2 (Basic Int));
        Ex.field "f7" 72 (PtrTo (Basic Int));
        Ex.field "Foo" 80 (Defined 1);
        Ex.field "m2" 112 (MapOf (Basic Int) (PtrTo (Basic Int)));
        Ex.field "m3" 120 (MapOf (Basic Int) (SliceOf (Defined 2)));
        Ex.field "m4" 128 (MapOf (Basic Int) (Defined 2));
        Ex.field "m5" 136 (MapOf (Basic Int) (ArrayOf 2 (PtrTo (Defined 2)))) ] ].

Definition int (n : Z) : cell := CInt Int n.
Definition float32 (m : positive) (e : Z) : cell := CFloat Float32 (S754_finite false m e).

(** A slice header in memory, and the values of the test as map keys and
    map values. *)
Definition header (a d n c : Z) : list (Z * cell) :=
  [ (a, CPtr d); (a + 8, int n); (a + 16, int c) ].
Definition foo (o t : Z) : blob := Ex.int_blob o ++ Ex.int_blob t.
Definition slice (d n c : Z) : blob := Ex.ptr_blob d ++ Ex.int_blob n ++ Ex.int_blob c.

Definition store : heap :=
  {| cells :=
       Ex.mem
         ((* sl *)
          [ (1000, CInt Uint64 1); (1008, float32 8388608 (-22)); (1016, CInt Uint64 3);
            (1024, CBool false) ]
          ++ header 1032 3000 2 2
          ++ [ (1056, int 1); (1064, int 1); (1072, CPtr 3200) ]
          ++ header 1080 3300 1 1
          ++ [ (1104, CPtr 5000); (1112, CPtr 5100); (1120, CPtr 5200); (1128, CPtr 5300);
               (1136, CPtr 5400) ]
          ++ [ (3000, int 2); (3008, int 3); (3016, int 4); (3024, int 5); (3200, int 5);
               (3300, CPtr 7777) ]
          (* sr *)
          ++ [ (2000, CInt Uint64 7); (2008, float32 8388608 (-20)); (2016, CInt Uint64 9);
               (2024, CBool true) ]
          ++ header 2032 3100 1 1
          ++ [ (2056, int 2); (2064, int 2); (2072, CPtr 3208) ]
          ++ header 2080 0 0 0
          ++ [ (2104, CPtr 6000); (2112, CPtr 6100); (2120, CPtr 6200); (2128, CPtr 6300);
               (2136, CPtr 6400) ]
          ++ [ (3100, int 2); (3108, int 2); (3208, int 6) ]
          (* what the values of m2, m3 and m5 point to *)
          ++ [ (4000, int 5); (4008, int 6); (4016, int 7) ]
          ++ [ (4100, int 2); (4108, int 2); (4116, int 3); (4124, int 3);
               (4140, int 4); (4148, int 4); (4160, int 5); (4168, int 5) ]
          ++ [ (4200, int 1); (4208, int 2); (4216, int 3); (4224, int 4);
               (4240, int 1); (4248, int 2); (4256, int 3); (4264, int 4) ]);
     maps :=
       list_to_map
         [ (5000, [ (foo 2 2, Ex.ptr_blob 5010); (foo 3 3, Ex.ptr_blob 5020) ]);
           (5010, [ (foo 8 8, Ex.int_blob 1) ]);
           (5020, [ (foo 9 9, Ex.int_blob 2) ]);
           (6000, [ (foo 3 3, Ex.ptr_blob 6010); (foo 4 4, Ex.ptr_blob 6020) ]);
           (6010, [ (foo 9 9, Ex.int_blob 9) ]);
           (6020, [ (foo 16 16, Ex.int_blob 4) ]);
           (5100, [ (Ex.int_blob 5, Ex.ptr_blob 4000) ]);
           (6100, [ (Ex.int_blob 5, Ex.ptr_blob 4008); (Ex.int_blob 7, Ex.ptr_blob 4016) ]);
           (5200, [ (Ex.int_blob 1, slice 4100 2 2); (Ex.int_blob 2, slice 4140 1 1) ]);
           (6200, [ (Ex.int_blob 1, slice 4160 1 1) ]);
           (5300, [ (Ex.int_blob 1, foo 2 2) ]);
           (6300, [ (Ex.int_blob 1, foo 2 2); (Ex.int_blob 2, foo 3 3) ]);
           (5400, [ (Ex.int_blob 1, Ex.ptr_blob 4200 ++ Ex.ptr_blob 4216) ]);
           (6400, [ (Ex.int_blob 1, Ex.ptr_blob 4240 ++ Ex.ptr_blob 4256) ]) ];
     brk := 100000 |}.

Definition sl : ifaceWords := Ex.ptr_to 3 1000.
Definition sr : ifaceWords := Ex.ptr_to 3 2000.

(** The options of the test. *)
Definition options : list option_func :=
  [ SkipFields ["F1"; "f5>o"; "Foo>bar>Baz"]; WithSlowerMapsUnsafely ].

(** [f, err := Gen(&sl, ...); f(&sl, &sr)] *)
Definition run : outcome :=
  match Gen 8 types sl options with
  | Some (inr f) => call 8 f store sl sr
  | _ => Fault
  end.

(** What [reflect.DeepEqual(sl, exp)] looks at: the fields of [sl], the
    elements of the slices and what the pointers point to, as (address, cell)
    pairs, and the map objects reached from [sl], as (handle, entries)
    pairs. *)
Definition observe (s : heap) : list (Z * option cell) * list (Z * option (list (blob * blob))) :=
  (map (fun a => (a, cells s !! a))
     [ 1000; 1008; 1016; 1024; 1032; 1040; 1048; 3000; 3008; 3016; 3024;
       1056; 1064; 1072; 3200; 1080; 1088; 1096; 3300;
       1104; 1112; 1120; 1128; 1136;
       4000; 4016; 4100; 4108; 4116; 4124; 4140; 4148; 4200; 4208; 4216; 4224 ],
   map (fun h => (h, maps s !! h)) [ 5000; 5010; 5020; 6020; 5100; 5200; 5300; 5400 ]).

(** The value [exp] of the test, seen the same way. *)
Definition exp : list (Z * option cell) * list (Z * option (list (blob * blob))) :=
  ((* F1: 1, f2: 10, f3: 12, f4: true *)
   [ (1000, Some (CInt Uint64 1)); (1008, Some (float32 10485760 (-20)));
     (1016, Some (CInt Uint64 12)); (1024, Some (CBool true)) ]
   (* f5: two elements, (2, 5) and (4, 5) *)
   ++ map (fun c => (fst c, Some (snd c)))
        (header 1032 3000 2 2
         ++ [ (3000, int 2); (3008, int 5); (3016, int 4); (3024, int 5) ]
         (* f6: (3, 3); f7: a pointer to 11 *)
         ++ [ (1056, int 3); (1064, int 3); (1072, CPtr 3200); (3200, int 11) ]
         (* Foo.bar: sl.Foo.bar *)
         ++ header 1080 3300 1 1 ++ [ (3300, CPtr 7777) ]
         (* the handles of Foo.m, m2, m3, m4 and m5 *)
         ++ [ (1104, CPtr 5000); (1112, CPtr 5100); (1120, CPtr 5200); (1128, CPtr 5300);
              (1136, CPtr 5400) ]
         (* m2: 5 points to 11, 7 points to 7 *)
         ++ [ (4000, int 11); (4016, int 7) ]
         (* m3: 1 holds (7, 7), (3, 3); 2 holds (4, 4) *)
         ++ [ (4100, int 7); (4108, int 7); (4116, int 3); (4124, int 3);
              (4140, int 4); (4148, int 4) ]
         (* m5: 1 holds pointers to (2, 4) and to (6, 8) *)
         ++ [ (4200, int 2); (4208, int 4); (4216, int 6); (4224, int 8) ]),
   map (fun m => (fst m, Some (snd m)))
     [ (* Foo.m: (2,2) holds (8,8): 1; (3,3) holds (9,9): 11; (4,4) holds (16,16): 4 *)
       (5000, [ (foo 2 2, Ex.ptr_blob 5010); (foo 3 3, Ex.ptr_blob 5020);
                (foo 4 4, Ex.ptr_blob 6020) ]);
       (5010, [ (foo 8 8, Ex.int_blob 1) ]);
       (5020, [ (foo 9 9, Ex.int_blob 11) ]);
       (6020, [ (foo 16 16, Ex.int_blob 4) ]);
       (5100, [ (Ex.int_blob 5, Ex.ptr_blob 4000); (Ex.int_blob 7, Ex.ptr_blob 4016) ]);
       (5200, [ (Ex.int_blob 1, slice 4100 2 2); (Ex.int_blob 2, slice 4140 1 1) ]);
       (* m4: 1 holds (4, 4), 2 holds (3, 3) *)
       (5300, [ (Ex.int_blob 1, foo 4 4); (Ex.int_blob 2, foo 3 3) ]);
       (5400, [ (Ex.int_blob 1, Ex.ptr_blob 4200 ++ Ex.ptr_blob 4216) ]) ]).
End TestGen.

(** The closure [Gen] builds for [T] under the skip [Next>V]: the first
    node is merged in full, the value of the second node is left alone, and
    from the third node on the closure remembered for [T] takes over. *)
Definition second_value_skipped : plan :=
  MergeStruct (append_offset reflect.Int 8 empty_vectors)
    [(0, MergePtr (MergeStruct empty_vectors [(0, MergePtr linked_plan)]))].

(** A key under which both maps hold a pointer that is not nil. *)
Definition shared_pointers (el er : list (blob * blob)) (key : blob) (pl pr : Z) : Prop :=
  lookup_entry key el = Some (Ex.ptr_blob pl)
  /\ lookup_entry key er = Some (Ex.ptr_blob pr)
  /\ pl <> 0 /\ pr <> 0.

(** Under the key, what the two maps both hold are pointers, and where
    neither is nil both point to a number of kind [k] in the store. *)
Definition number_pointers (k : reflect.Kind) (s : heap) (el er : list (blob * blob))
    (key : blob) : Prop :=
  forall lkv rkv,
    lookup_entry key el = Some lkv -> lookup_entry key er = Some rkv ->
    exists pl pr,
      lkv = Ex.ptr_blob pl /\ rkv = Ex.ptr_blob pr
      /\ (pl <> 0 -> pr <> 0 ->
          pl < brk s /\ pr < brk s
          /\ exists a b, cells s !! pl = Some a /\ cells s !! pr = Some b
                         /\ cell_of_kind k a = true /\ cell_of_kind k b = true).

(** Two [map[int]*int] slots: at 4096 the map [{5: &5, 9: nil}], at 8192
    the map [{5: &6, 7: &7, 9: &6}], whose keys 5 and 9 hold one pointer. *)
Definition int_pointer_maps : heap :=
  {| cells := Ex.mem [ (4096, CPtr 20480); (8192, CPtr 24576);
                       (4000, CInt reflect.Int 5); (4008, CInt reflect.Int 6);
                       (4016, CInt reflect.Int 7) ];
     maps := list_to_map
               [ (20480, [ (Ex.int_blob 5, Ex.ptr_blob 4000); (Ex.int_blob 9, Ex.ptr_blob 0) ]);
                 (24576, [ (Ex.int_blob 5, Ex.ptr_blob 4008); (Ex.int_blob 7, Ex.ptr_blob 4016);
                           (Ex.int_blob 9, Ex.ptr_blob 4008) ]) ];
     brk := 65536 |}.

(** [type Inner struct { x, y int }] and
    [type Outer struct { n int; Foo Inner; m int }]. *)
Definition nested_structs : list reflect.decl :=
  [ Ex.struct "main" "Inner" 16
      [ Ex.field "x" 0 (reflect.Basic reflect.Int); Ex.field "y" 8 (reflect.Basic reflect.Int) ];
    Ex.struct "main" "Outer" 32
      [ Ex.field "n" 0 (reflect.Basic reflect.Int); Ex.field "Foo" 8 (reflect.Defined 0);
        Ex.field "m" 24 (reflect.Basic reflect.Int) ] ].

(** The values (1, (2, 3), 4) at 4096 and (10, (20, 30), 40) at 8192 of
    [Outer]. *)
Definition nested_store : heap :=
  {| cells := Ex.mem [ (4096, CInt reflect.Int 1); (4104, CInt reflect.Int 2);
                       (4112, CInt reflect.Int 3); (4120, CInt reflect.Int 4);
                       (8192, CInt reflect.Int 10); (8200, CInt reflect.Int 20);
                       (8208, CInt reflect.Int 30); (8216, CInt reflect.Int 40) ];
     maps := ∅; brk := 65536 |}.

(** * Properties *)

(** ** Skip paths: configurations the generator accepts *)

(** C5.  With [type S struct { A []int }] and the skip ["A>foo"] the
    generator returns a merge function and no error, although no field named
    [foo] exists at any level: a slice (or array) of a primitive kind is
    answered by [genSlice] before the residual skips are looked at. *)
Theorem unconsumed_skip_is_accepted (fuel : nat) :
  Gen (S (S fuel)) Ex.slice_field (Ex.ptr_to 0 4096) [SkipField "A>foo"]
  = Some (inr {| root := reflect.PtrTo (reflect.Defined 0);
                 merge := Some (MergeStruct empty_vectors
                                  [(0, MergeSlicePrim reflect.Int 8)]);
                 slots := ∅ |}).
Proof. vm_compute. reflexivity. Qed.

(** C8.  With [type S struct { A []int }] the skip ["A>"], whose last
    segment is empty, is accepted: the test [len(skip) < idx+1] of
    [genStruct] never holds for the index of a byte of [skip], so the empty
    remainder is handed to the field, and a slice of a primitive kind does
    not look at it. *)
Theorem trailing_separator_is_accepted (fuel : nat) :
  Gen (S (S fuel)) Ex.slice_field (Ex.ptr_to 0 4096) [SkipField "A>"]
  = Some (inr {| root := reflect.PtrTo (reflect.Defined 0);
                 merge := Some (MergeStruct empty_vectors
                                  [(0, MergeSlicePrim reflect.Int 8)]);
                 slots := ∅ |}).
Proof. vm_compute. reflexivity. Qed.

(** The same residual skips are refused on the other paths of the
    generator: behind a pointer to a primitive kind by the test at the head
    of [gen], on a field of a grouped primitive kind and on a struct field by
    the two tests at the end of [genStruct]; a leading separator is refused
    by the test [idx == 0]. *)
Lemma residual_skips_refused_elsewhere :
  Gen 3 Ex.pointer_field (Ex.ptr_to 0 4096) [SkipField "p>foo"]
  = Some (inl (ErrSkipKind reflect.Int32))
  /\ Gen 3 Ex.pointer_field (Ex.ptr_to 0 4096) [SkipField "p>"]
     = Some (inl (ErrSkipKind reflect.Int32))
  /\ Gen 3 Ex.scenario_A (Ex.ptr_to 0 4096) [SkipField "x>foo"]
     = Some (inl ErrNextLevelNotSeen)
  /\ Gen 3 Ex.two_literals (Ex.ptr_to 2 4096) [SkipField "A>foo"]
     = Some (inl ErrSkipNotSeen)
  /\ Gen 3 Ex.two_literals (Ex.ptr_to 2 4096) [SkipField "A>"]
     = Some (inl ErrSkipNotSeen)
  /\ Gen 3 Ex.slice_field (Ex.ptr_to 0 4096) [SkipField ">A"]
     = Some (inl ErrEmptyFieldName)
  /\ Gen 3 Ex.slice_field (Ex.ptr_to 0 4096) [SkipField "B"]
     = Some (inl ErrSkipNotSeen).
Proof. repeat split; vm_compute; reflexivity. Qed.

(** ** The table of struct plans *)

(** C6.  [type S struct { A struct{ X int }; B struct{ P, Q int } }]: both
    struct literals have the empty package path and the empty name, so both
    are looked up under the key ["."].  The plan built for [A] is saved under
    that key and the field [B] gets a thunk to it: the merge of [B] adds [P]
    and leaves [Q] alone. *)
Theorem distinct_structs_share_one_plan :
  exists e s',
    Gen 3 Ex.two_literals (Ex.ptr_to 2 4096) [] = Some (inr e)
    /\ merge e = Some (MergeStruct empty_vectors
                        [ (0, MergeStruct (append_offset reflect.Int 0 empty_vectors) []);
                          (8, MergeThunk ".") ])
    /\ slots e !! "."%string
       = Some (Some (MergeStruct (append_offset reflect.Int 0 empty_vectors) []))
    /\ call 3 e Ex.two_literals_store (Ex.ptr_to 2 4096) (Ex.ptr_to 2 8192) = Done s'
    /\ cells s' !! 4104 = Some (CInt reflect.Int 11)
    /\ cells s' !! 4112 = Some (CInt reflect.Int 2).
Proof.
  eexists. eexists.
  split; [vm_compute; reflexivity|].
  split; [vm_compute; reflexivity|].
  split; [vm_compute; reflexivity|].
  split; [vm_compute; reflexivity|].
  split; vm_compute; reflexivity.
Qed.

(** The same happens with two declared types: the two types named [T] of
    [Ex.two_locals] are distinct types with one key, ["main.T"]. *)
Lemma distinct_local_types_share_one_plan :
  exists e,
    Gen 4 Ex.two_locals (Ex.ptr_to 3 4096) [] = Some (inr e)
    /\ merge e = Some (MergeStruct empty_vectors
                        [ (0, MergeStruct empty_vectors
                                [ (0, MergeStruct (append_offset reflect.Int 0 empty_vectors) []) ]);
                          (8, MergeThunk "main.T") ])
    /\ reflect.Defined 0 <> reflect.Defined 2.
Proof.
  eexists. split; [vm_compute; reflexivity|].
  split; [vm_compute; reflexivity|]. discriminate.
Qed.

(** ** Termination of the generator *)

Lemma gen_recursive_slice_runs_on (fuel : nat) (useMap : bool) (fs : structFs) :
  gen fuel Ex.recursive_slice useMap [] (reflect.Defined 0) fs = None.
Proof.
  induction fuel as [|fuel IH]; [reflexivity|].
  change (gen (S fuel) Ex.recursive_slice useMap [] (reflect.Defined 0) fs)
    with (genSlice Ex.recursive_slice (gen fuel Ex.recursive_slice useMap) []
            (reflect.Defined 0) fs).
  unfold genSlice.
  change (is_grouped (reflect.KindOf Ex.recursive_slice (reflect.Defined 0))) with false.
  cbv iota. rewrite IH. reflexivity.
Qed.

(** [type L []L; type S struct { Kids L }]: whatever the fuel, the
    generator has not returned; the descent through the declared slice type
    [L] meets no struct, so it never reaches the table of saved plans. *)
Lemma generation_of_recursive_slice_runs_on (fuel : nat) :
  Gen fuel Ex.recursive_slice (Ex.ptr_to 1 4096) [] = None.
Proof.
  destruct fuel as [|fuel]; [reflexivity|].
  unfold Gen.
  change (apply_options [] {| skips := []; unsafeMap := false |})
    with (@inr error Config {| skips := []; unsafeMap := false |}).
  cbv beta iota.
  change (reflect.resolve Ex.recursive_slice (typ (Ex.ptr_to 1 4096)))
    with (reflect.SPtr (reflect.Defined 1)).
  cbv beta iota.
  change (data (Ex.ptr_to 1 4096) =? 0) with false.
  cbv beta iota zeta.
  destruct (decide (reflect.KindOf Ex.recursive_slice (reflect.Defined 1) = reflect.Ptr))
    as [E|_]; [vm_compute in E; discriminate|].
  change (skips {| skips := []; unsafeMap := false |}) with (@nil string).
  change (unsafeMap {| skips := []; unsafeMap := false |}) with false.
  change (gen (S fuel) Ex.recursive_slice false [] (reflect.Defined 1) ∅)
    with (gen_body Ex.recursive_slice false (gen fuel Ex.recursive_slice false) []
            (reflect.Defined 1) ∅).
  unfold gen_body.
  change (reflect.resolve Ex.recursive_slice (reflect.Defined 1))
    with (reflect.SStruct (Ex.struct "main" "S" 24 [Ex.field "Kids" 0 (reflect.Defined 0)])
            [Ex.field "Kids" 0 (reflect.Defined 0)]).
  cbv beta iota zeta.
  change (0 <? Z.of_nat (length (@nil string))) with false.
  cbv beta iota.
  change ((false && negb (may_hold_skips
            (reflect.KindOf Ex.recursive_slice (reflect.Defined 1))))%bool) with false.
  cbv beta iota.
  replace ((∅ : structFs) !! struct_name (Ex.struct "main" "S" 24 [Ex.field "Kids" 0 (reflect.Defined 0)]))
    with (@None (option plan)) by (vm_compute; reflexivity).
  unfold genStruct.
  change (parse_skips [] ∅ ∅) with (@inr error _ (∅ : gset string, ∅ : gmap string (list string))).
  cbv beta iota.
  unfold genStruct_fields.
  cbn [reflect.Name Ex.field skipMyLevel].
  destruct (decide ("Kids"%string ∈ (∅ : gset string))) as [E|_]; [set_solver|].
  cbn [reflect.Type_ skipNextLevel].
  change (is_grouped (reflect.KindOf Ex.recursive_slice (reflect.Defined 0))) with false.
  cbv iota.
  rewrite gen_recursive_slice_runs_on. reflexivity.
Qed.

(** ** The type guard of [Gen] *)

Lemma Gen_root (fuel : nat) (types : list reflect.decl) (i : ifaceWords)
    (options : list option_func) (e : executor) :
  Gen fuel types i options = Some (inr e) -> root e = typ i.
Proof.
  unfold Gen. intros H.
  destruct (apply_options options _) as [err|c]; [discriminate|].
  destruct (reflect.resolve types (typ i)); try discriminate.
  destruct (decide _); [discriminate|].
  destruct (gen fuel types _ _ _ _) as [[[err|f] fs]|]; try discriminate.
  injection H as <-. reflexivity.
Qed.

Lemma check_mismatch (iw : reflect.rtype) (l r : ifaceWords) :
  typ l <> iw \/ typ r <> iw -> check iw l r = None.
Proof.
  intros H. unfold check.
  destruct (bool_decide (typ l <> iw)) eqn:El; [reflexivity|].
  destruct (bool_decide (typ r <> iw)) eqn:Er; [reflexivity|].
  apply bool_decide_eq_false in El, Er. tauto.
Qed.

Lemma check_match (iw : reflect.rtype) (l r : ifaceWords) :
  typ l = iw -> typ r = iw -> check iw l r = Some (data l, data r).
Proof.
  intros Hl Hr. unfold check.
  rewrite (bool_decide_eq_false_2 (typ l <> iw)) by tauto.
  rewrite (bool_decide_eq_false_2 (typ r <> iw)) by tauto.
  reflexivity.
Qed.

(** C4, as the code has it.  A function returned by [Gen] panics whenever
    one of its arguments does not have the type [Gen] was called with.  With
    two arguments of that type it runs the generated closure on the two data
    pointers; when [gen] returned the nil closure it does nothing, so the
    no-op function panics exactly on a type mismatch. *)
Theorem guard_then_merge (fuel : nat) (types : list reflect.decl) (i : ifaceWords)
    (options : list option_func) (e : executor) (n : nat) (s : heap) (l r : ifaceWords) :
  Gen fuel types i options = Some (inr e) ->
  (typ l <> typ i \/ typ r <> typ i -> call n e s l r = Panic)
  /\ (typ l = typ i -> typ r = typ i ->
      call n e s l r =
        match merge e with
        | None => Done s
        | Some f => exec n (slots e) f s (data l) (data r)
        end)
  /\ (merge e = None ->
      (call n e s l r = Panic <-> typ l <> typ i \/ typ r <> typ i)
      /\ (typ l = typ i -> typ r = typ i -> call n e s l r = Done s)).
Proof.
  intros HG. pose proof (Gen_root _ _ _ _ _ HG) as Hroot.
  assert (Hbad : typ l <> typ i \/ typ r <> typ i -> call n e s l r = Panic).
  { intros H. unfold call. rewrite Hroot, (check_mismatch _ _ _ H). reflexivity. }
  assert (Hgood : typ l = typ i -> typ r = typ i ->
                  call n e s l r =
                    match merge e with
                    | None => Done s
                    | Some f => exec n (slots e) f s (data l) (data r)
                    end).
  { intros Hl Hr. unfold call. rewrite Hroot, (check_match _ _ _ Hl Hr). reflexivity. }
  split; [exact Hbad|]. split; [exact Hgood|].
  intros Hnil. split.
  - split; [|exact Hbad].
    intros Hp.
    destruct (decide (typ l = typ i)) as [Hl|Hl]; [|left; exact Hl].
    destruct (decide (typ r = typ i)) as [Hr|Hr]; [|right; exact Hr].
    rewrite (Hgood Hl Hr), Hnil in Hp. discriminate.
  - intros Hl Hr. rewrite (Hgood Hl Hr), Hnil. reflexivity.
Qed.

(** The guard at work on [type S struct { A []int }] with the field [A]
    skipped: the plan is empty, a call on two [*S] changes nothing, a call
    with an [*int] panics. *)
Lemma guard_then_merge_noop :
  exists e,
    Gen 3 Ex.slice_field (Ex.ptr_to 0 4096) [SkipField "A"] = Some (inr e)
    /\ merge e = None
    /\ call 0 e Ex.pointer_store (Ex.ptr_to 0 4096) (Ex.ptr_to 0 8192) = Done Ex.pointer_store
    /\ call 0 e Ex.pointer_store (Ex.ptr_to 0 4096)
         {| typ := reflect.PtrTo (reflect.Basic reflect.Int); data := 8192 |} = Panic.
Proof.
  eexists. split; [vm_compute; reflexivity|].
  split; [reflexivity|].
  match goal with
  | |- call _ ?e _ _ _ = _ /\ _ =>
      assert (HG : Gen 3 Ex.slice_field (Ex.ptr_to 0 4096) [SkipField "A"] = Some (inr e))
        by (vm_compute; reflexivity)
  end.
  split.
  - destruct (guard_then_merge 3 Ex.slice_field (Ex.ptr_to 0 4096) [SkipField "A"] _
                0%nat Ex.pointer_store (Ex.ptr_to 0 4096) (Ex.ptr_to 0 8192) HG)
      as [_ [_ Hnil]].
    apply Hnil; reflexivity.
  - destruct (guard_then_merge 3 Ex.slice_field (Ex.ptr_to 0 4096) [SkipField "A"] _
                0%nat Ex.pointer_store (Ex.ptr_to 0 4096)
                {| typ := reflect.PtrTo (reflect.Basic reflect.Int); data := 8192 |} HG)
      as [Hbad _].
    apply Hbad. right. simpl. discriminate.
Defined.

(** C4 as stated fails: the function generated for
    [type S struct { m map[int]int }] panics on two arguments of type [*S]
    when the left map is nil and the right one has an entry. *)
Lemma matching_types_can_panic :
  ~ (forall fuel types i options e n s l r,
        Gen fuel types i options = Some (inr e) ->
        (call n e s l r = Panic <-> typ l <> typ i \/ typ r <> typ i)).
Proof.
  intros H.
  assert (HG : Gen 3 Ex.map_field (Ex.ptr_to 0 4096) [WithSlowerMapsUnsafely]
               = Some (inr {| root := reflect.PtrTo (reflect.Defined 0);
                              merge := Some (MergeStruct empty_vectors
                                               [(0, MergeMap false true 8 (Some (MergePrim reflect.Int)))]);
                              slots := {[ "main.S"%string :=
                                            Some (MergeStruct empty_vectors
                                                    [(0, MergeMap false true 8 (Some (MergePrim reflect.Int)))]) ]} |}))
    by (vm_compute; reflexivity).
  destruct (H _ _ _ _ _ 3%nat Ex.nil_left_map (Ex.ptr_to 0 4096) (Ex.ptr_to 0 8192) HG)
    as [Hp _].
  destruct Hp as [Hp|Hp]; [vm_compute; reflexivity| |]; apply Hp; reflexivity.
Qed.

(** ** Pointers *)

Lemma store_present (s : heap) (a : Z) (c c' : cell) :
  cells s !! a = Some c' -> store s a c = Done (with_cells s (<[ a := c ]> (cells s))).
Proof. intros H. unfold store. rewrite H. reflexivity. Qed.

(** C2.  The closure [gen] returns for a pointer type whose element has a
    non-empty plan [f]: with a nil left slot the right pointer moves to the
    left slot and the right slot becomes nil; else with a nil right slot
    nothing changes; else [f] is called on the two targets. *)
Theorem pointer_merge (fuel : nat) (types : list reflect.decl) (useMap : bool)
    (skips : list string) (t et : reflect.rtype) (fs fs' : structFs) (p : plan) :
  reflect.resolve types t = reflect.SPtr et ->
  gen (S fuel) types useMap skips t fs = Some (Built (Some p), fs') ->
  exists f,
    gen fuel types useMap skips et fs = Some (Built (Some f), fs')
    /\ p = MergePtr f
    /\ forall (n : nat) (slots : structFs) (s : heap) (l r il ir : Z),
        cells s !! l = Some (CPtr il) ->
        cells s !! r = Some (CPtr ir) ->
        exec (S n) slots p s l r =
          if il =? 0 then
            Done (with_cells s (<[ r := CPtr 0 ]> (<[ l := CPtr ir ]> (cells s))))
          else if ir =? 0 then Done s
          else exec n slots f s il ir.
Proof.
  intros Hres Hgen.
  change (gen (S fuel) types useMap skips t fs)
    with (gen_body types useMap (gen fuel types useMap) skips t fs) in Hgen.
  unfold gen_body in Hgen.
  assert (Hk : reflect.KindOf types t = reflect.Ptr)
    by (unfold reflect.KindOf; rewrite Hres; reflexivity).
  rewrite Hk, Hres in Hgen.
  replace ((0 <? Z.of_nat (length skips)) && negb (may_hold_skips reflect.Ptr)) with false in Hgen
    by (simpl; rewrite andb_false_r; reflexivity).
  destruct (gen fuel types useMap skips et fs) as [[[err|[f|]] fs1]|]; try discriminate.
  injection Hgen as <- <-.
  exists f. split; [reflexivity|]. split; [reflexivity|].
  intros n slots s l r il ir Hl Hr.
  cbn [exec]. rewrite Hl, Hr.
  destruct (il =? 0); [|reflexivity].
  rewrite (store_present _ _ _ _ Hl).
  unfold store. cbn [cells with_cells].
  destruct (decide (l = r)) as [->|Hne].
  - rewrite lookup_insert_eq. reflexivity.
  - rewrite lookup_insert_ne by exact Hne. rewrite Hr. reflexivity.
Qed.

(** Scenario D on the closure generated for [*int32]: the nil left slot at
    4096 takes over the target of the right slot at 8192, which becomes nil;
    merging then the right slot at 8200, which points to 5, adds up to 11 in
    the target and leaves the right side as it was. *)
Lemma pointer_merge_scenario_D :
  exists f s1 s2,
    gen 2 Ex.pointer_field false [] (reflect.PtrTo (reflect.Basic reflect.Int32)) ∅
      = Some (Built (Some (MergePtr f)), ∅)
    /\ exec 2 ∅ (MergePtr f) Ex.pointer_store 4096 8192 = Done s1
    /\ cells s1 !! 4096 = Some (CPtr 12288)
    /\ cells s1 !! 8192 = Some (CPtr 0)
    /\ exec 2 ∅ (MergePtr f) s1 4096 8200 = Done s2
    /\ cells s2 !! 4096 = Some (CPtr 12288)
    /\ cells s2 !! 12288 = Some (CInt reflect.Int32 11)
    /\ cells s2 !! 8200 = Some (CPtr 12296)
    /\ cells s2 !! 12296 = Some (CInt reflect.Int32 5).
Proof.
  destruct (pointer_merge 1 Ex.pointer_field false []
              (reflect.PtrTo (reflect.Basic reflect.Int32)) (reflect.Basic reflect.Int32)
              ∅ ∅ (MergePtr (MergePrim reflect.Int32)))
    as [f [Hf [Hp Hexec]]]; [reflexivity | vm_compute; reflexivity |].
  injection Hp as <-.
  exists (MergePrim reflect.Int32).
  eexists. eexists.
  split; [vm_compute; reflexivity|].
  split.
  { rewrite (Hexec 1%nat ∅ Ex.pointer_store 4096 8192 0 12288) by (vm_compute; reflexivity).
    reflexivity. }
  split; [vm_compute; reflexivity|].
  split; [vm_compute; reflexivity|].
  split.
  { match goal with |- exec _ _ _ ?s _ _ = _ =>
      rewrite (Hexec 1%nat ∅ s 4096 8200 12288 12296) by (vm_compute; reflexivity) end.
    vm_compute. reflexivity. }
  repeat split; vm_compute; reflexivity.
Defined.

(** ** Slices *)

Lemma loop_offsets_elems (size n : Z) :
  0 < size -> 0 <= n -> loop_offsets (n * size) size = elem_offsets size n.
Proof.
  intros Hs Hn. unfold loop_offsets, elem_offsets.
  destruct (size <=? 0) eqn:E; [lia|].
  replace ((n * size + size - 1) / size) with n; [reflexivity|].
  replace (n * size + size - 1) with (n * size + (size - 1)) by lia.
  rewrite Z.div_add_l by lia. rewrite Z.div_small by lia. lia.
Qed.

Lemma elem_offsets_bound (size n off : Z) :
  0 < size -> In off (elem_offsets size n) -> 0 <= off /\ off + size <= n * size.
Proof.
  intros Hs Hin. unfold elem_offsets in Hin.
  apply in_map_iff in Hin as [i [<- Hi]]. apply in_seq in Hi. nia.
Qed.

Lemma merge_prim_writes_left (k : reflect.Kind) (s s' : heap) (a b : Z) :
  merge_prim k s a b = Done s' ->
  maps s' = maps s /\ brk s' = brk s
  /\ forall x, x <> a -> cells s' !! x = cells s !! x.
Proof.
  assert (Hst : forall c, store s a c = Done s' ->
                maps s' = maps s /\ brk s' = brk s
                /\ forall x, x <> a -> cells s' !! x = cells s !! x).
  { intros c. unfold store. destruct (cells s !! a); [|discriminate].
    intros [= <-]. repeat split. intros x Hx. cbn. rewrite lookup_insert_ne; congruence. }
  unfold merge_prim.
  destruct k;
    try (destruct (cells s !! a) as [ca|]; [|discriminate];
         destruct (cells s !! b) as [cb|]; [|discriminate];
         destruct (add_cell _ ca cb); [apply Hst|discriminate]).
  destruct (cells s !! b) as [[[]| | | |]|]; try discriminate.
  - apply Hst.
  - intros [= <-]. repeat split.
Qed.

Lemma merge_prim_elements_only (k : reflect.Kind) (size : Z) :
  0 < size -> writes_elements_only size (merge_prim k).
Proof.
  intros Hs s a b s' H x Ha _.
  apply merge_prim_writes_left in H as (_ & _ & H).
  apply H. unfold within in Ha. lia.
Qed.

Section SliceLoop.
Variable body : heap -> Z -> Z -> outcome.
Variable size : Z.
Hypothesis body_local : writes_elements_only size body.

(** While the element calls stay inside the first [n] elements, the two
    [Data] words read through [l] and [r] keep their values, and so does
    every cell outside those elements. *)
Lemma slice_elements_loop (l r dl dr n : Z) (offs : list Z) (s : heap) :
  cells s !! l = Some (CPtr dl) ->
  cells s !! r = Some (CPtr dr) ->
  ~ within dl (n * size) l -> ~ within dr (n * size) l ->
  ~ within dl (n * size) r -> ~ within dr (n * size) r ->
  (forall off, In off offs -> 0 <= off /\ off + size <= n * size) ->
  for_each
    (fun s0 offset =>
       match slice_elems s0 l r offset with
       | Some (el, er) => body s0 el er
       | None => Fault
       end) offs s
  = for_each (fun s0 offset => body s0 (dl + offset) (dr + offset)) offs s
  /\ forall s',
      for_each (fun s0 offset => body s0 (dl + offset) (dr + offset)) offs s = Done s' ->
      forall x, ~ within dl (n * size) x -> ~ within dr (n * size) x ->
                cells s' !! x = cells s !! x.
Proof.
  intros Hl Hr Hll Hlr Hrl Hrr.
  revert s Hl Hr.
  induction offs as [|off offs IH]; intros s Hl Hr Hoffs.
  - split; [reflexivity|]. intros s' [= <-]. reflexivity.
  - assert (Hoff : 0 <= off /\ off + size <= n * size) by (apply Hoffs; left; reflexivity).
    assert (Hout : forall x, ~ within dl (n * size) x -> ~ within dr (n * size) x ->
                   ~ within (dl + off) size x /\ ~ within (dr + off) size x)
      by (unfold within; intros; lia).
    cbn [for_each]. unfold slice_elems at 1. rewrite Hl, Hr.
    destruct (body s (dl + off) (dr + off)) as [s1| | |] eqn:Hb;
      try (split; [reflexivity|discriminate]).
    assert (Hframe : forall x, ~ within dl (n * size) x -> ~ within dr (n * size) x ->
                     cells s1 !! x = cells s !! x).
    { intros x H1 H2. destruct (Hout x H1 H2). eapply body_local; eassumption. }
    destruct (IH s1) as [IH1 IH2].
    + rewrite Hframe; assumption.
    + rewrite Hframe; assumption.
    + intros o Ho. apply Hoffs. right. exact Ho.
    + split; [exact IH1|].
      intros s' Hs' x H1 H2. rewrite (IH2 s' Hs' x H1 H2). apply Hframe; assumption.
Qed.
End SliceLoop.

Lemma store_header_other (s : heap) (a x : Z) (h : SliceHeader) :
  ~ within a 24 x -> cells (store_header s a h) !! x = cells s !! x.
Proof.
  unfold within. intros H. cbn.
  rewrite !lookup_insert_ne by lia. reflexivity.
Qed.

Lemma load_header_store_header (s : heap) (a : Z) (h : SliceHeader) :
  load_header (store_header s a h) a = Some h.
Proof.
  unfold load_header. cbn.
  rewrite lookup_insert_eq.
  rewrite (lookup_insert_ne _ (a + 16) (a + 8)) by lia. rewrite lookup_insert_eq.
  rewrite (lookup_insert_ne _ (a + 16) a) by lia.
  rewrite (lookup_insert_ne _ (a + 8) a) by lia. rewrite lookup_insert_eq.
  destruct h. reflexivity.
Qed.

Lemma load_header_agree (s s' : heap) (a : Z) :
  (forall x, within a 24 x -> cells s' !! x = cells s !! x) ->
  load_header s' a = load_header s a.
Proof.
  intros H. unfold load_header.
  rewrite !H by (unfold within; lia). reflexivity.
Qed.

Lemma load_header_data (s : heap) (a : Z) (h : SliceHeader) :
  load_header s a = Some h -> cells s !! a = Some (CPtr (Data h)).
Proof.
  unfold load_header. intros H.
  destruct (cells s !! a) as [[| | | |d]|]; try discriminate.
  destruct (cells s !! (a + 8)) as [[|[] n| | |]|]; try discriminate.
  destruct (cells s !! (a + 16)) as [[|[] c| | |]|]; try discriminate.
  injection H as <-. reflexivity.
Qed.

Lemma normalize_headers (size : Z) (s : heap) (l r : Z) (hl hr : SliceHeader) :
  load_header s l = Some hl -> load_header s r = Some hr ->
  separate l 24 r 24 ->
  normalize size s l r = Some (normalized s l r hl hr, Z.min (Len hl) (Len hr) * size)
  /\ load_header (normalized s l r hl hr) l = Some (if Len hl <? Len hr then hr else hl)
  /\ load_header (normalized s l r hl hr) r = Some (if Len hl <? Len hr then hl else hr)
  /\ (forall x, ~ within l 24 x -> ~ within r 24 x ->
               cells (normalized s l r hl hr) !! x = cells s !! x)
  /\ maps (normalized s l r hl hr) = maps s.
Proof.
  intros Hl Hr Hsep. unfold normalize, normalized. rewrite Hl, Hr.
  split.
  { do 3 f_equal. destruct (Z.ltb_spec (Len hr) (Len hl)); lia. }
  destruct (Len hl <? Len hr) eqn:E.
  - split.
    { rewrite <- (load_header_store_header s l hr). apply load_header_agree.
      intros x Hx. apply store_header_other. intros Hx'. exact (Hsep x Hx Hx'). }
    split; [apply load_header_store_header|].
    split; [|reflexivity].
    intros x H1 H2. rewrite !store_header_other by assumption. reflexivity.
  - repeat split; assumption.
Qed.

(** The closure of [genSlice], once the two headers and the elements of
    the overlap lie apart: the headers are exchanged when the right slice is
    the longer one, the element call is made on the first [min] elements of
    the two arrays, and nothing else is written. *)
Lemma slice_loop_spec (body : heap -> Z -> Z -> outcome) (size : Z)
    (s : heap) (l r : Z) (hl hr : SliceHeader) :
  let long := if Len hl <? Len hr then hr else hl in
  let short := if Len hl <? Len hr then hl else hr in
  let m := Z.min (Len hl) (Len hr) in
  0 < size ->
  writes_elements_only size body ->
  load_header s l = Some hl -> load_header s r = Some hr ->
  0 <= Len hl -> 0 <= Len hr ->
  separate l 24 r 24 ->
  separate l 24 (Data long) (m * size) -> separate l 24 (Data short) (m * size) ->
  separate r 24 (Data long) (m * size) -> separate r 24 (Data short) (m * size) ->
  slice_loop body size s l r
  = for_each (fun s0 offset => body s0 (Data long + offset) (Data short + offset))
      (elem_offsets size m) (normalized s l r hl hr)
  /\ forall s',
      slice_loop body size s l r = Done s' ->
      load_header s' l = Some long /\ load_header s' r = Some short
      /\ forall x, ~ within (Data long) (m * size) x -> ~ within (Data short) (m * size) x ->
                   cells s' !! x = cells (normalized s l r hl hr) !! x.
Proof.
  intros long short m Hsize Hlocal Hl Hr Hnl Hnr Hlr Hl1 Hl2 Hr1 Hr2.
  destruct (normalize_headers size s l r hl hr Hl Hr Hlr) as (Hn & Hnl' & Hnr' & Hnx & _).
  fold long in Hnl'. fold short in Hnr'. fold m in Hn.
  assert (Hin : forall a, within a 24 a) by (unfold within; lia).
  destruct (slice_elements_loop body size Hlocal l r (Data long) (Data short) m
              (elem_offsets size m) (normalized s l r hl hr)) as [Heq Hframe].
  - apply load_header_data. exact Hnl'.
  - apply load_header_data. exact Hnr'.
  - exact (Hl1 l (Hin l)).
  - exact (Hl2 l (Hin l)).
  - exact (Hr1 r (Hin r)).
  - exact (Hr2 r (Hin r)).
  - intros off. apply elem_offsets_bound. exact Hsize.
  - assert (Hloop : slice_loop body size s l r
                    = for_each (fun s0 offset => body s0 (Data long + offset) (Data short + offset))
                        (elem_offsets size m) (normalized s l r hl hr)).
    { unfold slice_loop. rewrite Hn.
      rewrite loop_offsets_elems by (unfold m; lia). exact Heq. }
    split; [exact Hloop|].
    intros s' Hs'. rewrite Hloop in Hs'.
    split; [|split].
    + rewrite <- Hnl'. apply load_header_agree.
      intros x Hx. apply (Hframe s' Hs'); [exact (Hl1 x Hx)|exact (Hl2 x Hx)].
    + rewrite <- Hnr'. apply load_header_agree.
      intros x Hx. apply (Hframe s' Hs'); [exact (Hr1 x Hx)|exact (Hr2 x Hx)].
    + intros x H3 H4. exact (Hframe s' Hs' x H3 H4).
Qed.

Lemma gen_slice_closure (fuel : nat) (types : list reflect.decl) (useMap : bool)
    (skips : list string) (t et : reflect.rtype) (fs fs' : structFs) (p : plan) :
  reflect.resolve types t = reflect.SSlice et ->
  gen (S fuel) types useMap skips t fs = Some (Built (Some p), fs') ->
  (exists k, p = MergeSlicePrim k (reflect.SizeOf types et))
  \/ (exists f, p = MergeSlice (reflect.SizeOf types et) f
              /\ gen fuel types useMap skips et fs = Some (Built (Some f), fs')).
Proof.
  intros Hres Hgen.
  change (gen (S fuel) types useMap skips t fs)
    with (gen_body types useMap (gen fuel types useMap) skips t fs) in Hgen.
  unfold gen_body in Hgen.
  assert (Hk : reflect.KindOf types t = reflect.Slice)
    by (unfold reflect.KindOf; rewrite Hres; reflexivity).
  rewrite Hk, Hres in Hgen.
  replace ((0 <? Z.of_nat (length skips)) && negb (may_hold_skips reflect.Slice)) with false in Hgen
    by (simpl; rewrite andb_false_r; reflexivity).
  unfold genSlice in Hgen.
  destruct (is_grouped (reflect.KindOf types et)).
  - injection Hgen as <- <-. left. eexists. reflexivity.
  - destruct (gen fuel types useMap skips et fs) as [[[err|[f|]] fs1]|]; try discriminate.
    injection Hgen as <- <-. right. exists f. split; reflexivity.
Qed.

Lemma exec_slice_closure (n : nat) (slots : structFs) (p : plan) (size : Z)
    (s : heap) (l r : Z) :
  (exists k, p = MergeSlicePrim k size) \/ (exists f, p = MergeSlice size f) ->
  exec (S n) slots p s l r = slice_loop (slice_elem_call n slots p) size s l r.
Proof. intros [[k ->]|[f ->]]; reflexivity. Qed.

Lemma separate_within (a n b k k' x : Z) :
  separate a n b k -> k' <= k -> within a n x -> ~ within b k' x.
Proof. unfold separate, within. intros H Hk Hx Hb. apply (H x Hx). lia. Qed.





(** ** Structs of numbers and booleans *)

Lemma SFadd_comm (prec emax : Z) (x y : spec_float) :
  SFadd prec emax x y = SFadd prec emax y x.
Proof.
  destruct x as [sx|sx| |sx mx ex], y as [sy|sy| |sy my ey]; try reflexivity;
    try (destruct sx, sy; reflexivity).
  unfold SFadd. rewrite (Z.min_comm ey ex). rewrite Z.add_comm. reflexivity.
Qed.

Lemma add_cell_comm (k : reflect.Kind) (a b : cell) : add_cell k a b = add_cell k b a.
Proof.
  destruct a as [x|ka x|ka x|ka x1 x2|x], b as [y|kb y|kb y|kb y1 y2|y]; try reflexivity;
    unfold add_cell.
  - destruct (int_width k) as [[sg bits]|]; [|reflexivity].
    repeat case_decide; try tauto; try reflexivity.
    rewrite Z.add_comm. reflexivity.
  - repeat case_decide; try tauto; try reflexivity.
    destruct k; try reflexivity; rewrite SFadd_comm; reflexivity.
  - repeat case_decide; try tauto; try reflexivity.
    destruct k; try reflexivity;
      rewrite (SFadd_comm _ _ x1 y1), (SFadd_comm _ _ x2 y2); reflexivity.
Qed.

Lemma sum_cell_comm (k : reflect.Kind) (a b : cell) : sum_cell k a b = sum_cell k b a.
Proof.
  destruct k; try apply add_cell_comm.
  destruct a, b; try reflexivity. simpl. rewrite orb_comm. reflexivity.
Qed.

Ltac kind_facts :=
  repeat match goal with
    | H : _ && _ = true |- _ => apply andb_true_iff in H as [? ?]
    | H : bool_decide (_ = _) = true |- _ =>
        apply bool_decide_eq_true in H; first [discriminate H | subst]
    | H : bool_decide _ = true |- _ => vm_compute in H; first [discriminate H | clear H]
    | H : false = true |- _ => discriminate H
    end.

Lemma sum_cell_defined (k : reflect.Kind) (a b : cell) :
  is_additive k = true -> cell_of_kind k a = true -> cell_of_kind k b = true ->
  exists c, sum_cell k a b = Some c /\ cell_of_kind k c = true.
Proof.
  intros Hk Ha Hb.
  destruct k; vm_compute in Hk; try discriminate Hk; clear Hk;
    destruct a as [x|ka x|ka x|ka x1 x2|x], b as [y|kb y|kb y|kb y1 y2|y];
    simpl in Ha, Hb; kind_facts;
    eexists; split; reflexivity.
Qed.

Lemma with_cells_same (s : heap) : with_cells s (cells s) = s.
Proof. destruct s. reflexivity. Qed.

Lemma merge_prim_sum (k : reflect.Kind) (s : heap) (l r : Z) (a b c : cell) :
  cells s !! l = Some a -> cells s !! r = Some b -> sum_cell k a b = Some c ->
  merge_prim k s l r = Done (with_cells s (<[ l := c ]> (cells s))).
Proof.
  intros Hl Hr Hc.
  destruct k; simpl in Hc |- *;
    try (rewrite Hl, Hr, Hc; apply (store_present _ _ _ _ Hl)).
  destruct a as [x| | | |], b as [y| | | |]; try discriminate.
  injection Hc as <-. rewrite Hr. destruct y.
  - rewrite orb_true_r. apply (store_present _ _ _ _ Hl).
  - rewrite orb_false_r, insert_id by exact Hl. rewrite with_cells_same. reflexivity.
Qed.

Lemma for_each_app {A : Type} (body : heap -> A -> outcome) (xs ys : list A) (s : heap) :
  for_each body (xs ++ ys) s
  = match for_each body xs s with
    | Done s' => for_each body ys s'
    | o => o
    end.
Proof.
  revert s. induction xs as [|x xs IH]; intros s; [reflexivity|].
  cbn [for_each app]. destruct (body s x); try reflexivity. apply IH.
Qed.

Lemma for_each_map {A B : Type} (body : heap -> B -> outcome) (f : A -> B)
    (xs : list A) (s : heap) :
  for_each body (map f xs) s = for_each (fun s0 x => body s0 (f x)) xs s.
Proof.
  revert s. induction xs as [|x xs IH]; intros s; [reflexivity|].
  cbn [for_each map]. destruct (body s (f x)); try reflexivity. apply IH.
Qed.

Lemma for_each_ext {A : Type} (body body' : heap -> A -> outcome) (xs : list A) (s : heap) :
  (forall s0 x, x ∈ xs -> body s0 x = body' s0 x) ->
  for_each body xs s = for_each body' xs s.
Proof.
  revert s. induction xs as [|x xs IH]; intros s H; [reflexivity|].
  cbn [for_each]. rewrite <- (H s x) by left.
  destruct (body s x); try reflexivity. apply IH. intros t y Hy. apply H. right. exact Hy.
Qed.

(** The fifteen loops of the closure of [genStruct] are one run over the
    offsets of the vectors. *)
Lemma grouped_loops_run (l r : Z) (g : list (reflect.Kind * list Z)) (s : heap) :
  for_each
    (fun s0 row =>
       for_each
         (fun s1 offset =>
            merge_prim (fst row) s1 (fieldByOffset l offset) (fieldByOffset r offset))
         (snd row) s0) g s
  = run_ops l r (vector_ops g) s.
Proof.
  revert s. induction g as [|row g IH]; intros s; [reflexivity|].
  unfold run_ops, vector_ops in *. cbn [for_each map concat].
  rewrite for_each_app, for_each_map. cbn [fst snd].
  destruct (for_each _ (snd row) s); try reflexivity. apply IH.
Qed.

(** What a run of primitive merges does when no offset occurs twice and
    the left and the right struct do not share a cell. *)
Lemma run_ops_spec (l r : Z) (ops : list (reflect.Kind * Z)) (s : heap) :
  NoDup (map snd ops) ->
  (forall o o', o ∈ map snd ops -> o' ∈ map snd ops -> l + o <> r + o') ->
  (forall op, op ∈ ops ->
     is_additive (fst op) = true
     /\ exists a b, cells s !! (l + snd op) = Some a /\ cells s !! (r + snd op) = Some b
                  /\ cell_of_kind (fst op) a = true /\ cell_of_kind (fst op) b = true) ->
  exists s',
    run_ops l r ops s = Done s'
    /\ (forall x, (forall o, o ∈ map snd ops -> x <> l + o) -> cells s' !! x = cells s !! x)
    /\ (forall op, op ∈ ops ->
         exists a b c, cells s !! (l + snd op) = Some a /\ cells s !! (r + snd op) = Some b
                       /\ sum_cell (fst op) a b = Some c
                       /\ cells s' !! (l + snd op) = Some c).
Proof.
  revert s. induction ops as [|[k o] ops IH]; intros s Hnd Hdis Hcells.
  - exists s. split; [reflexivity|]. split; [reflexivity|]. intros op Hop. inversion Hop.
  - cbn [map snd] in Hnd, Hdis. apply NoDup_cons in Hnd as [Ho Hnd].
    destruct (Hcells (k, o)) as (Hk & a & b & Ha & Hb & Hka & Hkb); [left|].
    cbn [fst snd] in Hk, Ha, Hb, Hka, Hkb.
    destruct (sum_cell_defined k a b Hk Hka Hkb) as (c & Hc & _).
    assert (Hother : forall op, op ∈ ops ->
              l + snd op <> l + o /\ r + snd op <> l + o).
    { intros op Hop.
      assert (Hin : snd op ∈ map snd ops) by (apply list_elem_of_fmap; exists op; auto).
      split.
      - intros E. apply Ho. replace o with (snd op) by lia. exact Hin.
      - intros E. apply (Hdis o (snd op)); [left|right; exact Hin|lia]. }
    destruct (IH (with_cells s (<[ l + o := c ]> (cells s)))) as (s' & Hrun & Hframe & Hres).
    + exact Hnd.
    + intros o1 o2 H1 H2. apply Hdis; right; assumption.
    + intros op Hop. destruct (Hcells op) as (Hk' & a' & b' & Ha' & Hb' & Hk1 & Hk2);
        [right; exact Hop|].
      destruct (Hother op Hop) as [N1 N2].
      split; [exact Hk'|]. exists a', b'. cbn [cells with_cells].
      rewrite !lookup_insert_ne by congruence. auto.
    + exists s'. split.
      { unfold run_ops in *. cbn [for_each fst snd]. unfold fieldByOffset at 1 2.
        rewrite (merge_prim_sum k s (l + o) (r + o) a b c Ha Hb Hc). exact Hrun. }
      split.
      { intros x Hx. rewrite Hframe.
        - cbn [cells with_cells]. apply lookup_insert_ne. intros E. apply (Hx o); [left|lia].
        - intros o' Ho'. apply Hx. right. exact Ho'. }
      intros op Hop. apply elem_of_cons in Hop as [->|Hop].
      * exists a, b, c. cbn [fst snd]. repeat split; try assumption.
        rewrite Hframe.
        { cbn [cells with_cells]. apply lookup_insert_eq. }
        intros o' Ho' E. apply Ho. replace o with o' by lia. exact Ho'.
      * destruct (Hres op Hop) as (a' & b' & c' & Ha' & Hb' & Hc' & Hs').
        destruct (Hother op Hop) as [N1 N2].
        cbn [cells with_cells] in Ha', Hb'.
        rewrite lookup_insert_ne in Ha' by congruence.
        rewrite lookup_insert_ne in Hb' by congruence.
        exists a', b', c'. auto.
Qed.

Lemma grouped_kinds_nodup : NoDup grouped_kinds.
Proof. apply (bool_decide_unpack _). vm_compute. reflexivity. Qed.

Lemma append_offset_keys (k : reflect.Kind) (o : Z) (g : list (reflect.Kind * list Z)) :
  map fst (append_offset k o g) = map fst g.
Proof.
  induction g as [|row g IH]; [reflexivity|].
  cbn [append_offset map]. fold (append_offset k o g). rewrite IH.
  destruct (decide (fst row = k)); reflexivity.
Qed.

Lemma append_offset_absent (k : reflect.Kind) (o : Z) (g : list (reflect.Kind * list Z)) :
  k ∉ map fst g -> append_offset k o g = g.
Proof.
  induction g as [|row g IH]; intros H; [reflexivity|].
  cbn [append_offset map] in *. fold (append_offset k o g).
  apply not_elem_of_cons in H as [H1 H2].
  rewrite IH by exact H2. destruct (decide (fst row = k)); [congruence|reflexivity].
Qed.

Lemma vector_ops_append (k : reflect.Kind) (o : Z) (g : list (reflect.Kind * list Z)) :
  NoDup (map fst g) -> k ∈ map fst g ->
  vector_ops (append_offset k o g) ≡ₚ (k, o) :: vector_ops g.
Proof.
  induction g as [|row g IH]; intros Hnd Hin; [inversion Hin|].
  cbn [map] in Hnd, Hin. apply NoDup_cons in Hnd as [Hrow Hnd].
  cbn [append_offset map]. fold (append_offset k o g).
  unfold vector_ops in *. destruct (decide (fst row = k)) as [E|E].
  - subst k. rewrite (append_offset_absent _ _ _ Hrow).
    cbn [map concat fst snd]. rewrite map_app. cbn [map].
    rewrite <- app_assoc. cbn [app]. symmetry. apply Permutation_middle.
  - apply elem_of_cons in Hin as [Hin|Hin]; [congruence|].
    cbn [map concat]. rewrite (IH Hnd Hin). symmetry. apply Permutation_middle.
Qed.

Lemma gen_uintptr (fuel : nat) (types : list reflect.decl) (useMap : bool)
    (t : reflect.rtype) (fs : structFs) :
  reflect.KindOf types t = reflect.Uintptr ->
  gen (S fuel) types useMap [] t fs = Some (Built (Some (MergePrim reflect.Uintptr)), fs).
Proof.
  intros Hk.
  change (gen (S fuel) types useMap [] t fs)
    with (gen_body types useMap (gen fuel types useMap) [] t fs).
  unfold gen_body. rewrite Hk. unfold reflect.KindOf in Hk.
  destruct (reflect.resolve types t) as [k| | | | |]; try discriminate.
  subst k. reflexivity.
Qed.

(** The field loop of [genStruct] on fields of additive kinds, without
    skips: every field is added, to its vector or, for [uintptr], to the
    recursive fields. *)
Lemma additive_fields_loop (fuel : nat) (types : list reflect.decl) (useMap : bool)
    (fields : list reflect.StructField) (st : fields_state) (fs : structFs) :
  Forall (fun sf => is_additive (reflect.KindOf types (reflect.Type_ sf)) = true) fields ->
  skipMyLevel st = ∅ -> skipNextLevel st = ∅ ->
  map fst (grouped st) = grouped_kinds ->
  Forall (fun e => snd e = MergePrim reflect.Uintptr) (offsetFs st) ->
  exists st',
    genStruct_fields types (gen (S fuel) types useMap) fields st fs = Some (inr st', fs)
    /\ skipMyLevel st' = ∅ /\ skipNextLevel st' = ∅
    /\ added st' = added st + Z.of_nat (length fields)
    /\ Forall (fun e => snd e = MergePrim reflect.Uintptr) (offsetFs st')
    /\ struct_ops (grouped st') (offsetFs st')
       ≡ₚ struct_ops (grouped st) (offsetFs st) ++ field_ops types fields.
Proof.
  revert st. induction fields as [|sf fields IH]; intros st Hadd Hmy Hnext Hkeys Hoffs.
  - exists st. cbn [genStruct_fields length field_ops map].
    rewrite app_nil_r, Z.add_0_r. repeat split; auto.
  - apply Forall_cons in Hadd as [Hsf Hadd].
    cbn [genStruct_fields]. rewrite Hmy.
    destruct (decide (reflect.Name sf ∈ (∅ : gset string))) as [Hin|_]; [set_solver|].
    destruct (is_grouped (reflect.KindOf types (reflect.Type_ sf))) eqn:Hg.
    + edestruct IH as (st' & Hrun & H1 & H2 & H3 & H4 & H5);
        [exact Hadd| | | | |exists st'; split; [exact Hrun|]];
        cbn [skipMyLevel skipNextLevel grouped offsetFs added] in *; auto.
      { rewrite append_offset_keys. exact Hkeys. }
      repeat split; auto; [rewrite H3; cbn [length]; lia|].
      rewrite H5. unfold struct_ops, field_ops. cbn [map].
      rewrite vector_ops_append.
      * cbn [app]. apply Permutation_middle.
      * rewrite Hkeys. exact grouped_kinds_nodup.
      * rewrite Hkeys. unfold is_grouped in Hg. apply bool_decide_eq_true in Hg. exact Hg.
    + assert (Hk : reflect.KindOf types (reflect.Type_ sf) = reflect.Uintptr).
      { unfold is_additive in Hsf. rewrite Hg in Hsf. apply bool_decide_eq_true in Hsf.
        exact Hsf. }
      rewrite Hnext, lookup_empty. cbn [default].
      rewrite (gen_uintptr fuel types useMap _ fs Hk).
      edestruct IH as (st' & Hrun & H1 & H2 & H3 & H4 & H5);
        [exact Hadd| | | | |exists st'; split; [exact Hrun|]];
        cbn [skipMyLevel skipNextLevel grouped offsetFs added] in *; auto.
      { apply Forall_app. split; [exact Hoffs|]. repeat constructor. }
      repeat split; auto; [rewrite H3; cbn [length]; lia|].
      rewrite H5. unfold struct_ops, field_ops. cbn [map].
      rewrite map_app. cbn [map fst]. rewrite Hk. rewrite <- !app_assoc. reflexivity.
Qed.

Lemma exec_struct_ops (n : nat) (slots : structFs) (g : list (reflect.Kind * list Z))
    (offs : list (Z * plan)) (s : heap) (l r : Z) :
  Forall (fun e => snd e = MergePrim reflect.Uintptr) offs ->
  exec (S (S n)) slots (MergeStruct g offs) s l r = run_ops l r (struct_ops g offs) s.
Proof.
  intros Hoffs. cbn [exec]. rewrite grouped_loops_run.
  unfold struct_ops, run_ops at 2. rewrite for_each_app.
  fold (run_ops l r (vector_ops g) s).
  destruct (run_ops l r (vector_ops g) s) as [s'| | |]; try reflexivity.
  rewrite for_each_map. apply for_each_ext.
  intros s0 e He. rewrite Forall_forall in Hoffs. rewrite (Hoffs e He). reflexivity.
Qed.

(** Generation for a struct whose fields all have an additive kind. *)
Lemma gen_additive_struct (fuel : nat) (types : list reflect.decl) (useMap : bool)
    (id : nat) (d : reflect.decl) (fields : list reflect.StructField) :
  types !! id = Some d -> reflect.Under d = reflect.StructOf fields ->
  Forall (fun sf => is_additive (reflect.KindOf types (reflect.Type_ sf)) = true) fields ->
  exists f fs,
    gen (S (S fuel)) types useMap [] (reflect.Defined id) ∅ = Some (Built f, fs)
    /\ (fields = [] -> f = None)
    /\ (fields <> [] ->
        exists g offs, f = Some (MergeStruct g offs)
                       /\ Forall (fun e => snd e = MergePrim reflect.Uintptr) offs
                       /\ struct_ops g offs ≡ₚ field_ops types fields).
Proof.
  intros Hd Hu Hadd.
  change (gen (S (S fuel)) types useMap [] (reflect.Defined id) ∅)
    with (gen_body types useMap (gen (S fuel) types useMap) [] (reflect.Defined id) ∅).
  unfold gen_body.
  assert (Hres : reflect.resolve types (reflect.Defined id) = reflect.SStruct d fields)
    by (unfold reflect.resolve; rewrite Hd, Hu; reflexivity).
  unfold reflect.KindOf. rewrite Hres. cbn [length Z.of_nat Z.ltb Z.compare andb].
  rewrite lookup_empty.
  unfold genStruct. cbn [parse_skips].
  destruct (additive_fields_loop fuel types useMap fields
              {| skipMyLevel := ∅; skipNextLevel := ∅; grouped := empty_vectors;
                 offsetFs := []; added := 0 |} (<[ struct_name d := None ]> ∅) Hadd)
    as (st' & Hrun & H1 & H2 & H3 & H4 & H5); try reflexivity.
  { constructor. }
  rewrite Hrun, H1, H2. cbn [added] in H3.
  change (size (∅ : gset string)) with 0%nat.
  change (size (∅ : gmap string (list string))) with 0%nat.
  cbn [Z.of_nat Z.ltb Z.compare].
  destruct fields as [|sf fields].
  - rewrite H3. cbn [length Z.of_nat Z.add Z.eqb].
    eexists. eexists. split; [reflexivity|]. split; [reflexivity|]. congruence.
  - replace (added st' =? 0) with false
      by (symmetry; apply Z.eqb_neq; rewrite H3; cbn [length]; lia).
    eexists. eexists. split; [reflexivity|]. split; [discriminate|].
    intros _. exists (grouped st'), (offsetFs st'). split; [reflexivity|].
    split; [exact H4|]. exact H5.
Qed.

(** C9.  For a struct whose fields are all numbers or booleans, stored at
    two places that share no cell, with fields at distinct offsets: the
    function [Gen] returns, called on (a, b), leaves in every field of [a]
    the sum of the two fields (the [or] for a boolean); called on (b, a) from
    the same store it leaves the same value in the field of [b]. *)
Theorem additive_struct_commutes (fuel n : nat) (types : list reflect.decl) (id : nat)
    (d : reflect.decl) (fields : list reflect.StructField) (a b : Z) (s : heap) :
  let pa := {| typ := reflect.PtrTo (reflect.Defined id); data := a |} in
  let pb := {| typ := reflect.PtrTo (reflect.Defined id); data := b |} in
  types !! id = Some d -> reflect.Under d = reflect.StructOf fields ->
  Forall (fun sf => is_additive (reflect.KindOf types (reflect.Type_ sf)) = true) fields ->
  NoDup (map reflect.Offset fields) ->
  a <> 0 ->
  (forall o o', o ∈ map reflect.Offset fields -> o' ∈ map reflect.Offset fields ->
                a + o <> b + o') ->
  (forall sf, sf ∈ fields ->
     exists x y,
       cells s !! (a + reflect.Offset sf) = Some x
       /\ cells s !! (b + reflect.Offset sf) = Some y
       /\ cell_of_kind (reflect.KindOf types (reflect.Type_ sf)) x = true
       /\ cell_of_kind (reflect.KindOf types (reflect.Type_ sf)) y = true) ->
  exists e sab sba,
    Gen (S (S fuel)) types pa [] = Some (inr e)
    /\ call (S (S n)) e s pa pb = Done sab
    /\ call (S (S n)) e s pb pa = Done sba
    /\ forall sf, sf ∈ fields ->
        exists x y z,
          cells s !! (a + reflect.Offset sf) = Some x
          /\ cells s !! (b + reflect.Offset sf) = Some y
          /\ sum_cell (reflect.KindOf types (reflect.Type_ sf)) x y = Some z
          /\ cells sab !! (a + reflect.Offset sf) = Some z
          /\ cells sba !! (b + reflect.Offset sf) = Some z.
Proof.
  intros pa pb Hd Hu Hadd Hnd Ha Hdis Hcells.
  destruct (gen_additive_struct fuel types false id d fields Hd Hu Hadd)
    as (f & fs & Hgen & Hnil & Hsome).
  assert (HG : Gen (S (S fuel)) types pa []
               = Some (inr {| root := reflect.PtrTo (reflect.Defined id);
                              merge := f; slots := fs |})).
  { unfold Gen. cbn [apply_options typ data pa reflect.resolve reflect.shape_of_literal
                     skips unsafeMap].
    replace (a =? 0) with false by (symmetry; apply Z.eqb_neq; exact Ha).
    assert (Hk : reflect.KindOf types (reflect.Defined id) = reflect.Struct)
      by (unfold reflect.KindOf, reflect.resolve; rewrite Hd, Hu; reflexivity).
    rewrite Hk. destruct (decide (reflect.Struct = reflect.Ptr)); [discriminate|].
    rewrite Hgen. reflexivity. }
  set (e := {| root := reflect.PtrTo (reflect.Defined id); merge := f; slots := fs |}) in *.
  assert (Hcall : forall px py, typ px = root e -> typ py = root e ->
            call (S (S n)) e s px py
            = match f with
              | None => Done s
              | Some p => exec (S (S n)) fs p s (data px) (data py)
              end).
  { intros px py Hx Hy. unfold call. rewrite (check_match _ px py Hx Hy). reflexivity. }
  exists e. rewrite (Hcall pa pb eq_refl eq_refl), (Hcall pb pa eq_refl eq_refl).
  cbn [data pa pb]. clear Hcall.
  destruct fields as [|sf0 fields0].
  { rewrite (Hnil eq_refl). exists s, s. repeat split; auto. intros sf Hsf. inversion Hsf. }
  destruct Hsome as (g & offs & -> & Hoffs & Hperm); [discriminate|].
  rewrite !(exec_struct_ops n fs g offs _ _ _ Hoffs).
  set (fields := sf0 :: fields0) in *.
  assert (Hsnd : map snd (struct_ops g offs) ≡ₚ map reflect.Offset fields).
  { rewrite Hperm. unfold field_ops. rewrite map_map. reflexivity. }
  assert (Hmem : forall op, op ∈ struct_ops g offs ->
            exists sf, sf ∈ fields
                       /\ op = (reflect.KindOf types (reflect.Type_ sf), reflect.Offset sf)).
  { intros op Hop. rewrite Hperm in Hop. unfold field_ops in Hop.
    apply list_elem_of_fmap in Hop as (sf & -> & Hsf). exists sf. auto. }
  destruct (run_ops_spec a b (struct_ops g offs) s) as (sab & Hab & _ & Rab).
  { rewrite Hsnd. exact Hnd. }
  { intros o o'. rewrite Hsnd. apply Hdis. }
  { intros op Hop. destruct (Hmem op Hop) as (sf & Hsf & ->). cbn [fst snd].
    destruct (Hcells sf Hsf) as (x & y & Hx & Hy & Kx & Ky).
    split; [exact (proj1 (Forall_forall _ _) Hadd sf Hsf)|].
    exists x, y. auto. }
  destruct (run_ops_spec b a (struct_ops g offs) s) as (sba & Hba & _ & Rba).
  { rewrite Hsnd. exact Hnd. }
  { intros o o'. rewrite Hsnd. intros Ho Ho' E. apply (Hdis o' o Ho' Ho). lia. }
  { intros op Hop. destruct (Hmem op Hop) as (sf & Hsf & ->). cbn [fst snd].
    destruct (Hcells sf Hsf) as (x & y & Hx & Hy & Kx & Ky).
    split; [exact (proj1 (Forall_forall _ _) Hadd sf Hsf)|].
    exists y, x. auto. }
  exists sab, sba. split; [exact HG|]. split; [exact Hab|]. split; [exact Hba|].
  intros sf Hsf.
  assert (Hop : (reflect.KindOf types (reflect.Type_ sf), reflect.Offset sf)
                ∈ struct_ops g offs).
  { rewrite Hperm. unfold field_ops. apply list_elem_of_fmap. exists sf. auto. }
  destruct (Rab _ Hop) as (x & y & z & Hx & Hy & Hz & Hs1).
  destruct (Rba _ Hop) as (y' & x' & z' & Hy' & Hx' & Hz' & Hs2).
  cbn [fst snd] in *.
  assert (x' = x) by congruence. assert (y' = y) by congruence. subst x' y'.
  rewrite sum_cell_comm in Hz'. assert (z' = z) by congruence. subst z'.
  exists x, y, z. auto.
Qed.

(** Scenario A: the merge of (1, 2.0, false) and (7, 8.0, true) gives
    (8, 10.0, true), in the left value whichever of the two is on the left. *)
Lemma additive_struct_scenario_A :
  exists e sab sba,
    Gen 2 Ex.scenario_A (Ex.ptr_to 0 4096) [] = Some (inr e)
    /\ call 2 e Ex.scenario_A_store (Ex.ptr_to 0 4096) (Ex.ptr_to 0 8192) = Done sab
    /\ call 2 e Ex.scenario_A_store (Ex.ptr_to 0 8192) (Ex.ptr_to 0 4096) = Done sba
    /\ cells sab !! 4096 = Some (CInt reflect.Uint64 8)
    /\ cells sba !! 8192 = Some (CInt reflect.Uint64 8)
    /\ cells sab !! 4104 = Some (CFloat reflect.Float32 (S754_finite false 10485760 (-20)))
    /\ cells sba !! 8200 = Some (CFloat reflect.Float32 (S754_finite false 10485760 (-20)))
    /\ cells sab !! 4108 = Some (CBool true)
    /\ cells sba !! 8204 = Some (CBool true).
Proof.
  destruct (additive_struct_commutes 0 0 Ex.scenario_A 0
              (Ex.struct "main" "S" 16
                 [ Ex.field "x" 0 (reflect.Basic reflect.Uint64);
                   Ex.field "y" 8 (reflect.Basic reflect.Float32);
                   Ex.field "z" 12 (reflect.Basic reflect.Bool) ])
              [ Ex.field "x" 0 (reflect.Basic reflect.Uint64);
                Ex.field "y" 8 (reflect.Basic reflect.Float32);
                Ex.field "z" 12 (reflect.Basic reflect.Bool) ]
              4096 8192 Ex.scenario_A_store)
    as (e & sab & sba & HG & Hab & Hba & Hfields).
  - reflexivity.
  - reflexivity.
  - repeat constructor.
  - apply (bool_decide_unpack _). vm_compute. reflexivity.
  - discriminate.
  - intros o o' Ho Ho'. cbn in Ho, Ho'.
    repeat (apply elem_of_cons in Ho as [->|Ho]);
      repeat (apply elem_of_cons in Ho' as [->|Ho']);
      try (inversion Ho); try (inversion Ho'); lia.
  - intros sf Hsf.
    repeat (apply elem_of_cons in Hsf as [->|Hsf]); [| | |inversion Hsf];
      eexists; eexists; repeat split; vm_compute; reflexivity.
  - exists e, sab, sba. split; [exact HG|]. split; [exact Hab|]. split; [exact Hba|].
    destruct (Hfields (Ex.field "x" 0 (reflect.Basic reflect.Uint64)))
      as (x1 & y1 & z1 & Hx1 & Hy1 & Hz1 & Hl1 & Hr1); [set_solver|].
    destruct (Hfields (Ex.field "y" 8 (reflect.Basic reflect.Float32)))
      as (x2 & y2 & z2 & Hx2 & Hy2 & Hz2 & Hl2 & Hr2); [set_solver|].
    destruct (Hfields (Ex.field "z" 12 (reflect.Basic reflect.Bool)))
      as (x3 & y3 & z3 & Hx3 & Hy3 & Hz3 & Hl3 & Hr3); [set_solver|].
    vm_compute in Hx1, Hy1, Hx2, Hy2, Hx3, Hy3.
    injection Hx1 as <-. injection Hy1 as <-. injection Hx2 as <-. injection Hy2 as <-.
    injection Hx3 as <-. injection Hy3 as <-.
    vm_compute in Hz1, Hz2, Hz3.
    injection Hz1 as <-. injection Hz2 as <-. injection Hz3 as <-.
    repeat split; assumption.
Defined.

(** ** Maps *)

Lemma cell_eqb_plain (a b : option cell) :
  match a with Some (CFloat _ _) | Some (CComplex _ _ _) => false | _ => true end = true ->
  cell_eqb a b = bool_decide (a = b) /\ cell_eqb b a = bool_decide (b = a).
Proof.
  intros H. destruct a as [[ | | | | ]|]; try discriminate;
    destruct b as [[ | | | | ]|]; split; reflexivity.
Qed.

Lemma key_eqb_plain (a b : blob) :
  plain_key a = true ->
  key_eqb a b = bool_decide (a = b) /\ key_eqb b a = bool_decide (b = a).
Proof.
  revert b. induction a as [|x a IH]; intros b H.
  - destruct b; split; reflexivity.
  - cbn [plain_key forallb] in H. apply andb_true_iff in H as [Hx Ha].
    destruct b as [|y b]; [split; reflexivity|].
    destruct (IH b Ha) as [E1 E2]. destruct (cell_eqb_plain x y Hx) as [C1 C2].
    cbn [key_eqb]. rewrite E1, E2, C1, C2.
    split; repeat case_bool_decide; simplify_eq; try reflexivity; congruence.
Qed.

Lemma lookup_assign_same (k v : blob) (es : list (blob * blob)) :
  plain_key k = true -> lookup_entry k (assign_entry k v es) = Some v.
Proof.
  intros Hk. unfold lookup_entry.
  induction es as [|e es IH]; cbn [assign_entry find fst].
  - destruct (key_eqb_plain k k Hk) as [-> _]. rewrite bool_decide_eq_true_2 by reflexivity.
    reflexivity.
  - destruct (key_eqb (fst e) k) eqn:E; cbn [find fst]; rewrite E; [reflexivity|exact IH].
Qed.

Lemma lookup_assign_other (k k' v : blob) (es : list (blob * blob)) :
  plain_key k = true -> k' <> k ->
  lookup_entry k' (assign_entry k v es) = lookup_entry k' es.
Proof.
  intros Hk Hne. unfold lookup_entry.
  assert (Hkk' : key_eqb k k' = false).
  { destruct (key_eqb_plain k k' Hk) as [-> _]. apply bool_decide_eq_false_2. congruence. }
  induction es as [|e es IH]; cbn [assign_entry find fst].
  - rewrite Hkk'. reflexivity.
  - destruct (key_eqb (fst e) k) eqn:E; cbn [find fst].
    + destruct (key_eqb_plain k (fst e) Hk) as [_ E']. rewrite E' in E.
      apply bool_decide_eq_true in E. rewrite E, Hkk'. reflexivity.
    + destruct (key_eqb (fst e) k'); [reflexivity|exact IH].
Qed.

Lemma lookup_entry_keys (k : blob) (es : list (blob * blob)) :
  plain_key k = true ->
  (lookup_entry k es = None <-> k ∉ map fst es).
Proof.
  intros Hk. unfold lookup_entry.
  induction es as [|e es IH]; cbn [find map].
  - split; [intros _ H; inversion H|reflexivity].
  - destruct (key_eqb_plain k (fst e) Hk) as [_ ->].
    case_bool_decide as E.
    + split; [discriminate|]. intros H. exfalso. apply H. rewrite E. left.
    + rewrite IH. rewrite not_elem_of_cons. split; [intros H; split; [congruence|exact H]|tauto].
Qed.

Lemma map_entries_agree (s s' : heap) (h : Z) :
  maps s' !! h = maps s !! h -> map_entries s' h = map_entries s h.
Proof. intros H. unfold map_entries. rewrite H. reflexivity. Qed.

Section MapLoop.
Variable vf : heap -> Z -> Z -> outcome.
Variables valNeedsIndir ifaceIndir : bool.
Variables vsize lh rh : Z.
Variables el er : list (blob * blob).
Hypothesis lh_not_nil : lh <> 0.
Hypothesis lh_rh : lh <> rh.
Hypothesis by_copy : valNeedsIndir || ifaceIndir = true.
Hypothesis vf_frame :
  value_call_frame vf (if valNeedsIndir then 8 else vsize) lh rh el er.

Lemma set_entry (s : heap) (cur : list (blob * blob)) (rk v : blob) :
  maps s !! lh = Some cur -> map_entries s rh = Some er ->
  exists s', SetMapIndex s lh rk (Some v) = Done s'
             /\ maps s' !! lh = Some (assign_entry rk v cur)
             /\ map_entries s' rh = Some er.
Proof.
  intros H0 H1. unfold SetMapIndex.
  replace (lh =? 0) with false by (symmetry; apply Z.eqb_neq; exact lh_not_nil).
  rewrite H0. eexists. split; [reflexivity|]. cbn [maps with_maps].
  split; [apply lookup_insert_eq|].
  rewrite <- H1. apply map_entries_agree. cbn [maps with_maps].
  apply lookup_insert_ne. exact lh_rh.
Qed.

(** One turn of the loop on a key of the right map that the loop has not
    met before. *)
Lemma map_step_spec (s s' : heap) (cur : list (blob * blob)) (rk rkv : blob) :
  map_entries s rh = Some er ->
  maps s !! lh = Some cur ->
  lookup_entry rk cur = lookup_entry rk el ->
  lookup_entry rk er = Some rkv ->
  map_step (Some vf) valNeedsIndir ifaceIndir vsize lh rh s rk = Done s' ->
  exists v,
    maps s' !! lh = Some (assign_entry rk v cur)
    /\ map_entries s' rh = Some er
    /\ match lookup_entry rk el with
       | None => v = rkv
       | Some lkv => merged_value vf (if valNeedsIndir then 8 else vsize) lkv rkv v
       end.
Proof.
  intros Hr Hl Hcur Hrk.
  unfold map_step, MapIndex. rewrite Hr.
  unfold map_entries at 1.
  replace (lh =? 0) with false by (symmetry; apply Z.eqb_neq; exact lh_not_nil).
  rewrite Hl, Hcur, Hrk, by_copy.
  destruct (lookup_entry rk el) as [lkv|] eqn:Hlk.
  - pose proof (vf_frame s rk lkv rkv Hlk Hrk) as Hok.
    unfold merged_value. unfold value_slots in *.
    destruct (alloc_value s _ lkv) as [s1 tl] eqn:A1.
    destruct (alloc_value s1 _ rkv) as [s2 tr] eqn:A2.
    destruct (vf s2 tl tr) as [s3| | |] eqn:Hcall; try discriminate.
    destruct (Hok s3 eq_refl) as [M1 M2].
    destruct (set_entry s3 cur rk (read_blob s3 tl (if valNeedsIndir then 8 else vsize)))
      as (s4 & H1 & H2 & H3).
    { rewrite M1. exact Hl. }
    { rewrite <- Hr. apply map_entries_agree. exact M2. }
    rewrite H1. intros [= <-].
    exists (read_blob s3 tl (if valNeedsIndir then 8 else vsize)).
    split; [exact H2|]. split; [exact H3|].
    exists s, s3. rewrite A1, A2. split; [exact Hcall|reflexivity].
  - destruct (set_entry s cur rk rkv Hl Hr) as (s4 & H1 & H2 & H3).
    rewrite H1. intros [= <-]. exists rkv. auto.
Qed.

Lemma map_step_returns (s : heap) (cur : list (blob * blob)) (rk rkv : blob) :
  value_call_returns vf (if valNeedsIndir then 8 else vsize) el er ->
  map_entries s rh = Some er ->
  maps s !! lh = Some cur ->
  lookup_entry rk cur = lookup_entry rk el ->
  lookup_entry rk er = Some rkv ->
  exists s', map_step (Some vf) valNeedsIndir ifaceIndir vsize lh rh s rk = Done s'.
Proof.
  intros Hret Hr Hl Hcur Hrk.
  unfold map_step, MapIndex. rewrite Hr.
  unfold map_entries at 1.
  replace (lh =? 0) with false by (symmetry; apply Z.eqb_neq; exact lh_not_nil).
  rewrite Hl, Hcur, Hrk, by_copy.
  destruct (lookup_entry rk el) as [lkv|] eqn:Hlk.
  - pose proof (vf_frame s rk lkv rkv Hlk Hrk) as Hok.
    pose proof (Hret s rk lkv rkv Hlk Hrk) as Hdone.
    unfold value_slots in *.
    destruct (alloc_value s _ lkv) as [s1 tl] eqn:A1.
    destruct (alloc_value s1 _ rkv) as [s2 tr] eqn:A2.
    destruct Hdone as [s3 Hcall]. rewrite Hcall.
    destruct (Hok s3 Hcall) as [M1 M2].
    destruct (set_entry s3 cur rk (read_blob s3 tl (if valNeedsIndir then 8 else vsize)))
      as (s4 & H1 & _).
    { rewrite M1. exact Hl. }
    { rewrite <- Hr. apply map_entries_agree. exact M2. }
    exists s4. exact H1.
  - destruct (set_entry s cur rk rkv Hl Hr) as (s4 & H1 & _). exists s4. exact H1.
Qed.

(** The whole loop, on keys without repetition. *)
Lemma map_loop_spec (rks : list blob) (s s' : heap) (cur : list (blob * blob)) :
  NoDup rks ->
  Forall (fun k => plain_key k = true) rks ->
  (forall rk, rk ∈ rks -> is_Some (lookup_entry rk er)) ->
  map_entries s rh = Some er ->
  maps s !! lh = Some cur ->
  (forall rk, rk ∈ rks -> lookup_entry rk cur = lookup_entry rk el) ->
  for_each (map_step (Some vf) valNeedsIndir ifaceIndir vsize lh rh) rks s = Done s' ->
  exists cur',
    map_entries s' rh = Some er
    /\ maps s' !! lh = Some cur'
    /\ forall k,
        (k ∉ rks -> lookup_entry k cur' = lookup_entry k cur)
        /\ (k ∈ rks ->
            exists rkv v,
              lookup_entry k er = Some rkv
              /\ lookup_entry k cur' = Some v
              /\ match lookup_entry k el with
                 | None => v = rkv
                 | Some lkv => merged_value vf (if valNeedsIndir then 8 else vsize) lkv rkv v
                 end).
Proof.
  revert s cur. induction rks as [|rk rks IH]; intros s cur Hnd Hplain Hsome Hr Hl Hcur.
  - intros [= <-]. exists cur. split; [exact Hr|]. split; [exact Hl|].
    intros k. split; [reflexivity|]. intros H. inversion H.
  - apply NoDup_cons in Hnd as [Hrk Hnd].
    apply Forall_cons in Hplain as [Hp Hplain].
    destruct (Hsome rk) as [rkv Hrkv]; [left|].
    cbn [for_each].
    destruct (map_step (Some vf) valNeedsIndir ifaceIndir vsize lh rh s rk) as [s1| | |] eqn:Hstep;
      try discriminate.
    destruct (map_step_spec s s1 cur rk rkv Hr Hl (Hcur rk ltac:(left)) Hrkv Hstep)
      as (v & Hl1 & Hr1 & Hv).
    intros Hrun.
    destruct (IH s1 (assign_entry rk v cur) Hnd Hplain) as (cur' & Hr' & Hl' & Hres);
      [| | | |exact Hrun|].
    + intros k Hk. apply Hsome. right. exact Hk.
    + exact Hr1.
    + exact Hl1.
    + intros k Hk. rewrite lookup_assign_other; [|exact Hp|intros ->; contradiction].
      apply Hcur. right. exact Hk.
    + exists cur'. split; [exact Hr'|]. split; [exact Hl'|].
      intros k. split.
      * intros Hk. apply not_elem_of_cons in Hk as [Hne Hk].
        rewrite (proj1 (Hres k) Hk). apply lookup_assign_other; assumption.
      * intros Hk. apply elem_of_cons in Hk as [->|Hk].
        -- exists rkv, v. split; [exact Hrkv|]. split; [|exact Hv].
           rewrite (proj1 (Hres rk) Hrk). apply lookup_assign_same. exact Hp.
        -- exact (proj2 (Hres k) Hk).
Qed.

Lemma map_loop_returns (rks : list blob) (s : heap) (cur : list (blob * blob)) :
  value_call_returns vf (if valNeedsIndir then 8 else vsize) el er ->
  NoDup rks ->
  Forall (fun k => plain_key k = true) rks ->
  (forall rk, rk ∈ rks -> is_Some (lookup_entry rk er)) ->
  map_entries s rh = Some er ->
  maps s !! lh = Some cur ->
  (forall rk, rk ∈ rks -> lookup_entry rk cur = lookup_entry rk el) ->
  exists s', for_each (map_step (Some vf) valNeedsIndir ifaceIndir vsize lh rh) rks s = Done s'.
Proof.
  intros Hret. revert s cur.
  induction rks as [|rk rks IH]; intros s cur Hnd Hplain Hsome Hr Hl Hcur.
  - exists s. reflexivity.
  - apply NoDup_cons in Hnd as [Hrk Hnd].
    apply Forall_cons in Hplain as [Hp Hplain].
    destruct (Hsome rk) as [rkv Hrkv]; [left|].
    destruct (map_step_returns s cur rk rkv Hret Hr Hl (Hcur rk ltac:(left)) Hrkv)
      as [s1 Hstep].
    destruct (map_step_spec s s1 cur rk rkv Hr Hl (Hcur rk ltac:(left)) Hrkv Hstep)
      as (v & Hl1 & Hr1 & _).
    destruct (IH s1 (assign_entry rk v cur) Hnd Hplain) as [s' Hrun].
    + intros k Hk. apply Hsome. right. exact Hk.
    + exact Hr1.
    + exact Hl1.
    + intros k Hk. rewrite lookup_assign_other; [|exact Hp|intros ->; contradiction].
      apply Hcur. right. exact Hk.
    + exists s'. cbn [for_each]. rewrite Hstep. exact Hrun.
Qed.
End MapLoop.

Lemma lookup_entry_key_in (k v : blob) (es : list (blob * blob)) :
  Forall (fun e => plain_key (fst e) = true) es ->
  lookup_entry k es = Some v -> k ∈ map fst es.
Proof.
  intros Hp. unfold lookup_entry.
  induction es as [|e es IH]; cbn [find map]; [discriminate|].
  apply Forall_cons in Hp as [He Hp].
  destruct (key_eqb_plain (fst e) k He) as [-> _].
  case_bool_decide as E; [intros _; rewrite <- E; left|].
  intros H. right. exact (IH Hp H).
Qed.

Lemma gen_map_closure (fuel : nat) (types : list reflect.decl) (useMap : bool)
    (skips : list string) (t kt et : reflect.rtype) (fs fs' : structFs) (p : plan) :
  reflect.resolve types t = reflect.SMap kt et ->
  gen (S fuel) types useMap skips t fs = Some (Built (Some p), fs') ->
  exists f,
    useMap = true
    /\ p = MergeMap (bool_decide (reflect.KindOf types et = reflect.Map)
                    || bool_decide (reflect.KindOf types et = reflect.Ptr))
              (reflect.IfaceIndir types et) (reflect.SizeOf types et) f
    /\ gen fuel types useMap skips et fs = Some (Built f, fs').
Proof.
  intros Hres Hgen.
  change (gen (S fuel) types useMap skips t fs)
    with (gen_body types useMap (gen fuel types useMap) skips t fs) in Hgen.
  unfold gen_body in Hgen.
  assert (Hk : reflect.KindOf types t = reflect.Map)
    by (unfold reflect.KindOf; rewrite Hres; reflexivity).
  rewrite Hk, Hres in Hgen. cbn [may_hold_skips negb] in Hgen.
  destruct ((0 <? Z.of_nat (length skips)) && true); [discriminate|].
  destruct useMap; [|discriminate]. cbn [negb] in Hgen.
  unfold genMap in Hgen.
  destruct (gen fuel types true skips et fs) as [[[err|f] fs1]|]; try discriminate.
  injection Hgen as <- <-. exists f. auto.
Qed.


Lemma write_cells_below (m : gmap Z cell) (a x : Z) (b : blob) :
  x < a -> write_cells m a b !! x = m !! x.
Proof.
  revert m a. induction b as [|c b IH]; intros m a Hx; [reflexivity|].
  cbn [write_cells]. rewrite IH by lia.
  destruct c; [apply lookup_insert_ne|apply lookup_delete_ne]; lia.
Qed.

Lemma write_cells_head (m : gmap Z cell) (a : Z) (c : option cell) (b : blob) :
  write_cells m a (c :: b) !! a = c.
Proof.
  cbn [write_cells]. rewrite write_cells_below by lia.
  destruct c; [apply lookup_insert_eq|apply lookup_delete_eq].
Qed.

(** The two slots handed to the value closure hold the first cells of the
    two copies. *)
Lemma value_slots_heads (s : heap) (n : Z) (c1 c2 : option cell) (b1 b2 : blob) :
  0 < n ->
  let '(s2, tl, tr) := value_slots s n (c1 :: b1) (c2 :: b2) in
  cells s2 !! tl = c1 /\ cells s2 !! tr = c2 /\ maps s2 = maps s.
Proof.
  intros Hn. unfold value_slots, alloc_value. cbn [cells maps brk].
  split; [|split; [apply write_cells_head|reflexivity]].
  rewrite write_cells_below by lia. apply write_cells_head.
Qed.

Lemma lookup_entry_value_in (k v : blob) (es : list (blob * blob)) :
  lookup_entry k es = Some v -> v ∈ map snd es.
Proof.
  unfold lookup_entry. induction es as [|e es IH]; cbn [find map]; [discriminate|].
  destruct (key_eqb (fst e) k); [intros [= <-]; left|intros H; right; exact (IH H)].
Qed.

(** A map closure over values without maps changes no map object but the
    left one. *)
Lemma map_loop_changes_left_only (vf : heap -> Z -> Z -> outcome)
    (valNeedsIndir ifaceIndir : bool) (vsize lh rh : Z) (rks : list blob) (s s' : heap) :
  (forall s0 a b s1, vf s0 a b = Done s1 -> maps s1 = maps s0) ->
  for_each (map_step (Some vf) valNeedsIndir ifaceIndir vsize lh rh) rks s = Done s' ->
  forall h, h <> lh -> maps s' !! h = maps s !! h.
Proof.
  intros Hvf. revert s. induction rks as [|rk rks IH]; intros s; [intros [= <-]; reflexivity|].
  cbn [for_each].
  destruct (map_step (Some vf) valNeedsIndir ifaceIndir vsize lh rh s rk) as [s1| | |] eqn:Hstep;
    try discriminate.
  intros Hrun h Hh. rewrite (IH s1 Hrun h Hh).
  assert (Hset : forall s0 v s2, SetMapIndex s0 lh rk v = Done s2 ->
                                 maps s2 !! h = maps s0 !! h).
  { intros s0 v s2. unfold SetMapIndex.
    destruct v; destruct (lh =? 0); try discriminate;
      try (intros [= <-]; reflexivity);
      destruct (maps s0 !! lh); try discriminate;
      intros [= <-]; cbn [maps with_maps]; apply lookup_insert_ne; congruence. }
  unfold map_step in Hstep.
  destruct (MapIndex s lh rk) as [lkv|]; [|exact (Hset _ _ _ Hstep)].
  destruct (MapIndex s rh rk) as [rkv|]; [|discriminate].
  destruct (valNeedsIndir || ifaceIndir).
  - unfold alloc_value in Hstep.
    match type of Hstep with
    | match vf ?s2 ?a ?b with _ => _ end = _ =>
        destruct (vf s2 a b) as [s3| | |] eqn:Hcall; try discriminate;
        rewrite (Hset _ _ _ Hstep), (Hvf _ _ _ _ Hcall)
    end.
    reflexivity.
  - destruct (data_word lkv) as [pl|]; [|discriminate].
    destruct (data_word rkv) as [pr|]; [|discriminate].
    destruct (vf s pl pr) as [s3| | |] eqn:Hcall; try discriminate.
    rewrite (Hset _ _ _ Hstep), (Hvf _ _ _ _ Hcall). reflexivity.
Qed.

(** The closure of [int] values on the copies of two [int] values. *)
Lemma int_value_call (m : nat) (slots : structFs) (s : heap) (x y : Z) :
  let '(s2, tl, tr) := value_slots s 8 (Ex.int_blob x) (Ex.int_blob y) in
  exists s', exec (S m) slots (MergePrim reflect.Int) s2 tl tr = Done s'
             /\ maps s' = maps s.
Proof.
  pose proof (value_slots_heads s 8 (Some (CInt reflect.Int x)) (Some (CInt reflect.Int y))
                (repeat None 7) (repeat None 7) ltac:(lia)) as H.
  change (Some (CInt reflect.Int x) :: repeat None 7) with (Ex.int_blob x) in H.
  change (Some (CInt reflect.Int y) :: repeat None 7) with (Ex.int_blob y) in H.
  destruct (value_slots s 8 (Ex.int_blob x) (Ex.int_blob y)) as [[s2 tl] tr].
  destruct H as (H1 & H2 & H3).
  eexists. split.
  - cbn [exec]. eapply merge_prim_sum; [exact H1|exact H2|reflexivity].
  - cbn [maps with_maps]. exact H3.
Qed.

(** The closure of inner [map[int]int32] values, called on copies of two
    map handles, leaves every map object but the left inner one alone. *)
Lemma inner_map_call_frame (m : nat) (slots : structFs) (s s' : heap) (hl hr : Z) :
  let '(s2, tl, tr) := value_slots s 8 (Ex.ptr_blob hl) (Ex.ptr_blob hr) in
  exec (S (S m)) slots (MergeMap false true 4 (Some (MergePrim reflect.Int32))) s2 tl tr = Done s' ->
  forall h, h <> hl -> maps s' !! h = maps s !! h.
Proof.
  pose proof (value_slots_heads s 8 (Some (CPtr hl)) (Some (CPtr hr))
                (repeat None 7) (repeat None 7) ltac:(lia)) as H.
  change (Some (CPtr hl) :: repeat None 7) with (Ex.ptr_blob hl) in H.
  change (Some (CPtr hr) :: repeat None 7) with (Ex.ptr_blob hr) in H.
  destruct (value_slots s 8 (Ex.ptr_blob hl) (Ex.ptr_blob hr)) as [[s2 tl] tr].
  destruct H as (H1 & H2 & H3).
  cbn [exec]. rewrite H1, H2.
  destruct (MapKeys s2 hr) as [rks|]; [|discriminate].
  intros Hrun h Hh. rewrite <- H3.
  refine (map_loop_changes_left_only _ _ _ _ _ _ _ _ _ _ Hrun h Hh).
  intros s0 a b s1 Hc. exact (proj1 (merge_prim_writes_left reflect.Int32 _ _ _ _ Hc)).
Qed.



(** Scenario E through [Gen], for
    [type S struct { m map[int]map[int]int32 }]. *)
Lemma scenario_E_nested_maps :
  exists e s',
    Gen 4 Ex.scenario_E (Ex.ptr_to 0 4096) [WithSlowerMapsUnsafely] = Some (inr e)
    /\ call 4 e Ex.scenario_E_store (Ex.ptr_to 0 4096) (Ex.ptr_to 0 8192) = Done s'
    /\ MapIndex s' 20480 (Ex.int_blob 1) = Some (Ex.ptr_blob 20496)
    /\ MapIndex s' 20480 (Ex.int_blob 2) = Some (Ex.ptr_blob 20512)
    /\ MapIndex s' 20480 (Ex.int_blob 3) = Some (Ex.ptr_blob 24608)
    /\ MapIndex s' 20496 (Ex.int_blob 11) = Some (Some (CInt reflect.Int32 1) :: repeat None 3)
    /\ MapIndex s' 20512 (Ex.int_blob 22) = Some (Some (CInt reflect.Int32 11) :: repeat None 3)
    /\ MapIndex s' 24608 (Ex.int_blob 33) = Some (Some (CInt reflect.Int32 3) :: repeat None 3).
Proof.
  eexists. eexists.
  split; [vm_compute; reflexivity|].
  split; [vm_compute; reflexivity|].
  repeat split; vm_compute; reflexivity.
Qed.

(** ** Termination of the generator on grounded tables *)

Section GeneratorSteps.
Variable types : list reflect.decl.
Variable useMap : bool.

Lemma genStruct_fields_more g1 g2 :
  answers_more g1 g2 ->
  forall fields st fs r,
    genStruct_fields types g1 fields st fs = Some r ->
    genStruct_fields types g2 fields st fs = Some r.
Proof.
  intros H. induction fields as [|sf fields IH]; intros st fs r; [trivial|].
  cbn [genStruct_fields].
  destruct (decide _); [apply IH|].
  destruct (is_grouped _); [apply IH|].
  destruct (g1 _ _ fs) as [[g fs1]|] eqn:E; [|discriminate].
  rewrite (H _ _ _ _ E).
  destruct g as [err|[f|]]; [trivial|apply IH|apply IH].
Qed.

Lemma gen_body_more g1 g2 :
  answers_more g1 g2 -> answers_more (gen_body types useMap g1) (gen_body types useMap g2).
Proof.
  intros H skips t fs r. unfold gen_body.
  destruct (_ && _); [trivial|].
  destruct (reflect.resolve types t) as [k|e|len_ e|e|kt e|d fields]; [trivial| | | | |].
  - destruct (g1 skips e fs) as [[g fs1]|] eqn:E; [|discriminate].
    rewrite (H _ _ _ _ E). trivial.
  - unfold genArray. destruct (is_grouped _); [trivial|].
    destruct (g1 skips e fs) as [[g fs1]|] eqn:E; [|discriminate].
    rewrite (H _ _ _ _ E). trivial.
  - unfold genSlice. destruct (is_grouped _); [trivial|].
    destruct (g1 skips e fs) as [[g fs1]|] eqn:E; [|discriminate].
    rewrite (H _ _ _ _ E). trivial.
  - destruct (negb useMap); [trivial|]. unfold genMap.
    destruct (g1 skips e fs) as [[g fs1]|] eqn:E; [|discriminate].
    rewrite (H _ _ _ _ E). trivial.
  - assert (HS : forall fs0 r0, genStruct types g1 skips fields fs0 = Some r0 ->
                                genStruct types g2 skips fields fs0 = Some r0).
    { intros fs0 r0. unfold genStruct. destruct (parse_skips _ _ _) as [err|[my next]]; [trivial|].
      destruct (genStruct_fields types g1 fields _ fs0) as [res|] eqn:E; [|discriminate].
      rewrite (genStruct_fields_more g1 g2 H _ _ _ _ E). trivial. }
    destruct (0 <? _); [apply HS|].
    destruct (fs !! struct_name d); [trivial|].
    destruct (genStruct types g1 skips fields _) as [res|] eqn:E; [|discriminate].
    rewrite (HS _ _ E). trivial.
Qed.

Lemma gen_more (fuel fuel' : nat) :
  (fuel <= fuel')%nat -> answers_more (gen fuel types useMap) (gen fuel' types useMap).
Proof.
  revert fuel'. induction fuel as [|fuel IH]; intros fuel' Hle; [intros skips t fs r; discriminate|].
  destruct fuel' as [|fuel']; [lia|].
  cbn [gen]. apply gen_body_more. apply IH. lia.
Qed.

Lemma genStruct_fields_adds g :
  only_adds g ->
  forall fields st fs res fs',
    genStruct_fields types g fields st fs = Some (res, fs') -> dom fs ⊆ dom fs'.
Proof.
  intros H. induction fields as [|sf fields IH]; intros st fs res fs'.
  - intros [= _ <-]. reflexivity.
  - cbn [genStruct_fields].
    destruct (decide _); [apply IH|].
    destruct (is_grouped _); [apply IH|].
    destruct (g _ _ fs) as [[r fs1]|] eqn:E; [|discriminate].
    apply H in E.
    destruct r as [err|[f|]].
    + intros [= _ <-]. exact E.
    + intros H1. apply IH in H1. set_solver.
    + intros H1. apply IH in H1. set_solver.
Qed.

Lemma gen_body_adds g : only_adds g -> only_adds (gen_body types useMap g).
Proof.
  intros H skips t fs r fs'. unfold gen_body.
  destruct (_ && _); [intros [= _ <-]; reflexivity|].
  assert (Hcall : forall e (k : generated -> structFs -> option (generated * structFs)),
            (forall g0 fs1 r1 fs2, k g0 fs1 = Some (r1, fs2) -> fs2 = fs1) ->
            match g skips e fs with
            | None => None
            | Some (g0, fs1) => k g0 fs1
            end = Some (r, fs') -> dom fs ⊆ dom fs').
  { intros e k Hk. destruct (g skips e fs) as [[g0 fs1]|] eqn:E; [|discriminate].
    intros H1. apply Hk in H1. subst fs'. exact (H _ _ _ _ _ E). }
  destruct (reflect.resolve types t) as [k|e|len_ e|e|kt e|d fields].
  - destruct k; intros [= _ <-]; reflexivity.
  - intros H1. apply (Hcall e (fun g0 fs1 =>
      match g0 with
      | Failed err => Some (Failed err, fs1)
      | Built None => Some (Built None, fs1)
      | Built (Some f) => Some (Built (Some (MergePtr f)), fs1)
      end)).
    + intros [err|[f|]] fs1 r1 fs2 [= _ <-]; reflexivity.
    + destruct (g skips e fs) as [[[err|[f|]] fs1]|]; exact H1.
  - unfold genArray. destruct (is_grouped _); [intros [= _ <-]; reflexivity|].
    intros H1. apply (Hcall e (fun g0 fs1 =>
      match g0 with
      | Failed err => Some (Failed err, fs1)
      | Built None => Some (Built None, fs1)
      | Built (Some f) =>
          Some (Built (Some (MergeArray (len_ * reflect.SizeOf types e)
                               (reflect.SizeOf types e) f)), fs1)
      end)).
    + intros [err|[f|]] fs1 r1 fs2 [= _ <-]; reflexivity.
    + destruct (g skips e fs) as [[[err|[f|]] fs1]|]; exact H1.
  - unfold genSlice. destruct (is_grouped _); [intros [= _ <-]; reflexivity|].
    intros H1. apply (Hcall e (fun g0 fs1 =>
      match g0 with
      | Failed err => Some (Failed err, fs1)
      | Built None => Some (Built None, fs1)
      | Built (Some f) => Some (Built (Some (MergeSlice (reflect.SizeOf types e) f)), fs1)
      end)).
    + intros [err|[f|]] fs1 r1 fs2 [= _ <-]; reflexivity.
    + destruct (g skips e fs) as [[[err|[f|]] fs1]|]; exact H1.
  - destruct (negb useMap); [intros [= _ <-]; reflexivity|]. unfold genMap.
    destruct (g skips e fs) as [[[err|f] fs1]|] eqn:E; try discriminate;
      intros [= _ <-]; exact (H _ _ _ _ _ E).
  - assert (HS : forall fs0 r0 fs1, genStruct types g skips fields fs0 = Some (r0, fs1) ->
                                    dom fs0 ⊆ dom fs1).
    { intros fs0 r0 fs1. unfold genStruct.
      destruct (parse_skips _ _ _) as [err|[my next]]; [intros [= _ <-]; reflexivity|].
      destruct (genStruct_fields types g fields _ fs0) as [[res fs2]|] eqn:E; [|discriminate].
      apply (genStruct_fields_adds g H) in E.
      destruct res as [err|st].
      - intros [= _ <-]. exact E.
      - destruct (0 <? _); [intros [= _ <-]; exact E|].
        destruct (0 <? _); [intros [= _ <-]; exact E|].
        destruct (_ =? 0); intros [= _ <-]; exact E. }
    destruct (0 <? _); [apply HS|].
    destruct (fs !! struct_name d); [intros [= _ <-]; reflexivity|].
    destruct (genStruct types g skips fields _) as [[[err|f] fs1]|] eqn:E; [| |discriminate].
    + intros [= _ <-]. apply HS in E. rewrite dom_insert_L in E. set_solver.
    + intros [= _ <-]. apply HS in E. rewrite dom_insert_L in E |- *. set_solver.
Qed.

Lemma gen_adds (fuel : nat) : only_adds (gen fuel types useMap).
Proof.
  induction fuel as [|fuel IH]; [intros skips t fs r fs'; discriminate|].
  cbn [gen]. apply gen_body_adds. exact IH.
Qed.
End GeneratorSteps.

Lemma IndexByte_from_range (s : string) (c : ascii) (i : Z) :
  IndexByte_from s c i = -1 \/ i <= IndexByte_from s c i < i + len s.
Proof.
  revert i. induction s as [|a s IH]; intros i; [left; reflexivity|].
  cbn [IndexByte_from]. unfold len in *. cbn [String.length].
  destruct (Ascii.eqb a c); [right; lia|].
  destruct (IH (i + 1)) as [H|H]; [left; exact H|right; lia].
Qed.

(** The second half of the test [idx == 0 || len(skip) < idx+1] of
    [genStruct] is false for every index [strings.IndexByte] returns. *)
Lemma empty_field_test_is_dead (skip : string) (c : ascii) :
  (len skip <? IndexByte skip c + 1) = false.
Proof.
  apply Z.ltb_ge. unfold IndexByte.
  destruct (IndexByte_from_range skip c 0) as [H|H].
  - rewrite H. unfold len. lia.
  - lia.
Qed.

Lemma slice_from_le (s : string) (n : nat) :
  (String.length (slice_from s n) <= String.length s)%nat.
Proof.
  revert s. induction n as [|n IH]; intros s; [destruct s; reflexivity|].
  destruct s as [|a s]; [reflexivity|]. cbn [slice_from String.length].
  specialize (IH s). lia.
Qed.

Lemma slice_from_shorter (s : string) (n : nat) :
  s <> EmptyString -> (String.length (slice_from s (S n)) < String.length s)%nat.
Proof.
  destruct s as [|a s]; [congruence|]. intros _. cbn [slice_from String.length].
  pose proof (slice_from_le s n). lia.
Qed.

Lemma skip_measure_bound (skips : list string) :
  Forall (fun skip => (S (String.length skip) <= skip_measure skips)%nat) skips.
Proof.
  unfold skip_measure.
  pose proof (proj1 (list_max_le (map (fun skip => S (String.length skip)) skips) _)
                (Nat.le_refl _)) as H.
  rewrite List.Forall_forall in H. apply Forall_forall. intros x Hx.
  apply H. apply (in_map (fun skip => S (String.length skip)) skips x).
  apply list_elem_of_In. exact Hx.
Qed.

Lemma skip_measure_le (l : list string) (n : nat) :
  Forall (fun x => (S (String.length x) <= n)%nat) l -> (skip_measure l <= n)%nat.
Proof.
  intros H. unfold skip_measure. apply list_max_le.
  apply List.Forall_forall. intros k Hk. apply in_map_iff in Hk as [x [<- Hx]].
  rewrite Forall_forall in H. apply H. apply list_elem_of_In. exact Hx.
Qed.

(** The paths [genStruct] hands down to a field are shorter than the
    longest path of the level. *)
Lemma parse_skips_residuals (M : nat) (skips : list string)
    (my my' : gset string) (next next' : gmap string (list string)) :
  Forall (fun skip => (S (String.length skip) <= M)%nat) skips ->
  (forall name l, next !! name = Some l ->
                  Forall (fun x => (S (String.length x) < M)%nat) l) ->
  parse_skips skips my next = inr (my', next') ->
  forall name l, next' !! name = Some l ->
                 Forall (fun x => (S (String.length x) < M)%nat) l.
Proof.
  revert my next. induction skips as [|skip skips IH]; intros my next Hlen Hnext.
  - intros [= _ <-]. exact Hnext.
  - apply Forall_cons in Hlen as [Hskip Hlen]. cbn [parse_skips].
    destruct (IndexByte skip ">" =? -1) eqn:E1; [apply IH; assumption|].
    destruct ((IndexByte skip ">" =? 0) || _); [discriminate|].
    apply IH; [exact Hlen|].
    intros name l. rewrite lookup_insert. case_decide as En.
    + intros [= <-]. apply Forall_app. split.
      * destruct (next !! _) as [l0|] eqn:E0; [exact (Hnext _ _ E0)|constructor].
      * repeat constructor.
        assert (Hne : skip <> EmptyString) by (intros ->; discriminate).
        unfold IndexByte in *. destruct (IndexByte_from_range skip ">" 0) as [H|H]; [lia|].
        replace (Z.to_nat (IndexByte_from skip ">" 0 + 1))
          with (S (Z.to_nat (IndexByte_from skip ">" 0))) by lia.
        pose proof (slice_from_shorter skip (Z.to_nat (IndexByte_from skip ">" 0)) Hne). lia.
    + apply Hnext.
Qed.

Lemma free_keys_mono (types : list reflect.decl) (fs fs' : structFs) :
  dom fs ⊆ dom fs' -> (free_keys types fs' <= free_keys types fs)%nat.
Proof. intros H. unfold free_keys. apply subseteq_size. set_solver. Qed.

Lemma free_keys_insert (types : list reflect.decl) (fs : structFs) (id : nat)
    (d : reflect.decl) (v : option plan) :
  types !! id = Some d -> fs !! struct_name d = None ->
  (free_keys types (<[ struct_name d := v ]> fs) < free_keys types fs)%nat.
Proof.
  intros Hd Hnone. unfold free_keys. apply subset_size.
  assert (Hin : struct_name d ∈ struct_keys types).
  { unfold struct_keys. apply elem_of_list_to_set. apply list_elem_of_fmap.
    exists d. split; [reflexivity|]. exact (list_elem_of_lookup_2 _ _ _ Hd). }
  assert (Hout : struct_name d ∉ dom fs) by (apply not_elem_of_dom; exact Hnone).
  rewrite dom_insert_L. set_solver.
Qed.

Lemma resolve_struct (types : list reflect.decl) (t : reflect.rtype)
    (d : reflect.decl) (fields : list reflect.StructField) :
  reflect.resolve types t = reflect.SStruct d fields ->
  exists id, t = reflect.Defined id /\ types !! id = Some d
             /\ reflect.Under d = reflect.StructOf fields.
Proof.
  destruct t as [k|e|n e|e|k e|id]; try discriminate. cbn [reflect.resolve].
  destruct (types !! id) as [d0|] eqn:Hd; [|discriminate].
  destruct (reflect.Under d0) as [fs0|t0] eqn:Hu; [|destruct t0; discriminate].
  intros [= <- <-]. exists id. auto.
Qed.

Section Termination.
Variable types : list reflect.decl.
Variable useMap : bool.
Hypothesis table_grounded : grounded_table types.

(** The field loop returns as soon as [gen] returns on every field. *)
Lemma fields_terminate (bound : nat) :
  (forall skips t fs,
     (skip_measure skips + free_keys types fs <= bound)%nat -> grounded types t ->
     exists fuel r, gen fuel types useMap skips t fs = Some r) ->
  forall (mb : nat) fields st fs,
    Forall (fun sf => grounded types (reflect.Type_ sf)) fields ->
    (forall name l, skipNextLevel st !! name = Some l -> (skip_measure l <= mb)%nat) ->
    (mb + free_keys types fs <= bound)%nat ->
    exists fuel r, genStruct_fields types (gen fuel types useMap) fields st fs = Some r.
Proof.
  intros IH mb. induction fields as [|sf fields IHf]; intros st fs Hg Hnext Hb.
  - exists 0%nat. eexists. reflexivity.
  - apply Forall_cons in Hg as [Hsf Hg]. cbn [genStruct_fields].
    destruct (decide (reflect.Name sf ∈ skipMyLevel st)); [apply IHf; assumption|].
    destruct (is_grouped _); [apply IHf; assumption|].
    destruct (IH (default [] (skipNextLevel st !! reflect.Name sf)) (reflect.Type_ sf) fs)
      as (fuel1 & [r1 fs1] & H1); [|exact Hsf|].
    { destruct (skipNextLevel st !! reflect.Name sf) as [l|] eqn:E; unfold default, id.
      - specialize (Hnext _ _ E). lia.
      - unfold skip_measure. cbn. lia. }
    pose proof (free_keys_mono types _ _ (gen_adds types useMap fuel1 _ _ _ _ _ H1)) as Hk.
    assert (Hrest : forall st',
              skipNextLevel st' = delete (reflect.Name sf) (skipNextLevel st) ->
              exists fuel r, genStruct_fields types (gen fuel types useMap) fields st' fs1 = Some r).
    { intros st' Hst. apply IHf; [exact Hg| |lia].
      intros name l. rewrite Hst, lookup_delete. case_decide; [discriminate|]. apply Hnext. }
    destruct r1 as [err|[f|]].
    + exists fuel1. rewrite H1. eexists. reflexivity.
    + destruct (Hrest {| skipMyLevel := skipMyLevel st;
                         skipNextLevel := delete (reflect.Name sf) (skipNextLevel st);
                         grouped := grouped st;
                         offsetFs := offsetFs st ++ [(reflect.Offset sf, f)];
                         added := added st + 1 |} eq_refl) as (fuel2 & r2 & H2).
      exists (Nat.max fuel1 fuel2), r2.
      rewrite (gen_more types useMap fuel1 (Nat.max fuel1 fuel2) (Nat.le_max_l _ _) _ _ _ _ H1).
      exact (genStruct_fields_more types _ _
               (gen_more types useMap fuel2 _ (Nat.le_max_r _ _)) _ _ _ _ H2).
    + destruct (Hrest {| skipMyLevel := skipMyLevel st;
                         skipNextLevel := delete (reflect.Name sf) (skipNextLevel st);
                         grouped := grouped st; offsetFs := offsetFs st;
                         added := added st |} eq_refl) as (fuel2 & r2 & H2).
      exists (Nat.max fuel1 fuel2), r2.
      rewrite (gen_more types useMap fuel1 (Nat.max fuel1 fuel2) (Nat.le_max_l _ _) _ _ _ _ H1).
      exact (genStruct_fields_more types _ _
               (gen_more types useMap fuel2 _ (Nat.le_max_r _ _)) _ _ _ _ H2).
Qed.

Lemma genStruct_answers (fuel : nat) (skips : list string)
    (fields : list reflect.StructField) (my : gset string)
    (next : gmap string (list string)) (fs : structFs)
    (r : (error + fields_state) * structFs) :
  parse_skips skips ∅ ∅ = inr (my, next) ->
  genStruct_fields types (gen fuel types useMap) fields
    {| skipMyLevel := my; skipNextLevel := next; grouped := empty_vectors;
       offsetFs := []; added := 0 |} fs = Some r ->
  exists r', genStruct types (gen fuel types useMap) skips fields fs = Some r'.
Proof.
  intros Hp Hf. unfold genStruct. rewrite Hp, Hf.
  destruct r as [[err|st] fs1]; [eexists; reflexivity|].
  destruct (0 <? _); [eexists; reflexivity|].
  destruct (0 <? _); [eexists; reflexivity|].
  destruct (_ =? 0); eexists; reflexivity.
Qed.

Lemma gen_terminates_within (bound : nat) :
  forall skips t fs,
    (skip_measure skips + free_keys types fs <= bound)%nat -> grounded types t ->
    exists fuel r, gen fuel types useMap skips t fs = Some r.
Proof.
  induction bound as [bound IHb] using lt_wf_ind.
  intros skips t fs Hb Hg. revert skips fs Hb.
  induction Hg as [t k Hres|t d fields Hres|t e Hres Hg IH|t n e Hres Hg IH
                  |t e Hres Hg IH|t k e Hres Hg IH]; intros skips fs Hb.
  - exists 1%nat. cbn [gen]. unfold gen_body. rewrite Hres.
    destruct (_ && _); [eexists; reflexivity|]. destruct k; eexists; reflexivity.
  - destruct (resolve_struct _ _ _ _ Hres) as (id & -> & Hd & Hu).
    pose proof (table_grounded id d fields Hd Hu) as Hfields.
    assert (Hguard : forall b, (b && negb (may_hold_skips
                                  (reflect.KindOf types (reflect.Defined id)))) = false).
    { intros b. unfold reflect.KindOf. rewrite Hres. cbn. apply andb_false_r. }
    destruct (0 <? Z.of_nat (length skips)) eqn:Hskips.
    + destruct (parse_skips skips ∅ ∅) as [err|[my next]] eqn:Hp.
      { exists 1%nat. cbn [gen]. unfold gen_body. rewrite Hguard, Hres, Hskips.
        unfold genStruct. rewrite Hp. eexists. reflexivity. }
      assert (Hm : (1 <= skip_measure skips)%nat).
      { destruct skips as [|skip skips]; [discriminate|].
        pose proof (skip_measure_bound (skip :: skips)) as H.
        apply Forall_cons in H as [H _]. lia. }
      destruct (fields_terminate (bound - 1)) with
        (mb := (skip_measure skips - 1)%nat) (fields := fields)
        (st := {| skipMyLevel := my; skipNextLevel := next; grouped := empty_vectors;
                  offsetFs := []; added := 0 |}) (fs := fs) as (fuel & r & Hr).
      * intros skips' t' fs' Hb' Hg'. apply (IHb (bound - 1)%nat); [lia|exact Hb'|exact Hg'].
      * exact Hfields.
      * intros name l Hl. cbn [skipNextLevel] in Hl.
        apply skip_measure_le.
        eapply Forall_impl;
          [exact (parse_skips_residuals (skip_measure skips) skips ∅ my ∅ next
                    (skip_measure_bound skips) ltac:(intros ? ? H; rewrite lookup_empty in H;
                                                     discriminate) Hp name l Hl)|].
        cbn. intros x Hx. lia.
      * lia.
      * destruct (genStruct_answers fuel skips fields my next fs r Hp Hr) as [r' Hr'].
        exists (S fuel). cbn [gen]. unfold gen_body. rewrite Hguard, Hres, Hskips.
        eexists. exact Hr'.
    + destruct (fs !! struct_name d) eqn:Hname.
      { exists 1%nat. cbn [gen]. unfold gen_body. rewrite Hguard, Hres, Hskips, Hname.
        eexists. reflexivity. }
      assert (Hnil : skips = []) by (destruct skips; [reflexivity|discriminate]).
      subst skips.
      pose proof (free_keys_insert types fs id d None Hd Hname) as Hless.
      destruct (fields_terminate (bound - 1)) with
        (mb := 0%nat) (fields := fields)
        (st := {| skipMyLevel := ∅; skipNextLevel := ∅; grouped := empty_vectors;
                  offsetFs := []; added := 0 |})
        (fs := <[ struct_name d := None ]> fs) as (fuel & r & Hr).
      * intros skips' t' fs' Hb' Hg'. apply (IHb (bound - 1)%nat); [lia|exact Hb'|exact Hg'].
      * exact Hfields.
      * intros name l Hl. cbn [skipNextLevel] in Hl. rewrite lookup_empty in Hl. discriminate.
      * lia.
      * destruct (genStruct_answers fuel [] fields ∅ ∅ _ r eq_refl Hr) as [[g fs1] Hr'].
        exists (S fuel). cbn [gen]. unfold gen_body. rewrite Hguard, Hres, Hskips, Hname, Hr'.
        destruct g; eexists; reflexivity.
  - destruct (IH skips fs Hb) as (fuel & [g fs1] & H).
    exists (S fuel). cbn [gen]. unfold gen_body. rewrite Hres.
    destruct (_ && _); [eexists; reflexivity|]. rewrite H.
    destruct g as [err|[f|]]; eexists; reflexivity.
  - destruct (IH skips fs Hb) as (fuel & [g fs1] & H).
    exists (S fuel). cbn [gen]. unfold gen_body. rewrite Hres.
    destruct (_ && _); [eexists; reflexivity|]. unfold genArray.
    destruct (is_grouped _); [eexists; reflexivity|]. rewrite H.
    destruct g as [err|[f|]]; eexists; reflexivity.
  - destruct (IH skips fs Hb) as (fuel & [g fs1] & H).
    exists (S fuel). cbn [gen]. unfold gen_body. rewrite Hres.
    destruct (_ && _); [eexists; reflexivity|]. unfold genSlice.
    destruct (is_grouped _); [eexists; reflexivity|]. rewrite H.
    destruct g as [err|[f|]]; eexists; reflexivity.
  - destruct (IH skips fs Hb) as (fuel & [g fs1] & H).
    exists (S fuel). cbn [gen]. unfold gen_body. rewrite Hres.
    destruct (_ && _); [eexists; reflexivity|].
    destruct (negb useMap); [eexists; reflexivity|]. unfold genMap. rewrite H.
    destruct g as [err|f]; eexists; reflexivity.
Qed.
End Termination.


Lemma linked_table_grounded : grounded_table Ex.linked.
Proof.
  intros id d fields Hd Hu.
  destruct id as [|id]; [|destruct id; discriminate].
  injection Hd as <-. injection Hu as <-.
  repeat constructor.
  - eapply grounded_ptr; [reflexivity|]. eapply grounded_struct. reflexivity.
  - eapply grounded_basic. reflexivity.
Defined.


(** What the generator returns there: it descends twice through [T] before
    the table of plans is used, and the plan saved for [T] calls itself
    through the thunk. *)
Lemma linked_struct_is_generated :
  exists e,
    Gen 7 Ex.linked (Ex.ptr_to 0 4096) [SkipField "Next>V"] = Some (inr e)
    /\ slots e !! "main.T"%string
       = Some (Some (MergeStruct (append_offset reflect.Int 8 empty_vectors)
                       [(0, MergePtr (MergeThunk "main.T"))])).
Proof. eexists. split; vm_compute; reflexivity. Qed.

(** * Further properties of the package *)

(** ** Options *)

Lemma apply_options_package (os : list package_option) (c : Config) :
  apply_options (map option_of os) c
  = inr {| skips := skips c ++ concat (map option_skips os);
           unsafeMap := unsafeMap c || existsb option_maps os |}.
Proof.
  revert c. induction os as [|o os IH]; intros c; cbn [map apply_options concat existsb].
  - rewrite app_nil_r, orb_false_r. destruct c; reflexivity.
  - destruct o; cbn [option_of SkipFields SkipField WithSlowerMapsUnsafely];
      rewrite IH; cbn [skips unsafeMap option_skips option_maps];
      rewrite ?app_assoc, ?app_nil_r, ?orb_true_r; try reflexivity.
    all: cbn [app orb]; try reflexivity.
Qed.

(** The options of the package never fail and only accumulate: after any
    list of them the skips are those of all the options in the order given
    and maps are on when [WithSlowerMapsUnsafely] occurs; so [Gen] answers as
    it does for one [SkipFields] holding all the skips, followed by
    [WithSlowerMapsUnsafely] when it occurred. *)
Theorem package_options_accumulate (fuel : nat) (types : list reflect.decl)
    (i : ifaceWords) (os : list package_option) :
  apply_options (map option_of os) zero_config
  = inr {| skips := concat (map option_skips os);
           unsafeMap := existsb option_maps os |}
  /\ Gen fuel types i (map option_of os)
     = Gen fuel types i
         (SkipFields (concat (map option_skips os))
          :: if existsb option_maps os then [WithSlowerMapsUnsafely] else []).
Proof.
  assert (H := apply_options_package os zero_config).
  cbn [zero_config skips unsafeMap app orb] in H.
  split; [exact H|].
  unfold Gen. fold zero_config. rewrite H.
  destruct (existsb option_maps os); reflexivity.
Qed.

(** ** The value [Gen] is given *)

(** [Gen] refuses, before it generates anything, a value that is not a
    pointer and a non-nil pointer to a pointer; a nil pointer is refused by
    [gen], whatever it would point to, since [reflect.Indirect] of it is the
    zero [Value]: as an invalid type, or, when skips are given, as a kind that
    cannot hold skips. *)
Theorem Gen_refuses_bad_roots (fuel : nat) (types : list reflect.decl)
    (i : ifaceWords) (options : list option_func) (c : Config) :
  apply_options options zero_config = inr c ->
  ((forall et, reflect.resolve types (typ i) <> reflect.SPtr et) ->
   Gen fuel types i options = Some (inl ErrNotPointer))
  /\ (forall et, reflect.resolve types (typ i) = reflect.SPtr et ->
        (data i <> 0 -> reflect.KindOf types et = reflect.Ptr ->
         Gen fuel types i options = Some (inl ErrDoublePointer))
        /\ (data i = 0 ->
            Gen (S fuel) types i options
            = Some (inl (if skips c is [] then ErrInvalid else ErrSkipKind reflect.Invalid)))).
Proof.
  intros Hc. unfold Gen. fold zero_config. rewrite Hc. split.
  - intros Hno. destruct (reflect.resolve types (typ i)) eqn:E; try reflexivity.
    exfalso. exact (Hno _ eq_refl).
  - intros et ->. split.
    + intros Hd Hk. replace (data i =? 0) with false by (symmetry; apply Z.eqb_neq; exact Hd).
      rewrite decide_True by exact Hk. reflexivity.
    + intros ->. cbn [Z.eqb].
      rewrite decide_False by discriminate.
      cbn [gen]. unfold gen_body. cbn.
      destruct (skips c); reflexivity.
Qed.

(** [Gen] on an [int], on a [**int32] and on a nil [*S]. *)
Lemma Gen_refuses_bad_roots_examples :
  Gen 0 [] {| typ := reflect.Basic reflect.Int; data := 7 |} [] = Some (inl ErrNotPointer)
  /\ Gen 0 [] {| typ := reflect.PtrTo (reflect.PtrTo (reflect.Basic reflect.Int32));
                 data := 4096 |} [] = Some (inl ErrDoublePointer)
  /\ Gen 1 Ex.scenario_A (Ex.ptr_to 0 0) [] = Some (inl ErrInvalid)
  /\ Gen 1 Ex.scenario_A (Ex.ptr_to 0 0) [SkipField "x"]
     = Some (inl (ErrSkipKind reflect.Invalid)).
Proof.
  split; [|split; [|split]].
  - apply (proj1 (Gen_refuses_bad_roots 0 [] {| typ := reflect.Basic reflect.Int; data := 7 |}
                    [] zero_config eq_refl)).
    intros et. discriminate.
  - apply (proj1 (proj2 (Gen_refuses_bad_roots 0 []
                           {| typ := reflect.PtrTo (reflect.PtrTo (reflect.Basic reflect.Int32));
                              data := 4096 |} [] zero_config eq_refl)
                    (reflect.PtrTo (reflect.Basic reflect.Int32)) eq_refl));
      [discriminate|reflexivity].
  - apply (proj2 (proj2 (Gen_refuses_bad_roots 0 Ex.scenario_A (Ex.ptr_to 0 0) []
                           zero_config eq_refl) (reflect.Defined 0) eq_refl)).
    reflexivity.
  - apply (proj2 (proj2 (Gen_refuses_bad_roots 0 Ex.scenario_A (Ex.ptr_to 0 0) [SkipField "x"]
                           {| skips := ["x"%string]; unsafeMap := false |} eq_refl)
                    (reflect.Defined 0) eq_refl)).
    reflexivity.
Defined.

(** ** Types the generator refuses *)

Lemma unmergeable_not_grouped (types : list reflect.decl) (useMap : bool) (t : reflect.rtype) :
  unmergeable types useMap t -> is_grouped (reflect.KindOf types t) = false.
Proof.
  intros H. unfold reflect.KindOf.
  destruct H as [t k E Hk|t kt e E _|t e E _|t n e E _|t e E _|t kt e E _]; rewrite E;
    try reflexivity.
  unfold refused_kinds in Hk.
  repeat (apply elem_of_cons in Hk as [->|Hk]; [reflexivity|]).
  inversion Hk.
Qed.

(** [gen] fails on a value of a refused kind and on a map while maps are
    off, also when it meets them behind pointers, arrays, slices and map
    values: it returns an error, for every list of skips, as soon as the fuel
    covers the depth of the type, and leaves [structFs] as it was. *)
Theorem gen_fails_on_unmergeable (types : list reflect.decl) (useMap : bool)
    (t : reflect.rtype) (skips : list string) (fs : structFs) :
  unmergeable types useMap t ->
  exists (n : nat) (err : error),
    forall fuel, (n <= fuel)%nat ->
      gen fuel types useMap skips t fs = Some (Failed err, fs).
Proof.
  intros H. revert skips.
  induction H as [t k E Hk|t kt e E Hoff|t e E _ IH|t n e E He IH|t e E He IH|t kt e E _ IH];
    intros skips.
  - exists 1%nat.
    exists (if (0 <? Z.of_nat (length skips)) then ErrSkipKind k else refusal k).
    intros [|fuel] Hf; [lia|]. cbn [gen]. unfold gen_body, reflect.KindOf. rewrite E.
    unfold refused_kinds in Hk.
    repeat (apply elem_of_cons in Hk as [->|Hk];
            [destruct (0 <? Z.of_nat (length skips)); reflexivity|]).
    inversion Hk.
  - exists 1%nat.
    exists (if (0 <? Z.of_nat (length skips)) then ErrSkipKind reflect.Map else ErrMaps).
    intros [|fuel] Hf; [lia|]. cbn [gen]. unfold gen_body, reflect.KindOf. rewrite E, Hoff.
    destruct (0 <? Z.of_nat (length skips)); reflexivity.
  - destruct (IH skips) as (n & err & Hn). exists (S n), err.
    intros [|fuel] Hf; [lia|]. cbn [gen]. unfold gen_body, reflect.KindOf. rewrite E.
    cbn [may_hold_skips negb]. rewrite andb_false_r.
    rewrite (Hn fuel) by lia. reflexivity.
  - destruct (IH skips) as (n' & err & Hn). exists (S n'), err.
    intros [|fuel] Hf; [lia|]. cbn [gen]. unfold gen_body, reflect.KindOf. rewrite E.
    cbn [may_hold_skips negb]. rewrite andb_false_r.
    unfold genArray. rewrite (unmergeable_not_grouped _ _ _ He).
    rewrite (Hn fuel) by lia. reflexivity.
  - destruct (IH skips) as (n & err & Hn). exists (S n), err.
    intros [|fuel] Hf; [lia|]. cbn [gen]. unfold gen_body, reflect.KindOf. rewrite E.
    cbn [may_hold_skips negb]. rewrite andb_false_r.
    unfold genSlice. rewrite (unmergeable_not_grouped _ _ _ He).
    rewrite (Hn fuel) by lia. reflexivity.
  - destruct (IH skips) as (n & err & Hn).
    exists (S n).
    exists (if (0 <? Z.of_nat (length skips)) then ErrSkipKind reflect.Map
            else if useMap then err else ErrMaps).
    intros [|fuel] Hf; [lia|]. cbn [gen]. unfold gen_body, reflect.KindOf. rewrite E.
    cbn [may_hold_skips negb]. rewrite andb_true_r.
    destruct (0 <? Z.of_nat (length skips)); [reflexivity|].
    destruct useMap; [|reflexivity]. cbn [negb]. unfold genMap.
    rewrite (Hn fuel) by lia. reflexivity.
Qed.

(** A slice of pointers to channels, with maps on and with a skip. *)
Lemma gen_fails_on_slice_of_chan_pointers :
  exists (n : nat) (err : error),
    forall fuel, (n <= fuel)%nat ->
      gen fuel [] true ["a"%string]
        (reflect.SliceOf (reflect.PtrTo (reflect.Basic reflect.Chan))) ∅
      = Some (Failed err, ∅).
Proof.
  apply (gen_fails_on_unmergeable [] true
           (reflect.SliceOf (reflect.PtrTo (reflect.Basic reflect.Chan))) ["a"%string] ∅).
  eapply unmergeable_slice; [reflexivity|].
  eapply unmergeable_ptr; [reflexivity|].
  eapply unmergeable_kind; [reflexivity|].
  unfold refused_kinds. set_solver.
Defined.

(** ** The skips of a struct *)

Lemma IndexByte_from_split (s : string) (c : ascii) (i : Z) :
  IndexByte_from s c i <> -1 -> 0 <= i ->
  let n := Z.to_nat (IndexByte_from s c i - i) in
  (slice_to s n ++ String c (slice_from s (S n)))%string = s
  /\ IndexByte_from (slice_to s n) c 0 = -1.
Proof.
  revert i. induction s as [|a s IH]; intros i H Hi; cbn [IndexByte_from] in *; [congruence|].
  destruct (Ascii.eqb_spec a c) as [->|Hne].
  - rewrite Z.sub_diag. change (Z.to_nat 0) with 0%nat.
    cbn [slice_to slice_from]. split; [|reflexivity].
    destruct s; reflexivity.
  - destruct (IndexByte_from_range s c (i + 1)) as [E|R]; [congruence|].
    specialize (IH (i + 1) H ltac:(lia)). cbn zeta in IH.
    replace (Z.to_nat (IndexByte_from s c (i + 1) - i))
      with (S (Z.to_nat (IndexByte_from s c (i + 1) - (i + 1)))) by lia.
    cbn [slice_to slice_from String.append]. destruct IH as [IH1 IH2].
    split; [etransitivity; [|exact (f_equal (String a) IH1)]; reflexivity|].
    cbn [IndexByte_from]. destruct (Ascii.eqb_spec a c); [contradiction|].
    destruct (IndexByte_from_range
                (slice_to s (Z.to_nat (IndexByte_from s c (i + 1) - (i + 1)))) c 0) as [E|R'];
      [|lia].
    destruct (IndexByte_from_range
                (slice_to s (Z.to_nat (IndexByte_from s c (i + 1) - (i + 1)))) c (0 + 1))
      as [E'|R'']; [exact E'|].
    exfalso.
    assert (Hsh : forall s0 j, IndexByte_from s0 c j = -1 -> 0 <= j ->
                               IndexByte_from s0 c (j + 1) = -1).
    { clear. induction s0 as [|b s0 IH0]; intros j Hj Hpos; cbn [IndexByte_from] in *;
        [reflexivity|].
      destruct (Ascii.eqb b c); [lia|]. apply IH0; [exact Hj|lia]. }
    rewrite (Hsh _ 0 E ltac:(lia)) in R''. lia.
Qed.

(** The cut [genStruct] makes at the first [>] of a skip loses nothing:
    the field name, the separator and the residual make up the skip again,
    and the field name holds no separator. *)
Theorem skip_split_roundtrip (skip : string) :
  has_separator skip = true ->
  (first_segment skip ++ ">" ++ residual skip)%string = skip
  /\ has_separator (first_segment skip) = false.
Proof.
  unfold has_separator, first_segment, residual, IndexByte. intros H.
  apply negb_true_iff, Z.eqb_neq in H.
  destruct (IndexByte_from_split skip ">" 0 H ltac:(lia)) as [H1 H2].
  destruct (IndexByte_from_range skip ">" 0) as [E|R]; [congruence|].
  rewrite Z.sub_0_r in H1, H2.
  replace (Z.to_nat (IndexByte_from skip ">" 0 + 1))
    with (S (Z.to_nat (IndexByte_from skip ">" 0))) by lia.
  split; [exact H1|]. rewrite H2. reflexivity.
Qed.

(** The skip of the package test. *)
Lemma skip_split_roundtrip_example :
  first_segment "Foo>bar>Baz" = "Foo"%string
  /\ residual "Foo>bar>Baz" = "bar>Baz"%string
  /\ ("Foo" ++ ">" ++ "bar>Baz")%string = "Foo>bar>Baz"%string
  /\ has_separator "Foo" = false.
Proof.
  destruct (skip_split_roundtrip "Foo>bar>Baz" eq_refl) as [H1 H2].
  split; [reflexivity|]. split; [reflexivity|]. split; [exact H1|exact H2].
Defined.

Lemma residuals_cons (name skip : string) (rest : list string) :
  residuals name (skip :: rest)
  = if has_separator skip && String.eqb (first_segment skip) name
    then residual skip :: residuals name rest
    else residuals name rest.
Proof.
  unfold residuals. cbn [List.filter].
  destruct (has_separator skip && String.eqb (first_segment skip) name); reflexivity.
Qed.

Lemma parse_skips_general (skips : list string) (my : gset string)
    (next : gmap string (list string)) :
  match parse_skips skips my next with
  | inl err => err = ErrEmptyFieldName /\ Exists (fun skip => IndexByte skip ">" = 0) skips
  | inr (my', next') =>
      Forall (fun skip => IndexByte skip ">" <> 0) skips
      /\ (forall x, x ∈ my' <-> x ∈ my \/ (x ∈ skips /\ has_separator x = false))
      /\ (forall name, default [] (next' !! name)
                       = default [] (next !! name) ++ residuals name skips)
      /\ (forall name, is_Some (next' !! name)
                       <-> is_Some (next !! name) \/ residuals name skips <> [])
  end.
Proof.
  revert my next. induction skips as [|skip rest IH]; intros my next; cbn [parse_skips].
  - split; [constructor|]. split; [intros x; set_solver|].
    split; intros name; [rewrite app_nil_r; reflexivity|].
    unfold residuals. cbn. tauto.
  - destruct (Z.eqb_spec (IndexByte skip ">") (-1)) as [E|E].
    + specialize (IH ({[ skip ]} ∪ my) next).
      destruct (parse_skips rest ({[ skip ]} ∪ my) next) as [err|[my' next']].
      * destruct IH as [-> IH]. split; [reflexivity|right; exact IH].
      * destruct IH as (H1 & H2 & H3 & H4).
        assert (Hs : has_separator skip = false)
          by (unfold has_separator; rewrite E; reflexivity).
        split; [constructor; [lia|exact H1]|].
        split; [intros x; rewrite H2; split; [intros [Hx|[Hx Hx']]|intros [Hx|[Hx Hx']]]|].
        -- apply elem_of_union in Hx as [Hx|Hx]; [|left; exact Hx].
           apply elem_of_singleton in Hx as ->. right. split; [left|exact Hs].
        -- right. split; [right; exact Hx|exact Hx'].
        -- left. set_solver.
        -- apply elem_of_cons in Hx as [->|Hx]; [left; set_solver|right; split; assumption].
        -- split; intros name; rewrite residuals_cons, Hs; cbn [andb]; [apply H3|apply H4].
    + destruct (Z.eqb_spec (IndexByte skip ">") 0) as [E0|E0]; cbn [orb].
      * split; [reflexivity|left; exact E0].
      * rewrite empty_field_test_is_dead.
        assert (Hs : has_separator skip = true).
        { unfold has_separator. apply negb_true_iff, Z.eqb_neq. exact E. }
        fold (first_segment skip). fold (residual skip).
        specialize (IH my (<[ first_segment skip
                              := default [] (next !! first_segment skip) ++ [residual skip] ]> next)).
        destruct (parse_skips rest my _) as [err|[my' next']].
        -- destruct IH as [-> IH]. split; [reflexivity|right; exact IH].
        -- destruct IH as (H1 & H2 & H3 & H4).
           split; [constructor; assumption|].
           split; [intros x; rewrite H2; split; [intros [Hx|[Hx Hx']]|intros [Hx|[Hx Hx']]]|].
           ++ left; exact Hx.
           ++ right. split; [right; exact Hx|exact Hx'].
           ++ left; exact Hx.
           ++ apply elem_of_cons in Hx as [->|Hx]; [congruence|right; split; assumption].
           ++ split; intros name; rewrite residuals_cons, Hs; cbn [andb].
              ** rewrite H3. destruct (String.eqb_spec (first_segment skip) name) as [->|Hn].
                 --- rewrite lookup_insert_eq. unfold default at 1. cbn [from_option id].
                     rewrite <- app_assoc. reflexivity.
                 --- rewrite lookup_insert_ne by exact Hn. reflexivity.
              ** rewrite H4. destruct (String.eqb_spec (first_segment skip) name) as [->|Hn].
                 --- rewrite lookup_insert_eq. split; [intros _; right; discriminate|].
                     intros _. left. eauto.
                 --- rewrite lookup_insert_ne by exact Hn. reflexivity.
Qed.

Lemma parse_skips_levels (skips : list string) (my : gset string)
    (next : gmap string (list string)) :
  parse_skips skips ∅ ∅ = inr (my, next) ->
  (forall x, x ∈ my <-> x ∈ skips /\ has_separator x = false)
  /\ (forall name, is_Some (next !! name) <-> residuals name skips <> []).
Proof.
  intros E. pose proof (parse_skips_general skips ∅ ∅) as H. rewrite E in H.
  destruct H as (_ & H2 & _ & H4). split.
  - intros x. rewrite H2. set_solver.
  - intros name. rewrite H4, lookup_empty. split; [intros [[x Hx]|Hx]|intros Hx].
    + discriminate.
    + exact Hx.
    + right. exact Hx.
Qed.

Lemma parse_skips_leading (skips : list string) :
  Exists (fun skip => IndexByte skip ">" = 0) skips <->
  parse_skips skips ∅ ∅ = inl ErrEmptyFieldName.
Proof.
  pose proof (parse_skips_general skips ∅ ∅) as H.
  destruct (parse_skips skips ∅ ∅) as [err|[my next]].
  - destruct H as [-> H]. tauto.
  - destruct H as (H & _). split; [|discriminate].
    intros Hex. exfalso. apply Exists_exists in Hex as (x & Hx & Hx0).
    rewrite Forall_forall in H. exact (H x Hx Hx0).
Qed.

Lemma parse_skips_error (skips : list string) (err : error) :
  parse_skips skips ∅ ∅ = inl err -> err = ErrEmptyFieldName.
Proof.
  intros E. pose proof (parse_skips_general skips ∅ ∅) as H. rewrite E in H. tauto.
Qed.

(** The first loop of [genStruct], in full.  It fails, with the error of
    an empty field name, exactly when a skip starts with [>]: the second half
    of its test never holds.  Otherwise the skips without [>] are to be
    skipped at this level, and a field is handed the residuals of the skips
    that start with its name, in the order of the skips. *)
Theorem parse_skips_spec (skips : list string) :
  match parse_skips skips ∅ ∅ with
  | inl err => err = ErrEmptyFieldName /\ Exists (fun skip => IndexByte skip ">" = 0) skips
  | inr (my, next) =>
      Forall (fun skip => IndexByte skip ">" <> 0) skips
      /\ (forall x, x ∈ my <-> x ∈ skips /\ has_separator x = false)
      /\ (forall name,
            next !! name
            = if residuals name skips is [] then None else Some (residuals name skips))
  end.
Proof.
  pose proof (parse_skips_general skips ∅ ∅) as H.
  destruct (parse_skips skips ∅ ∅) as [err|[my next]]; [exact H|].
  destruct H as (H1 & H2 & H3 & H4).
  split; [exact H1|]. split; [intros x; rewrite H2; set_solver|].
  intros name. specialize (H3 name). specialize (H4 name).
  rewrite lookup_empty in H3, H4. cbn [default app] in H3.
  destruct (next !! name) as [l|] eqn:E; cbn [default] in H3.
  - rewrite <- H3. destruct l; [|reflexivity].
    exfalso. destruct (proj1 H4 ltac:(eauto)) as [[x Hx]|Hx]; [discriminate|].
    apply Hx. symmetry. exact H3.
  - rewrite <- H3. reflexivity.
Qed.

Lemma gen_answer_is_failure (fuel : nat) (types : list reflect.decl) (useMap : bool)
    (t : reflect.rtype) (skips : list string) (fs : structFs)
    (r : generated) (fs' : structFs) :
  unmergeable types useMap t ->
  gen fuel types useMap skips t fs = Some (r, fs') -> exists err, r = Failed err.
Proof.
  intros Hu. revert fuel skips r fs'.
  induction Hu as [t k E Hk|t kt e E Hoff|t e E _ IH|t n e E He IH|t e E He IH|t kt e E _ IH];
    intros [|fuel] skips r fs'; try discriminate;
    cbn [gen]; unfold gen_body, reflect.KindOf; rewrite E;
    (destruct (_ && _); [intros [= <- _]; eauto|]).
  - unfold refused_kinds in Hk.
    repeat (apply elem_of_cons in Hk as [->|Hk]; [intros [= <- _]; eauto|]).
    inversion Hk.
  - rewrite Hoff. intros [= <- _]. eauto.
  - destruct (gen fuel types useMap skips e fs) as [[g fs1]|] eqn:G; [|discriminate].
    destruct (IH _ _ _ _ G) as [err ->]. intros [= <- _]. eauto.
  - unfold genArray. rewrite (unmergeable_not_grouped _ _ _ He).
    destruct (gen fuel types useMap skips e fs) as [[g fs1]|] eqn:G; [|discriminate].
    destruct (IH _ _ _ _ G) as [err ->]. intros [= <- _]. eauto.
  - unfold genSlice. rewrite (unmergeable_not_grouped _ _ _ He).
    destruct (gen fuel types useMap skips e fs) as [[g fs1]|] eqn:G; [|discriminate].
    destruct (IH _ _ _ _ G) as [err ->]. intros [= <- _]. eauto.
  - destruct (negb useMap); [intros [= <- _]; eauto|]. unfold genMap.
    destruct (gen fuel types useMap skips e fs) as [[g fs1]|] eqn:G; [|discriminate].
    destruct (IH _ _ _ _ G) as [err ->]. intros [= <- _]. eauto.
Qed.

Lemma fields_loop_reaches_unmergeable (fuel : nat) (types : list reflect.decl) (useMap : bool)
    (sf : reflect.StructField) (fields : list reflect.StructField) (st : fields_state)
    (fs : structFs) (res : error + fields_state) (fs' : structFs) :
  sf ∈ fields -> unmergeable types useMap (reflect.Type_ sf) ->
  reflect.Name sf ∉ skipMyLevel st ->
  genStruct_fields types (gen fuel types useMap) fields st fs = Some (res, fs') ->
  exists err, res = inl err.
Proof.
  intros Hin Hu. revert st fs.
  induction fields as [|x fields IH]; intros st fs Hmy; [inversion Hin|].
  cbn [genStruct_fields].
  apply elem_of_cons in Hin as [->|Hin'].
  - rewrite decide_False by exact Hmy.
    rewrite (unmergeable_not_grouped _ _ _ Hu).
    destruct (gen fuel types useMap _ (reflect.Type_ x) fs) as [[r fs1]|] eqn:E; [|discriminate].
    destruct (gen_answer_is_failure _ _ _ _ _ _ _ _ Hu E) as [err ->].
    intros [= <- _]. eauto.
  - specialize (IH Hin').
    destruct (decide _); [apply IH; cbn; set_solver|].
    destruct (is_grouped _); [apply IH; exact Hmy|].
    destruct (gen fuel types useMap _ (reflect.Type_ x) fs) as [[[err|[f|]] fs1]|];
      [intros [= <- _]; eauto|apply IH; exact Hmy|apply IH; exact Hmy|discriminate].
Qed.

(** A struct with a field that cannot be merged, not skipped by its name
    at the level of the struct, is refused: whenever [genStruct] returns, it
    returns an error, whatever else the skips name. *)
Theorem genStruct_refuses_unmergeable_field (fuel : nat) (types : list reflect.decl)
    (useMap : bool) (skips : list string) (fields : list reflect.StructField)
    (sf : reflect.StructField) (fs : structFs) (r : generated) (fs' : structFs) :
  sf ∈ fields -> unmergeable types useMap (reflect.Type_ sf) ->
  reflect.Name sf ∉ skips ->
  genStruct types (gen fuel types useMap) skips fields fs = Some (r, fs') ->
  exists err, r = Failed err.
Proof.
  intros Hin Hu Hskip. unfold genStruct.
  destruct (parse_skips skips ∅ ∅) as [err|[my next]] eqn:Hp; [intros [= <- _]; eauto|].
  destruct (parse_skips_levels skips my next Hp) as [Hmy _].
  destruct (genStruct_fields _ _ fields _ fs) as [[res fs1]|] eqn:E; [|discriminate].
  apply fields_loop_reaches_unmergeable with (sf := sf) in E; [|exact Hin|exact Hu|].
  - destruct E as [err ->]. intros [= <- _]. eauto.
  - cbn [skipMyLevel]. rewrite Hmy. tauto.
Qed.

(** [type S struct { A []int; s string }] with the skip of [A] only. *)
Lemma genStruct_refuses_string_field :
  exists err,
    genStruct [] (gen 1 [] false) ["A"%string]
      [ Ex.field "A" 0 (reflect.SliceOf (reflect.Basic reflect.Int));
        Ex.field "s" 24 (reflect.Basic reflect.String) ] ∅
    = Some (Failed err, ∅).
Proof.
  destruct (genStruct_refuses_unmergeable_field 1 [] false ["A"%string]
              [ Ex.field "A" 0 (reflect.SliceOf (reflect.Basic reflect.Int));
                Ex.field "s" 24 (reflect.Basic reflect.String) ]
              (Ex.field "s" 24 (reflect.Basic reflect.String)) ∅
              (Failed ErrString) ∅) as [err Herr].
  - set_solver.
  - eapply unmergeable_kind; [reflexivity|]. unfold refused_kinds. set_solver.
  - cbn. set_solver.
  - vm_compute. reflexivity.
  - exists ErrString. vm_compute. reflexivity.
Defined.

Lemma fields_loop_keeps_unseen (types : list reflect.decl)
    (g : list string -> reflect.rtype -> structFs -> option (generated * structFs))
    (fields : list reflect.StructField) (st st' : fields_state) (fs fs' : structFs) :
  genStruct_fields types g fields st fs = Some (inr st', fs') ->
  (forall x, x ∈ skipMyLevel st -> x ∉ map reflect.Name fields -> x ∈ skipMyLevel st')
  /\ (forall name,
        is_Some (skipNextLevel st !! name) ->
        Forall (fun sf => reflect.Name sf = name ->
                          is_grouped (reflect.KindOf types (reflect.Type_ sf)) = true) fields ->
        is_Some (skipNextLevel st' !! name)).
Proof.
  revert st fs. induction fields as [|x fields IH]; intros st fs; cbn [genStruct_fields].
  - intros [= <- _]. split; auto.
  - assert (Hstep : forall st1 fs1,
              genStruct_fields types g fields st1 fs1 = Some (inr st', fs') ->
              (forall y, y ∈ skipMyLevel st -> y <> reflect.Name x -> y ∈ skipMyLevel st1) ->
              (forall name, is_Some (skipNextLevel st !! name) ->
                            (reflect.Name x = name ->
                             is_grouped (reflect.KindOf types (reflect.Type_ x)) = true) ->
                            is_Some (skipNextLevel st1 !! name)) ->
              (forall y, y ∈ skipMyLevel st -> y ∉ map reflect.Name (x :: fields) ->
                         y ∈ skipMyLevel st')
              /\ (forall name,
                    is_Some (skipNextLevel st !! name) ->
                    Forall (fun sf => reflect.Name sf = name ->
                                      is_grouped (reflect.KindOf types (reflect.Type_ sf)) = true)
                      (x :: fields) ->
                    is_Some (skipNextLevel st' !! name))).
    { intros st1 fs1 H1 Hmy Hnext. destruct (IH _ _ H1) as [IH1 IH2]. split.
      - intros y Hy Hn. cbn [map] in Hn. apply not_elem_of_cons in Hn as [Hn1 Hn2].
        apply IH1; [apply Hmy; assumption|exact Hn2].
      - intros name Hs Hall. apply Forall_cons in Hall as [Hx Hall].
        apply IH2; [apply Hnext; assumption|exact Hall]. }
    destruct (decide _) as [Hin|Hin].
    + intros H. apply (Hstep _ _ H); cbn [skipMyLevel skipNextLevel]; [set_solver|auto].
    + destruct (is_grouped _) eqn:G.
      * intros H. apply (Hstep _ _ H); cbn [skipMyLevel skipNextLevel]; auto.
      * destruct (g _ _ fs) as [[[err|[f|]] fs1]|]; try discriminate;
          intros H; apply (Hstep _ _ H); cbn [skipMyLevel skipNextLevel]; auto;
          intros name Hs Hx; (rewrite lookup_delete_ne; [exact Hs|]);
          intros Hn; specialize (Hx Hn); congruence.
Qed.

(** Every skip must find its field: when a skip without [>] names no
    field of the struct it reaches, or the first segment of a skip with [>]
    names no field [genStruct] descends into (no field at all, or fields of
    the primitive kinds it merges in place), then [genStruct], whenever it
    returns, returns an error. *)
Theorem genStruct_refuses_unseen_skip (types : list reflect.decl)
    (g : list string -> reflect.rtype -> structFs -> option (generated * structFs))
    (skips : list string) (fields : list reflect.StructField) (skip : string)
    (fs : structFs) (r : generated) (fs' : structFs) :
  skip ∈ skips ->
  (if has_separator skip
   then Forall (fun sf => reflect.Name sf = first_segment skip ->
                          is_grouped (reflect.KindOf types (reflect.Type_ sf)) = true) fields
   else skip ∉ map reflect.Name fields) ->
  genStruct types g skips fields fs = Some (r, fs') ->
  exists err, r = Failed err.
Proof.
  intros Hin Hskip. unfold genStruct.
  destruct (parse_skips skips ∅ ∅) as [err|[my next]] eqn:Hp; [intros [= <- _]; eauto|].
  destruct (parse_skips_levels skips my next Hp) as [Hmy Hnext].
  destruct (genStruct_fields _ _ fields _ fs) as [[[err|st] fs1]|] eqn:E;
    [intros [= <- _]; eauto| |discriminate].
  destruct (fields_loop_keeps_unseen _ _ _ _ _ _ _ E) as [K1 K2].
  cbn [skipMyLevel skipNextLevel] in K1, K2.
  destruct (has_separator skip) eqn:Hs.
  - assert (Hsome : is_Some (skipNextLevel st !! first_segment skip)).
    { apply K2; [|exact Hskip]. apply Hnext.
      assert (Hres : residual skip ∈ residuals (first_segment skip) skips).
      { unfold residuals. apply list_elem_of_In, in_map, filter_In.
        split; [apply list_elem_of_In; exact Hin|].
        rewrite Hs, String.eqb_refl. reflexivity. }
      intros Enil. rewrite Enil in Hres. inversion Hres. }
    destruct (0 <? Z.of_nat (size (skipMyLevel st))); [intros [= <- _]; eauto|].
    destruct (Z.ltb_spec 0 (Z.of_nat (size (skipNextLevel st)))) as [_|Hz];
      [intros [= <- _]; eauto|].
    exfalso. destruct Hsome as [l Hl].
    assert (size (skipNextLevel st) = 0%nat) by lia.
    apply map_size_empty_iff in H. rewrite H, lookup_empty in Hl. discriminate.
  - assert (Hx : skip ∈ skipMyLevel st) by (apply K1; [apply Hmy; auto|exact Hskip]).
    destruct (Z.ltb_spec 0 (Z.of_nat (size (skipMyLevel st)))) as [_|Hz];
      [intros [= <- _]; eauto|].
    exfalso. assert (size (skipMyLevel st) = 0%nat) by lia.
    apply size_empty_iff in H. set_solver.
Qed.

(** Scenario A with a skip that names no field, and with one that goes
    below the primitive field [x]. *)
Lemma genStruct_refuses_unseen_skip_examples :
  (exists err, genStruct Ex.scenario_A (gen 1 Ex.scenario_A false) ["y"; "w"]%string
                 [ Ex.field "x" 0 (reflect.Basic reflect.Uint64);
                   Ex.field "y" 8 (reflect.Basic reflect.Float32) ] ∅
               = Some (Failed err, ∅))
  /\ (exists err, genStruct Ex.scenario_A (gen 1 Ex.scenario_A false) ["x>lo"]%string
                    [ Ex.field "x" 0 (reflect.Basic reflect.Uint64);
                      Ex.field "y" 8 (reflect.Basic reflect.Float32) ] ∅
                  = Some (Failed err, ∅)).
Proof.
  split.
  - destruct (genStruct_refuses_unseen_skip Ex.scenario_A (gen 1 Ex.scenario_A false)
                ["y"; "w"]%string
                [ Ex.field "x" 0 (reflect.Basic reflect.Uint64);
                  Ex.field "y" 8 (reflect.Basic reflect.Float32) ] "w" ∅
                (Failed ErrSkipNotSeen) ∅) as [err Herr].
    + set_solver.
    + cbn. set_solver.
    + vm_compute. reflexivity.
    + exists ErrSkipNotSeen. vm_compute. reflexivity.
  - destruct (genStruct_refuses_unseen_skip Ex.scenario_A (gen 1 Ex.scenario_A false)
                ["x>lo"]%string
                [ Ex.field "x" 0 (reflect.Basic reflect.Uint64);
                  Ex.field "y" 8 (reflect.Basic reflect.Float32) ] "x>lo" ∅
                (Failed ErrNextLevelNotSeen) ∅) as [err Herr].
    + set_solver.
    + cbn. repeat constructor.
    + vm_compute. reflexivity.
    + exists ErrNextLevelNotSeen. vm_compute. reflexivity.
Defined.

(** A skip that starts with [>] is refused by every struct it reaches,
    before any field is looked at. *)
Theorem leading_separator_is_refused (fuel : nat) (types : list reflect.decl)
    (useMap : bool) (skips : list string) (t : reflect.rtype) (d : reflect.decl)
    (fields : list reflect.StructField) (fs : structFs) :
  reflect.resolve types t = reflect.SStruct d fields ->
  Exists (fun skip => IndexByte skip ">" = 0) skips ->
  gen (S fuel) types useMap skips t fs = Some (Failed ErrEmptyFieldName, fs).
Proof.
  intros Hres Hex. cbn [gen]. unfold gen_body, reflect.KindOf. rewrite Hres.
  cbn [may_hold_skips negb]. rewrite andb_false_r.
  assert (Hlen : (0 <? Z.of_nat (length skips)) = true).
  { destruct skips; [inversion Hex|]. reflexivity. }
  rewrite Hlen. unfold genStruct.
  rewrite (proj1 (parse_skips_leading skips) Hex). reflexivity.
Qed.

(** The skips ["x"; ">y"] on the struct of Scenario A. *)
Lemma leading_separator_is_refused_example :
  gen 1 Ex.scenario_A false ["x"; ">y"]%string (reflect.Defined 0) ∅
  = Some (Failed ErrEmptyFieldName, ∅).
Proof.
  apply (leading_separator_is_refused 0 Ex.scenario_A false ["x"; ">y"]%string
           (reflect.Defined 0) _ _ ∅ eq_refl).
  right. left. reflexivity.
Defined.

(** ** Skipped fields *)

Lemma kept_fields_other (my : gset string) (name : string)
    (fields : list reflect.StructField) :
  name ∉ map reflect.Name fields ->
  kept_fields (my ∖ {[ name ]}) fields = kept_fields my fields.
Proof.
  unfold kept_fields. induction fields as [|sf fields IH]; intros Hn; [reflexivity|].
  cbn [map] in Hn. apply not_elem_of_cons in Hn as [Hn1 Hn2].
  cbn [List.filter]. rewrite (IH Hn2).
  assert (E : bool_decide (reflect.Name sf ∈ my ∖ {[ name ]})
              = bool_decide (reflect.Name sf ∈ my)).
  { apply bool_decide_ext. set_solver. }
  rewrite E. reflexivity.
Qed.

(** The field loop of [genStruct] when every field is skipped at this
    level or has an additive kind. *)
Lemma skipping_fields_loop (fuel : nat) (types : list reflect.decl) (useMap : bool)
    (fields : list reflect.StructField) (st : fields_state) (fs : structFs) :
  Forall (fun sf => reflect.Name sf ∉ skipMyLevel st ->
                    is_additive (reflect.KindOf types (reflect.Type_ sf)) = true) fields ->
  NoDup (map reflect.Name fields) ->
  skipNextLevel st = ∅ ->
  map fst (grouped st) = grouped_kinds ->
  Forall (fun e => snd e = MergePrim reflect.Uintptr) (offsetFs st) ->
  exists st',
    genStruct_fields types (gen (S fuel) types useMap) fields st fs = Some (inr st', fs)
    /\ skipMyLevel st' = skipMyLevel st ∖ list_to_set (map reflect.Name fields)
    /\ skipNextLevel st' = ∅
    /\ added st' = added st + Z.of_nat (length (kept_fields (skipMyLevel st) fields))
    /\ Forall (fun e => snd e = MergePrim reflect.Uintptr) (offsetFs st')
    /\ struct_ops (grouped st') (offsetFs st')
       ≡ₚ struct_ops (grouped st) (offsetFs st)
          ++ field_ops types (kept_fields (skipMyLevel st) fields).
Proof.
  revert st. induction fields as [|sf fields IH]; intros st Hadd Hnd Hnext Hkeys Hoffs.
  - exists st. cbn [genStruct_fields length field_ops map kept_fields List.filter].
    rewrite app_nil_r, Z.add_0_r. repeat split; auto. set_solver.
  - apply Forall_cons in Hadd as [Hsf Hadd].
    cbn [map] in Hnd. apply NoDup_cons in Hnd as [Hname Hnd].
    cbn [genStruct_fields kept_fields List.filter].
    fold (kept_fields (skipMyLevel st) fields).
    destruct (decide (reflect.Name sf ∈ skipMyLevel st)) as [Hin|Hin].
    + rewrite (bool_decide_eq_true_2 _ Hin). cbn [negb].
      destruct (IH {| skipMyLevel := skipMyLevel st ∖ {[ reflect.Name sf ]};
                      skipNextLevel := skipNextLevel st; grouped := grouped st;
                      offsetFs := offsetFs st; added := added st |})
        as (st' & Hrun & H1 & H2 & H3 & H4 & H5); [|exact Hnd|exact Hnext|exact Hkeys|exact Hoffs|].
      { apply Forall_forall. cbn [skipMyLevel]. intros x Hx Hx'.
        apply (proj1 (Forall_forall _ _) Hadd x Hx).
        intros Hx''. apply Hx'. apply elem_of_difference. split; [exact Hx''|].
        intros Hs. apply elem_of_singleton in Hs. apply Hname. rewrite <- Hs.
        apply list_elem_of_fmap. exists x. split; [reflexivity|exact Hx]. }
      exists st'. split; [exact Hrun|].
      cbn [skipMyLevel skipNextLevel grouped offsetFs added] in *.
      rewrite (kept_fields_other _ _ _ Hname) in H3, H5.
      repeat split; auto. rewrite H1. cbn [map]. set_solver.
    + rewrite (bool_decide_eq_false_2 _ Hin). cbn [negb length].
      specialize (Hsf Hin).
      destruct (is_grouped (reflect.KindOf types (reflect.Type_ sf))) eqn:Hg.
      * destruct (IH {| skipMyLevel := skipMyLevel st; skipNextLevel := skipNextLevel st;
                        grouped := append_offset (reflect.KindOf types (reflect.Type_ sf))
                                     (reflect.Offset sf) (grouped st);
                        offsetFs := offsetFs st; added := added st + 1 |})
          as (st' & Hrun & H1 & H2 & H3 & H4 & H5);
          [exact Hadd|exact Hnd|exact Hnext| |exact Hoffs|].
        { cbn [grouped]. rewrite append_offset_keys. exact Hkeys. }
        exists st'. split; [exact Hrun|].
        cbn [skipMyLevel skipNextLevel grouped offsetFs added] in *.
        repeat split; auto; [rewrite H1; cbn [map]; set_solver|rewrite H3; lia|].
        rewrite H5. unfold struct_ops, field_ops. cbn [map].
        rewrite vector_ops_append.
        -- cbn [app]. apply Permutation_middle.
        -- rewrite Hkeys. exact grouped_kinds_nodup.
        -- rewrite Hkeys. unfold is_grouped in Hg. apply bool_decide_eq_true in Hg. exact Hg.
      * assert (Hk : reflect.KindOf types (reflect.Type_ sf) = reflect.Uintptr).
        { unfold is_additive in Hsf. rewrite Hg in Hsf. apply bool_decide_eq_true in Hsf.
          exact Hsf. }
        rewrite Hnext, lookup_empty. cbn [default].
        rewrite (gen_uintptr fuel types useMap _ fs Hk).
        destruct (IH {| skipMyLevel := skipMyLevel st;
                        skipNextLevel := delete (reflect.Name sf) ∅;
                        grouped := grouped st;
                        offsetFs := offsetFs st
                                    ++ [(reflect.Offset sf, MergePrim reflect.Uintptr)];
                        added := added st + 1 |})
          as (st' & Hrun & H1 & H2 & H3 & H4 & H5);
          [exact Hadd|exact Hnd| |exact Hkeys| |].
        { apply delete_empty. }
        { cbn [offsetFs]. apply Forall_app. split; [exact Hoffs|]. repeat constructor. }
        exists st'. split; [exact Hrun|].
        cbn [skipMyLevel skipNextLevel grouped offsetFs added] in *.
        repeat split; auto; [rewrite H1; cbn [map]; set_solver|rewrite H3; lia|].
        rewrite H5. unfold struct_ops, field_ops. cbn [map].
        rewrite map_app. cbn [map fst]. rewrite Hk. rewrite <- !app_assoc. reflexivity.
Qed.

Lemma kept_fields_spec (my : gset string) (fields : list reflect.StructField)
    (sf : reflect.StructField) :
  sf ∈ kept_fields my fields <-> sf ∈ fields /\ reflect.Name sf ∉ my.
Proof.
  unfold kept_fields. rewrite !list_elem_of_In, filter_In, negb_true_iff, bool_decide_eq_false.
  reflexivity.
Qed.

Lemma nodup_map_injective {A B : Type} (f : A -> B) (l : list A) (x y : A) :
  NoDup (map f l) -> x ∈ l -> y ∈ l -> f x = f y -> x = y.
Proof.
  induction l as [|a l IH]; intros Hnd Hx Hy E; [inversion Hx|].
  cbn [map] in Hnd. apply NoDup_cons in Hnd as [Ha Hnd].
  apply elem_of_cons in Hx as [->|Hx]; apply elem_of_cons in Hy as [->|Hy]; auto.
  - exfalso. apply Ha. rewrite E. apply list_elem_of_fmap. eauto.
  - exfalso. apply Ha. rewrite <- E. apply list_elem_of_fmap. eauto.
Qed.

(** [genStruct] on a struct whose fields are skipped by name or have an
    additive kind. *)
Lemma genStruct_with_skips (fuel : nat) (types : list reflect.decl) (useMap : bool)
    (skips : list string) (fields : list reflect.StructField) (fs : structFs) :
  Forall (fun x => has_separator x = false) skips ->
  Forall (fun x => x ∈ map reflect.Name fields) skips ->
  NoDup (map reflect.Name fields) ->
  Forall (fun sf => reflect.Name sf ∉ skips ->
                    is_additive (reflect.KindOf types (reflect.Type_ sf)) = true) fields ->
  exists f,
    genStruct types (gen (S fuel) types useMap) skips fields fs = Some (Built f, fs)
    /\ (kept_fields (list_to_set skips) fields = [] -> f = None)
    /\ (kept_fields (list_to_set skips) fields <> [] ->
        exists g offs, f = Some (MergeStruct g offs)
                       /\ Forall (fun e => snd e = MergePrim reflect.Uintptr) offs
                       /\ struct_ops g offs
                          ≡ₚ field_ops types (kept_fields (list_to_set skips) fields)).
Proof.
  intros Hsep Hnames Hnd Hadd. unfold genStruct.
  destruct (parse_skips skips ∅ ∅) as [err|[my next]] eqn:Hp.
  { exfalso. rewrite (parse_skips_error skips err Hp) in Hp.
    apply parse_skips_leading, Exists_exists in Hp as (x & Hx & Hx0).
    rewrite Forall_forall in Hsep. specialize (Hsep x Hx).
    unfold has_separator in Hsep. rewrite Hx0 in Hsep. discriminate. }
  destruct (parse_skips_levels skips my next Hp) as [Hmy Hnext].
  assert (Emy : my = list_to_set skips).
  { apply set_eq. intros x. rewrite Hmy, elem_of_list_to_set. split; [tauto|].
    intros Hx. split; [exact Hx|]. exact (proj1 (Forall_forall _ _) Hsep x Hx). }
  assert (Enext : next = ∅).
  { apply map_eq. intros name. rewrite lookup_empty.
    destruct (next !! name) as [l|] eqn:El; [|reflexivity].
    exfalso. apply (proj1 (Hnext name)); [eauto|].
    unfold residuals. clear -Hsep. induction skips as [|x skips IH]; [reflexivity|].
    apply Forall_cons in Hsep as [Hx Hsep]. cbn [List.filter]. rewrite Hx. cbn [andb].
    exact (IH Hsep). }
  subst my next.
  destruct (skipping_fields_loop fuel types useMap fields
              {| skipMyLevel := list_to_set skips; skipNextLevel := ∅;
                 grouped := empty_vectors; offsetFs := []; added := 0 |} fs)
    as (st' & Hrun & H1 & H2 & H3 & H4 & H5);
    [|exact Hnd|reflexivity|reflexivity|constructor|].
  { cbn [skipMyLevel]. eapply Forall_impl; [exact Hadd|]. cbn. intros sf Hsf Hn.
    apply Hsf. rewrite elem_of_list_to_set in Hn. exact Hn. }
  cbn [skipMyLevel skipNextLevel grouped offsetFs added] in *.
  rewrite Hrun.
  assert (E1 : skipMyLevel st' = ∅).
  { rewrite H1. apply set_eq. intros x. rewrite elem_of_difference, !elem_of_list_to_set.
    split; [|set_solver]. intros [Hx Hx']. exfalso. apply Hx'.
    exact (proj1 (Forall_forall _ _) Hnames x Hx). }
  rewrite E1, H2.
  change (size (∅ : gset string)) with 0%nat.
  change (size (∅ : gmap string (list string))) with 0%nat.
  cbn [Z.of_nat Z.ltb Z.compare].
  destruct (kept_fields (list_to_set skips) fields) as [|sf0 kept] eqn:Ek.
  - rewrite H3. cbn [length Z.of_nat Z.add Z.eqb].
    eexists. split; [reflexivity|]. split; [reflexivity|]. congruence.
  - replace (added st' =? 0) with false
      by (symmetry; apply Z.eqb_neq; rewrite H3; cbn [length]; lia).
    eexists. split; [reflexivity|]. split; [discriminate|].
    intros _. exists (grouped st'), (offsetFs st'). split; [reflexivity|].
    split; [exact H4|]. exact H5.
Qed.

(** The same through [gen], which goes by the table of structs when
    there are no skips. *)
Lemma gen_with_skips (fuel : nat) (types : list reflect.decl) (useMap : bool)
    (skips : list string) (id : nat) (d : reflect.decl)
    (fields : list reflect.StructField) :
  types !! id = Some d -> reflect.Under d = reflect.StructOf fields ->
  Forall (fun x => has_separator x = false) skips ->
  Forall (fun x => x ∈ map reflect.Name fields) skips ->
  NoDup (map reflect.Name fields) ->
  Forall (fun sf => reflect.Name sf ∉ skips ->
                    is_additive (reflect.KindOf types (reflect.Type_ sf)) = true) fields ->
  exists f fs,
    gen (S (S fuel)) types useMap skips (reflect.Defined id) ∅ = Some (Built f, fs)
    /\ (kept_fields (list_to_set skips) fields = [] -> f = None)
    /\ (kept_fields (list_to_set skips) fields <> [] ->
        exists g offs, f = Some (MergeStruct g offs)
                       /\ Forall (fun e => snd e = MergePrim reflect.Uintptr) offs
                       /\ struct_ops g offs
                          ≡ₚ field_ops types (kept_fields (list_to_set skips) fields)).
Proof.
  intros Hd Hu Hsep Hnames Hnd Hadd.
  change (gen (S (S fuel)) types useMap skips (reflect.Defined id) ∅)
    with (gen_body types useMap (gen (S fuel) types useMap) skips (reflect.Defined id) ∅).
  unfold gen_body.
  assert (Hres : reflect.resolve types (reflect.Defined id) = reflect.SStruct d fields)
    by (unfold reflect.resolve; rewrite Hd, Hu; reflexivity).
  unfold reflect.KindOf. rewrite Hres. cbn [may_hold_skips negb]. rewrite andb_false_r.
  destruct (0 <? Z.of_nat (length skips)).
  - destruct (genStruct_with_skips fuel types useMap skips fields ∅ Hsep Hnames Hnd Hadd)
      as (f & Hg & H1 & H2).
    exists f, ∅. auto.
  - rewrite lookup_empty.
    destruct (genStruct_with_skips fuel types useMap skips fields
                (<[ struct_name d := None ]> ∅) Hsep Hnames Hnd Hadd)
      as (f & Hg & H1 & H2).
    rewrite Hg. eexists. eexists. split; [reflexivity|]. auto.
Qed.

(** A field skipped by its name keeps the value it has in the left
    struct, whatever its type, and the other fields, all of additive kinds,
    get the sum of the two values (the [or] for a boolean); the right struct
    is not written.  The two structs share no cell and the fields have
    distinct names and offsets. *)
Theorem skipped_fields_keep_their_value (fuel n : nat) (types : list reflect.decl)
    (options : list option_func) (c : Config) (id : nat) (d : reflect.decl)
    (fields : list reflect.StructField) (a b : Z) (s : heap) :
  let pa := {| typ := reflect.PtrTo (reflect.Defined id); data := a |} in
  let pb := {| typ := reflect.PtrTo (reflect.Defined id); data := b |} in
  apply_options options zero_config = inr c ->
  types !! id = Some d -> reflect.Under d = reflect.StructOf fields ->
  NoDup (map reflect.Name fields) -> NoDup (map reflect.Offset fields) ->
  Forall (fun sf => has_separator (reflect.Name sf) = false) fields ->
  Forall (fun x => x ∈ map reflect.Name fields) (skips c) ->
  Forall (fun sf => reflect.Name sf ∉ skips c ->
                    is_additive (reflect.KindOf types (reflect.Type_ sf)) = true) fields ->
  a <> 0 ->
  (forall o o', o ∈ map reflect.Offset fields -> o' ∈ map reflect.Offset fields ->
                a + o <> b + o') ->
  (forall sf, sf ∈ fields -> reflect.Name sf ∉ skips c ->
     exists x y,
       cells s !! (a + reflect.Offset sf) = Some x
       /\ cells s !! (b + reflect.Offset sf) = Some y
       /\ cell_of_kind (reflect.KindOf types (reflect.Type_ sf)) x = true
       /\ cell_of_kind (reflect.KindOf types (reflect.Type_ sf)) y = true) ->
  exists e s',
    Gen (S (S fuel)) types pa options = Some (inr e)
    /\ call (S (S n)) e s pa pb = Done s'
    /\ (forall sf, sf ∈ fields -> reflect.Name sf ∈ skips c ->
          cells s' !! (a + reflect.Offset sf) = cells s !! (a + reflect.Offset sf))
    /\ (forall sf, sf ∈ fields -> reflect.Name sf ∉ skips c ->
          exists x y z,
            cells s !! (a + reflect.Offset sf) = Some x
            /\ cells s !! (b + reflect.Offset sf) = Some y
            /\ sum_cell (reflect.KindOf types (reflect.Type_ sf)) x y = Some z
            /\ cells s' !! (a + reflect.Offset sf) = Some z)
    /\ (forall sf, sf ∈ fields ->
          cells s' !! (b + reflect.Offset sf) = cells s !! (b + reflect.Offset sf)).
Proof.
  intros pa pb Hc Hd Hu Hnn Hno Hids Hnames Hadd Ha Hdis Hcells.
  assert (Hsep : Forall (fun x => has_separator x = false) (skips c)).
  { apply Forall_forall. intros x Hx.
    pose proof (proj1 (Forall_forall _ _) Hnames x Hx) as Hin.
    apply list_elem_of_fmap in Hin as (sf & -> & Hsf).
    exact (proj1 (Forall_forall _ _) Hids sf Hsf). }
  destruct (gen_with_skips fuel types (unsafeMap c) (skips c) id d fields
              Hd Hu Hsep Hnames Hnn Hadd) as (f & fs & Hgen & Hnil & Hsome).
  assert (HG : Gen (S (S fuel)) types pa options
               = Some (inr {| root := reflect.PtrTo (reflect.Defined id);
                              merge := f; slots := fs |})).
  { unfold Gen. fold zero_config. rewrite Hc.
    cbn [typ data pa reflect.resolve reflect.shape_of_literal].
    replace (a =? 0) with false by (symmetry; apply Z.eqb_neq; exact Ha).
    assert (Hk : reflect.KindOf types (reflect.Defined id) = reflect.Struct)
      by (unfold reflect.KindOf, reflect.resolve; rewrite Hd, Hu; reflexivity).
    rewrite Hk. destruct (decide (reflect.Struct = reflect.Ptr)); [discriminate|].
    rewrite Hgen. reflexivity. }
  set (e := {| root := reflect.PtrTo (reflect.Defined id); merge := f; slots := fs |}) in *.
  assert (Hcall : call (S (S n)) e s pa pb
                  = match f with
                    | None => Done s
                    | Some p => exec (S (S n)) fs p s a b
                    end).
  { unfold call. rewrite (check_match (root e) pa pb eq_refl eq_refl). reflexivity. }
  exists e. rewrite Hcall. clear Hcall.
  set (kept := kept_fields (list_to_set (skips c)) fields) in *.
  assert (Hkept : forall sf, sf ∈ kept <-> sf ∈ fields /\ reflect.Name sf ∉ skips c).
  { intros sf. unfold kept. rewrite kept_fields_spec, elem_of_list_to_set. reflexivity. }
  destruct kept as [|sf0 kept0] eqn:Ek.
  { rewrite (Hnil eq_refl). exists s. split; [exact HG|]. split; [reflexivity|].
    split; [reflexivity|]. split; [|reflexivity].
    intros sf Hsf Hn. exfalso. assert (H : sf ∈ @nil reflect.StructField) by (apply Hkept; auto).
    inversion H. }
  destruct Hsome as (g & offs & -> & Hoffs & Hperm); [discriminate|].
  rewrite (exec_struct_ops n fs g offs _ _ _ Hoffs).
  rewrite <- Ek in *. clear Ek sf0 kept0.
  assert (Hmem : forall op, op ∈ struct_ops g offs ->
            exists sf, sf ∈ kept
                       /\ op = (reflect.KindOf types (reflect.Type_ sf), reflect.Offset sf)).
  { intros op Hop. rewrite Hperm in Hop. unfold field_ops in Hop.
    apply list_elem_of_fmap in Hop as (sf & -> & Hsf). exists sf. auto. }
  assert (Hoff : forall o, o ∈ map snd (struct_ops g offs) ->
            exists sf, sf ∈ kept /\ o = reflect.Offset sf).
  { intros o Ho. apply list_elem_of_fmap in Ho as (op & -> & Hop).
    destruct (Hmem op Hop) as (sf & Hsf & ->). exists sf. auto. }
  assert (Hsub : forall o, o ∈ map snd (struct_ops g offs) -> o ∈ map reflect.Offset fields).
  { intros o Ho. destruct (Hoff o Ho) as (sf & Hsf & ->).
    apply list_elem_of_fmap. exists sf. split; [reflexivity|]. apply Hkept. exact Hsf. }
  destruct (run_ops_spec a b (struct_ops g offs) s) as (s' & Hrun & Hframe & Hsum).
  { assert (E : map snd (struct_ops g offs) ≡ₚ map reflect.Offset kept).
    { rewrite Hperm. unfold field_ops. rewrite map_map. reflexivity. }
    rewrite E. unfold kept, kept_fields. clear -Hno.
    induction fields as [|sf fields IH]; [constructor|].
    cbn [map] in Hno. apply NoDup_cons in Hno as [H1 H2]. cbn [List.filter].
    destruct (negb _); [|exact (IH H2)].
    cbn [map]. apply NoDup_cons. split; [|exact (IH H2)].
    intros Hin. apply H1. apply list_elem_of_fmap in Hin as (x & -> & Hx).
    apply list_elem_of_fmap. exists x. split; [reflexivity|].
    apply list_elem_of_In in Hx. apply filter_In in Hx as [Hx _].
    apply list_elem_of_In. exact Hx. }
  { intros o o' Ho Ho'. apply Hdis; apply Hsub; assumption. }
  { intros op Hop. destruct (Hmem op Hop) as (sf & Hsf & ->). cbn [fst snd].
    apply Hkept in Hsf as [Hsf Hn].
    destruct (Hcells sf Hsf Hn) as (x & y & Hx & Hy & Kx & Ky).
    split; [exact (proj1 (Forall_forall _ _) Hadd sf Hsf Hn)|].
    exists x, y. auto. }
  exists s'. split; [exact HG|]. split; [exact Hrun|]. split; [|split].
  - intros sf Hsf Hin. apply Hframe. intros o Ho E.
    destruct (Hoff o Ho) as (sf' & Hsf' & ->). apply Hkept in Hsf' as [Hsf' Hn].
    assert (sf = sf').
    { apply (nodup_map_injective reflect.Offset fields); auto. lia. }
    subst sf'. contradiction.
  - intros sf Hsf Hn.
    assert (Hop : (reflect.KindOf types (reflect.Type_ sf), reflect.Offset sf)
                  ∈ struct_ops g offs).
    { rewrite Hperm. unfold field_ops. apply list_elem_of_fmap. exists sf.
      split; [reflexivity|]. apply Hkept. auto. }
    destruct (Hsum _ Hop) as (x & y & z & Hx & Hy & Hz & Hs1). cbn [fst snd] in *.
    exists x, y, z. auto.
  - intros sf Hsf. apply Hframe. intros o Ho E.
    apply (Hdis o (reflect.Offset sf)); [apply Hsub; exact Ho| |lia].
    apply list_elem_of_fmap. eauto.
Qed.

(** [type S struct { name string; x uint64; ok bool }] with the string
    skipped: (_, 1, false) merged with (_, 7, true) gives (_, 8, true) on the
    left and leaves the right value alone. *)
Lemma skipped_fields_keep_their_value_example :
  exists e s',
    Gen 2 Cases.named (Ex.ptr_to 0 4096) [SkipField "name"] = Some (inr e)
    /\ call 2 e Cases.named_store (Ex.ptr_to 0 4096) (Ex.ptr_to 0 8192) = Done s'
    /\ cells s' !! 4096 = cells Cases.named_store !! 4096
    /\ cells s' !! 4112 = Some (CInt reflect.Uint64 8)
    /\ cells s' !! 4120 = Some (CBool true)
    /\ cells s' !! 8208 = Some (CInt reflect.Uint64 7)
    /\ cells s' !! 8216 = Some (CBool true).
Proof.
  destruct (skipped_fields_keep_their_value 0 0 Cases.named [SkipField "name"]
              {| skips := ["name"%string]; unsafeMap := false |} 0
              (Ex.struct "main" "S" 32
                 [ Ex.field "name" 0 (reflect.Basic reflect.String);
                   Ex.field "x" 16 (reflect.Basic reflect.Uint64);
                   Ex.field "ok" 24 (reflect.Basic reflect.Bool) ])
              [ Ex.field "name" 0 (reflect.Basic reflect.String);
                Ex.field "x" 16 (reflect.Basic reflect.Uint64);
                Ex.field "ok" 24 (reflect.Basic reflect.Bool) ]
              4096 8192 Cases.named_store)
    as (e & s' & HG & HC & Hskip & _ & _).
  - reflexivity.
  - reflexivity.
  - reflexivity.
  - apply (bool_decide_unpack _). vm_compute. reflexivity.
  - apply (bool_decide_unpack _). vm_compute. reflexivity.
  - repeat constructor.
  - repeat constructor; cbn; set_solver.
  - repeat constructor; intros H; try reflexivity; exfalso; apply H; cbn; set_solver.
  - discriminate.
  - intros o o' Ho Ho'. cbn in Ho, Ho'.
    repeat (apply elem_of_cons in Ho as [->|Ho]); [| | |inversion Ho];
      (repeat (apply elem_of_cons in Ho' as [->|Ho']); [| | |inversion Ho']); discriminate.
  - intros sf Hsf Hn.
    repeat (apply elem_of_cons in Hsf as [->|Hsf]); [| | |inversion Hsf].
    + exfalso. apply Hn. cbn. set_solver.
    + exists (CInt reflect.Uint64 1), (CInt reflect.Uint64 7). repeat split.
    + exists (CBool false), (CBool true). repeat split.
  - exists e, s'. split; [exact HG|]. split; [exact HC|].
    split; [apply (Hskip (Ex.field "name" 0 (reflect.Basic reflect.String))); cbn; set_solver|].
    vm_compute in HG. injection HG as <-. vm_compute in HC. injection HC as <-.
    repeat split.
Defined.

(** A struct whose fields are all skipped by name has nothing to merge,
    whatever the types of its fields: [Gen] succeeds without looking at them
    and returns the function that only checks the types of its arguments. *)
Theorem skipping_every_field_merges_nothing (fuel n : nat) (types : list reflect.decl)
    (options : list option_func) (c : Config) (id : nat) (d : reflect.decl)
    (fields : list reflect.StructField) (a b : Z) (s : heap) :
  let pa := {| typ := reflect.PtrTo (reflect.Defined id); data := a |} in
  let pb := {| typ := reflect.PtrTo (reflect.Defined id); data := b |} in
  apply_options options zero_config = inr c ->
  types !! id = Some d -> reflect.Under d = reflect.StructOf fields ->
  NoDup (map reflect.Name fields) ->
  Forall (fun sf => has_separator (reflect.Name sf) = false) fields ->
  Forall (fun x => x ∈ map reflect.Name fields) (skips c) ->
  Forall (fun sf => reflect.Name sf ∈ skips c) fields ->
  a <> 0 ->
  exists e,
    Gen (S (S fuel)) types pa options = Some (inr e)
    /\ merge e = None
    /\ call n e s pa pb = Done s.
Proof.
  intros pa pb Hc Hd Hu Hnn Hids Hnames Hall Ha.
  assert (Hsep : Forall (fun x => has_separator x = false) (skips c)).
  { apply Forall_forall. intros x Hx.
    pose proof (proj1 (Forall_forall _ _) Hnames x Hx) as Hin.
    apply list_elem_of_fmap in Hin as (sf & -> & Hsf).
    exact (proj1 (Forall_forall _ _) Hids sf Hsf). }
  destruct (gen_with_skips fuel types (unsafeMap c) (skips c) id d fields
              Hd Hu Hsep Hnames Hnn) as (f & fs & Hgen & Hnil & _).
  { eapply Forall_impl; [exact Hall|]. cbn. intros sf Hsf Hn. contradiction. }
  assert (Hf : f = None).
  { apply Hnil. destruct (kept_fields _ fields) as [|sf kept] eqn:E; [reflexivity|].
    exfalso. assert (Hin : sf ∈ kept_fields (list_to_set (skips c)) fields)
      by (rewrite E; left).
    apply kept_fields_spec in Hin as [Hin Hn]. apply Hn. apply elem_of_list_to_set.
    exact (proj1 (Forall_forall _ _) Hall sf Hin). }
  subst f.
  exists {| root := reflect.PtrTo (reflect.Defined id); merge := None; slots := fs |}.
  split; [|split; [reflexivity|]].
  - unfold Gen. fold zero_config. rewrite Hc.
    cbn [typ data pa reflect.resolve reflect.shape_of_literal].
    replace (a =? 0) with false by (symmetry; apply Z.eqb_neq; exact Ha).
    assert (Hk : reflect.KindOf types (reflect.Defined id) = reflect.Struct)
      by (unfold reflect.KindOf, reflect.resolve; rewrite Hd, Hu; reflexivity).
    rewrite Hk. destruct (decide (reflect.Struct = reflect.Ptr)); [discriminate|].
    rewrite Hgen. reflexivity.
  - unfold call. cbn [root merge].
    rewrite (check_match (reflect.PtrTo (reflect.Defined id)) pa pb eq_refl eq_refl).
    reflexivity.
Qed.

(** The struct of the skipped-field example with its three fields
    skipped. *)
Lemma skipping_every_field_example :
  exists e,
    Gen 2 Cases.named (Ex.ptr_to 0 4096) [SkipFields ["ok"; "name"; "x"]] = Some (inr e)
    /\ merge e = None
    /\ call 0 e Cases.named_store (Ex.ptr_to 0 4096) (Ex.ptr_to 0 8192)
       = Done Cases.named_store.
Proof.
  apply (skipping_every_field_merges_nothing 0 0 Cases.named
           [SkipFields ["ok"; "name"; "x"]]
           {| skips := ["ok"; "name"; "x"]%string; unsafeMap := false |} 0
           (Ex.struct "main" "S" 32
              [ Ex.field "name" 0 (reflect.Basic reflect.String);
                Ex.field "x" 16 (reflect.Basic reflect.Uint64);
                Ex.field "ok" 24 (reflect.Basic reflect.Bool) ])
           [ Ex.field "name" 0 (reflect.Basic reflect.String);
             Ex.field "x" 16 (reflect.Basic reflect.Uint64);
             Ex.field "ok" 24 (reflect.Basic reflect.Bool) ]
           4096 8192 Cases.named_store).
  - reflexivity.
  - reflexivity.
  - reflexivity.
  - apply (bool_decide_unpack _). vm_compute. reflexivity.
  - repeat constructor.
  - repeat constructor; cbn; set_solver.
  - repeat constructor; cbn; set_solver.
  - discriminate.
Defined.

(** ** Arrays and slices of primitive kinds *)

Lemma elem_offsets_elem (size n o : Z) :
  o ∈ elem_offsets size n <-> exists i, 0 <= i < n /\ o = i * size.
Proof.
  unfold elem_offsets. rewrite list_elem_of_fmap. split.
  - intros (i & -> & Hi). apply elem_of_seq in Hi. exists (Z.of_nat i).
    split; [lia|reflexivity].
  - intros (i & Hi & ->). exists (Z.to_nat i). split; [f_equal; lia|].
    apply elem_of_seq. lia.
Qed.

Lemma elem_offsets_nodup (size n : Z) : 0 < size -> NoDup (elem_offsets size n).
Proof.
  intros Hs. unfold elem_offsets. apply NoDup_fmap_2; [|apply NoDup_seq].
  intros i j E. nia.
Qed.

(** The loop of primitive merges over the first [n] elements of two
    arrays that share no element. *)
Lemma prim_loop_spec (k : reflect.Kind) (size n dl dr : Z) (s : heap) :
  is_additive k = true -> 0 < size ->
  (forall i j, 0 <= i < n -> 0 <= j < n -> dl + i * size <> dr + j * size) ->
  (forall i, 0 <= i < n ->
     exists x y, cells s !! (dl + i * size) = Some x /\ cells s !! (dr + i * size) = Some y
                 /\ cell_of_kind k x = true /\ cell_of_kind k y = true) ->
  exists s',
    for_each (fun s0 offset => merge_prim k s0 (dl + offset) (dr + offset))
      (elem_offsets size n) s = Done s'
    /\ (forall x, (forall i, 0 <= i < n -> x <> dl + i * size) -> cells s' !! x = cells s !! x)
    /\ (forall i, 0 <= i < n ->
          exists x y z, cells s !! (dl + i * size) = Some x
                        /\ cells s !! (dr + i * size) = Some y
                        /\ sum_cell k x y = Some z
                        /\ cells s' !! (dl + i * size) = Some z).
Proof.
  intros Hk Hs Hdis Hcells.
  set (ops := map (fun o => (k, o)) (elem_offsets size n)).
  assert (Hsnd : map snd ops = elem_offsets size n).
  { unfold ops. rewrite map_map. cbn [snd]. apply map_id. }
  destruct (run_ops_spec dl dr ops s) as (s' & Hrun & Hframe & Hsum).
  - rewrite Hsnd. apply elem_offsets_nodup. exact Hs.
  - rewrite Hsnd. intros o o' Ho Ho'.
    apply elem_offsets_elem in Ho as (i & Hi & ->).
    apply elem_offsets_elem in Ho' as (j & Hj & ->). apply Hdis; assumption.
  - intros op Hop. unfold ops in Hop. apply list_elem_of_fmap in Hop as (o & -> & Ho).
    cbn [fst snd]. split; [exact Hk|].
    apply elem_offsets_elem in Ho as (i & Hi & ->). apply Hcells. exact Hi.
  - exists s'. split; [|split].
    + rewrite <- Hrun. unfold run_ops, ops. rewrite for_each_map. reflexivity.
    + intros x Hx. apply Hframe. rewrite Hsnd. intros o Ho.
      apply elem_offsets_elem in Ho as (i & Hi & ->). apply Hx. exact Hi.
    + intros i Hi.
      assert (Hop : (k, i * size) ∈ ops).
      { unfold ops. apply list_elem_of_fmap. exists (i * size). split; [reflexivity|].
        apply elem_offsets_elem. eauto. }
      destruct (Hsum _ Hop) as (x & y & z & H1 & H2 & H3 & H4). cbn [fst snd] in *.
      exists x, y, z. auto.
Qed.

Lemma grouped_is_additive (k : reflect.Kind) : is_grouped k = true -> is_additive k = true.
Proof. unfold is_additive. intros ->. reflexivity. Qed.

(** An array of a primitive kind is merged in place by [genArray],
    whatever the skips say: every element of the left array gets the sum of
    the two elements (the [or] for booleans), and no other cell is written.
    The two arrays share no element. *)
Theorem array_of_primitives_is_summed (fuel n : nat) (types : list reflect.decl)
    (useMap : bool) (skips : list string) (t et : reflect.rtype) (len_ : Z)
    (fs slots : structFs) (s : heap) (l r : Z) :
  let k := reflect.KindOf types et in
  let size := reflect.SizeOf types et in
  reflect.resolve types t = reflect.SArray len_ et ->
  is_grouped k = true -> 0 < size -> 0 <= len_ ->
  (forall i j, 0 <= i < len_ -> 0 <= j < len_ -> l + i * size <> r + j * size) ->
  (forall i, 0 <= i < len_ ->
     exists x y, cells s !! (l + i * size) = Some x /\ cells s !! (r + i * size) = Some y
                 /\ cell_of_kind k x = true /\ cell_of_kind k y = true) ->
  exists s',
    gen (S fuel) types useMap skips t fs
    = Some (Built (Some (MergeArrayPrim k (len_ * size) size)), fs)
    /\ exec (S n) slots (MergeArrayPrim k (len_ * size) size) s l r = Done s'
    /\ (forall i, 0 <= i < len_ ->
          exists x y z, cells s !! (l + i * size) = Some x
                        /\ cells s !! (r + i * size) = Some y
                        /\ sum_cell k x y = Some z
                        /\ cells s' !! (l + i * size) = Some z)
    /\ (forall x, (forall i, 0 <= i < len_ -> x <> l + i * size) ->
                  cells s' !! x = cells s !! x).
Proof.
  intros k size Hres Hg Hs Hlen Hdis Hcells.
  destruct (prim_loop_spec k size len_ l r s (grouped_is_additive k Hg) Hs Hdis Hcells)
    as (s' & Hrun & Hframe & Hsum).
  exists s'. split; [|split; [|split; [exact Hsum|exact Hframe]]].
  - cbn [gen]. unfold gen_body, reflect.KindOf. rewrite Hres.
    cbn [may_hold_skips negb]. rewrite andb_false_r.
    unfold genArray. fold k. rewrite Hg. reflexivity.
  - cbn [exec]. rewrite loop_offsets_elems by assumption. exact Hrun.
Qed.

(** A slice of a primitive kind: after the merge the left header is the
    one of the longer slice, and each of its first [min] elements holds the
    sum of the two elements at its index (the [or] for booleans); the
    elements of the shorter slice, the tail of the longer one and every cell
    outside the two headers keep their value.  The headers and the two
    backing arrays lie apart. *)
Theorem slice_of_primitives_is_summed (fuel n : nat) (types : list reflect.decl)
    (useMap : bool) (skips : list string) (t et : reflect.rtype)
    (fs slots : structFs) (s : heap) (l r : Z) (hl hr : SliceHeader) :
  let k := reflect.KindOf types et in
  let size := reflect.SizeOf types et in
  let long := if Len hl <? Len hr then hr else hl in
  let short := if Len hl <? Len hr then hl else hr in
  let m := Z.min (Len hl) (Len hr) in
  reflect.resolve types t = reflect.SSlice et ->
  is_grouped k = true -> 0 < size ->
  load_header s l = Some hl -> load_header s r = Some hr ->
  0 <= Len hl -> 0 <= Len hr ->
  separate l 24 r 24 ->
  separate l 24 (Data long) (m * size) -> separate l 24 (Data short) (m * size) ->
  separate r 24 (Data long) (m * size) -> separate r 24 (Data short) (m * size) ->
  (forall i j, 0 <= i < m -> 0 <= j < m -> Data long + i * size <> Data short + j * size) ->
  (forall i, 0 <= i < m ->
     exists x y, cells s !! (Data long + i * size) = Some x
                 /\ cells s !! (Data short + i * size) = Some y
                 /\ cell_of_kind k x = true /\ cell_of_kind k y = true) ->
  exists s',
    gen (S fuel) types useMap skips t fs = Some (Built (Some (MergeSlicePrim k size)), fs)
    /\ exec (S n) slots (MergeSlicePrim k size) s l r = Done s'
    /\ load_header s' l = Some long /\ load_header s' r = Some short
    /\ (forall i, 0 <= i < m ->
          exists x y z, cells s !! (Data long + i * size) = Some x
                        /\ cells s !! (Data short + i * size) = Some y
                        /\ sum_cell k x y = Some z
                        /\ cells s' !! (Data long + i * size) = Some z)
    /\ (forall x, ~ within l 24 x -> ~ within r 24 x ->
                  (forall i, 0 <= i < m -> x <> Data long + i * size) ->
                  cells s' !! x = cells s !! x).
Proof.
  intros k size long short m Hres Hg Hs Hl Hr Hnl Hnr Hlr Hll Hls Hrl Hrs Hdis Hcells.
  destruct (normalize_headers size s l r hl hr Hl Hr Hlr) as (_ & _ & _ & Hnorm & _).
  set (sN := normalized s l r hl hr) in *.
  assert (Hin_long : forall i, 0 <= i < m -> within (Data long) (m * size) (Data long + i * size))
    by (intros i Hi; unfold within; nia).
  assert (Hin_short : forall i, 0 <= i < m ->
                                within (Data short) (m * size) (Data short + i * size))
    by (intros i Hi; unfold within; nia).
  assert (Helem : forall i, 0 <= i < m ->
            cells sN !! (Data long + i * size) = cells s !! (Data long + i * size)
            /\ cells sN !! (Data short + i * size) = cells s !! (Data short + i * size)).
  { intros i Hi. split; apply Hnorm; intros Hw.
    - exact (Hll _ Hw (Hin_long i Hi)).
    - exact (Hrl _ Hw (Hin_long i Hi)).
    - exact (Hls _ Hw (Hin_short i Hi)).
    - exact (Hrs _ Hw (Hin_short i Hi)). }
  destruct (prim_loop_spec k size m (Data long) (Data short) sN
              (grouped_is_additive k Hg) Hs Hdis) as (s' & Hrun & Hframe & Hsum).
  { intros i Hi. destruct (Hcells i Hi) as (x & y & Hx & Hy & Kx & Ky).
    destruct (Helem i Hi) as [E1 E2]. exists x, y. rewrite E1, E2. auto. }
  destruct (slice_loop_spec (merge_prim k) size s l r hl hr Hs
              (merge_prim_elements_only k size Hs) Hl Hr Hnl Hnr Hlr Hll Hls Hrl Hrs)
    as [Hloop Hafter].
  fold long short m sN in Hloop, Hafter.
  assert (Hexec : exec (S n) slots (MergeSlicePrim k size) s l r = Done s').
  { cbn [exec]. rewrite Hloop. exact Hrun. }
  exists s'. split; [|split; [exact Hexec|]].
  { cbn [gen]. unfold gen_body, reflect.KindOf. rewrite Hres.
    cbn [may_hold_skips negb]. rewrite andb_false_r.
    unfold genSlice. fold k. rewrite Hg. reflexivity. }
  cbn [exec] in Hexec. destruct (Hafter s' Hexec) as (H1 & H2 & _).
  split; [exact H1|]. split; [exact H2|]. split.
  - intros i Hi. destruct (Hsum i Hi) as (x & y & z & Hx & Hy & Hz & Hz').
    destruct (Helem i Hi) as [E1 E2]. rewrite E1 in Hx. rewrite E2 in Hy.
    exists x, y, z. auto.
  - intros x Hxl Hxr Hx. rewrite (Hframe x Hx). apply Hnorm; assumption.
Qed.

(** ** Maps: the edges of the closure of [genMap] *)

Lemma MapIndex_entries (s : heap) (h : Z) (es : list (blob * blob)) (k : blob) :
  map_entries s h = Some es -> MapIndex s h k = lookup_entry k es.
Proof. unfold MapIndex. intros ->. reflexivity. Qed.

Lemma map_entries_present (s : heap) (h : Z) (es : list (blob * blob)) :
  h <> 0 -> maps s !! h = Some es -> map_entries s h = Some es.
Proof.
  intros Hh He. unfold map_entries.
  replace (h =? 0) with false by (symmetry; apply Z.eqb_neq; exact Hh). exact He.
Qed.

(** The loop over the keys of the right map when the closure of the
    value type is the nil function. *)
Lemma nil_plan_loop (valNeedsIndir ifaceIndir : bool) (vsize lh rh : Z)
    (el er : list (blob * blob))
    (rks : list blob) (s : heap) (cur : list (blob * blob)) :
  lh <> 0 -> lh <> rh ->
  NoDup rks ->
  Forall (fun k => plain_key k = true) rks ->
  (forall rk, rk ∈ rks -> is_Some (lookup_entry rk er)) ->
  map_entries s rh = Some er ->
  maps s !! lh = Some cur ->
  (forall rk, rk ∈ rks -> lookup_entry rk cur = lookup_entry rk el) ->
  ((exists k, k ∈ rks /\ is_Some (lookup_entry k el)) ->
   for_each (map_step None valNeedsIndir ifaceIndir vsize lh rh) rks s = Panic)
  /\ ((forall k, k ∈ rks -> lookup_entry k el = None) ->
      exists s' cur',
        for_each (map_step None valNeedsIndir ifaceIndir vsize lh rh) rks s = Done s'
        /\ maps s' !! lh = Some cur'
        /\ map_entries s' rh = Some er
        /\ cells s' = cells s
        /\ (forall k, k ∉ rks -> lookup_entry k cur' = lookup_entry k cur)
        /\ (forall k, k ∈ rks -> lookup_entry k cur' = lookup_entry k er)).
Proof.
  intros Hnil Hne. revert s cur.
  induction rks as [|rk rks IH]; intros s cur Hnd Hplain Hsome Hr Hl Hcur.
  - split; [intros (k & Hk & _); inversion Hk|].
    intros _. exists s, cur. repeat split; auto. intros k Hk. inversion Hk.
  - apply NoDup_cons in Hnd as [Hrk Hnd].
    apply Forall_cons in Hplain as [Hp Hplain].
    destruct (Hsome rk) as [rkv Hrkv]; [left|].
    pose proof (Hcur rk ltac:(left)) as Hhead.
    cbn [for_each]. unfold map_step at 1 3.
    rewrite (MapIndex_entries s lh cur rk (map_entries_present s lh cur Hnil Hl)).
    rewrite (MapIndex_entries s rh er rk Hr). rewrite Hhead, Hrkv.
    destruct (lookup_entry rk el) as [lkv|] eqn:Hlk.
    + unfold alloc_value. split; [destruct (valNeedsIndir || ifaceIndir); reflexivity|].
      intros Hall. specialize (Hall rk ltac:(left)). congruence.
    + destruct (set_entry lh rh er Hnil Hne s cur rk rkv Hl Hr) as (s1 & Hset & Hl1 & Hr1).
      rewrite Hset.
      assert (Hc1 : cells s1 = cells s).
      { unfold SetMapIndex in Hset.
        destruct (lh =? 0); [discriminate|].
        rewrite Hl in Hset. inversion Hset. reflexivity. }
      destruct (IH s1 (assign_entry rk rkv cur) Hnd Hplain) as [IH1 IH2].
      * intros k Hk. apply Hsome. right. exact Hk.
      * exact Hr1.
      * exact Hl1.
      * intros k Hk. rewrite lookup_assign_other; [|exact Hp|intros ->; contradiction].
        apply Hcur. right. exact Hk.
      * split.
        -- intros (k & Hk & Hsk). apply IH1. exists k. split; [|exact Hsk].
           apply elem_of_cons in Hk as [->|Hk]; [|exact Hk].
           rewrite Hlk in Hsk. destruct Hsk; discriminate.
        -- intros Hall. destruct IH2 as (s' & cur' & Hrun & H1 & H2 & H3 & H4 & H5).
           { intros k Hk. apply Hall. right. exact Hk. }
           exists s', cur'. split; [exact Hrun|]. split; [exact H1|]. split; [exact H2|].
           split; [congruence|]. split.
           ++ intros k Hk. apply not_elem_of_cons in Hk as [Hk1 Hk2].
              rewrite (H4 k Hk2). apply lookup_assign_other; assumption.
           ++ intros k Hk. apply elem_of_cons in Hk as [->|Hk]; [|exact (H5 k Hk)].
              rewrite (H4 rk Hrk), Hrkv. apply lookup_assign_same. exact Hp.
Qed.

(** [genMap] returns its closure also when the closure of the value
    type is nil (a value with nothing to merge, such as [struct{}]).  That
    closure, on a left map that is not nil: panics when a key of the right
    map is in the left map too, since it calls the nil function; and when
    the two maps share no key it returns with every entry of the right map
    set in the left map and the other entries kept. *)
Theorem map_of_unmerged_values (fuel n : nat) (types : list reflect.decl) (useMap : bool)
    (skips : list string) (t kt et : reflect.rtype) (fs fs' slots : structFs) (p : plan)
    (s : heap) (l r lh rh : Z) (el er : list (blob * blob)) :
  reflect.resolve types t = reflect.SMap kt et ->
  gen (S fuel) types useMap skips t fs = Some (Built (Some p), fs') ->
  gen fuel types useMap skips et fs = Some (Built None, fs') ->
  cells s !! l = Some (CPtr lh) -> cells s !! r = Some (CPtr rh) ->
  lh <> 0 -> lh <> rh ->
  maps s !! lh = Some el -> map_entries s rh = Some er ->
  NoDup (map fst er) ->
  Forall (fun e => plain_key (fst e) = true) er ->
  ((exists k, is_Some (lookup_entry k er) /\ is_Some (lookup_entry k el)) ->
   exec (S n) slots p s l r = Panic)
  /\ ((forall k, is_Some (lookup_entry k er) -> lookup_entry k el = None) ->
      exists s' el',
        exec (S n) slots p s l r = Done s'
        /\ maps s' !! lh = Some el'
        /\ map_entries s' rh = Some er
        /\ cells s' = cells s
        /\ (forall k, lookup_entry k el'
                      = if lookup_entry k er is Some v then Some v else lookup_entry k el)).
Proof.
  intros Hres Hgen Hf Hl Hr Hnil Hne Hel Her Hnd Hplain.
  destruct (gen_map_closure _ _ _ _ _ _ _ _ _ _ Hres Hgen) as (f & _ & -> & Hf').
  rewrite Hf in Hf'. injection Hf' as <-.
  assert (Hkeys : Forall (fun k => plain_key k = true) (map fst er)).
  { apply Forall_fmap. exact Hplain. }
  assert (Hin : forall k, k ∈ map fst er -> is_Some (lookup_entry k er)).
  { intros k Hk.
    assert (Hpk : plain_key k = true) by (exact (proj1 (Forall_forall _ _) Hkeys k Hk)).
    destruct (lookup_entry k er) eqn:E; [eauto|].
    apply (lookup_entry_keys k er Hpk) in E. contradiction. }
  destruct (nil_plan_loop
              (bool_decide (reflect.KindOf types et = reflect.Map)
               || bool_decide (reflect.KindOf types et = reflect.Ptr))
              (reflect.IfaceIndir types et)
              (reflect.SizeOf types et) lh rh el er (map fst er) s el
              Hnil Hne Hnd Hkeys Hin Her Hel (fun _ _ => eq_refl)) as [L1 L2].
  cbn [exec option_map]. rewrite Hl, Hr. unfold MapKeys. rewrite Her. cbn [option_map].
  split.
  - intros (k & [v Hk] & Hk'). apply L1. exists k. split; [|exact Hk'].
    exact (lookup_entry_key_in _ _ _ Hplain Hk).
  - intros Hall. destruct L2 as (s' & el' & Hrun & H1 & H2 & H3 & H4 & H5).
    { intros k Hk. apply Hall. apply Hin. exact Hk. }
    exists s', el'. split; [exact Hrun|]. split; [exact H1|]. split; [exact H2|].
    split; [exact H3|]. intros k.
    destruct (lookup_entry k er) as [v|] eqn:E.
    + rewrite <- E. apply H5. exact (lookup_entry_key_in _ _ _ Hplain E).
    + apply H4. intros Hk. destruct (Hin k Hk) as [v Hv]. congruence.
Qed.

(** The closure of a map type when one side is missing.  An empty or nil
    right map leaves the store as it is, also when the left map is nil; a nil
    left map and a right map with an entry make the closure panic, since it
    assigns to an entry of the nil map. *)
Theorem map_merge_with_missing_side (fuel n : nat) (types : list reflect.decl)
    (useMap : bool) (skips : list string) (t kt et : reflect.rtype)
    (fs fs' slots : structFs) (p : plan)
    (s : heap) (l r lh rh : Z) (er : list (blob * blob)) :
  reflect.resolve types t = reflect.SMap kt et ->
  gen (S fuel) types useMap skips t fs = Some (Built (Some p), fs') ->
  cells s !! l = Some (CPtr lh) -> cells s !! r = Some (CPtr rh) ->
  map_entries s rh = Some er ->
  (er = [] -> exec (S n) slots p s l r = Done s)
  /\ (forall e rest, er = e :: rest -> plain_key (fst e) = true -> lh = 0 ->
        exec (S n) slots p s l r = Panic).
Proof.
  intros Hres Hgen Hl Hr Her.
  destruct (gen_map_closure _ _ _ _ _ _ _ _ _ _ Hres Hgen) as (f & _ & -> & _).
  cbn [exec]. rewrite Hl, Hr. unfold MapKeys. rewrite Her. cbn [option_map].
  split.
  - intros ->. reflexivity.
  - intros e rest -> Hp ->. cbn [map for_each]. unfold map_step at 1.
    rewrite (MapIndex_entries s 0 [] (fst e) eq_refl).
    rewrite (MapIndex_entries s rh (e :: rest) (fst e) Her).
    unfold lookup_entry. cbn [find option_map].
    destruct (key_eqb_plain (fst e) (fst e) Hp) as [-> _].
    rewrite bool_decide_eq_true_2 by reflexivity. reflexivity.
Qed.

(** ** Structs met more than once *)

Lemma gen_struct_seen (fuel : nat) (types : list reflect.decl) (useMap : bool)
    (t : reflect.rtype) (d : reflect.decl) (fields : list reflect.StructField)
    (fs : structFs) (x : option plan) :
  reflect.resolve types t = reflect.SStruct d fields ->
  fs !! struct_name d = Some x ->
  gen (S fuel) types useMap [] t fs = Some (Built (Some (MergeThunk (struct_name d))), fs).
Proof.
  intros Hres Hfs. cbn [gen]. unfold gen_body, reflect.KindOf. rewrite Hres.
  cbn [length Z.of_nat Z.ltb Z.compare andb]. rewrite Hfs. reflexivity.
Qed.

Lemma gen_empty_struct (fuel : nat) (types : list reflect.decl) (useMap : bool)
    (t : reflect.rtype) (d : reflect.decl) (fs : structFs) :
  reflect.resolve types t = reflect.SStruct d [] ->
  fs !! struct_name d = None ->
  gen (S fuel) types useMap [] t fs = Some (Built None, <[ struct_name d := None ]> fs).
Proof.
  intros Hres Hfs. cbn [gen]. unfold gen_body, reflect.KindOf. rewrite Hres.
  cbn [length Z.of_nat Z.ltb Z.compare andb]. rewrite Hfs.
  unfold genStruct. cbn [parse_skips genStruct_fields skipMyLevel skipNextLevel added].
  change (size (∅ : gset string)) with 0%nat.
  change (size (∅ : gmap string (list string))) with 0%nat.
  change (Z.of_nat 0) with 0. change (0 <? 0) with false. change (0 =? 0) with true.
  cbv iota. cbn [andb]. rewrite insert_insert_eq. reflexivity.
Qed.

Lemma empty_vectors_run (l r : Z) (s : heap) :
  for_each
    (fun s0 row =>
       for_each
         (fun s1 offset =>
            merge_prim (fst row) s1 (fieldByOffset l offset) (fieldByOffset r offset))
         (snd row) s0) empty_vectors s
  = Done s.
Proof. reflexivity. Qed.

(** A struct type with no field, met twice in one generation, makes the
    returned function panic on every call.  The first visit saves the nil
    function in the table of structs; the second visit is answered by a
    closure that calls through the table, and the struct that holds it is no
    longer empty.  Here the struct has two fields of the same empty struct
    type. *)
Theorem repeated_empty_struct_panics (fuel n : nat) (types : list reflect.decl)
    (ide idr : nat) (de dr : reflect.decl) (fa fb : reflect.StructField)
    (a b : Z) (s : heap) :
  let pa := {| typ := reflect.PtrTo (reflect.Defined idr); data := a |} in
  let pb := {| typ := reflect.PtrTo (reflect.Defined idr); data := b |} in
  types !! ide = Some de -> reflect.Under de = reflect.StructOf [] ->
  types !! idr = Some dr -> reflect.Under dr = reflect.StructOf [fa; fb] ->
  reflect.Type_ fa = reflect.Defined ide -> reflect.Type_ fb = reflect.Defined ide ->
  struct_name dr <> struct_name de ->
  a <> 0 ->
  exists e,
    Gen (S (S fuel)) types pa [] = Some (inr e)
    /\ merge e = Some (MergeStruct empty_vectors
                         [(reflect.Offset fb, MergeThunk (struct_name de))])
    /\ call (S (S n)) e s pa pb = Panic.
Proof.
  intros pa pb Hde Hue Hdr Hur Hfa Hfb Hne Ha.
  assert (Re : reflect.resolve types (reflect.Defined ide) = reflect.SStruct de [])
    by (unfold reflect.resolve; rewrite Hde, Hue; reflexivity).
  assert (Rr : reflect.resolve types (reflect.Defined idr) = reflect.SStruct dr [fa; fb])
    by (unfold reflect.resolve; rewrite Hdr, Hur; reflexivity).
  assert (Ke : reflect.KindOf types (reflect.Defined ide) = reflect.Struct)
    by (unfold reflect.KindOf; rewrite Re; reflexivity).
  set (fs1 := <[ struct_name dr := None ]> (∅ : structFs)).
  set (fs2 := <[ struct_name de := None ]> fs1).
  set (p := MergeStruct empty_vectors [(reflect.Offset fb, MergeThunk (struct_name de))]).
  assert (Hgen : gen (S (S fuel)) types false [] (reflect.Defined idr) ∅
                 = Some (Built (Some p), <[ struct_name dr := Some p ]> fs2)).
  { change (gen (S (S fuel)) types false [] (reflect.Defined idr) ∅)
      with (gen_body types false (gen (S fuel) types false) [] (reflect.Defined idr) ∅).
    unfold gen_body, reflect.KindOf. rewrite Rr.
    cbn [length Z.of_nat Z.ltb Z.compare andb]. rewrite lookup_empty.
    unfold genStruct. cbn [parse_skips genStruct_fields skipMyLevel skipNextLevel].
    rewrite !decide_False by set_solver.
    rewrite Hfa, Hfb, Ke. change (is_grouped reflect.Struct) with false. cbv iota.
    rewrite lookup_empty. cbn [default].
    fold fs1.
    rewrite (gen_empty_struct fuel types false _ de fs1 Re)
      by (unfold fs1; rewrite lookup_insert_ne by exact Hne; apply lookup_empty).
    fold fs2. cbn [skipMyLevel skipNextLevel grouped offsetFs added].
    rewrite delete_empty, lookup_empty. cbn [default].
    rewrite (gen_struct_seen fuel types false _ de [] fs2 None Re)
      by (unfold fs2; apply lookup_insert_eq).
    cbn [skipMyLevel skipNextLevel grouped offsetFs added app].
    rewrite delete_empty.
    change (size (∅ : gset string)) with 0%nat.
    change (size (∅ : gmap string (list string))) with 0%nat.
    reflexivity. }
  exists {| root := reflect.PtrTo (reflect.Defined idr); merge := Some p;
            slots := <[ struct_name dr := Some p ]> fs2 |}.
  split; [|split; [reflexivity|]].
  - unfold Gen. cbn [apply_options typ data pa reflect.resolve reflect.shape_of_literal
                     skips unsafeMap].
    replace (a =? 0) with false by (symmetry; apply Z.eqb_neq; exact Ha).
    assert (Hk : reflect.KindOf types (reflect.Defined idr) = reflect.Struct)
      by (unfold reflect.KindOf; rewrite Rr; reflexivity).
    rewrite Hk. destruct (decide (reflect.Struct = reflect.Ptr)); [discriminate|].
    rewrite Hgen. reflexivity.
  - unfold call. cbn [root merge slots].
    rewrite (check_match (reflect.PtrTo (reflect.Defined idr)) pa pb eq_refl eq_refl).
    cbn [data pa pb].
    unfold p. cbn [exec]. rewrite empty_vectors_run. cbn [for_each fst snd].
    rewrite lookup_insert_ne by exact Hne. unfold fs2. rewrite lookup_insert_eq.
    reflexivity.
Qed.

(** The arrays [[2]int32{1, 2}] and [[2]int32{10, 20}], with a skip
    that the array does not look at. *)
Lemma array_of_primitives_example :
  exists s',
    gen 1 [] false ["x"%string] (reflect.ArrayOf 2 (reflect.Basic reflect.Int32)) ∅
    = Some (Built (Some (MergeArrayPrim reflect.Int32 8 4)), ∅)
    /\ exec 1 ∅ (MergeArrayPrim reflect.Int32 8 4) Cases.int32_arrays 4096 8192 = Done s'
    /\ cells s' !! 4096 = Some (CInt reflect.Int32 11)
    /\ cells s' !! 4100 = Some (CInt reflect.Int32 22)
    /\ cells s' !! 8192 = Some (CInt reflect.Int32 10)
    /\ cells s' !! 8196 = Some (CInt reflect.Int32 20).
Proof.
  destruct (array_of_primitives_is_summed 0 0 [] false ["x"%string]
              (reflect.ArrayOf 2 (reflect.Basic reflect.Int32)) (reflect.Basic reflect.Int32)
              2 ∅ ∅ Cases.int32_arrays 4096 8192)
    as (s' & HG & HE & _ & Hframe).
  - reflexivity.
  - reflexivity.
  - reflexivity.
  - lia.
  - intros i j Hi Hj. cbn. lia.
  - intros i Hi. assert (Hc : i = 0 \/ i = 1) by lia. destruct Hc as [->| ->].
    + exists (CInt reflect.Int32 1), (CInt reflect.Int32 10). repeat split.
    + exists (CInt reflect.Int32 2), (CInt reflect.Int32 20). repeat split.
  - exists s'. split; [exact HG|]. split; [exact HE|].
    split; [vm_compute in HE; injection HE as <-; reflexivity|].
    split; [vm_compute in HE; injection HE as <-; reflexivity|].
    split; apply Hframe; intros i Hi; cbn; lia.
Defined.

(** The slices [[]int{1}] and [[]int{10, 20}]: the left header becomes
    the one of the longer slice, whose first element is 11. *)
Lemma slice_of_primitives_example :
  exists s',
    exec 1 ∅ (MergeSlicePrim reflect.Int 8) Ex.short_long_slices 4096 8192 = Done s'
    /\ load_header s' 4096 = Some {| Data := 16384; Len := 2; Cap := 2 |}
    /\ load_header s' 8192 = Some {| Data := 12288; Len := 1; Cap := 1 |}
    /\ cells s' !! 16384 = Some (CInt reflect.Int 11)
    /\ cells s' !! 16392 = Some (CInt reflect.Int 20)
    /\ cells s' !! 12288 = Some (CInt reflect.Int 1).
Proof.
  destruct (slice_of_primitives_is_summed 0 0 [] false []
              (reflect.SliceOf (reflect.Basic reflect.Int)) (reflect.Basic reflect.Int)
              ∅ ∅ Ex.short_long_slices 4096 8192
              {| Data := 12288; Len := 1; Cap := 1 |} {| Data := 16384; Len := 2; Cap := 2 |})
    as (s' & _ & HE & H1 & H2 & _ & Hframe).
  - reflexivity.
  - reflexivity.
  - reflexivity.
  - reflexivity.
  - reflexivity.
  - cbn. lia.
  - cbn. lia.
  - intros x. unfold within. lia.
  - intros x. unfold within. cbn. lia.
  - intros x. unfold within. cbn. lia.
  - intros x. unfold within. cbn. lia.
  - intros x. unfold within. cbn. lia.
  - intros i j Hi Hj. cbn in *. lia.
  - intros i Hi. cbn in Hi. assert (i = 0) by lia. subst i.
    exists (CInt reflect.Int 10), (CInt reflect.Int 1). repeat split.
  - exists s'. split; [exact HE|]. split; [exact H1|]. split; [exact H2|].
    split; [vm_compute in HE; injection HE as <-; reflexivity|].
    split; apply Hframe; unfold within; cbn; lia.
Defined.

(** Two sets [map[int]struct{}]: [{1, 2}] and [{2, 3}] share the key 2
    and the merge panics; [{1}] and [{3}] share no key and the left set
    becomes [{1, 3}]. *)
Lemma map_of_unmerged_values_example :
  gen 2 Cases.empty_twice true []
    (reflect.MapOf (reflect.Basic reflect.Int) (reflect.Defined 0)) ∅
  = Some (Built (Some (MergeMap false true 0 None)), {[ "main.E"%string := None ]})
  /\ exec 1 ∅ (MergeMap false true 0 None) Cases.int_sets 4096 8192 = Panic
  /\ exists s' el',
       exec 1 ∅ (MergeMap false true 0 None) Cases.int_sets 4104 8200 = Done s'
       /\ maps s' !! 20496 = Some el'
       /\ lookup_entry (Ex.int_blob 1) el' = Some []
       /\ lookup_entry (Ex.int_blob 3) el' = Some [].
Proof.
  assert (Hg : gen 2 Cases.empty_twice true []
                 (reflect.MapOf (reflect.Basic reflect.Int) (reflect.Defined 0)) ∅
               = Some (Built (Some (MergeMap false true 0 None)),
                       ({[ "main.E"%string := None ]} : structFs)))
    by (vm_compute; reflexivity).
  assert (Hv : gen 1 Cases.empty_twice true [] (reflect.Defined 0) ∅
               = Some (Built None, ({[ "main.E"%string := None ]} : structFs)))
    by (vm_compute; reflexivity).
  split; [exact Hg|]. split.
  - apply (proj1 (map_of_unmerged_values 1 0 Cases.empty_twice true []
                    (reflect.MapOf (reflect.Basic reflect.Int) (reflect.Defined 0))
                    (reflect.Basic reflect.Int) (reflect.Defined 0)
                    ∅ {[ "main.E"%string := None ]} ∅ (MergeMap false true 0 None)
                    Cases.int_sets 4096 8192 20480 24576
                    [ (Ex.int_blob 1, []); (Ex.int_blob 2, []) ]
                    [ (Ex.int_blob 2, []); (Ex.int_blob 3, []) ]
                    eq_refl Hg Hv eq_refl eq_refl ltac:(discriminate) ltac:(discriminate)
                    eq_refl eq_refl
                    ltac:(apply (bool_decide_unpack _); vm_compute; exact I)
                    ltac:(repeat constructor))).
    exists (Ex.int_blob 2). split; eexists; vm_compute; reflexivity.
  - destruct (proj2 (map_of_unmerged_values 1 0 Cases.empty_twice true []
                       (reflect.MapOf (reflect.Basic reflect.Int) (reflect.Defined 0))
                       (reflect.Basic reflect.Int) (reflect.Defined 0)
                       ∅ {[ "main.E"%string := None ]} ∅ (MergeMap false true 0 None)
                       Cases.int_sets 4104 8200 20496 24592
                       [ (Ex.int_blob 1, []) ] [ (Ex.int_blob 3, []) ]
                       eq_refl Hg Hv eq_refl eq_refl ltac:(discriminate) ltac:(discriminate)
                       eq_refl eq_refl
                       ltac:(apply (bool_decide_unpack _); vm_compute; exact I)
                       ltac:(repeat constructor)))
      as (s' & el' & HE & Hl & _ & _ & Hlook).
    + intros k [v Hk]. apply lookup_entry_key_in in Hk; [|repeat constructor].
      cbn in Hk. apply elem_of_cons in Hk as [->|Hk]; [vm_compute; reflexivity|inversion Hk].
    + exists s', el'. split; [exact HE|]. split; [exact Hl|].
      split; [exact (Hlook (Ex.int_blob 1))|exact (Hlook (Ex.int_blob 3))].
Defined.

(** The map [{1: 1}] and the nil map, either way round. *)
Lemma map_merge_with_missing_side_example :
  exec 1 ∅ (MergeMap false true 8 (Some (MergePrim reflect.Int))) Cases.nil_right_map 4096 8192
  = Done Cases.nil_right_map
  /\ exec 1 ∅ (MergeMap false true 8 (Some (MergePrim reflect.Int))) Cases.nil_right_map 8192 4096
     = Panic.
Proof.
  assert (Hg : gen 2 [] true []
                 (reflect.MapOf (reflect.Basic reflect.Int) (reflect.Basic reflect.Int)) ∅
               = Some (Built (Some (MergeMap false true 8 (Some (MergePrim reflect.Int)))),
                       (∅ : structFs)))
    by (vm_compute; reflexivity).
  split.
  - apply (proj1 (map_merge_with_missing_side 1 0 [] true []
                    (reflect.MapOf (reflect.Basic reflect.Int) (reflect.Basic reflect.Int))
                    (reflect.Basic reflect.Int) (reflect.Basic reflect.Int) ∅ ∅ ∅
                    (MergeMap false true 8 (Some (MergePrim reflect.Int)))
                    Cases.nil_right_map 4096 8192 20480 0 []
                    eq_refl Hg eq_refl eq_refl eq_refl)).
    reflexivity.
  - apply (proj2 (map_merge_with_missing_side 1 0 [] true []
                    (reflect.MapOf (reflect.Basic reflect.Int) (reflect.Basic reflect.Int))
                    (reflect.Basic reflect.Int) (reflect.Basic reflect.Int) ∅ ∅ ∅
                    (MergeMap false true 8 (Some (MergePrim reflect.Int)))
                    Cases.nil_right_map 8192 4096 0 20480
                    [ (Ex.int_blob 1, Ex.int_blob 1) ]
                    eq_refl Hg eq_refl eq_refl eq_refl)
             (Ex.int_blob 1, Ex.int_blob 1) [] eq_refl eq_refl eq_refl).
Defined.

(** [type E struct{}; type S struct { a, b E }] *)
Lemma repeated_empty_struct_example :
  exists e,
    Gen 2 Cases.empty_twice (Ex.ptr_to 1 4096) [] = Some (inr e)
    /\ merge e = Some (MergeStruct empty_vectors [(0, MergeThunk "main.E")])
    /\ call 2 e Ex.pointer_store (Ex.ptr_to 1 4096) (Ex.ptr_to 1 8192) = Panic.
Proof.
  apply (repeated_empty_struct_panics 0 0 Cases.empty_twice 0 1
           (Ex.struct "main" "E" 0 [])
           (Ex.struct "main" "S" 0
              [ Ex.field "a" 0 (reflect.Defined 0); Ex.field "b" 0 (reflect.Defined 0) ])
           (Ex.field "a" 0 (reflect.Defined 0)) (Ex.field "b" 0 (reflect.Defined 0))
           4096 8192 Ex.pointer_store);
    try reflexivity; try discriminate.
Defined.

(** ** A recursive struct: linked lists *)

Ltac list_mem := rewrite ?elem_of_app, ?elem_of_cons; intuition.

Lemma node_cells_app (l1 l2 : list (Z * Z)) :
  node_cells (l1 ++ l2) = node_cells l1 ++ node_cells l2.
Proof. unfold node_cells. rewrite map_app, concat_app. reflexivity. Qed.

Lemma linked_list_frame (s s' : heap) (h : Z) (nodes : list (Z * Z)) :
  (forall z, z ∈ node_cells nodes -> cells s' !! z = cells s !! z) ->
  linked_list s h nodes -> linked_list s' h nodes.
Proof.
  revert h. induction nodes as [|node rest IH]; intros h Hf; cbn [linked_list]; [auto|].
  intros (-> & Hn & Hv & next & Hp & Hrest).
  assert (H1 : fst node ∈ node_cells (node :: rest)) by (cbn; list_mem).
  assert (H2 : fst node + 8 ∈ node_cells (node :: rest)) by (cbn; list_mem).
  split; [reflexivity|]. split; [exact Hn|].
  split; [rewrite (Hf _ H2); exact Hv|].
  exists next. split; [rewrite (Hf _ H1); exact Hp|].
  apply IH; [|exact Hrest]. intros z Hz. apply Hf.
  change (node_cells (node :: rest)) with ([fst node; fst node + 8] ++ node_cells rest).
  list_mem.
Qed.

Lemma linked_list_head (s : heap) (h : Z) (nodes : list (Z * Z)) :
  linked_list s h nodes -> nodes <> [] -> h <> 0.
Proof. destruct nodes; [congruence|]. cbn [linked_list]. tauto. Qed.

Lemma linked_list_cons (s : heap) (x v next : Z) (rest : list (Z * Z)) :
  x <> 0 -> cells s !! (x + 8) = Some (CInt reflect.Int v) ->
  cells s !! x = Some (CPtr next) -> linked_list s next rest ->
  linked_list s x ((x, v) :: rest).
Proof. intros H1 H2 H3 H4. cbn [linked_list fst snd]. eauto 10. Qed.

Lemma linked_struct_step (f : nat) (s : heap) (x y v w : Z) :
  cells s !! (x + 8) = Some (CInt reflect.Int v) ->
  cells s !! (y + 8) = Some (CInt reflect.Int w) ->
  exec (S f) linked_slots linked_plan s x y
  = exec f linked_slots (MergePtr (MergeThunk "main.T"))
      (with_cells s (<[ x + 8 := CInt reflect.Int (wrap true 64 (v + w)) ]> (cells s))) x y.
Proof.
  intros Hv Hw. unfold linked_plan at 1. cbn [exec]. rewrite grouped_loops_run.
  change (vector_ops (append_offset reflect.Int 8 empty_vectors)) with [(reflect.Int, 8)].
  unfold run_ops. cbn [for_each fst snd]. unfold fieldByOffset.
  rewrite (merge_prim_sum reflect.Int s (x + 8) (y + 8) _ _
             (CInt reflect.Int (wrap true 64 (v + w))) Hv Hw eq_refl).
  rewrite !Z.add_0_r.
  destruct (exec f linked_slots (MergePtr (MergeThunk "main.T")) _ x y); reflexivity.
Qed.

(** The cells of the two head nodes differ from one another and from the
    cells of the two tails. *)
Lemma node_heads_apart (x v y w : Z) (la lb : list (Z * Z)) :
  NoDup (node_cells (((x, v) :: la) ++ (y, w) :: lb)) ->
  x <> y /\ x <> y + 8 /\ x + 8 <> y /\ x + 8 <> y + 8
  /\ (forall z, z ∈ node_cells la ++ node_cells lb ->
                z <> x /\ z <> x + 8 /\ z <> y /\ z <> y + 8)
  /\ NoDup (node_cells la ++ node_cells lb).
Proof.
  intros Hnd. rewrite node_cells_app in Hnd.
  change (node_cells ((x, v) :: la)) with ([x; x + 8] ++ node_cells la) in Hnd.
  change (node_cells ((y, w) :: lb)) with ([y; y + 8] ++ node_cells lb) in Hnd.
  apply NoDup_app in Hnd as (N1 & N2 & N3).
  apply NoDup_app in N1 as (N4 & N5 & N6).
  apply NoDup_app in N3 as (N7 & N8 & N9).
  assert (Q1 : forall z, z ∈ [x; x + 8] ++ node_cells la ->
                         z ∉ [y; y + 8] ++ node_cells lb) by exact N2.
  assert (Q2 : forall z, z ∈ [x; x + 8] -> z ∉ node_cells la) by exact N5.
  assert (Q3 : forall z, z ∈ [y; y + 8] -> z ∉ node_cells lb) by exact N8.
  clear -Q1 Q2 Q3 N6 N9.
  repeat split.
  - intros E. apply (Q1 x); [list_mem|rewrite E at 1; list_mem].
  - intros E. apply (Q1 x); [list_mem|rewrite E at 1; list_mem].
  - intros E. apply (Q1 (x + 8)); [list_mem|rewrite E; list_mem].
  - intros E. apply (Q1 (x + 8)); [list_mem|rewrite E; list_mem].
  - intros E. subst z. apply elem_of_app in H as [H|H].
    + apply (Q2 x); [list_mem|exact H].
    + apply (Q1 x); list_mem.
  - intros E. subst z. apply elem_of_app in H as [H|H].
    + apply (Q2 (x + 8)); [list_mem|exact H].
    + apply (Q1 (x + 8)); list_mem.
  - intros E. subst z. apply elem_of_app in H as [H|H].
    + apply (Q1 y); list_mem.
    + apply (Q3 y); [list_mem|exact H].
  - intros E. subst z. apply elem_of_app in H as [H|H].
    + apply (Q1 (y + 8)); list_mem.
    + apply (Q3 (y + 8)); [list_mem|exact H].
  - apply NoDup_app. split; [exact N6|]. split; [|exact N9].
    intros z Hz Hz'. apply (Q1 z); list_mem.
Qed.

(** The closure of [T] on two lists of nodes that share no cell. *)
Lemma linked_exec (la : list (Z * Z)) :
  forall (lb : list (Z * Z)) (s : heap) (a b : Z) (fuel : nat),
    la <> [] -> lb <> [] ->
    linked_list s a la -> linked_list s b lb ->
    NoDup (node_cells (la ++ lb)) ->
    (3 * length la <= fuel)%nat ->
    exists s',
      exec fuel linked_slots linked_plan s a b = Done s'
      /\ linked_list s' a (merged_nodes la lb)
      /\ linked_list s' b (firstn (length la) lb)
      /\ (forall z, z ∉ node_cells (la ++ lb) -> cells s' !! z = cells s !! z).
Proof.
  induction la as [|[x v] la' IH]; intros lb s a b fuel Hla Hlb Ha Hb Hnd Hfuel; [congruence|].
  destruct lb as [|[y w] lb']; [congruence|]. clear Hla Hlb.
  cbn [linked_list fst snd] in Ha, Hb.
  destruct Ha as (-> & Hx0 & Hv & nx & Hnx & Hla').
  destruct Hb as (-> & Hy0 & Hw & ny & Hny & Hlb').
  cbn [length] in Hfuel.
  destruct fuel as [|[|[|f2]]]; try lia.
  destruct (node_heads_apart x v y w la' lb' Hnd) as (S1 & S2 & S3 & S4 & Stail & Ntail).
  rewrite (linked_struct_step _ s x y v w Hv Hw).
  set (s1 := with_cells s (<[ x + 8 := CInt reflect.Int (wrap true 64 (v + w)) ]> (cells s))).
  assert (Hs1 : forall z, z <> x + 8 -> cells s1 !! z = cells s !! z).
  { intros z Hz. unfold s1. cbn [cells with_cells]. apply lookup_insert_ne. congruence. }
  assert (Hs1v : cells s1 !! (x + 8) = Some (CInt reflect.Int (wrap true 64 (v + w)))).
  { unfold s1. cbn [cells with_cells]. apply lookup_insert_eq. }
  cbn [exec]. rewrite (Hs1 x) by lia. rewrite (Hs1 y) by congruence. rewrite Hnx, Hny.
  destruct la' as [|na la''].
  - (* the left list ends here: the rest of the right list is moved over *)
    cbn [linked_list] in Hla'. subst nx. cbn [Z.eqb].
    assert (Hst1 : store s1 x (CPtr ny)
                   = Done (with_cells s1 (<[ x := CPtr ny ]> (cells s1)))).
    { apply store_present with (c' := CPtr 0). rewrite (Hs1 x) by lia. exact Hnx. }
    rewrite Hst1.
    set (s2 := with_cells s1 (<[ x := CPtr ny ]> (cells s1))).
    assert (Hst2 : store s2 y (CPtr 0)
                   = Done (with_cells s2 (<[ y := CPtr 0 ]> (cells s2)))).
    { apply store_present with (c' := CPtr ny). unfold s2. cbn [cells with_cells].
      rewrite lookup_insert_ne by congruence. rewrite (Hs1 y) by congruence. exact Hny. }
    rewrite Hst2.
    set (s3 := with_cells s2 (<[ y := CPtr 0 ]> (cells s2))).
    assert (Hs3 : forall z, z <> x -> z <> x + 8 -> z <> y -> cells s3 !! z = cells s !! z).
    { intros z Z1 Z2 Z3. unfold s3, s2. cbn [cells with_cells].
      rewrite !lookup_insert_ne by congruence. apply Hs1. exact Z2. }
    exists s3. split; [reflexivity|]. split; [|split].
    + cbn [merged_nodes fst snd]. apply (linked_list_cons s3 x _ ny); [exact Hx0| | |].
      { unfold s3, s2. cbn [cells with_cells]. rewrite !lookup_insert_ne by congruence.
        exact Hs1v. }
      { unfold s3, s2. cbn [cells with_cells]. rewrite lookup_insert_ne by congruence.
        apply lookup_insert_eq. }
      apply (linked_list_frame s); [|exact Hlb'].
      intros z Hz. destruct (Stail z) as (T1 & T2 & T3 & T4); [list_mem|].
      apply Hs3; assumption.
    + cbn [length firstn]. apply (linked_list_cons s3 y w 0 []); [exact Hy0| | |reflexivity].
      { rewrite Hs3 by lia. exact Hw. }
      unfold s3. cbn [cells with_cells]. apply lookup_insert_eq.
    + intros z Hz. rewrite node_cells_app in Hz.
      change (node_cells [(x, v)]) with [x; x + 8] in Hz.
      change (node_cells ((y, w) :: lb')) with ([y; y + 8] ++ node_cells lb') in Hz.
      apply Hs3; intros ->; apply Hz; list_mem.
  - assert (Hnx0 : nx <> 0) by (apply (linked_list_head s nx (na :: la'') Hla'); discriminate).
    replace (nx =? 0) with false by (symmetry; apply Z.eqb_neq; exact Hnx0).
    destruct lb' as [|nb lb''].
    + (* the right list ends here *)
      cbn [linked_list] in Hlb'. subst ny. cbn [Z.eqb].
      exists s1. split; [reflexivity|]. split; [|split].
      * cbn [merged_nodes fst snd].
        apply (linked_list_cons s1 x _ nx); [exact Hx0|exact Hs1v| |].
        { rewrite Hs1 by lia. exact Hnx. }
        apply (linked_list_frame s); [|exact Hla'].
        intros z Hz. destruct (Stail z) as (T1 & T2 & T3 & T4); [list_mem|].
        apply Hs1. exact T2.
      * cbn [length firstn].
        apply (linked_list_cons s1 y w 0 []); [exact Hy0| | |reflexivity].
        { rewrite Hs1 by congruence. exact Hw. }
        { rewrite Hs1 by congruence. exact Hny. }
      * intros z Hz. apply Hs1. intros ->. apply Hz. cbn. list_mem.
    + (* both lists go on: the thunk calls the closure of [T] again *)
      assert (Hny0 : ny <> 0)
        by (apply (linked_list_head s ny (nb :: lb'') Hlb'); discriminate).
      replace (ny =? 0) with false by (symmetry; apply Z.eqb_neq; exact Hny0).
      change (linked_slots !! "main.T"%string) with (Some (Some linked_plan)).
      destruct (IH (nb :: lb'') s1 nx ny f2) as (s' & Hrun & Hl' & Hr' & Hframe).
      * discriminate.
      * discriminate.
      * apply (linked_list_frame s); [|exact Hla'].
        intros z Hz. destruct (Stail z) as (T1 & T2 & T3 & T4); [list_mem|].
        apply Hs1. exact T2.
      * apply (linked_list_frame s); [|exact Hlb'].
        intros z Hz. destruct (Stail z) as (T1 & T2 & T3 & T4); [list_mem|].
        apply Hs1. exact T2.
      * rewrite node_cells_app. exact Ntail.
      * cbn [length] in *. lia.
      * rewrite node_cells_app in Hframe.
        assert (Hhead : forall z, z = x \/ z = x + 8 \/ z = y \/ z = y + 8 ->
                                  cells s' !! z = cells s1 !! z).
        { intros z Hz. apply Hframe. intros Hin.
          destruct (Stail z Hin) as (T1 & T2 & T3 & T4). intuition congruence. }
        exists s'. split; [exact Hrun|]. split; [|split].
        -- change (merged_nodes ((x, v) :: na :: la'') ((y, w) :: nb :: lb''))
             with ((x, wrap true 64 (v + w)) :: merged_nodes (na :: la'') (nb :: lb'')).
           apply (linked_list_cons s' x _ nx); [exact Hx0| | |exact Hl'].
           { rewrite Hhead by auto. exact Hs1v. }
           { rewrite Hhead by auto. rewrite Hs1 by lia. exact Hnx. }
        -- change (firstn (length ((x, v) :: na :: la'')) ((y, w) :: nb :: lb''))
             with ((y, w) :: firstn (length (na :: la'')) (nb :: lb'')).
           apply (linked_list_cons s' y w ny); [exact Hy0| | |exact Hr'].
           { rewrite Hhead by auto. rewrite Hs1 by congruence. exact Hw. }
           { rewrite Hhead by auto. rewrite Hs1 by congruence. exact Hny. }
        -- intros z Hz. rewrite node_cells_app in Hz.
           change (node_cells ((x, v) :: na :: la''))
             with ([x; x + 8] ++ node_cells (na :: la'')) in Hz.
           change (node_cells ((y, w) :: nb :: lb''))
             with ([y; y + 8] ++ node_cells (nb :: lb'')) in Hz.
           rewrite Hframe by (intros Hin; apply Hz; revert Hin; list_mem).
           apply Hs1. intros ->. apply Hz. list_mem.
Qed.

(** Two lists of nodes [type T struct { Next *T; V int }] that share no
    cell, merged by the function [Gen] returns for [T]: the left list keeps
    its nodes, each now holding the sum of the two values at its position;
    when the right list is the longer one its remaining nodes are moved to
    the end of the left list and cut off the right list, whose first nodes
    keep their values.  The call returns for every fuel that covers three
    closure calls per node of the left list. *)
Theorem linked_lists_are_merged (g fuel : nat) (la lb : list (Z * Z)) (s : heap) (a b : Z) :
  la <> [] -> lb <> [] ->
  linked_list s a la -> linked_list s b lb ->
  NoDup (node_cells (la ++ lb)) ->
  (3 * length la <= fuel)%nat ->
  exists e s',
    Gen (3 + g) Ex.linked (Ex.ptr_to 0 a) [] = Some (inr e)
    /\ call fuel e s (Ex.ptr_to 0 a) (Ex.ptr_to 0 b) = Done s'
    /\ linked_list s' a (merged_nodes la lb)
    /\ linked_list s' b (firstn (length la) lb)
    /\ (forall z, z ∉ node_cells (la ++ lb) -> cells s' !! z = cells s !! z).
Proof.
  intros Hla Hlb Ha Hb Hnd Hfuel.
  assert (Ha0 : a <> 0) by exact (linked_list_head s a la Ha Hla).
  assert (Hgen : gen (3 + g) Ex.linked false [] (reflect.Defined 0) ∅
                 = Some (Built (Some linked_plan), linked_slots)).
  { apply (gen_more Ex.linked false 3 (3 + g) ltac:(lia)). vm_compute. reflexivity. }
  exists {| root := reflect.PtrTo (reflect.Defined 0); merge := Some linked_plan;
            slots := linked_slots |}.
  destruct (linked_exec la lb s a b fuel Hla Hlb Ha Hb Hnd Hfuel)
    as (s' & Hrun & Hl & Hr & Hframe).
  exists s'. split; [|split; [|auto]].
  - unfold Gen. cbn [apply_options typ data Ex.ptr_to reflect.resolve
                     reflect.shape_of_literal skips unsafeMap].
    replace (a =? 0) with false by (symmetry; apply Z.eqb_neq; exact Ha0).
    change (reflect.KindOf Ex.linked (reflect.Defined 0)) with reflect.Struct.
    destruct (decide (reflect.Struct = reflect.Ptr)); [discriminate|].
    rewrite Hgen. reflexivity.
  - unfold call. cbn [root merge slots].
    rewrite (check_match (reflect.PtrTo (reflect.Defined 0)) (Ex.ptr_to 0 a) (Ex.ptr_to 0 b)
               eq_refl eq_refl).
    exact Hrun.
Qed.

(** The lists 1 -> 2 and 10 -> 20 -> 30: the left list becomes
    11 -> 22 -> 30, its last node being the third node of the right list,
    and the right list is cut to 10 -> 20. *)
Lemma linked_lists_are_merged_example :
  exists e s',
    Gen 3 Ex.linked (Ex.ptr_to 0 4096) [] = Some (inr e)
    /\ call 6 e Cases.two_lists (Ex.ptr_to 0 4096) (Ex.ptr_to 0 8192) = Done s'
    /\ linked_list s' 4096 [(4096, 11); (4112, 22); (8224, 30)]
    /\ linked_list s' 8192 [(8192, 10); (8208, 20)].
Proof.
  destruct (linked_lists_are_merged 0 6 [(4096, 1); (4112, 2)]
              [(8192, 10); (8208, 20); (8224, 30)] Cases.two_lists 4096 8192)
    as (e & s' & HG & HC & Hl & Hr & _).
  - discriminate.
  - discriminate.
  - apply (linked_list_cons _ 4096 1 4112); [discriminate|reflexivity|reflexivity|].
    apply (linked_list_cons _ 4112 2 0); [discriminate|reflexivity|reflexivity|reflexivity].
  - apply (linked_list_cons _ 8192 10 8208); [discriminate|reflexivity|reflexivity|].
    apply (linked_list_cons _ 8208 20 8224); [discriminate|reflexivity|reflexivity|].
    apply (linked_list_cons _ 8224 30 0); [discriminate|reflexivity|reflexivity|reflexivity].
  - apply (bool_decide_unpack _). vm_compute. reflexivity.
  - cbn [length]. lia.
  - exists e, s'. split; [exact HG|]. split; [exact HC|]. split; [exact Hl|exact Hr].
Defined.

(** ** The test of the package *)

(** [TestGen]: [Gen] succeeds on [&sl] with the options of the test, the
    call [f(&sl, &sr)] returns, and [sl] is then the value [exp]. *)
Lemma TestGen_passes :
  match TestGen.run with
  | Done s' => TestGen.observe s' = TestGen.exp
  | _ => False
  end.
Proof. vm_compute. reflexivity. Qed.

(** ** A skip inside a recursive struct *)

Lemma second_value_skipped_is_generated (g : nat) :
  gen (7 + g) Ex.linked false ["Next>V"%string] (reflect.Defined 0) ∅
  = Some (Built (Some second_value_skipped), linked_slots).
Proof. apply (gen_more Ex.linked false 7 (7 + g) ltac:(lia)). vm_compute. reflexivity. Qed.

(** The closure for the skip [Next>V] on two lists of at least two nodes
    each. *)
Lemma second_value_skipped_exec (a0 a1 b0 b1 : Z * Z) (la lb : list (Z * Z))
    (s : heap) (a b : Z) (fuel : nat) :
  linked_list s a (a0 :: a1 :: la) -> linked_list s b (b0 :: b1 :: lb) ->
  NoDup (node_cells ((a0 :: a1 :: la) ++ b0 :: b1 :: lb)) ->
  (3 * length la + 4 <= fuel)%nat ->
  exists s',
    exec fuel linked_slots second_value_skipped s a b = Done s'
    /\ linked_list s' a ((a0.1, wrap true 64 (a0.2 + b0.2)) :: a1 :: merged_nodes la lb)
    /\ linked_list s' b (b0 :: b1 :: firstn (length la) lb)
    /\ (forall z, z ∉ node_cells ((a0 :: a1 :: la) ++ b0 :: b1 :: lb) ->
                  cells s' !! z = cells s !! z).
Proof.
  destruct a0 as [x0 v0], a1 as [x1 v1], b0 as [y0 w0], b1 as [y1 w1].
  intros Ha Hb Hnd Hfuel.
  cbn [linked_list fst snd] in Ha, Hb.
  destruct Ha as (-> & Hx0 & Hv0 & x1' & Hn0 & -> & Hx1 & Hv1 & nx & Hnx & Hla).
  destruct Hb as (-> & Hy0 & Hw0 & y1' & Hm0 & -> & Hy1 & Hw1 & ny & Hny & Hlb).
  destruct fuel as [|[|[|[|f]]]]; try lia.
  destruct (node_heads_apart x0 v0 y0 w0 ((x1, v1) :: la) ((y1, w1) :: lb) Hnd)
    as (A1 & A2 & A3 & A4 & Atail & Ntail).
  rewrite <- node_cells_app in Ntail.
  assert (Ntail' : NoDup (node_cells (((x1, v1) :: la) ++ (y1, w1) :: lb))).
  { rewrite node_cells_app. rewrite node_cells_app in Ntail.
    change (node_cells ((y1, w1) :: lb)) with ([y1; y1 + 8] ++ node_cells lb).
    exact Ntail. }
  destruct (node_heads_apart x1 v1 y1 w1 la lb Ntail')
    as (B1 & B2 & B3 & B4 & Btail & Nrest).
  assert (C : forall z, z = x1 \/ z = x1 + 8 \/ z = y1 \/ z = y1 + 8
                        \/ z ∈ node_cells la ++ node_cells lb ->
                        z <> x0 /\ z <> x0 + 8 /\ z <> y0 /\ z <> y0 + 8).
  { intros z Hz. apply Atail.
    change (node_cells ((x1, v1) :: la)) with ([x1; x1 + 8] ++ node_cells la).
    change (node_cells ((y1, w1) :: lb)) with ([y1; y1 + 8] ++ node_cells lb).
    revert Hz. list_mem. }
  (* the first node *)
  unfold second_value_skipped at 1. cbn [exec]. rewrite grouped_loops_run.
  change (vector_ops (append_offset reflect.Int 8 empty_vectors)) with [(reflect.Int, 8)].
  unfold run_ops. cbn [for_each fst snd]. unfold fieldByOffset.
  rewrite (merge_prim_sum reflect.Int s (x0 + 8) (y0 + 8) _ _
             (CInt reflect.Int (wrap true 64 (v0 + w0))) Hv0 Hw0 eq_refl).
  rewrite !Z.add_0_r.
  set (s1 := with_cells s (<[ x0 + 8 := CInt reflect.Int (wrap true 64 (v0 + w0)) ]> (cells s))).
  assert (Hs1 : forall z, z <> x0 + 8 -> cells s1 !! z = cells s !! z).
  { intros z Hz. unfold s1. cbn [cells with_cells]. apply lookup_insert_ne. congruence. }
  assert (Hs1v : cells s1 !! (x0 + 8) = Some (CInt reflect.Int (wrap true 64 (v0 + w0)))).
  { unfold s1. cbn [cells with_cells]. apply lookup_insert_eq. }
  rewrite (Hs1 x0) by lia. rewrite (Hs1 y0) by congruence. rewrite Hn0, Hm0.
  replace (x1 =? 0) with false by (symmetry; apply Z.eqb_neq; exact Hx1).
  replace (y1 =? 0) with false by (symmetry; apply Z.eqb_neq; exact Hy1).
  (* the second node: nothing is grouped, the pointer is followed *)
  rewrite grouped_loops_run.
  change (vector_ops empty_vectors) with (@nil (reflect.Kind * Z)).
  unfold run_ops. cbn [for_each fst snd]. rewrite !Z.add_0_r.
  destruct (C x1) as (C1 & C2 & C3 & C4); [auto|].
  destruct (C y1) as (D1 & D2 & D3 & D4); [auto|].
  destruct (C (x1 + 8)) as (E1 & E2 & E3 & E4); [auto|].
  destruct (C (y1 + 8)) as (F1 & F2 & F3 & F4); [auto 6|].
  rewrite (Hs1 x1) by exact C2. rewrite (Hs1 y1) by exact D2. rewrite Hnx, Hny.
  assert (Htail : forall z, z ∈ node_cells la ++ node_cells lb ->
                            cells s1 !! z = cells s !! z).
  { intros z Hz. apply Hs1. destruct (C z) as (_ & T & _); [auto 6|exact T]. }
  assert (Hheads : forall s',
             (forall z, z = x0 \/ z = x0 + 8 \/ z = y0 \/ z = y0 + 8 \/ z = x1 + 8
                        \/ z = y1 + 8 -> cells s' !! z = cells s1 !! z) ->
             cells s' !! x0 = Some (CPtr x1)
             /\ cells s' !! (x0 + 8) = Some (CInt reflect.Int (wrap true 64 (v0 + w0)))
             /\ cells s' !! y0 = Some (CPtr y1)
             /\ cells s' !! (y0 + 8) = Some (CInt reflect.Int w0)
             /\ cells s' !! (x1 + 8) = Some (CInt reflect.Int v1)
             /\ cells s' !! (y1 + 8) = Some (CInt reflect.Int w1)).
  { intros s' H'. rewrite !H' by auto 10.
    rewrite (Hs1 x0) by lia. rewrite (Hs1 y0) by congruence.
    rewrite (Hs1 (y0 + 8)) by congruence. rewrite (Hs1 (x1 + 8)) by exact E2.
    rewrite (Hs1 (y1 + 8)) by exact F2. auto 10. }
  assert (Hout : forall s',
             (forall z, z <> x1 -> z <> y1 -> z ∉ node_cells (la ++ lb) ->
                        cells s' !! z = cells s1 !! z) ->
             forall z, z ∉ node_cells (((x0, v0) :: (x1, v1) :: la) ++ (y0, w0) :: (y1, w1) :: lb) ->
                       cells s' !! z = cells s !! z).
  { intros s' H' z Hz. rewrite node_cells_app in Hz.
    change (node_cells ((x0, v0) :: (x1, v1) :: la))
      with ([x0; x0 + 8; x1; x1 + 8] ++ node_cells la) in Hz.
    change (node_cells ((y0, w0) :: (y1, w1) :: lb))
      with ([y0; y0 + 8; y1; y1 + 8] ++ node_cells lb) in Hz.
    rewrite H'.
    - apply Hs1. intros ->. apply Hz. list_mem.
    - intros ->. apply Hz. list_mem.
    - intros ->. apply Hz. list_mem.
    - rewrite node_cells_app. intros Hin. apply Hz. revert Hin. list_mem. }
  destruct la as [|na la'].
  - (* the left list has two nodes: the rest of the right list is moved over *)
    cbn [linked_list] in Hla. subst nx. cbn [Z.eqb].
    assert (Hst1 : store s1 x1 (CPtr ny)
                   = Done (with_cells s1 (<[ x1 := CPtr ny ]> (cells s1)))).
    { apply store_present with (c' := CPtr 0). rewrite (Hs1 x1) by exact C2. exact Hnx. }
    rewrite Hst1.
    set (s2 := with_cells s1 (<[ x1 := CPtr ny ]> (cells s1))).
    assert (Hst2 : store s2 y1 (CPtr 0)
                   = Done (with_cells s2 (<[ y1 := CPtr 0 ]> (cells s2)))).
    { apply store_present with (c' := CPtr ny). unfold s2. cbn [cells with_cells].
      rewrite lookup_insert_ne by congruence. rewrite (Hs1 y1) by exact D2. exact Hny. }
    rewrite Hst2.
    set (s3 := with_cells s2 (<[ y1 := CPtr 0 ]> (cells s2))).
    assert (Hs3 : forall z, z <> x1 -> z <> y1 -> cells s3 !! z = cells s1 !! z).
    { intros z Z1 Z2. unfold s3, s2. cbn [cells with_cells].
      rewrite !lookup_insert_ne by congruence. reflexivity. }
    destruct (Hheads s3) as (G1 & G2 & G3 & G4 & G5 & G6).
    { intros z Hz. apply Hs3; intros ->; intuition (try congruence; try lia). }
    exists s3. split; [reflexivity|]. split; [|split].
    + cbn [merged_nodes fst snd].
      apply (linked_list_cons s3 x0 _ x1); [exact Hx0|exact G2|exact G1|].
      apply (linked_list_cons s3 x1 v1 ny); [exact Hx1|exact G5| |].
      { unfold s3, s2. cbn [cells with_cells]. rewrite lookup_insert_ne by congruence.
        apply lookup_insert_eq. }
      apply (linked_list_frame s); [|exact Hlb].
      intros z Hz. destruct (Btail z) as (T1 & T2 & T3 & T4); [list_mem|].
      rewrite Hs3 by assumption. apply Htail. list_mem.
    + cbn [length firstn].
      apply (linked_list_cons s3 y0 w0 y1); [exact Hy0|exact G4|exact G3|].
      apply (linked_list_cons s3 y1 w1 0 []); [exact Hy1|exact G6| |reflexivity].
      unfold s3. cbn [cells with_cells]. apply lookup_insert_eq.
    + apply Hout. intros z Z1 Z2 _. apply Hs3; assumption.
  - assert (Hnx0 : nx <> 0) by (apply (linked_list_head s nx (na :: la') Hla); discriminate).
    replace (nx =? 0) with false by (symmetry; apply Z.eqb_neq; exact Hnx0).
    destruct (Hheads s1) as (G1 & G2 & G3 & G4 & G5 & G6); [reflexivity|].
    destruct lb as [|nb lb'].
    + (* the right list has two nodes *)
      cbn [linked_list] in Hlb. subst ny. cbn [Z.eqb].
      exists s1. split; [reflexivity|]. split; [|split].
      * cbn [merged_nodes fst snd].
        apply (linked_list_cons s1 x0 _ x1); [exact Hx0|exact G2|exact G1|].
        apply (linked_list_cons s1 x1 v1 nx); [exact Hx1|exact G5| |].
        { rewrite Hs1 by exact C2. exact Hnx. }
        apply (linked_list_frame s); [|exact Hla].
        intros z Hz. apply Htail. list_mem.
      * cbn [length firstn].
        apply (linked_list_cons s1 y0 w0 y1); [exact Hy0|exact G4|exact G3|].
        apply (linked_list_cons s1 y1 w1 0 []); [exact Hy1|exact G6| |reflexivity].
        rewrite Hs1 by exact D2. exact Hny.
      * apply Hout. reflexivity.
    + (* both lists go on: the closure remembered for [T] merges the rest *)
      assert (Hny0 : ny <> 0)
        by (apply (linked_list_head s ny (nb :: lb') Hlb); discriminate).
      replace (ny =? 0) with false by (symmetry; apply Z.eqb_neq; exact Hny0).
      destruct (linked_exec (na :: la') (nb :: lb') s1 nx ny f) as (s' & Hrun & Hl' & Hr' & Hframe).
      * discriminate.
      * discriminate.
      * apply (linked_list_frame s); [|exact Hla]. intros z Hz. apply Htail. list_mem.
      * apply (linked_list_frame s); [|exact Hlb]. intros z Hz. apply Htail. list_mem.
      * rewrite node_cells_app. exact Nrest.
      * clear -Hfuel. cbn [length] in *. lia.
      * rewrite node_cells_app in Hframe.
        assert (Hhead : forall z, z = x0 \/ z = x0 + 8 \/ z = y0 \/ z = y0 + 8
                                  \/ z = x1 \/ z = x1 + 8 \/ z = y1 \/ z = y1 + 8 ->
                                  cells s' !! z = cells s1 !! z).
        { intros z Hz. apply Hframe. intros Hin.
          destruct (Btail z Hin) as (T1 & T2 & T3 & T4).
          destruct (C z) as (T5 & T6 & T7 & T8); [auto 6|]. intuition congruence. }
        destruct (Hheads s') as (K1 & K2 & K3 & K4 & K5 & K6).
        { intros z Hz. apply Hhead. intuition. }
        exists s'. split; [rewrite Hrun; reflexivity|]. split; [|split].
        -- apply (linked_list_cons s' x0 _ x1); [exact Hx0|exact K2|exact K1|].
           apply (linked_list_cons s' x1 v1 nx); [exact Hx1|exact K5| |exact Hl'].
           rewrite Hhead by auto 10. rewrite Hs1 by exact C2. exact Hnx.
        -- change (firstn (length (na :: la')) (nb :: lb'))
             with (nb :: firstn (length la') lb') in *.
           apply (linked_list_cons s' y0 w0 y1); [exact Hy0|exact K4|exact K3|].
           apply (linked_list_cons s' y1 w1 ny); [exact Hy1|exact K6| |exact Hr'].
           rewrite Hhead by auto 10. rewrite Hs1 by exact D2. exact Hny.
        -- apply Hout. intros z Z1 Z2 Hz. apply Hframe.
           rewrite <- node_cells_app. exact Hz.
Qed.

(** [Gen] for [type T struct { Next *T; V int }] with the skip [Next>V],
    called on two lists of at least two nodes each that share no cell: the
    skip holds at the depth it names and nowhere else.  The first node of
    the left list gets the sum of the two first values, the second node
    keeps its value, and the nodes after it are merged as without any skip
    (position by position, the rest of a longer right list being moved to
    the end of the left list).  The call returns for every fuel that covers
    four closure calls for the first two nodes and three per later node of
    the left list. *)
Theorem skip_in_recursive_struct_holds_at_its_depth (g fuel : nat) (a0 a1 b0 b1 : Z * Z)
    (la lb : list (Z * Z)) (s : heap) (a b : Z) :
  linked_list s a (a0 :: a1 :: la) -> linked_list s b (b0 :: b1 :: lb) ->
  NoDup (node_cells ((a0 :: a1 :: la) ++ b0 :: b1 :: lb)) ->
  (3 * length la + 4 <= fuel)%nat ->
  exists e s',
    Gen (7 + g) Ex.linked (Ex.ptr_to 0 a) [SkipField "Next>V"] = Some (inr e)
    /\ call fuel e s (Ex.ptr_to 0 a) (Ex.ptr_to 0 b) = Done s'
    /\ linked_list s' a ((a0.1, wrap true 64 (a0.2 + b0.2)) :: a1 :: merged_nodes la lb)
    /\ linked_list s' b (b0 :: b1 :: firstn (length la) lb)
    /\ (forall z, z ∉ node_cells ((a0 :: a1 :: la) ++ b0 :: b1 :: lb) ->
                  cells s' !! z = cells s !! z).
Proof.
  intros Ha Hb Hnd Hfuel.
  assert (Ha0 : a <> 0) by (apply (linked_list_head s a _ Ha); discriminate).
  exists {| root := reflect.PtrTo (reflect.Defined 0); merge := Some second_value_skipped;
            slots := linked_slots |}.
  destruct (second_value_skipped_exec a0 a1 b0 b1 la lb s a b fuel Ha Hb Hnd Hfuel)
    as (s' & Hrun & Hl & Hr & Hframe).
  exists s'. split; [|split; [|auto]].
  - unfold Gen.
    change (apply_options [SkipField "Next>V"] {| skips := []; unsafeMap := false |})
      with (@inr error Config {| skips := ["Next>V"%string]; unsafeMap := false |}).
    cbn [typ data Ex.ptr_to reflect.resolve reflect.shape_of_literal skips unsafeMap].
    replace (a =? 0) with false by (symmetry; apply Z.eqb_neq; exact Ha0).
    change (reflect.KindOf Ex.linked (reflect.Defined 0)) with reflect.Struct.
    destruct (decide (reflect.Struct = reflect.Ptr)); [discriminate|].
    rewrite (second_value_skipped_is_generated g). reflexivity.
  - unfold call. cbn [root merge slots].
    rewrite (check_match (reflect.PtrTo (reflect.Defined 0)) (Ex.ptr_to 0 a) (Ex.ptr_to 0 b)
               eq_refl eq_refl).
    exact Hrun.
Qed.

(** The lists 1 -> 2 and 10 -> 20 -> 30 under the skip [Next>V]: the left
    list becomes 11 -> 2 -> 30 and the right list is cut to 10 -> 20. *)
Lemma skip_in_recursive_struct_example :
  exists e s',
    Gen 7 Ex.linked (Ex.ptr_to 0 4096) [SkipField "Next>V"] = Some (inr e)
    /\ call 4 e Cases.two_lists (Ex.ptr_to 0 4096) (Ex.ptr_to 0 8192) = Done s'
    /\ linked_list s' 4096 [(4096, 11); (4112, 2); (8224, 30)]
    /\ linked_list s' 8192 [(8192, 10); (8208, 20)].
Proof.
  destruct (skip_in_recursive_struct_holds_at_its_depth 0 4 (4096, 1) (4112, 2)
              (8192, 10) (8208, 20) [] [(8224, 30)] Cases.two_lists 4096 8192)
    as (e & s' & HG & HC & Hl & Hr & _).
  - apply (linked_list_cons _ 4096 1 4112); [discriminate|reflexivity|reflexivity|].
    apply (linked_list_cons _ 4112 2 0); [discriminate|reflexivity|reflexivity|reflexivity].
  - apply (linked_list_cons _ 8192 10 8208); [discriminate|reflexivity|reflexivity|].
    apply (linked_list_cons _ 8208 20 8224); [discriminate|reflexivity|reflexivity|].
    apply (linked_list_cons _ 8224 30 0); [discriminate|reflexivity|reflexivity|reflexivity].
  - apply (bool_decide_unpack _). vm_compute. reflexivity.
  - cbn [length]. lia.
  - exists e, s'. split; [exact HG|]. split; [exact HC|]. split; [exact Hl|exact Hr].
Defined.

(** ** Maps of numbers *)

(** An interface holds a number by address and a pointer or a map in its
    data word. *)
Lemma IfaceIndir_number (types : list reflect.decl) (t : reflect.rtype) (k : reflect.Kind) :
  reflect.resolve types t = reflect.SBasic k -> is_additive k = true ->
  reflect.IfaceIndir types t = true.
Proof.
  intros Hres Hk. unfold reflect.IfaceIndir.
  destruct (reflect.depth t + _)%nat as [|fuel] eqn:E; [reflexivity|].
  cbn [reflect.pointer_shaped]. rewrite Hres.
  destruct k; try discriminate Hk; reflexivity.
Qed.

Lemma IfaceIndir_pointer (types : list reflect.decl) (t e : reflect.rtype) :
  reflect.resolve types t = reflect.SPtr e -> reflect.IfaceIndir types t = false.
Proof.
  intros Hres. unfold reflect.IfaceIndir.
  destruct (reflect.depth t + _)%nat as [|fuel] eqn:E.
  - destruct t; discriminate E.
  - cbn [reflect.pointer_shaped]. rewrite Hres. reflexivity.
Qed.

Lemma write_cells_lookup (b : blob) :
  forall (m : gmap Z cell) (a : Z) (i : nat) (c : option cell),
    b !! i = Some c -> write_cells m a b !! (a + Z.of_nat i) = c.
Proof.
  induction b as [|x b IH]; intros m a i c Hi; [discriminate|].
  destruct i as [|i].
  - injection Hi as <-. rewrite Z.add_0_r. apply write_cells_head.
  - cbn [write_cells]. replace (a + Z.of_nat (S i)) with (a + 1 + Z.of_nat i) by lia.
    apply IH. exact Hi.
Qed.

(** [read_blob] finds the cells of a value where the store holds them. *)
Lemma read_cells (m : gmap Z cell) (a : Z) (v : blob) (n : Z) :
  Z.of_nat (length v) = n ->
  (forall i x, v !! i = Some x -> m !! (a + Z.of_nat i) = x) ->
  map (fun i => m !! (a + Z.of_nat i)) (seq 0 (Z.to_nat n)) = v.
Proof.
  intros Hn Hm. rewrite <- Hn, Nat2Z.id.
  apply list_eq. intros i. rewrite list_lookup_fmap.
  destruct (v !! i) as [x|] eqn:Hi.
  - rewrite (lookup_seq_lt _ _ _ (lookup_lt_Some _ _ _ Hi)).
    cbn [fmap option_fmap option_map Nat.add]. rewrite (Hm i x Hi). symmetry. exact Hi.
  - rewrite lookup_seq_ge by (apply lookup_ge_None; exact Hi). symmetry. exact Hi.
Qed.

(** The closure of a numeric kind on the copies of two values of that
    kind: it returns, and the left copy then holds the sum. *)
Lemma number_value_call (k : reflect.Kind) (s : heap) (n : Z) (a b : cell) (pl pr : blob) :
  is_additive k = true -> cell_of_kind k a = true -> cell_of_kind k b = true ->
  Z.of_nat (length (Some a :: pl)) = n ->
  let '(s2, tl, tr) := value_slots s n (Some a :: pl) (Some b :: pr) in
  exists c s',
    sum_cell k a b = Some c
    /\ merge_prim k s2 tl tr = Done s'
    /\ maps s' = maps s
    /\ read_blob s' tl n = Some c :: pl.
Proof.
  intros Hk Ha Hb Hn.
  assert (Hpos : 0 < n) by (cbn [length] in Hn; lia).
  pose proof (value_slots_heads s n (Some a) (Some b) pl pr Hpos) as H.
  unfold value_slots, alloc_value in *. cbn [cells maps brk] in *.
  destruct H as (H1 & H2 & H3).
  destruct (sum_cell_defined k a b Hk Ha Hb) as (c & Hc & _).
  exists c. eexists. split; [exact Hc|]. split.
  - eapply merge_prim_sum; [exact H1|exact H2|exact Hc].
  - split; [reflexivity|]. unfold read_blob. cbn [cells with_cells].
    apply read_cells; [exact Hn|].
    intros [|i] x Hi.
    + injection Hi as <-. rewrite Z.add_0_r. apply lookup_insert_eq.
    + rewrite lookup_insert_ne by lia.
      rewrite write_cells_below by (apply lookup_lt_Some in Hi; cbn [length] in Hi, Hn; lia).
      apply (write_cells_lookup (Some a :: pl)). exact Hi.
Qed.

Lemma SetMapIndex_cells (s s' : heap) (h : Z) (k : blob) (v : option blob) :
  SetMapIndex s h k v = Done s' -> cells s' = cells s /\ brk s' = brk s.
Proof.
  unfold SetMapIndex.
  destruct v; destruct (h =? 0); try discriminate; try (intros [= <-]; auto);
    destruct (maps s !! h); try discriminate; intros [= <-]; auto.
Qed.

(** The loop of a map closure over numbers works on copies above the
    break: no cell below it is written. *)
Lemma number_loop_cells (k : reflect.Kind) (vsize lh rh : Z) (rks : list blob) :
  0 <= vsize ->
  forall s s',
    for_each (map_step (Some (merge_prim k)) false true vsize lh rh) rks s = Done s' ->
    brk s <= brk s' /\ forall x, x < brk s -> cells s' !! x = cells s !! x.
Proof.
  intros Hsize. induction rks as [|rk rks IH]; intros s s'.
  - intros [= <-]. split; [lia|reflexivity].
  - cbn [for_each].
    destruct (map_step (Some (merge_prim k)) false true vsize lh rh s rk) as [s1| | |] eqn:Hstep;
      try discriminate.
    intros Hrun. destruct (IH s1 s' Hrun) as [B1 C1].
    assert (H1 : brk s <= brk s1 /\ forall x, x < brk s -> cells s1 !! x = cells s !! x).
    { unfold map_step in Hstep.
      destruct (MapIndex s lh rk) as [lkv|].
      - destruct (MapIndex s rh rk) as [rkv|]; [|discriminate].
        unfold alloc_value in Hstep. cbn [orb brk cells maps] in Hstep.
        match type of Hstep with
        | match merge_prim k ?s2 ?a ?b with _ => _ end = _ =>
            destruct (merge_prim k s2 a b) as [s3| | |] eqn:Hcall; try discriminate;
            destruct (merge_prim_writes_left k s2 s3 a b Hcall) as (_ & Hb & Hc)
        end.
        destruct (SetMapIndex_cells _ _ _ _ _ Hstep) as [E1 E2].
        rewrite E1, E2, Hb. cbn [brk cells]. split; [lia|].
        intros x Hx. rewrite Hc by lia. cbn [cells].
        rewrite !write_cells_below by lia. reflexivity.
      - destruct (SetMapIndex_cells _ _ _ _ _ Hstep) as [E1 E2].
        rewrite E1, E2. split; [lia|reflexivity]. }
    destruct H1 as [B0 C0]. split; [lia|].
    intros x Hx. rewrite C1 by lia. apply C0. exact Hx.
Qed.

(** A map whose values are numbers (or bools), merged by the closure [gen]
    builds for its type.  The left map is not nil and is another object
    than the right map; the keys hold no floating-point cell; under a key
    the two maps share, both values are numbers of the value kind.  Then
    the call returns and the left map holds: under a key of the right map
    only, the right value; under a shared key, the sum of the two values
    (or of two bools); under any other key, what it held.  The right map
    and every other map object are as before, and no cell of the store the
    call was given is written: the sums are made on copies. *)
Theorem map_of_numbers_is_summed (fuel n : nat) (types : list reflect.decl)
    (t kt et : reflect.rtype) (k : reflect.Kind) (fs slots : structFs)
    (s : heap) (l r lh rh : Z) (el er : list (blob * blob)) :
  let size := reflect.SizeOf types et in
  let p := MergeMap false true size (Some (MergePrim k)) in
  reflect.resolve types t = reflect.SMap kt et ->
  reflect.resolve types et = reflect.SBasic k ->
  is_additive k = true -> 0 < size ->
  cells s !! l = Some (CPtr lh) -> cells s !! r = Some (CPtr rh) ->
  lh <> 0 -> lh <> rh ->
  maps s !! lh = Some el -> map_entries s rh = Some er ->
  NoDup (map fst er) ->
  Forall (fun e => plain_key (fst e) = true) er ->
  (forall key lkv rkv,
     lookup_entry key el = Some lkv -> lookup_entry key er = Some rkv ->
     exists a b pl pr,
       lkv = Some a :: pl /\ rkv = Some b :: pr /\ Z.of_nat (length lkv) = size
       /\ cell_of_kind k a = true /\ cell_of_kind k b = true) ->
  exists s' el',
    gen (S (S fuel)) types true [] t fs = Some (Built (Some p), fs)
    /\ exec (S (S n)) slots p s l r = Done s'
    /\ maps s' !! lh = Some el'
    /\ (forall key rkv, lookup_entry key er = Some rkv -> lookup_entry key el = None ->
                        lookup_entry key el' = Some rkv)
    /\ (forall key a b pl pr,
          lookup_entry key el = Some (Some a :: pl) ->
          lookup_entry key er = Some (Some b :: pr) ->
          exists c, sum_cell k a b = Some c /\ lookup_entry key el' = Some (Some c :: pl))
    /\ (forall key, lookup_entry key er = None -> lookup_entry key el' = lookup_entry key el)
    /\ (forall h, h <> lh -> maps s' !! h = maps s !! h)
    /\ (forall x, x < brk s -> cells s' !! x = cells s !! x).
Proof.
  intros size p Hres Het Hk Hpos Hl Hr Hnil Hne Hel Her Hnd Hplain Hvals.
  assert (Hkind : reflect.KindOf types et = k)
    by (unfold reflect.KindOf; rewrite Het; reflexivity).
  assert (Hgen : gen (S (S fuel)) types true [] t fs = Some (Built (Some p), fs)).
  { change (gen (S (S fuel)) types true [] t fs)
      with (gen_body types true (gen (S fuel) types true) [] t fs).
    unfold gen_body. rewrite Hres. cbn [length Z.of_nat Z.ltb Z.compare andb negb].
    unfold genMap.
    change (gen (S fuel) types true [] et fs)
      with (gen_body types true (gen fuel types true) [] et fs).
    unfold gen_body. rewrite Het. cbn [length Z.of_nat Z.ltb Z.compare andb].
    rewrite Hkind, (IfaceIndir_number types et k Het Hk). unfold p, size.
    destruct k; try discriminate Hk; reflexivity. }
  assert (Hkeys : Forall (fun k => plain_key k = true) (map fst er)).
  { apply Forall_fmap. exact Hplain. }
  assert (Hin : forall key, key ∈ map fst er -> is_Some (lookup_entry key er)).
  { intros key Hkey.
    assert (Hpk : plain_key key = true) by (exact (proj1 (Forall_forall _ _) Hkeys key Hkey)).
    destruct (lookup_entry key er) eqn:E; [eauto|].
    apply (lookup_entry_keys key er Hpk) in E. contradiction. }
  assert (Hexec : exec (S (S n)) slots p s l r
                  = for_each (map_step (Some (merge_prim k)) false true size lh rh)
                      (map fst er) s).
  { unfold p. cbn [exec]. rewrite Hl, Hr. unfold MapKeys. rewrite Her. reflexivity. }
  assert (Hframe : value_call_frame (merge_prim k) (if false then 8 else size) lh rh el er).
  { intros s0 key lkv rkv _ _. unfold value_slots, alloc_value.
    intros s1 Hcall. destruct (merge_prim_writes_left k _ _ _ _ Hcall) as (Hm & _).
    rewrite Hm. cbn [maps]. auto. }
  assert (Hret : value_call_returns (merge_prim k) (if false then 8 else size) el er).
  { intros s0 key lkv rkv Hlk Hrk.
    destruct (Hvals key lkv rkv Hlk Hrk) as (a & b & pl & pr & -> & -> & Hlen & Ha & Hb).
    pose proof (number_value_call k s0 size a b pl pr Hk Ha Hb Hlen) as H.
    destruct (value_slots s0 size (Some a :: pl) (Some b :: pr)) as [[s2 tl] tr].
    destruct H as (c & s1 & _ & Hcall & _). exists s1. exact Hcall. }
  destruct (map_loop_returns (merge_prim k) false true size lh rh el er
              Hnil Hne eq_refl Hframe (map fst er) s el Hret Hnd Hkeys Hin Her Hel
              (fun _ _ => eq_refl)) as [s' Hrun].
  destruct (map_loop_spec (merge_prim k) false true size lh rh el er
              Hnil Hne eq_refl Hframe (map fst er) s s' el Hnd Hkeys Hin Her Hel
              (fun _ _ => eq_refl) Hrun) as (el' & Hr' & Hl' & Hres').
  assert (Hsize : 0 <= size) by lia.
  exists s', el'. rewrite Hexec.
  split; [exact Hgen|]. split; [exact Hrun|]. split; [exact Hl'|].
  split; [|split; [|split; [|split]]].
  - intros key rkv Hkey Hnone.
    destruct (proj2 (Hres' key) (lookup_entry_key_in _ _ _ Hplain Hkey))
      as (rkv' & v & H1 & H2 & H3).
    rewrite Hnone in H3. congruence.
  - intros key a b pl pr Hlk Hrk.
    destruct (proj2 (Hres' key) (lookup_entry_key_in _ _ _ Hplain Hrk))
      as (rkv' & v & H1 & H2 & H3).
    rewrite Hlk in H3. cbv iota in H3.
    destruct (Hvals key _ _ Hlk Hrk) as (a' & b' & pl' & pr' & E1 & E2 & Hlen & Ha & Hb).
    injection E1 as <- <-. injection E2 as <- <-.
    destruct H3 as (s0 & s1 & H3).
    pose proof (number_value_call k s0 size a b pl pr Hk Ha Hb Hlen) as H.
    assert (rkv' = Some b :: pr) by congruence. subst rkv'.
    destruct (value_slots s0 size (Some a :: pl) (Some b :: pr)) as [[s2 tl] tr].
    destruct H as (c & s1' & Hc & Hcall & _ & Hread). destruct H3 as [Hcall' ->].
    exists c. split; [exact Hc|]. rewrite H2. f_equal.
    rewrite Hcall in Hcall'. injection Hcall' as <-. exact Hread.
  - intros key Hkey. apply (proj1 (Hres' key)). intros Hin'.
    destruct (Hin key Hin') as [v Hv]. congruence.
  - refine (map_loop_changes_left_only (merge_prim k) false true size lh rh _ s s' _ Hrun).
    intros s0 a b s1 Hc. exact (proj1 (merge_prim_writes_left k _ _ _ _ Hc)).
  - exact (proj2 (number_loop_cells k size lh rh (map fst er) Hsize s s' Hrun)).
Qed.

(** [map[int]int]: merging [{2: 7, 3: 9}] into [{1: 1, 2: 5}] leaves
    [{1: 1, 2: 12, 3: 9}] in the left map. *)
Lemma map_of_numbers_example :
  exists s' el',
    gen 2 [] true [] (reflect.MapOf (reflect.Basic reflect.Int) (reflect.Basic reflect.Int)) ∅
    = Some (Built (Some (MergeMap false true 8 (Some (MergePrim reflect.Int)))), ∅)
    /\ exec 2 ∅ (MergeMap false true 8 (Some (MergePrim reflect.Int))) Ex.int_maps 4096 8192 = Done s'
    /\ maps s' !! 20480 = Some el'
    /\ lookup_entry (Ex.int_blob 1) el' = Some (Ex.int_blob 1)
    /\ lookup_entry (Ex.int_blob 2) el' = Some (Ex.int_blob 12)
    /\ lookup_entry (Ex.int_blob 3) el' = Some (Ex.int_blob 9).
Proof.
  destruct (map_of_numbers_is_summed 0 0 []
              (reflect.MapOf (reflect.Basic reflect.Int) (reflect.Basic reflect.Int))
              (reflect.Basic reflect.Int) (reflect.Basic reflect.Int) reflect.Int ∅ ∅
              Ex.int_maps 4096 8192 20480 24576
              [ (Ex.int_blob 1, Ex.int_blob 1); (Ex.int_blob 2, Ex.int_blob 5) ]
              [ (Ex.int_blob 2, Ex.int_blob 7); (Ex.int_blob 3, Ex.int_blob 9) ])
    as (s' & el' & HG & HE & HM & Hright & Hboth & Hleft & _).
  - reflexivity.
  - reflexivity.
  - reflexivity.
  - reflexivity.
  - vm_compute. reflexivity.
  - vm_compute. reflexivity.
  - discriminate.
  - discriminate.
  - vm_compute. reflexivity.
  - vm_compute. reflexivity.
  - apply (bool_decide_unpack _). vm_compute. reflexivity.
  - repeat constructor.
  - intros key lkv rkv Hlk Hrk.
    assert (Hkey : key = Ex.int_blob 2).
    { apply lookup_entry_key_in in Hlk, Hrk; [|repeat constructor..].
      cbn [map fst] in Hlk, Hrk.
      apply elem_of_cons in Hlk as [->|Hlk]; [|apply elem_of_cons in Hlk as [->|Hlk]];
        [|reflexivity|inversion Hlk].
      apply elem_of_cons in Hrk as [Hrk|Hrk]; [discriminate Hrk|].
      apply elem_of_cons in Hrk as [Hrk|Hrk]; [discriminate Hrk|inversion Hrk]. }
    subst key. vm_compute in Hlk, Hrk. injection Hlk as <-. injection Hrk as <-.
    exists (CInt reflect.Int 5), (CInt reflect.Int 7), (repeat None 7), (repeat None 7).
    repeat split; reflexivity.
  - exists s', el'. split; [exact HG|]. split; [exact HE|]. split; [exact HM|].
    split; [|split].
    + rewrite (Hleft (Ex.int_blob 1)) by reflexivity. reflexivity.
    + destruct (Hboth (Ex.int_blob 2) (CInt reflect.Int 5) (CInt reflect.Int 7)
                  (repeat None 7) (repeat None 7) eq_refl eq_refl) as (c & Hc & Hv).
      vm_compute in Hc. injection Hc as <-. exact Hv.
    + exact (Hright (Ex.int_blob 3) (Ex.int_blob 9) eq_refl eq_refl).
Defined.

(** ** Maps of pointers *)

Section PointerValues.
Variable k : reflect.Kind.
Variables (n : nat) (slots : structFs).
Hypothesis k_additive : is_additive k = true.

(** The closure of a pointer to a number, called on the copies of two
    pointers as the closure of a map calls it. *)
Lemma ptr_value_call (s : heap) (pl pr : Z) :
  (pl <> 0 -> pr <> 0 ->
   pl < brk s /\ pr < brk s
   /\ exists a b, cells s !! pl = Some a /\ cells s !! pr = Some b
                  /\ cell_of_kind k a = true /\ cell_of_kind k b = true) ->
  let '(s2, tl, tr) := value_slots s 8 (Ex.ptr_blob pl) (Ex.ptr_blob pr) in
  exists s3,
    exec (S (S n)) slots (MergePtr (MergePrim k)) s2 tl tr = Done s3
    /\ maps s3 = maps s /\ brk s <= brk s3
    /\ read_blob s3 tl 8 = Ex.ptr_blob (if pl =? 0 then pr else pl)
    /\ (pl = 0 \/ pr = 0 -> forall x, x < brk s -> cells s3 !! x = cells s !! x)
    /\ (pl <> 0 -> pr <> 0 ->
        forall a b, cells s !! pl = Some a -> cells s !! pr = Some b ->
        exists c, sum_cell k a b = Some c /\ cells s3 !! pl = Some c
                  /\ forall x, x < brk s -> x <> pl -> cells s3 !! x = cells s !! x).
Proof.
  intros Hp.
  pose proof (value_slots_heads s 8 (Some (CPtr pl)) (Some (CPtr pr))
                (repeat None 7) (repeat None 7) ltac:(lia)) as H.
  change (Some (CPtr pl) :: repeat None 7) with (Ex.ptr_blob pl) in H.
  change (Some (CPtr pr) :: repeat None 7) with (Ex.ptr_blob pr) in H.
  unfold value_slots, alloc_value in *. cbn [cells maps brk] in *.
  destruct H as (H1 & H2 & _).
  set (m2 := write_cells (write_cells (cells s) (brk s) (Ex.ptr_blob pl)) (brk s + 8)
               (Ex.ptr_blob pr)) in *.
  set (s2 := {| cells := m2; maps := maps s; brk := brk s + 8 + 8 |}).
  assert (Hlow : forall x, x < brk s -> m2 !! x = cells s !! x).
  { intros x Hx. unfold m2. rewrite !write_cells_below by lia. reflexivity. }
  assert (Hpad : forall v i x, Ex.ptr_blob v !! S i = Some x ->
                               m2 !! (brk s + Z.of_nat (S i)) = x).
  { intros v i x Hi. unfold m2.
    assert (S i < 8)%nat by (apply lookup_lt_Some in Hi; exact Hi).
    rewrite write_cells_below by lia.
    apply (write_cells_lookup (Ex.ptr_blob pl)). exact Hi. }
  cbn [exec]. change (cells s2) with m2. rewrite H1, H2.
  destruct (pl =? 0) eqn:Epl.
  - (* the left pointer is nil: the left copy takes the right pointer *)
    apply Z.eqb_eq in Epl.
    rewrite (store_present s2 (brk s) (CPtr pr) (CPtr pl) H1).
    unfold store. subst s2. cbn [cells with_cells]. rewrite lookup_insert_ne by lia. rewrite H2.
    eexists. split; [reflexivity|]. cbn [maps brk cells with_cells].
    split; [reflexivity|]. split; [lia|]. split; [|split].
    + unfold read_blob. cbn [cells]. apply read_cells; [reflexivity|].
      intros [|i] x Hi; cbn [cells with_cells]; change (Z.of_nat 0) with 0; rewrite ?Z.add_0_r.
      * injection Hi as <-. rewrite lookup_insert_ne by lia.
        apply lookup_insert_eq.
      * assert (S i < 8)%nat by (apply lookup_lt_Some in Hi; exact Hi).
        rewrite !lookup_insert_ne by lia. exact (Hpad pr i x Hi).
    + intros _ x Hx. rewrite !lookup_insert_ne by lia. apply Hlow. exact Hx.
    + intros Hpl. contradiction.
  - apply Z.eqb_neq in Epl.
    destruct (pr =? 0) eqn:Epr.
    + (* the right pointer is nil: nothing to do *)
      apply Z.eqb_eq in Epr.
      exists s2. split; [reflexivity|]. subst s2. cbn [maps brk cells].
      split; [reflexivity|]. split; [lia|]. split; [|split].
      * unfold read_blob. cbn [cells]. apply read_cells; [reflexivity|].
        intros [|i] x Hi; cbn [cells with_cells]; change (Z.of_nat 0) with 0; rewrite ?Z.add_0_r.
        -- injection Hi as <-. exact H1.
        -- exact (Hpad pl i x Hi).
      * intros _ x Hx. apply Hlow. exact Hx.
      * intros _ Hpr. contradiction.
    + (* both point to a number: the left one gets the sum *)
      apply Z.eqb_neq in Epr.
      destruct (Hp Epl Epr) as (Bl & Br & a & b & Ha & Hb & Ka & Kb).
      destruct (sum_cell_defined k a b k_additive Ka Kb) as (c & Hc & _).
      assert (Hrun : merge_prim k s2 pl pr
                     = Done (with_cells s2 (<[ pl := c ]> (cells s2)))).
      { apply (merge_prim_sum k s2 pl pr a b c); [| |exact Hc].
        - cbn [cells]. rewrite Hlow by exact Bl. exact Ha.
        - cbn [cells]. rewrite Hlow by exact Br. exact Hb. }
      rewrite Hrun. eexists. split; [reflexivity|]. subst s2. cbn [maps brk cells with_cells].
      split; [reflexivity|]. split; [lia|]. split; [|split].
      * unfold read_blob. cbn [cells]. apply read_cells; [reflexivity|].
        intros [|i] x Hi; cbn [cells with_cells]; change (Z.of_nat 0) with 0; rewrite ?Z.add_0_r.
        -- injection Hi as <-. rewrite lookup_insert_ne by lia. exact H1.
        -- assert (S i < 8)%nat by (apply lookup_lt_Some in Hi; exact Hi).
           rewrite lookup_insert_ne by lia. exact (Hpad pl i x Hi).
      * intros [E|E]; contradiction.
      * intros _ _ a' b' Ha' Hb'.
        assert (a' = a) by congruence. assert (b' = b) by congruence. subst a' b'.
        exists c. split; [exact Hc|]. split; [apply lookup_insert_eq|].
        intros x Hx Hne. rewrite lookup_insert_ne by congruence. apply Hlow. exact Hx.
Qed.
End PointerValues.

Lemma ptr_blob_inj (x y : Z) : Ex.ptr_blob x = Ex.ptr_blob y -> x = y.
Proof. intros [= H]. exact H. Qed.

Section PointerMaps.
Variable k : reflect.Kind.
Variables (n : nat) (slots : structFs).
Variables (vsize lh rh : Z) (el er : list (blob * blob)).
Hypothesis k_additive : is_additive k = true.
Hypothesis lh_not_nil : lh <> 0.
Hypothesis lh_rh : lh <> rh.
Hypothesis apart :
  forall key1 key2 pl1 pr1 pl2 pr2,
    key1 <> key2 ->
    shared_pointers el er key1 pl1 pr1 -> shared_pointers el er key2 pl2 pr2 ->
    pl1 <> pl2 /\ pl1 <> pr2.

(** One turn of the loop of the map closure. *)
Lemma ptr_step (s : heap) (cur : list (blob * blob)) (rk rkv : blob) :
  map_entries s rh = Some er -> maps s !! lh = Some cur ->
  lookup_entry rk cur = lookup_entry rk el ->
  lookup_entry rk er = Some rkv ->
  number_pointers k s el er rk ->
  exists s1 v,
    map_step (Some (exec (S (S n)) slots (MergePtr (MergePrim k)))) true false vsize lh rh s rk
    = Done s1
    /\ maps s1 !! lh = Some (assign_entry rk v cur)
    /\ map_entries s1 rh = Some er
    /\ brk s <= brk s1
    /\ (lookup_entry rk el = None -> v = rkv)
    /\ (forall pl pr, lookup_entry rk el = Some (Ex.ptr_blob pl) -> rkv = Ex.ptr_blob pr ->
                      v = Ex.ptr_blob (if pl =? 0 then pr else pl))
    /\ (forall pl pr a b,
          shared_pointers el er rk pl pr ->
          cells s !! pl = Some a -> cells s !! pr = Some b ->
          exists c, sum_cell k a b = Some c /\ cells s1 !! pl = Some c)
    /\ (forall x, x < brk s -> (forall pl pr, shared_pointers el er rk pl pr -> x <> pl) ->
                  cells s1 !! x = cells s !! x).
Proof.
  intros Hr Hl Hcur Hrk Hptr.
  unfold map_step.
  rewrite (MapIndex_entries s lh cur rk (map_entries_present s lh cur lh_not_nil Hl)).
  rewrite (MapIndex_entries s rh er rk Hr). rewrite Hcur, Hrk.
  destruct (lookup_entry rk el) as [lkv|] eqn:Hlk.
  - destruct (Hptr lkv rkv Hlk Hrk) as (pl & pr & -> & -> & Hp).
    pose proof (ptr_value_call k n slots k_additive s pl pr Hp) as Hcall.
    unfold value_slots, alloc_value in Hcall. unfold alloc_value.
    cbn [cells maps brk] in Hcall |- *.
    destruct Hcall as (s3 & Hcall & Hm & Hb & Hread & Hnil & Hsum).
    rewrite Hcall.
    destruct (set_entry lh rh er lh_not_nil lh_rh s3 cur rk (read_blob s3 (brk s) 8))
      as (s4 & Hset & Hl4 & Hr4).
    { rewrite Hm. exact Hl. }
    { rewrite <- Hr. apply map_entries_agree. rewrite Hm. reflexivity. }
    rewrite Hset. destruct (SetMapIndex_cells _ _ _ _ _ Hset) as [Ec Eb].
    exists s4, (read_blob s3 (brk s) 8).
    split; [reflexivity|]. split; [exact Hl4|]. split; [exact Hr4|].
    split; [lia|]. split; [discriminate|]. split; [|split].
    + intros pl' pr' [= E1] [= E2]. subst pl' pr'. exact Hread.
    + intros pl' pr' a b (E1 & E2 & N1 & N2) Ha Hb'.
      rewrite Hlk in E1. rewrite Hrk in E2.
      apply (inj Some), ptr_blob_inj in E1. apply (inj Some), ptr_blob_inj in E2.
      subst pl' pr'. destruct (Hsum N1 N2 a b Ha Hb') as (c & Hc & Hv & _).
      exists c. rewrite Ec. auto.
    + intros x Hx Hne. rewrite Ec.
      destruct (decide (pl = 0 \/ pr = 0)) as [E|E]; [exact (Hnil E x Hx)|].
      assert (N1 : pl <> 0) by tauto. assert (N2 : pr <> 0) by tauto.
      destruct (Hp N1 N2) as (_ & _ & a & b & Ha & Hb' & _).
      destruct (Hsum N1 N2 a b Ha Hb') as (c & _ & _ & Hframe).
      apply Hframe; [exact Hx|]. apply (Hne pl pr). unfold shared_pointers. auto.
  - destruct (set_entry lh rh er lh_not_nil lh_rh s cur rk rkv Hl Hr) as (s4 & Hset & Hl4 & Hr4).
    rewrite Hset. destruct (SetMapIndex_cells _ _ _ _ _ Hset) as [Ec Eb].
    exists s4, rkv.
    split; [reflexivity|]. split; [exact Hl4|]. split; [exact Hr4|].
    split; [lia|]. split; [reflexivity|]. split; [discriminate|]. split.
    + intros pl pr a b (E1 & _). congruence.
    + intros x _ _. rewrite Ec. reflexivity.
Qed.

(** The whole loop, on keys without repetition. *)
Lemma ptr_loop (rks : list blob) :
  forall (s : heap) (cur : list (blob * blob)),
    NoDup rks ->
    Forall (fun key => plain_key key = true) rks ->
    (forall rk, rk ∈ rks -> is_Some (lookup_entry rk er)) ->
    map_entries s rh = Some er ->
    maps s !! lh = Some cur ->
    (forall rk, rk ∈ rks -> lookup_entry rk cur = lookup_entry rk el) ->
    (forall key, key ∈ rks -> number_pointers k s el er key) ->
    exists s' cur',
      for_each (map_step (Some (exec (S (S n)) slots (MergePtr (MergePrim k))))
                  true false vsize lh rh) rks s = Done s'
      /\ map_entries s' rh = Some er
      /\ maps s' !! lh = Some cur'
      /\ brk s <= brk s'
      /\ (forall key, key ∉ rks -> lookup_entry key cur' = lookup_entry key cur)
      /\ (forall key rkv, key ∈ rks -> lookup_entry key er = Some rkv ->
                          lookup_entry key el = None -> lookup_entry key cur' = Some rkv)
      /\ (forall key pl pr, key ∈ rks ->
            lookup_entry key el = Some (Ex.ptr_blob pl) ->
            lookup_entry key er = Some (Ex.ptr_blob pr) ->
            lookup_entry key cur' = Some (Ex.ptr_blob (if pl =? 0 then pr else pl)))
      /\ (forall key pl pr a b, key ∈ rks ->
            shared_pointers el er key pl pr ->
            cells s !! pl = Some a -> cells s !! pr = Some b ->
            exists c, sum_cell k a b = Some c /\ cells s' !! pl = Some c)
      /\ (forall x, x < brk s ->
            (forall key pl pr, key ∈ rks -> shared_pointers el er key pl pr -> x <> pl) ->
            cells s' !! x = cells s !! x).
Proof.
  induction rks as [|rk rks IH]; intros s cur Hnd Hplain Hsome Hr Hl Hcur Hptr.
  - exists s, cur. split; [reflexivity|]. split; [exact Hr|]. split; [exact Hl|].
    split; [lia|]. split; [reflexivity|].
    repeat split; try (intros; match goal with H : _ ∈ [] |- _ => inversion H end).
  - apply NoDup_cons in Hnd as [Hrk Hnd].
    apply Forall_cons in Hplain as [Hp Hplain].
    destruct (Hsome rk) as [rkv Hrkv]; [left|].
    destruct (ptr_step s cur rk rkv Hr Hl (Hcur rk ltac:(left)) Hrkv (Hptr rk ltac:(left)))
      as (s1 & v & Hstep & Hl1 & Hr1 & Hb1 & Hright & Hboth & Hsum & Hframe).
    (* the pointees of the keys still to come are as they were *)
    assert (Hkeep : forall key pl pr, key ∈ rks -> shared_pointers el er key pl pr ->
                                      pl < brk s /\ pr < brk s
                                      /\ cells s1 !! pl = cells s !! pl
                                      /\ cells s1 !! pr = cells s !! pr).
    { intros key pl pr Hkey Hsh.
      assert (Hne : rk <> key) by (intros ->; contradiction).
      destruct Hsh as (E1 & E2 & N1 & N2).
      destruct (Hptr key ltac:(right; exact Hkey) _ _ E1 E2) as (pl' & pr' & F1 & F2 & Hc).
      apply ptr_blob_inj in F1, F2. subst pl' pr'.
      destruct (Hc N1 N2) as (Bl & Br & _).
      split; [exact Bl|]. split; [exact Br|].
      split; apply Hframe; try assumption; intros pl0 pr0 Hsh0;
        destruct (apart rk key pl0 pr0 pl pr Hne Hsh0 ltac:(repeat split; assumption));
        congruence. }
    destruct (IH s1 (assign_entry rk v cur) Hnd Hplain)
      as (s' & cur' & Hrun & Hr' & Hl' & Hb' & Hout & Hri & Hbo & Hsu & Hfr).
    + intros key Hkey. apply Hsome. right. exact Hkey.
    + exact Hr1.
    + exact Hl1.
    + intros key Hkey. rewrite lookup_assign_other; [|exact Hp|intros ->; contradiction].
      apply Hcur. right. exact Hkey.
    + intros key Hkey lkv rkv' E1 E2.
      destruct (Hptr key ltac:(right; exact Hkey) _ _ E1 E2) as (pl & pr & -> & -> & Hc).
      exists pl, pr. split; [reflexivity|]. split; [reflexivity|].
      intros N1 N2. destruct (Hc N1 N2) as (Bl & Br & a & b & Ha & Hb & Ka & Kb).
      destruct (Hkeep key pl pr Hkey ltac:(repeat split; assumption)) as (_ & _ & K1 & K2).
      split; [lia|]. split; [lia|]. exists a, b. rewrite K1, K2. auto.
    + exists s', cur'. cbn [for_each]. rewrite Hstep.
      split; [exact Hrun|]. split; [exact Hr'|]. split; [exact Hl'|]. split; [lia|].
      split; [|split; [|split; [|split]]].
      * intros key Hkey. apply not_elem_of_cons in Hkey as [Hne Hkey].
        rewrite (Hout key Hkey). apply lookup_assign_other; assumption.
      * intros key rkv' Hkey E1 E2. apply elem_of_cons in Hkey as [->|Hkey].
        -- rewrite (Hout rk Hrk), (Hright E2). rewrite <- E1, Hrkv.
           apply lookup_assign_same. exact Hp.
        -- exact (Hri key rkv' Hkey E1 E2).
      * intros key pl pr Hkey E1 E2. apply elem_of_cons in Hkey as [->|Hkey].
        -- rewrite (Hout rk Hrk), lookup_assign_same by exact Hp.
           rewrite (Hboth pl pr E1 ltac:(congruence)). reflexivity.
        -- exact (Hbo key pl pr Hkey E1 E2).
      * intros key pl pr a b Hkey Hsh Ha Hb. apply elem_of_cons in Hkey as [->|Hkey].
        -- destruct (Hsum pl pr a b Hsh Ha Hb) as (c & Hc & Hv).
           exists c. split; [exact Hc|]. rewrite Hfr; [exact Hv| |].
           ++ destruct Hsh as (E1 & E2 & N1 & N2).
              destruct (Hptr rk ltac:(left) _ _ E1 E2) as (pl' & pr' & F1 & F2 & Hq).
              apply ptr_blob_inj in F1, F2. subst pl' pr'.
              destruct (Hq N1 N2) as (Bl & _). lia.
           ++ intros key2 pl2 pr2 Hkey2 Hsh2.
              assert (Hne : rk <> key2) by (intros ->; contradiction).
              exact (proj1 (apart rk key2 pl pr pl2 pr2 Hne Hsh Hsh2)).
        -- destruct (Hkeep key pl pr Hkey Hsh) as (_ & _ & K1 & K2).
           apply (Hsu key pl pr a b Hkey Hsh); congruence.
      * intros x Hx Hne. rewrite Hfr.
        -- apply Hframe; [exact Hx|]. intros pl pr Hsh. apply (Hne rk pl pr); [left|exact Hsh].
        -- lia.
        -- intros key pl pr Hkey Hsh. apply (Hne key pl pr); [right; exact Hkey|exact Hsh].
Qed.
End PointerMaps.

(** A map whose values are pointers to numbers, merged by the closure
    [gen] builds for its type.  The left map is not nil and is another
    object than the right map; where both maps hold a pointer that is not
    nil under a key, the two point to numbers in the store, and the left
    pointer is no pointer held under another such key.  Then the call
    returns, and in the left map: a key of the right map only holds the
    right pointer; a shared key holds the left pointer when that is not
    nil, else the right pointer; any other key holds what it held.  The
    number the left pointer of a shared key points to is the sum of the two
    numbers, and no other cell of the store is written.  The right map is
    as before: every pointer the left map took from it is now held by both
    maps. *)
Theorem map_of_pointers_is_merged (fuel n : nat) (types : list reflect.decl)
    (t kt et vt : reflect.rtype) (k : reflect.Kind) (fs slots : structFs)
    (s : heap) (l r lh rh : Z) (el er : list (blob * blob)) :
  let p := MergeMap true false (reflect.SizeOf types et) (Some (MergePtr (MergePrim k))) in
  reflect.resolve types t = reflect.SMap kt et ->
  reflect.resolve types et = reflect.SPtr vt ->
  reflect.resolve types vt = reflect.SBasic k ->
  is_additive k = true ->
  cells s !! l = Some (CPtr lh) -> cells s !! r = Some (CPtr rh) ->
  lh <> 0 -> lh <> rh ->
  maps s !! lh = Some el -> map_entries s rh = Some er ->
  NoDup (map fst er) ->
  Forall (fun e => plain_key (fst e) = true) er ->
  (forall key, number_pointers k s el er key) ->
  (forall key1 key2 pl1 pr1 pl2 pr2,
     key1 <> key2 ->
     shared_pointers el er key1 pl1 pr1 -> shared_pointers el er key2 pl2 pr2 ->
     pl1 <> pl2 /\ pl1 <> pr2) ->
  exists s' el',
    gen (S (S (S fuel))) types true [] t fs = Some (Built (Some p), fs)
    /\ exec (S (S (S n))) slots p s l r = Done s'
    /\ maps s' !! lh = Some el'
    /\ map_entries s' rh = Some er
    /\ (forall key rkv, lookup_entry key er = Some rkv -> lookup_entry key el = None ->
                        lookup_entry key el' = Some rkv)
    /\ (forall key pl pr,
          lookup_entry key el = Some (Ex.ptr_blob pl) ->
          lookup_entry key er = Some (Ex.ptr_blob pr) ->
          lookup_entry key el' = Some (Ex.ptr_blob (if pl =? 0 then pr else pl)))
    /\ (forall key, lookup_entry key er = None -> lookup_entry key el' = lookup_entry key el)
    /\ (forall key pl pr a b,
          shared_pointers el er key pl pr ->
          cells s !! pl = Some a -> cells s !! pr = Some b ->
          exists c, sum_cell k a b = Some c /\ cells s' !! pl = Some c)
    /\ (forall x, x < brk s ->
          (forall key pl pr, shared_pointers el er key pl pr -> x <> pl) ->
          cells s' !! x = cells s !! x).
Proof.
  intros p Hres Het Hvt Hk Hl Hr Hnil Hne Hel Her Hnd Hplain Hptr Hapart.
  assert (Hkind : reflect.KindOf types et = reflect.Ptr)
    by (unfold reflect.KindOf; rewrite Het; reflexivity).
  assert (Hgen : gen (S (S (S fuel))) types true [] t fs = Some (Built (Some p), fs)).
  { change (gen (S (S (S fuel))) types true [] t fs)
      with (gen_body types true (gen (S (S fuel)) types true) [] t fs).
    unfold gen_body. rewrite Hres. cbn [length Z.of_nat Z.ltb Z.compare andb negb].
    unfold genMap.
    change (gen (S (S fuel)) types true [] et fs)
      with (gen_body types true (gen (S fuel) types true) [] et fs).
    unfold gen_body at 1. rewrite Het. cbn [length Z.of_nat Z.ltb Z.compare andb].
    change (gen (S fuel) types true [] vt fs)
      with (gen_body types true (gen fuel types true) [] vt fs).
    unfold gen_body. rewrite Hvt. cbn [length Z.of_nat Z.ltb Z.compare andb].
    rewrite Hkind, (IfaceIndir_pointer types et vt Het). unfold p.
    destruct k; try discriminate Hk; reflexivity. }
  assert (Hkeys : Forall (fun key => plain_key key = true) (map fst er)).
  { apply Forall_fmap. exact Hplain. }
  assert (Hin : forall key, key ∈ map fst er -> is_Some (lookup_entry key er)).
  { intros key Hkey.
    assert (Hpk : plain_key key = true) by (exact (proj1 (Forall_forall _ _) Hkeys key Hkey)).
    destruct (lookup_entry key er) eqn:E; [eauto|].
    apply (lookup_entry_keys key er Hpk) in E. contradiction. }
  assert (Hexec : exec (S (S (S n))) slots p s l r
                  = for_each (map_step (Some (exec (S (S n)) slots (MergePtr (MergePrim k))))
                                true false (reflect.SizeOf types et) lh rh)
                      (map fst er) s).
  { unfold p. cbn [exec]. rewrite Hl, Hr. unfold MapKeys. rewrite Her. reflexivity. }
  destruct (ptr_loop k n slots (reflect.SizeOf types et) lh rh el er Hk Hnil Hne Hapart
              (map fst er) s el Hnd Hkeys Hin Her Hel (fun _ _ => eq_refl)
              (fun key _ => Hptr key))
    as (s' & el' & Hrun & Hr' & Hl' & _ & Hout & Hri & Hbo & Hsu & Hfr).
  exists s', el'. rewrite Hexec.
  split; [exact Hgen|]. split; [exact Hrun|]. split; [exact Hl'|]. split; [exact Hr'|].
  split; [|split; [|split; [|split]]].
  - intros key rkv E1 E2.
    exact (Hri key rkv (lookup_entry_key_in _ _ _ Hplain E1) E1 E2).
  - intros key pl pr E1 E2.
    exact (Hbo key pl pr (lookup_entry_key_in _ _ _ Hplain E2) E1 E2).
  - intros key Hkey. apply Hout. intros Hin'.
    destruct (Hin key Hin') as [v Hv]. congruence.
  - intros key pl pr a b Hsh.
    exact (Hsu key pl pr a b (lookup_entry_key_in _ _ _ Hplain (proj1 (proj2 Hsh))) Hsh).
  - intros x Hx Hne'. apply Hfr; [exact Hx|].
    intros key pl pr _ Hsh. exact (Hne' key pl pr Hsh).
Qed.

(** [map[int]*int]: merging [{5: &6, 7: &7, 9: &6}] into [{5: &5, 9: nil}].
    The left map keeps its pointer under 5, whose number becomes 11, and
    takes the right pointers under 7 and 9; the right map still holds
    them. *)
Lemma map_of_pointers_example :
  exists s' el',
    gen 3 [] true []
      (reflect.MapOf (reflect.Basic reflect.Int) (reflect.PtrTo (reflect.Basic reflect.Int))) ∅
    = Some (Built (Some (MergeMap true false 8 (Some (MergePtr (MergePrim reflect.Int))))), ∅)
    /\ exec 3 ∅ (MergeMap true false 8 (Some (MergePtr (MergePrim reflect.Int))))
         int_pointer_maps 4096 8192 = Done s'
    /\ maps s' !! 20480 = Some el'
    /\ lookup_entry (Ex.int_blob 5) el' = Some (Ex.ptr_blob 4000)
    /\ lookup_entry (Ex.int_blob 7) el' = Some (Ex.ptr_blob 4016)
    /\ lookup_entry (Ex.int_blob 9) el' = Some (Ex.ptr_blob 4008)
    /\ MapIndex s' 24576 (Ex.int_blob 9) = Some (Ex.ptr_blob 4008)
    /\ cells s' !! 4000 = Some (CInt reflect.Int 11)
    /\ cells s' !! 4008 = Some (CInt reflect.Int 6).
Proof.
  set (el := [ (Ex.int_blob 5, Ex.ptr_blob 4000); (Ex.int_blob 9, Ex.ptr_blob 0) ]).
  set (er := [ (Ex.int_blob 5, Ex.ptr_blob 4008); (Ex.int_blob 7, Ex.ptr_blob 4016);
               (Ex.int_blob 9, Ex.ptr_blob 4008) ]).
  assert (Hkeys : forall key v, lookup_entry key el = Some v ->
                                key = Ex.int_blob 5 \/ key = Ex.int_blob 9).
  { intros key v Hv. apply lookup_entry_key_in in Hv; [|repeat constructor].
    cbn [map fst el] in Hv. apply elem_of_cons in Hv as [->|Hv]; [left; reflexivity|].
    apply elem_of_cons in Hv as [->|Hv]; [right; reflexivity|inversion Hv]. }
  assert (Hshared : forall key pl pr, shared_pointers el er key pl pr ->
                                      key = Ex.int_blob 5 /\ pl = 4000 /\ pr = 4008).
  { intros key pl pr (E1 & E2 & N1 & N2).
    destruct (Hkeys key _ E1) as [->| ->]; vm_compute in E1, E2.
    - injection E1 as <-. injection E2 as <-. auto.
    - injection E1 as <-. contradiction. }
  destruct (map_of_pointers_is_merged 0 0 []
              (reflect.MapOf (reflect.Basic reflect.Int) (reflect.PtrTo (reflect.Basic reflect.Int)))
              (reflect.Basic reflect.Int) (reflect.PtrTo (reflect.Basic reflect.Int))
              (reflect.Basic reflect.Int) reflect.Int ∅ ∅
              int_pointer_maps 4096 8192 20480 24576 el er)
    as (s' & el' & HG & HE & HM & HR & Hright & Hboth & _ & Hsum & Hframe).
  - reflexivity.
  - reflexivity.
  - reflexivity.
  - reflexivity.
  - vm_compute. reflexivity.
  - vm_compute. reflexivity.
  - discriminate.
  - discriminate.
  - vm_compute. reflexivity.
  - vm_compute. reflexivity.
  - apply (bool_decide_unpack _). vm_compute. reflexivity.
  - repeat constructor.
  - intros key lkv rkv Hlk Hrk.
    destruct (Hkeys key _ Hlk) as [->| ->]; vm_compute in Hlk, Hrk;
      injection Hlk as <-; injection Hrk as <-.
    + exists 4000, 4008. split; [reflexivity|]. split; [reflexivity|]. intros _ _.
      split; [reflexivity|]. split; [reflexivity|].
      exists (CInt reflect.Int 5), (CInt reflect.Int 6). repeat split; reflexivity.
    + exists 0, 4008. split; [reflexivity|]. split; [reflexivity|]. intros N. contradiction.
  - intros key1 key2 pl1 pr1 pl2 pr2 Hne H1 H2.
    destruct (Hshared _ _ _ H1) as (-> & _). destruct (Hshared _ _ _ H2) as (-> & _).
    contradiction.
  - exists s', el'. split; [exact HG|]. split; [exact HE|]. split; [exact HM|].
    split; [|split; [|split; [|split; [|split]]]].
    + exact (Hboth (Ex.int_blob 5) 4000 4008 eq_refl eq_refl).
    + exact (Hright (Ex.int_blob 7) (Ex.ptr_blob 4016) eq_refl eq_refl).
    + exact (Hboth (Ex.int_blob 9) 0 4008 eq_refl eq_refl).
    + rewrite (MapIndex_entries s' 24576 er _ HR). reflexivity.
    + destruct (Hsum (Ex.int_blob 5) 4000 4008 (CInt reflect.Int 5) (CInt reflect.Int 6))
        as (c & Hc & Hv); [repeat split; discriminate|reflexivity|reflexivity|].
      vm_compute in Hc. injection Hc as <-. exact Hv.
    + rewrite Hframe; [reflexivity|reflexivity|].
      intros key pl pr Hsh. destruct (Hshared _ _ _ Hsh) as (_ & -> & _). discriminate.
Defined.

(** ** Map values made of one pointer *)

(** A map value of a struct type made of one pointer is not copied for the
    value closure: with [type S struct { m map[int]struct{ p *int } }],
    left [m = {1: {p: &6}}] and right [m = {1: {p: &5}}], the closure of
    [genMap] hands the closure of the struct the two pointers [p]
    themselves, and that closure reads the numbers 6 and 5 where it expects
    the field [p]: the call does not return, and the numbers are not added.
    With a second field in the value, [struct{ p *int; n int }], the two
    values are copied, the closure of the struct runs on the copies, the
    number behind the left [p] becomes 11 and the left [n] becomes 3. *)
Lemma one_pointer_struct_value_is_not_copied :
  (exists e,
     Gen 5 Ex.map_of_boxes (Ex.ptr_to 1 4096) [WithSlowerMapsUnsafely] = Some (inr e)
     /\ merge e
        = Some (MergeStruct empty_vectors
                  [(0, MergeMap false false 8
                         (Some (MergeStruct empty_vectors
                                  [(0, MergePtr (MergePrim reflect.Int))])))])
     /\ call 6 e Ex.boxes_store (Ex.ptr_to 1 4096) (Ex.ptr_to 1 8192) = Fault)
  /\ (exists e s',
        Gen 5 Ex.map_of_pairs (Ex.ptr_to 1 4096) [WithSlowerMapsUnsafely] = Some (inr e)
        /\ merge e
           = Some (MergeStruct empty_vectors
                     [(0, MergeMap false true 16
                            (Some (MergeStruct
                                     (append_offset reflect.Int 8 empty_vectors)
                                     [(0, MergePtr (MergePrim reflect.Int))])))])
        /\ call 6 e Ex.pairs_store (Ex.ptr_to 1 4096) (Ex.ptr_to 1 8192) = Done s'
        /\ cells s' !! 12288 = Some (CInt reflect.Int 11)
        /\ cells s' !! 12296 = Some (CInt reflect.Int 5)
        /\ MapIndex s' 20480 (Ex.int_blob 1) = Some (Ex.ptr_blob 12288 ++ Ex.int_blob 3)
        /\ MapIndex s' 24576 (Ex.int_blob 1) = Some (Ex.ptr_blob 12296 ++ Ex.int_blob 2)).
Proof.
  split.
  - eexists. split; [vm_compute; reflexivity|]. split; vm_compute; reflexivity.
  - eexists. eexists. split; [vm_compute; reflexivity|].
    split; [vm_compute; reflexivity|].
    split; [vm_compute; reflexivity|].
    repeat split; vm_compute; reflexivity.
Qed.

(** ** Fields that share a name *)

(** Past a field, its name is no longer among the names to skip. *)
Lemma fields_loop_uses_skip_once (types : list reflect.decl)
    (g : list string -> reflect.rtype -> structFs -> option (generated * structFs))
    (pre : list reflect.StructField) (f1 : reflect.StructField)
    (rest : list reflect.StructField) :
  forall (st : fields_state) (fs : structFs) (res : error + fields_state) (fs' : structFs),
    genStruct_fields types g (pre ++ f1 :: rest) st fs = Some (res, fs') ->
    (exists err, res = inl err)
    \/ (exists st1 fs1,
          (reflect.Name f1 ∉ skipMyLevel st1)
          /\ genStruct_fields types g rest st1 fs1 = Some (res, fs')).
Proof.
  induction pre as [|x pre IH]; intros st fs res fs'; cbn [app genStruct_fields].
  - destruct (decide _) as [Hin|Hin].
    + intros H. right. eexists _, _. split; [|exact H]. cbn [skipMyLevel]. set_solver.
    + destruct (is_grouped _).
      * intros H. right. eexists _, _. split; [|exact H]. exact Hin.
      * destruct (g _ _ fs) as [[[err|[f|]] fs1]|]; [| | |discriminate].
        -- intros [= <- _]. left. eauto.
        -- intros H. right. eexists _, _. split; [|exact H]. exact Hin.
        -- intros H. right. eexists _, _. split; [|exact H]. exact Hin.
  - destruct (decide _); [apply IH|].
    destruct (is_grouped _); [apply IH|].
    destruct (g _ _ fs) as [[[err|[f|]] fs1]|]; [| | |discriminate]; [|apply IH..].
    intros [= <- _]. left. eauto.
Qed.

(** A skip names one field only.  [genStruct] drops a name from the names
    to skip at the first field that bears it, so a later field of the same
    name (in Go, a second blank field [_]) is treated as if no skip named
    it: when it cannot be merged the struct is refused, whatever the skips
    are. *)
Theorem skip_covers_first_field_only (fuel : nat) (types : list reflect.decl)
    (useMap : bool) (skips : list string) (pre : list reflect.StructField)
    (f1 : reflect.StructField) (rest : list reflect.StructField)
    (sf : reflect.StructField) (fs : structFs) (r : generated) (fs' : structFs) :
  sf ∈ rest -> reflect.Name sf = reflect.Name f1 ->
  unmergeable types useMap (reflect.Type_ sf) ->
  genStruct types (gen fuel types useMap) skips (pre ++ f1 :: rest) fs = Some (r, fs') ->
  exists err, r = Failed err.
Proof.
  intros Hin Hname Hu. unfold genStruct.
  destruct (parse_skips skips ∅ ∅) as [err|[my next]]; [intros [= <- _]; eauto|].
  destruct (genStruct_fields _ _ (pre ++ f1 :: rest) _ fs) as [[res fs1]|] eqn:E; [|discriminate].
  apply fields_loop_uses_skip_once in E as [[err ->]|(st1 & fs2 & Hmy & E)].
  - intros [= <- _]. eauto.
  - apply fields_loop_reaches_unmergeable with (sf := sf) in E;
      [|exact Hin|exact Hu|rewrite Hname; exact Hmy].
    destruct E as [err ->]. intros [= <- _]. eauto.
Qed.

(** [type S struct { _ int; _ string }] with the skip of [_]: the first
    blank field is skipped, the second is refused as a string. *)
Lemma skip_covers_first_field_only_example :
  exists err,
    genStruct [] (gen 1 [] false) ["_"%string]
      [ Ex.field "_" 0 (reflect.Basic reflect.Int);
        Ex.field "_" 8 (reflect.Basic reflect.String) ] ∅
    = Some (Failed err, ∅).
Proof.
  destruct (skip_covers_first_field_only 1 [] false ["_"%string] []
              (Ex.field "_" 0 (reflect.Basic reflect.Int))
              [ Ex.field "_" 8 (reflect.Basic reflect.String) ]
              (Ex.field "_" 8 (reflect.Basic reflect.String)) ∅
              (Failed ErrString) ∅) as [err Herr].
  - set_solver.
  - reflexivity.
  - eapply unmergeable_kind; [reflexivity|]. unfold refused_kinds. set_solver.
  - vm_compute. reflexivity.
  - exists ErrString. vm_compute. reflexivity.
Defined.

(** ** Skips of a nested struct *)

Lemma IndexByte_from_append (n x : string) (c : ascii) (i : Z) :
  0 <= i -> IndexByte_from n c i = -1 ->
  IndexByte_from (n ++ String c x) c i = i + len n.
Proof.
  revert i. induction n as [|a n IH]; intros i Hi; simpl.
  - intros _. rewrite Ascii.eqb_refl. unfold len. cbn [String.length]. lia.
  - destruct (Ascii.eqb a c); [lia|]. intros H. rewrite (IH (i + 1) ltac:(lia) H).
    unfold len. cbn [String.length]. lia.
Qed.

Lemma slice_to_append (n x : string) : slice_to (n ++ x) (String.length n) = n.
Proof.
  induction n as [|a n IH]; simpl.
  - destruct x; reflexivity.
  - rewrite IH. reflexivity.
Qed.

Lemma slice_from_append (n x : string) (c : ascii) :
  slice_from (n ++ String c x) (S (String.length n)) = x.
Proof.
  induction n as [|a n IH]; simpl.
  - destruct x; reflexivity.
  - exact IH.
Qed.

(** The skip [field>rest] is cut into [field] and [rest]. *)
Lemma nested_skip_parts (field rest : string) :
  has_separator field = false ->
  let skip := (field ++ ">" ++ rest)%string in
  IndexByte skip ">" = len field
  /\ has_separator skip = true
  /\ first_segment skip = field
  /\ residual skip = rest.
Proof.
  intros Hf. cbn zeta. change (">" ++ rest)%string with (String ">" rest).
  assert (Hn : IndexByte_from field ">" 0 = -1).
  { unfold has_separator, IndexByte in Hf. apply negb_false_iff, Z.eqb_eq in Hf. exact Hf. }
  assert (Hi : IndexByte (field ++ String ">" rest) ">" = len field).
  { unfold IndexByte. rewrite (IndexByte_from_append field rest ">" 0 ltac:(lia) Hn). lia. }
  assert (Hlen : 0 <= len field) by (unfold len; lia).
  split; [exact Hi|]. unfold has_separator, first_segment, residual. rewrite Hi.
  split; [|split].
  - apply negb_true_iff, Z.eqb_neq. lia.
  - unfold len. rewrite Nat2Z.id. apply slice_to_append.
  - replace (Z.to_nat (len field + 1)) with (S (String.length field)) by (unfold len; lia).
    apply slice_from_append.
Qed.

Lemma residuals_of_nested_skips (field name : string) (rests : list string) :
  has_separator field = false ->
  residuals name (map (fun x => (field ++ ">" ++ x)%string) rests)
  = if String.eqb field name then rests else [].
Proof.
  intros Hf. induction rests as [|x rests IH]; cbn [map].
  - unfold residuals. cbn. destruct (String.eqb field name); reflexivity.
  - rewrite residuals_cons, IH.
    destruct (nested_skip_parts field x Hf) as (_ & -> & -> & ->). cbn [andb].
    destruct (String.eqb field name); reflexivity.
Qed.

(** What the first loop of [genStruct] keeps for a field. *)
Lemma parse_skips_lookup (skips : list string) (my : gset string)
    (next : gmap string (list string)) (name : string) :
  parse_skips skips ∅ ∅ = inr (my, next) ->
  next !! name = if residuals name skips is [] then None else Some (residuals name skips).
Proof.
  intros E. pose proof (parse_skips_general skips ∅ ∅) as H. rewrite E in H.
  destruct H as (_ & _ & H3 & H4).
  specialize (H3 name). specialize (H4 name).
  rewrite lookup_empty in H3, H4. cbn [default app] in H3.
  destruct (next !! name) as [l|] eqn:El; cbn [default] in H3.
  - rewrite <- H3. destruct l; [|reflexivity].
    exfalso. destruct (proj1 H4 ltac:(eauto)) as [[x Hx]|Hx]; [discriminate|].
    apply Hx. symmetry. exact H3.
  - rewrite <- H3. reflexivity.
Qed.

(** The skips [field>x] for the [x] of [rests], none empty: nothing is
    skipped at this level and [field] is handed [rests]. *)
Lemma parse_nested_skips (field : string) (rests : list string) :
  has_separator field = false -> field <> EmptyString -> rests <> [] ->
  parse_skips (map (fun x => (field ++ ">" ++ x)%string) rests) ∅ ∅
  = inr (∅, {[ field := rests ]}).
Proof.
  intros Hf Hne Hr.
  set (skips := map (fun x => (field ++ ">" ++ x)%string) rests).
  pose proof (parse_skips_general skips ∅ ∅) as H.
  destruct (parse_skips skips ∅ ∅) as [err|[my next]] eqn:E.
  - exfalso. destruct H as [_ H]. apply Exists_exists in H as (skip & Hin & H0).
    unfold skips in Hin. apply list_elem_of_fmap in Hin as (x & -> & _).
    destruct (nested_skip_parts field x Hf) as (Hi & _). rewrite Hi in H0.
    destruct field; [congruence|]. unfold len in H0. cbn [String.length] in H0. lia.
  - f_equal. f_equal.
    + apply set_eq. intros x. destruct H as (_ & H2 & _). rewrite H2.
      split; [|set_solver]. intros [Hx|[Hx Hs]]; [set_solver|].
      unfold skips in Hx. apply list_elem_of_fmap in Hx as (y & -> & _).
      destruct (nested_skip_parts field y Hf) as (_ & Hs' & _). congruence.
    + apply map_eq. intros name. rewrite (parse_skips_lookup skips my next name E).
      unfold skips. rewrite (residuals_of_nested_skips field name rests Hf).
      destruct (String.eqb_spec field name) as [->|Hn].
      * rewrite lookup_singleton_eq. destruct rests; [congruence|reflexivity].
      * rewrite lookup_singleton_ne by exact Hn. reflexivity.
Qed.

(** The field loop of [genStruct] over fields of additive kinds that no
    skip names: what it adds to the state. *)
Lemma additive_fields_run (fuel : nat) (types : list reflect.decl) (useMap : bool)
    (fields : list reflect.StructField) :
  forall (st : fields_state) (fs : structFs),
    Forall (fun sf => is_additive (reflect.KindOf types (reflect.Type_ sf)) = true) fields ->
    skipMyLevel st = ∅ ->
    (forall sf, sf ∈ fields -> skipNextLevel st !! reflect.Name sf = None) ->
    map fst (grouped st) = grouped_kinds ->
    exists st' new,
      genStruct_fields types (gen (S fuel) types useMap) fields st fs = Some (inr st', fs)
      /\ skipMyLevel st' = ∅
      /\ skipNextLevel st' = skipNextLevel st
      /\ added st' = added st + Z.of_nat (length fields)
      /\ map fst (grouped st') = grouped_kinds
      /\ offsetFs st' = offsetFs st ++ new
      /\ Forall (fun e => snd e = MergePrim reflect.Uintptr) new
      /\ vector_ops (grouped st') ++ map (fun e => (reflect.Uintptr, fst e)) new
         ≡ₚ vector_ops (grouped st) ++ field_ops types fields.
Proof.
  induction fields as [|sf fields IH]; intros st fs Hadd Hmy Hnext Hkeys.
  - exists st, []. cbn [genStruct_fields length field_ops map].
    rewrite !app_nil_r, Z.add_0_r. repeat split; auto.
  - apply Forall_cons in Hadd as [Hsf Hadd].
    cbn [genStruct_fields].
    destruct (decide (reflect.Name sf ∈ skipMyLevel st)) as [Hin|_];
      [rewrite Hmy in Hin; set_solver|].
    destruct (is_grouped (reflect.KindOf types (reflect.Type_ sf))) eqn:Hg.
    + destruct (IH {| skipMyLevel := skipMyLevel st; skipNextLevel := skipNextLevel st;
                      grouped := append_offset (reflect.KindOf types (reflect.Type_ sf))
                                   (reflect.Offset sf) (grouped st);
                      offsetFs := offsetFs st; added := added st + 1 |} fs)
        as (st' & new & Hrun & H1 & H2 & H3 & H4 & H5 & H6 & H7);
        [exact Hadd|exact Hmy| | |].
      { intros x Hx. apply Hnext. right. exact Hx. }
      { cbn [grouped]. rewrite append_offset_keys. exact Hkeys. }
      exists st', new. split; [exact Hrun|].
      cbn [skipMyLevel skipNextLevel grouped offsetFs added] in *.
      repeat split; auto; [rewrite H3; cbn [length]; lia|].
      rewrite H7. unfold field_ops. cbn [map].
      rewrite vector_ops_append.
      * cbn [app]. apply Permutation_middle.
      * rewrite Hkeys. exact grouped_kinds_nodup.
      * rewrite Hkeys. unfold is_grouped in Hg. apply bool_decide_eq_true in Hg. exact Hg.
    + assert (Hk : reflect.KindOf types (reflect.Type_ sf) = reflect.Uintptr).
      { unfold is_additive in Hsf. rewrite Hg in Hsf. apply bool_decide_eq_true in Hsf.
        exact Hsf. }
      rewrite (Hnext sf ltac:(left)). cbn [default].
      rewrite (gen_uintptr fuel types useMap _ fs Hk).
      rewrite (delete_id (skipNextLevel st) (reflect.Name sf) (Hnext sf ltac:(left))).
      destruct (IH {| skipMyLevel := skipMyLevel st; skipNextLevel := skipNextLevel st;
                      grouped := grouped st;
                      offsetFs := offsetFs st
                                  ++ [(reflect.Offset sf, MergePrim reflect.Uintptr)];
                      added := added st + 1 |} fs)
        as (st' & new & Hrun & H1 & H2 & H3 & H4 & H5 & H6 & H7);
        [exact Hadd|exact Hmy| |exact Hkeys|].
      { intros x Hx. apply Hnext. right. exact Hx. }
      exists st', ((reflect.Offset sf, MergePrim reflect.Uintptr) :: new).
      split; [exact Hrun|].
      cbn [skipMyLevel skipNextLevel grouped offsetFs added] in *.
      repeat split; auto.
      * rewrite H3. cbn [length]. lia.
      * rewrite H5, <- app_assoc. reflexivity.
      * cbn [map fst]. rewrite <- Permutation_middle, H7.
        unfold field_ops. cbn [map]. rewrite Hk. apply Permutation_middle.
Qed.

(** Primitive merges at offsets of a struct that lies at an offset. *)
Lemma run_ops_shift (l r o : Z) (ops : list (reflect.Kind * Z)) (s : heap) :
  run_ops (fieldByOffset l o) (fieldByOffset r o) ops s
  = run_ops l r (map (fun op => (fst op, o + snd op)) ops) s.
Proof.
  unfold run_ops. rewrite for_each_map. apply for_each_ext.
  intros s0 op _. cbn [fst snd]. unfold fieldByOffset. rewrite !Z.add_assoc. reflexivity.
Qed.

Lemma run_ops_app (l r : Z) (ops1 ops2 : list (reflect.Kind * Z)) (s : heap) :
  run_ops l r (ops1 ++ ops2) s
  = match run_ops l r ops1 s with
    | Done s' => run_ops l r ops2 s'
    | o => o
    end.
Proof. unfold run_ops. apply for_each_app. Qed.

(** The closures of [uintptr] fields, run one after the other. *)
Lemma uintptr_entries_run (n : nat) (slots : structFs) (l r : Z) (new : list (Z * plan))
    (s : heap) :
  Forall (fun e => snd e = MergePrim reflect.Uintptr) new ->
  for_each (fun s0 e => exec (S n) slots (snd e) s0 (fieldByOffset l (fst e))
                          (fieldByOffset r (fst e))) new s
  = run_ops l r (map (fun e => (reflect.Uintptr, fst e)) new) s.
Proof.
  intros Hnew. unfold run_ops. rewrite for_each_map. apply for_each_ext.
  intros s0 e He. rewrite Forall_forall in Hnew. rewrite (Hnew e He). reflexivity.
Qed.

(** The closure of a struct one of whose fields is a struct of additive
    fields, the other fields being additive: one run of primitive merges. *)
Lemma exec_struct_nested (n : nat) (slots : structFs) (g gi : list (reflect.Kind * list Z))
    (new1 new3 offsi : list (Z * plan)) (o : Z) (s : heap) (l r : Z) :
  Forall (fun e => snd e = MergePrim reflect.Uintptr) new1 ->
  Forall (fun e => snd e = MergePrim reflect.Uintptr) new3 ->
  Forall (fun e => snd e = MergePrim reflect.Uintptr) offsi ->
  exec (S (S (S n))) slots (MergeStruct g (new1 ++ (o, MergeStruct gi offsi) :: new3)) s l r
  = run_ops l r
      (vector_ops g ++ map (fun e => (reflect.Uintptr, fst e)) new1
       ++ map (fun op => (fst op, o + snd op)) (struct_ops gi offsi)
       ++ map (fun e => (reflect.Uintptr, fst e)) new3) s.
Proof.
  intros H1 H3 Hi.
  change (exec (S (S (S n))) slots (MergeStruct g (new1 ++ (o, MergeStruct gi offsi) :: new3)) s l r)
    with (match
             for_each
               (fun s0 row =>
                  for_each
                    (fun s1 offset =>
                       merge_prim (fst row) s1 (fieldByOffset l offset) (fieldByOffset r offset))
                    (snd row) s0) g s
           with
           | Done s' =>
               for_each
                 (fun s0 e => exec (S (S n)) slots (snd e) s0 (fieldByOffset l (fst e))
                                (fieldByOffset r (fst e)))
                 (new1 ++ (o, MergeStruct gi offsi) :: new3) s'
           | o => o
           end).
  rewrite grouped_loops_run, run_ops_app.
  destruct (run_ops l r (vector_ops g) s) as [s1| | |]; try reflexivity.
  rewrite for_each_app, (uintptr_entries_run (S n) slots l r new1 s1 H1), run_ops_app.
  destruct (run_ops l r _ s1) as [s2| | |]; try reflexivity.
  cbn [for_each fst snd].
  rewrite (exec_struct_ops n slots gi offsi s2 _ _ Hi), run_ops_shift, run_ops_app.
  destruct (run_ops l r _ s2) as [s3| | |]; try reflexivity.
  apply (uintptr_entries_run (S n) slots l r new3 s3 H3).
Qed.

Lemma genStruct_fields_app (types : list reflect.decl)
    (g : list string -> reflect.rtype -> structFs -> option (generated * structFs))
    (pre rest : list reflect.StructField) :
  forall (st : fields_state) (fs : structFs),
    genStruct_fields types g (pre ++ rest) st fs
    = match genStruct_fields types g pre st fs with
      | Some (inr st1, fs1) => genStruct_fields types g rest st1 fs1
      | o => o
      end.
Proof.
  induction pre as [|x pre IH]; intros st fs; cbn [app genStruct_fields]; [reflexivity|].
  destruct (decide _); [apply IH|].
  destruct (is_grouped _); [apply IH|].
  destruct (g _ _ fs) as [[[err|[f|]] fs1]|]; try reflexivity; apply IH.
Qed.

Lemma field_ops_app (types : list reflect.decl) (xs ys : list reflect.StructField) :
  field_ops types (xs ++ ys) = field_ops types xs ++ field_ops types ys.
Proof. apply map_app. Qed.

(** With skips, [gen] hands a struct to [genStruct] without looking at
    the table of structs. *)
Lemma gen_struct_under_skips (fuel : nat) (types : list reflect.decl) (useMap : bool)
    (skips : list string) (t : reflect.rtype) (d : reflect.decl)
    (fields : list reflect.StructField) (fs : structFs) :
  reflect.resolve types t = reflect.SStruct d fields -> skips <> [] ->
  gen (S fuel) types useMap skips t fs
  = genStruct types (gen fuel types useMap) skips fields fs.
Proof.
  intros Hres Hne.
  change (gen (S fuel) types useMap skips t fs)
    with (gen_body types useMap (gen fuel types useMap) skips t fs).
  unfold gen_body, reflect.KindOf. rewrite Hres. cbn [may_hold_skips negb].
  rewrite andb_false_r. destruct skips; [congruence|]. reflexivity.
Qed.

(** [genStruct] on a struct of additive fields, one of whose fields is a
    struct of additive fields [ifields], with skips that name fields of that
    inner struct: the closure it returns is one run of primitive merges, over
    the outer fields and over the inner fields no skip names. *)
Lemma genStruct_nested (fuel : nat) (types : list reflect.decl) (useMap : bool)
    (pre post : list reflect.StructField) (inner : reflect.StructField)
    (di : reflect.decl) (ifields : list reflect.StructField) (iskips : list string)
    (fs : structFs) :
  reflect.resolve types (reflect.Type_ inner) = reflect.SStruct di ifields ->
  NoDup (map reflect.Name (pre ++ inner :: post)) ->
  NoDup (map reflect.Name ifields) ->
  has_separator (reflect.Name inner) = false -> reflect.Name inner <> EmptyString ->
  iskips <> [] ->
  Forall (fun x => has_separator x = false) iskips ->
  Forall (fun x => x ∈ map reflect.Name ifields) iskips ->
  Forall (fun sf => is_additive (reflect.KindOf types (reflect.Type_ sf)) = true)
    (pre ++ post) ->
  Forall (fun sf => reflect.Name sf ∉ iskips ->
                    is_additive (reflect.KindOf types (reflect.Type_ sf)) = true) ifields ->
  exists f ops,
    genStruct types (gen (S (S fuel)) types useMap)
      (map (fun x => (reflect.Name inner ++ ">" ++ x)%string) iskips)
      (pre ++ inner :: post) fs
    = Some (Built f, fs)
    /\ (forall n slots s l r,
          match f with
          | None => Done s
          | Some p => exec (S (S (S n))) slots p s l r
          end = run_ops l r ops s)
    /\ ops ≡ₚ field_ops types (pre ++ post)
              ++ map (fun op => (fst op, reflect.Offset inner + snd op))
                   (field_ops types (kept_fields (list_to_set iskips) ifields)).
Proof.
  intros Hres Hnd Hndi Hsep Hne Hsk Hsepi Hnames Hadd Haddi.
  apply Forall_app in Hadd as [Hpre Hpost].
  rewrite map_app in Hnd. cbn [map] in Hnd.
  apply NoDup_app in Hnd as (_ & Hdis & Hnd2). apply NoDup_cons in Hnd2 as [Hpost_name _].
  unfold genStruct. rewrite (parse_nested_skips _ iskips Hsep Hne Hsk). cbv beta iota.
  rewrite genStruct_fields_app.
  (* the fields before the inner struct *)
  match goal with
  | |- context [genStruct_fields _ _ pre ?st0 fs] =>
      destruct (additive_fields_run (S fuel) types useMap pre st0 fs Hpre eq_refl)
        as (st1 & new1 & Hrun1 & M1 & N1 & A1 & K1 & O1 & U1 & P1); [|reflexivity|]
  end.
  { intros sf Hsf. cbn [skipNextLevel]. apply lookup_singleton_ne.
    intros E. apply (Hdis (reflect.Name sf)); [apply list_elem_of_fmap; eauto|].
    rewrite <- E. left. }
  rewrite Hrun1. cbn [skipNextLevel grouped offsetFs added app] in N1, A1, O1, P1.
  change (vector_ops empty_vectors) with (@nil (reflect.Kind * Z)) in P1. cbn [app] in P1.
  (* the inner struct *)
  cbn [genStruct_fields].
  destruct (decide (reflect.Name inner ∈ skipMyLevel st1)) as [Hin|_];
    [rewrite M1 in Hin; set_solver|].
  assert (Hk : reflect.KindOf types (reflect.Type_ inner) = reflect.Struct)
    by (unfold reflect.KindOf; rewrite Hres; reflexivity).
  rewrite Hk. change (is_grouped reflect.Struct) with false. cbv iota.
  rewrite N1, lookup_singleton_eq. cbn [default]. change (id iskips) with iskips.
  rewrite (gen_struct_under_skips (S fuel) types useMap iskips _ di ifields fs Hres Hsk).
  destruct (genStruct_with_skips fuel types useMap iskips ifields fs Hsepi Hnames Hndi Haddi)
    as (fi & Hgi & Hnil & Hsome).
  rewrite Hgi, delete_singleton_eq.
  set (kept := kept_fields (list_to_set iskips) ifields) in *.
  destruct fi as [pi|].
  - (* the inner struct has a field to merge *)
    destruct Hsome as (gi & offsi & Epi & Ui & Pi).
    { intros E. specialize (Hnil E). discriminate. }
    injection Epi as ->.
    destruct (additive_fields_run (S fuel) types useMap post
                {| skipMyLevel := skipMyLevel st1; skipNextLevel := ∅;
                   grouped := grouped st1;
                   offsetFs := offsetFs st1 ++ [(reflect.Offset inner, MergeStruct gi offsi)];
                   added := added st1 + 1 |} fs Hpost M1)
      as (st3 & new3 & Hrun3 & M3 & N3 & A3 & K3 & O3 & U3 & P3);
      [intros; apply lookup_empty|exact K1|].
    rewrite Hrun3. cbn [skipNextLevel grouped offsetFs added] in N3, A3, O3, P3.
    rewrite M3, N3.
    change (size (∅ : gset string)) with 0%nat.
    change (size (∅ : gmap string (list string))) with 0%nat.
    cbn [Z.of_nat Z.ltb Z.compare].
    replace (added st3 =? 0) with false by (symmetry; apply Z.eqb_neq; lia).
    rewrite O3, O1, <- app_assoc. cbn [app].
    eexists _, _. split; [reflexivity|]. split.
    + intros n slots s l r. apply (exec_struct_nested n slots _ gi new1 new3 offsi); assumption.
    + rewrite field_ops_app, <- app_assoc.
      set (V3 := vector_ops (grouped st3)) in *.
      set (V1 := vector_ops (grouped st1)) in *.
      set (W1 := map (fun e : Z * plan => (reflect.Uintptr, fst e)) new1) in *.
      set (W3 := map (fun e : Z * plan => (reflect.Uintptr, fst e)) new3) in *.
      set (SI := map (fun op : reflect.Kind * Z => (fst op, reflect.Offset inner + snd op))
                   (struct_ops gi offsi)).
      transitivity ((V3 ++ W3) ++ W1 ++ SI).
      { rewrite <- app_assoc. apply Permutation_app_head.
        rewrite (app_assoc W1 SI W3). apply Permutation_app_comm. }
      rewrite P3.
      transitivity ((V1 ++ W1) ++ field_ops types post ++ SI).
      { rewrite <- !app_assoc. apply Permutation_app_head.
        rewrite (app_assoc (field_ops types post) W1 SI), (app_assoc W1 (field_ops types post) SI).
        apply Permutation_app_tail, Permutation_app_comm. }
      rewrite P1. apply Permutation_app_head, Permutation_app_head.
      apply Permutation_map. exact Pi.
  - (* every field of the inner struct is skipped *)
    assert (Ek : kept = []).
    { destruct kept eqn:E; [reflexivity|].
      destruct Hsome as (gi & offsi & Epi & _); [discriminate|discriminate]. }
    destruct (additive_fields_run (S fuel) types useMap post
                {| skipMyLevel := skipMyLevel st1; skipNextLevel := ∅;
                   grouped := grouped st1; offsetFs := offsetFs st1;
                   added := added st1 |} fs Hpost M1)
      as (st3 & new3 & Hrun3 & M3 & N3 & A3 & K3 & O3 & U3 & P3);
      [intros; apply lookup_empty|exact K1|].
    rewrite Hrun3. cbn [skipNextLevel grouped offsetFs added] in N3, A3, O3, P3.
    rewrite M3, N3.
    change (size (∅ : gset string)) with 0%nat.
    change (size (∅ : gmap string (list string))) with 0%nat.
    cbn [Z.of_nat Z.ltb Z.compare].
    rewrite Ek. cbn [field_ops map]. rewrite app_nil_r.
    assert (Hperm : vector_ops (grouped st3)
                    ++ map (fun e => (reflect.Uintptr, fst e)) (new1 ++ new3)
                    ≡ₚ field_ops types (pre ++ post)).
    { rewrite map_app, field_ops_app.
      rewrite (Permutation_app_comm (map _ new1)). rewrite app_assoc, P3.
      rewrite <- app_assoc, (Permutation_app_comm (field_ops types post)).
      rewrite app_assoc, P1. reflexivity. }
    destruct (added st3 =? 0) eqn:Ea.
    + apply Z.eqb_eq in Ea.
      assert (Hpre0 : pre = []) by (destruct pre; [reflexivity|cbn [length] in *; lia]).
      assert (Hpost0 : post = []) by (destruct post; [reflexivity|cbn [length] in *; lia]).
      subst pre post. exists None, []. split; [reflexivity|]. split; [reflexivity|].
      reflexivity.
    + rewrite O3, O1. cbn [app]. eexists _, _. split; [reflexivity|]. split.
      * intros n slots s l r.
        apply (exec_struct_ops (S n)). apply Forall_app. split; assumption.
      * unfold struct_ops. exact Hperm.
Qed.

Lemma nodup_kept_offsets {A : Type} (f : A -> Z) (p : A -> bool) (xs : list Z) (ys : list A) :
  NoDup (xs ++ map f ys) -> NoDup (xs ++ map f (List.filter p ys)).
Proof.
  intros H. apply NoDup_app in H as (H1 & H2 & H3).
  apply NoDup_app. split; [exact H1|].
  assert (Hsub : forall y, y ∈ map f (List.filter p ys) -> y ∈ map f ys).
  { intros y Hy. apply list_elem_of_fmap in Hy as (x & -> & Hx).
    apply list_elem_of_fmap. exists x. split; [reflexivity|].
    apply list_elem_of_In in Hx. apply filter_In in Hx as [Hx _].
    apply list_elem_of_In. exact Hx. }
  split; [intros x Hx Hy; exact (H2 x Hx (Hsub x Hy))|].
  clear -H3. induction ys as [|y ys IH]; [constructor|].
  cbn [map] in H3. apply NoDup_cons in H3 as [Hy H3]. cbn [List.filter].
  destruct (p y); [|exact (IH H3)].
  cbn [map]. apply NoDup_cons. split; [|exact (IH H3)].
  intros Hin. apply Hy. apply list_elem_of_fmap in Hin as (x & -> & Hx).
  apply list_elem_of_fmap. exists x. split; [reflexivity|].
  apply list_elem_of_In in Hx. apply filter_In in Hx as [Hx _].
  apply list_elem_of_In. exact Hx.
Qed.

(** Skips of the form [Field>name], where [Field] is a field of struct
    type held by value: the function [Gen] returns leaves the named fields
    of the inner struct of the left value as they are and puts the sums in
    every other field, of the outer and of the inner struct; the right value
    is not written.  All fields but [Field] and the skipped ones have
    additive kinds; field names and the places of the fields are distinct,
    and the two values share no cell. *)
Theorem nested_skips_keep_inner_fields (fuel n : nat) (types : list reflect.decl)
    (options : list option_func) (c : Config) (id : nat) (d di : reflect.decl)
    (pre post ifields : list reflect.StructField) (inner : reflect.StructField)
    (iskips : list string) (a b : Z) (s : heap) :
  let pa := {| typ := reflect.PtrTo (reflect.Defined id); data := a |} in
  let pb := {| typ := reflect.PtrTo (reflect.Defined id); data := b |} in
  let place := fun isf => reflect.Offset inner + reflect.Offset isf in
  let places := map reflect.Offset (pre ++ post) ++ map place ifields in
  apply_options options zero_config = inr c ->
  skips c = map (fun x => (reflect.Name inner ++ ">" ++ x)%string) iskips ->
  iskips <> [] ->
  types !! id = Some d -> reflect.Under d = reflect.StructOf (pre ++ inner :: post) ->
  reflect.resolve types (reflect.Type_ inner) = reflect.SStruct di ifields ->
  NoDup (map reflect.Name (pre ++ inner :: post)) ->
  NoDup (map reflect.Name ifields) ->
  has_separator (reflect.Name inner) = false -> reflect.Name inner <> EmptyString ->
  Forall (fun isf => has_separator (reflect.Name isf) = false) ifields ->
  Forall (fun x => x ∈ map reflect.Name ifields) iskips ->
  Forall (fun sf => is_additive (reflect.KindOf types (reflect.Type_ sf)) = true)
    (pre ++ post) ->
  Forall (fun isf => reflect.Name isf ∉ iskips ->
                     is_additive (reflect.KindOf types (reflect.Type_ isf)) = true) ifields ->
  a <> 0 ->
  NoDup places ->
  (forall o o', o ∈ places -> o' ∈ places -> a + o <> b + o') ->
  (forall sf, sf ∈ pre ++ post ->
     exists x y,
       cells s !! (a + reflect.Offset sf) = Some x
       /\ cells s !! (b + reflect.Offset sf) = Some y
       /\ cell_of_kind (reflect.KindOf types (reflect.Type_ sf)) x = true
       /\ cell_of_kind (reflect.KindOf types (reflect.Type_ sf)) y = true) ->
  (forall isf, isf ∈ ifields -> reflect.Name isf ∉ iskips ->
     exists x y,
       cells s !! (a + place isf) = Some x
       /\ cells s !! (b + place isf) = Some y
       /\ cell_of_kind (reflect.KindOf types (reflect.Type_ isf)) x = true
       /\ cell_of_kind (reflect.KindOf types (reflect.Type_ isf)) y = true) ->
  exists e s',
    Gen (S (S (S fuel))) types pa options = Some (inr e)
    /\ call (S (S (S n))) e s pa pb = Done s'
    /\ (forall sf, sf ∈ pre ++ post ->
          exists x y z,
            cells s !! (a + reflect.Offset sf) = Some x
            /\ cells s !! (b + reflect.Offset sf) = Some y
            /\ sum_cell (reflect.KindOf types (reflect.Type_ sf)) x y = Some z
            /\ cells s' !! (a + reflect.Offset sf) = Some z)
    /\ (forall isf, isf ∈ ifields -> reflect.Name isf ∉ iskips ->
          exists x y z,
            cells s !! (a + place isf) = Some x
            /\ cells s !! (b + place isf) = Some y
            /\ sum_cell (reflect.KindOf types (reflect.Type_ isf)) x y = Some z
            /\ cells s' !! (a + place isf) = Some z)
    /\ (forall isf, isf ∈ ifields -> reflect.Name isf ∈ iskips ->
          cells s' !! (a + place isf) = cells s !! (a + place isf))
    /\ (forall o, o ∈ places -> cells s' !! (b + o) = cells s !! (b + o)).
Proof.
  intros pa pb place places Hc Hskips Hne Hd Hu Hres Hnn Hnni Hsep Hname Hids Hnames
    Hadd Haddi Ha Hnd Hdis Hcells Hcellsi.
  assert (Hsepi : Forall (fun x => has_separator x = false) iskips).
  { apply Forall_forall. intros x Hx.
    pose proof (proj1 (Forall_forall _ _) Hnames x Hx) as Hin.
    apply list_elem_of_fmap in Hin as (sf & -> & Hsf).
    exact (proj1 (Forall_forall _ _) Hids sf Hsf). }
  destruct (genStruct_nested fuel types (unsafeMap c) pre post inner di ifields iskips ∅
              Hres Hnn Hnni Hsep Hname Hne Hsepi Hnames Hadd Haddi)
    as (f & ops & Hgen & Hexec & Hperm).
  assert (Hroot : reflect.resolve types (reflect.Defined id)
                  = reflect.SStruct d (pre ++ inner :: post))
    by (unfold reflect.resolve; rewrite Hd, Hu; reflexivity).
  assert (HG : Gen (S (S (S fuel))) types pa options
               = Some (inr {| root := reflect.PtrTo (reflect.Defined id);
                              merge := f; slots := ∅ |})).
  { unfold Gen. fold zero_config. rewrite Hc.
    cbn [typ data pa reflect.resolve reflect.shape_of_literal].
    replace (a =? 0) with false by (symmetry; apply Z.eqb_neq; exact Ha).
    assert (Hk : reflect.KindOf types (reflect.Defined id) = reflect.Struct)
      by (unfold reflect.KindOf; rewrite Hroot; reflexivity).
    rewrite Hk. destruct (decide (reflect.Struct = reflect.Ptr)); [discriminate|].
    rewrite (gen_struct_under_skips (S (S fuel)) types (unsafeMap c) (skips c) _ _ _ ∅ Hroot).
    - rewrite Hskips, Hgen. reflexivity.
    - rewrite Hskips. destruct iskips; [congruence|discriminate]. }
  set (e := {| root := reflect.PtrTo (reflect.Defined id); merge := f; slots := ∅ |}) in *.
  assert (Hcall : call (S (S (S n))) e s pa pb = run_ops a b ops s).
  { unfold call. rewrite (check_match (root e) pa pb eq_refl eq_refl).
    cbn [merge e slots data pa pb]. exact (Hexec n ∅ s a b). }
  exists e. rewrite Hcall. clear Hcall.
  set (kept := kept_fields (list_to_set iskips) ifields) in *.
  assert (Hkept : forall isf, isf ∈ kept <-> isf ∈ ifields /\ reflect.Name isf ∉ iskips).
  { intros isf. unfold kept. rewrite kept_fields_spec, elem_of_list_to_set. reflexivity. }
  assert (Hmem : forall op, op ∈ ops <->
            (exists sf, sf ∈ pre ++ post
                        /\ op = (reflect.KindOf types (reflect.Type_ sf), reflect.Offset sf))
            \/ (exists isf, isf ∈ kept
                            /\ op = (reflect.KindOf types (reflect.Type_ isf), place isf))).
  { intros op. rewrite Hperm, elem_of_app. unfold field_ops. rewrite map_map.
    rewrite !list_elem_of_fmap. cbn [fst snd].
    split; (intros [(x & H1 & H2)|(x & H1 & H2)]; [left|right]; exists x; auto). }
  assert (Hsnd : map snd ops ≡ₚ map reflect.Offset (pre ++ post) ++ map place kept).
  { rewrite Hperm, map_app. unfold field_ops. rewrite !map_map. reflexivity. }
  assert (Hsub : forall o, o ∈ map snd ops -> o ∈ places).
  { intros o Ho. rewrite Hsnd in Ho. unfold places.
    apply elem_of_app in Ho as [Ho|Ho]; apply elem_of_app; [left; exact Ho|right].
    apply list_elem_of_fmap in Ho as (isf & -> & Hisf).
    apply list_elem_of_fmap. exists isf. split; [reflexivity|]. apply Hkept. exact Hisf. }
  destruct (run_ops_spec a b ops s) as (s' & Hrun & Hframe & Hsum).
  { rewrite Hsnd. apply nodup_kept_offsets. exact Hnd. }
  { intros o o' Ho Ho'. apply Hdis; apply Hsub; assumption. }
  { intros op Hop. apply Hmem in Hop as [(sf & Hsf & ->)|(isf & Hisf & ->)]; cbn [fst snd].
    - split; [exact (proj1 (Forall_forall _ _) Hadd sf Hsf)|]. exact (Hcells sf Hsf).
    - apply Hkept in Hisf as [Hisf Hn].
      split; [exact (proj1 (Forall_forall _ _) Haddi isf Hisf Hn)|].
      exact (Hcellsi isf Hisf Hn). }
  exists s'. split; [exact HG|]. split; [exact Hrun|]. split; [|split; [|split]].
  - intros sf Hsf.
    destruct (Hsum (reflect.KindOf types (reflect.Type_ sf), reflect.Offset sf))
      as (x & y & z & H); [apply Hmem; left; eauto|].
    exists x, y, z. exact H.
  - intros isf Hisf Hn.
    destruct (Hsum (reflect.KindOf types (reflect.Type_ isf), place isf))
      as (x & y & z & H); [apply Hmem; right; exists isf; split; [apply Hkept; auto|reflexivity]|].
    exists x, y, z. exact H.
  - intros isf Hisf Hin. apply Hframe. intros o Ho E.
    assert (Eo : o = place isf) by lia. subst o. clear E.
    rewrite Hsnd in Ho. unfold places in Hnd.
    apply NoDup_app in Hnd as (_ & Hcross & Hinner).
    apply elem_of_app in Ho as [Ho|Ho].
    + apply (Hcross _ Ho). apply list_elem_of_fmap. eauto.
    + apply list_elem_of_fmap in Ho as (isf' & E & Hisf'). apply Hkept in Hisf' as [Hisf' Hn].
      assert (isf = isf') by (apply (nodup_map_injective place ifields); auto).
      subst isf'. contradiction.
  - intros o Ho. apply Hframe. intros o' Ho' E.
    apply (Hdis o' o); [apply Hsub; exact Ho'|exact Ho|lia].
Qed.

(** [Outer] with the skip [Foo>x]: (1, (2, 3), 4) merged with
    (10, (20, 30), 40) becomes (11, (2, 33), 44). *)
Lemma nested_skips_example :
  exists e s',
    Gen 3 nested_structs (Ex.ptr_to 1 4096) [SkipField "Foo>x"] = Some (inr e)
    /\ call 3 e nested_store (Ex.ptr_to 1 4096) (Ex.ptr_to 1 8192) = Done s'
    /\ cells s' !! 4096 = Some (CInt reflect.Int 11)
    /\ cells s' !! 4104 = Some (CInt reflect.Int 2)
    /\ cells s' !! 4112 = Some (CInt reflect.Int 33)
    /\ cells s' !! 4120 = Some (CInt reflect.Int 44)
    /\ cells s' !! 8200 = Some (CInt reflect.Int 20).
Proof.
  set (fx := Ex.field "x" 0 (reflect.Basic reflect.Int)).
  set (fy := Ex.field "y" 8 (reflect.Basic reflect.Int)).
  set (fn := Ex.field "n" 0 (reflect.Basic reflect.Int)).
  set (fm := Ex.field "m" 24 (reflect.Basic reflect.Int)).
  set (foo := Ex.field "Foo" 8 (reflect.Defined 0)).
  destruct (nested_skips_keep_inner_fields 0 0 nested_structs [SkipField "Foo>x"]
              {| skips := ["Foo>x"%string]; unsafeMap := false |} 1
              (Ex.struct "main" "Outer" 32 [fn; foo; fm])
              (Ex.struct "main" "Inner" 16 [fx; fy])
              [fn] [fm] [fx; fy] foo ["x"%string] 4096 8192 nested_store)
    as (e & s' & HG & HC & Houter & Hinner & Hskipped & Hright).
  - reflexivity.
  - reflexivity.
  - discriminate.
  - reflexivity.
  - reflexivity.
  - reflexivity.
  - apply (bool_decide_unpack _). vm_compute. reflexivity.
  - apply (bool_decide_unpack _). vm_compute. reflexivity.
  - reflexivity.
  - discriminate.
  - repeat constructor.
  - repeat constructor.
  - repeat constructor.
  - repeat constructor; intros _; reflexivity.
  - discriminate.
  - apply (bool_decide_unpack _). vm_compute. reflexivity.
  - intros o o' Ho Ho'. cbn in Ho, Ho'.
    repeat (apply elem_of_cons in Ho as [->|Ho]); try (inversion Ho; fail);
      repeat (apply elem_of_cons in Ho' as [->|Ho']); try (inversion Ho'; fail); lia.
  - intros sf Hsf. cbn [app] in Hsf.
    repeat (apply elem_of_cons in Hsf as [->|Hsf]); try (inversion Hsf; fail);
      eexists _, _; repeat split; reflexivity.
  - intros isf Hisf Hn.
    repeat (apply elem_of_cons in Hisf as [->|Hisf]); try (inversion Hisf; fail).
    + exfalso. apply Hn. left.
    + eexists _, _. repeat split; reflexivity.
  - exists e, s'. split; [exact HG|]. split; [exact HC|].
    split; [|split; [|split; [|split]]].
    + destruct (Houter fn ltac:(left)) as (x & y & z & Hx & Hy & Hz & Hv).
      vm_compute in Hx, Hy. injection Hx as <-. injection Hy as <-.
      vm_compute in Hz. injection Hz as <-. exact Hv.
    + etransitivity; [exact (Hskipped fx ltac:(left) ltac:(left))|reflexivity].
    + destruct (Hinner fy ltac:(right; left)) as (x & y & z & Hx & Hy & Hz & Hv).
      { intros H. apply elem_of_cons in H as [H|H]; [discriminate H|inversion H]. }
      vm_compute in Hx, Hy. injection Hx as <-. injection Hy as <-.
      vm_compute in Hz. injection Hz as <-. exact Hv.
    + destruct (Houter fm ltac:(right; left)) as (x & y & z & Hx & Hy & Hz & Hv).
      vm_compute in Hx, Hy. injection Hx as <-. injection Hy as <-.
      vm_compute in Hz. injection Hz as <-. exact Hv.
    + etransitivity; [exact (Hright 8 ltac:(cbn; right; right; left))|reflexivity].
Defined.
